(** * filesortr: a shallow embedding of [file_sorter.py]

    The development follows the layout of the Python module: strings and
    [pathlib] names, the configuration tables, the category resolver, the
    unique-name generator, a filesystem, the discovery pass, the two
    relocation passes, the reclamation of empty directories and
    [sort_files].

    Conventions.
    - A Python [str] is a [string]; [str.lower] is modelled on the ASCII
      letters (bytes above 127 are left alone).
    - A resolved [pathlib.Path] is the list of its components below the
      filesystem root, so [[]] is [/].  Semantics of [suffix] and [stem]
      are those of CPython 3.8 to 3.13.
    - The filesystem is a finite map from paths to entries.  There are no
      symbolic links and no permission bits: an operation fails only for
      structural reasons (missing source, occupied destination, a file
      where a directory is needed). *)

From Stdlib Require Import Ascii String DecimalString.
From stdpp Require Import base option list strings gmap fin_maps sorting.

Local Open Scope string_scope.
Local Open Scope nat_scope.
Local Open Scope list_scope.

(** ** Python strings *)

Module PyStr.

Definition dot : ascii := "."%char.
Definition slash : ascii := "/"%char.

(** [s.rfind('.')], with [None] for Python's [-1]. *)
Fixpoint rfind_dot (s : string) : option nat :=
  match s with
  | EmptyString => None
  | String c s' =>
      match rfind_dot s' with
      | Some i => Some (S i)
      | None => if decide (c = dot) then Some 0 else None
      end
  end.

(** [s[n:]] and [s[:n]]. *)
Fixpoint drop (n : nat) (s : string) : string :=
  match n, s with
  | 0, _ => s
  | S _, EmptyString => EmptyString
  | S n', String _ s' => drop n' s'
  end.

Fixpoint take (n : nat) (s : string) : string :=
  match n, s with
  | 0, _ => EmptyString
  | S _, EmptyString => EmptyString
  | S n', String c s' => String c (take n' s')
  end.

Definition lower_ascii (c : ascii) : ascii :=
  let n := nat_of_ascii c in
  if (65 <=? n) && (n <=? 90) then ascii_of_nat (n + 32) else c.

(** [s.lower()] *)
Fixpoint lower (s : string) : string :=
  match s with
  | EmptyString => EmptyString
  | String c s' => String (lower_ascii c) (lower s')
  end.

(** [s.lstrip('.')] *)
Fixpoint lstrip_dot (s : string) : string :=
  match s with
  | EmptyString => EmptyString
  | String c s' => if decide (c = dot) then lstrip_dot s' else s
  end.

(** [s.endswith(suffix)] *)
Definition endswith (s suffix : string) : bool :=
  bool_decide (drop (String.length s - String.length suffix) s = suffix)
  && bool_decide (String.length suffix ≤ String.length s).

(** [str(n)] for a non-negative [int]. *)
Definition of_nat (n : nat) : string := NilEmpty.string_of_uint (Nat.to_uint n).

Fixpoint has_slash (s : string) : bool :=
  match s with
  | EmptyString => false
  | String c s' => bool_decide (c = slash) || has_slash s'
  end.

(** [s.split('/')] *)
Fixpoint split_slash (s : string) : list string :=
  match s with
  | EmptyString => [EmptyString]
  | String c s' =>
      if decide (c = slash) then EmptyString :: split_slash s'
      else match split_slash s' with
           | [] => [String c EmptyString]
           | w :: ws => String c w :: ws
           end
  end.

End PyStr.

(** ** [pathlib] *)

Abbreviation path := (list string).

Module PyPath.

(** The components [pathlib] keeps when it parses a string: empty
    components and [.] are dropped ([..] is kept as it is). *)
Definition parse (s : string) : path :=
  filter (λ w, w ≠ "" ∧ w ≠ ".") (PyStr.split_slash s).

Definition is_absolute (s : string) : bool :=
  match s with
  | String c _ => bool_decide (c = PyStr.slash)
  | EmptyString => false
  end.

(** [p / s] for a string [s]: an absolute [s] replaces [p]. *)
Definition div (p : path) (s : string) : path :=
  if is_absolute s then parse s else p ++ parse s.

(** [p / s] for a name [s] taken from a listing or from [.name]: one
    component, and the empty name of the root joins nothing. *)
Definition join1 (p : path) (s : string) : path :=
  if decide (s = "") then p else p ++ [s].

(** [p.name]; the root has the empty name. *)
Definition name (p : path) : string := List.last p "".

(** [p.parent]; the root is its own parent. *)
Definition parent (p : path) : path := removelast p.

(** [p.parents], nearest first. *)
Fixpoint parents_rev (rp : path) : list path :=
  match rp with
  | [] => []
  | _ :: rp' => rev rp' :: parents_rev rp'
  end.
Definition parents (p : path) : list path := parents_rev (rev p).

(** [p.relative_to(base)]; [None] stands for the [ValueError]. *)
Fixpoint relative_to (p base : path) {struct base} : option path :=
  match base, p with
  | [], _ => Some p
  | b :: base', x :: p' => if decide (b = x) then relative_to p' base' else None
  | _ :: _, [] => None
  end.

(** [PurePath.suffix] of a name. *)
Definition suffix_of_name (nm : string) : string :=
  match PyStr.rfind_dot nm with
  | Some i =>
      if (0 <? i) && (i <? String.length nm - 1) then PyStr.drop i nm else ""
  | None => ""
  end.

(** [PurePath.stem] of a name. *)
Definition stem_of_name (nm : string) : string :=
  match PyStr.rfind_dot nm with
  | Some i =>
      if (0 <? i) && (i <? String.length nm - 1) then PyStr.take i nm else nm
  | None => nm
  end.

Definition suffix (p : path) : string := suffix_of_name (name p).
Definition stem (p : path) : string := stem_of_name (name p).

End PyPath.

(** ** Configuration

    The module-level tables of [file_sorter.py], gathered in a record
    that is passed to every operation. *)

Record Config := {
  FILE_CATEGORIES : gmap string string;
  DEFAULT_CATEGORY : string;
  PROJECT_FILE_MARKERS : list string;
  PROJECT_DIR_MARKERS : list string;
  SPECIAL_APP_DIRS_AS_FILES : list string
}.

(** The hard-coded fallbacks ([DEFAULT_FILE_CATEGORIES] and the like). *)
Definition default_config : Config := {|
  FILE_CATEGORIES := {[ "txt" := "Documents/Text" ]};
  DEFAULT_CATEGORY := "Miscellaneous/Other";
  PROJECT_FILE_MARKERS := [".git"];
  PROJECT_DIR_MARKERS := ["node_modules"];
  SPECIAL_APP_DIRS_AS_FILES := [".app"]
|}.

(** ** Category resolver *)

(** [Path(filename).suffix.lower().lstrip('.')] *)
Definition file_extension (filename : string) : string :=
  PyStr.lstrip_dot (PyStr.lower (PyPath.suffix (PyPath.parse filename))).

(** [get_category_for_file] *)
Definition get_category_for_file (cfg : Config) (filename : string) : string :=
  default (DEFAULT_CATEGORY cfg) (FILE_CATEGORIES cfg !! file_extension filename).

(** The resolver as the specification words it: the extension is what
    follows the last dot, case-folded, and is absent when there is no dot
    or nothing after it. *)
Definition spec_extension (filename : string) : option string :=
  match PyStr.rfind_dot filename with
  | None => None
  | Some i =>
      let e := PyStr.lower (PyStr.drop (S i) filename) in
      if decide (e = "") then None else Some e
  end.

Definition spec_category (cfg : Config) (filename : string) : string :=
  match spec_extension filename with
  | Some e => default (DEFAULT_CATEGORY cfg) (FILE_CATEGORIES cfg !! e)
  | None => DEFAULT_CATEGORY cfg
  end.

(** ** Unique-name generator *)

(** The bound of [generate_unique_filename]'s search. *)
Definition MAX_COLLISIONS : nat := 10000.

(** [parent / f"{stem} ({counter}){suffix}"] *)
Definition numbered (target : path) (counter : nat) : path :=
  PyPath.parent target
    ++ [PyPath.stem target +:+ " (" +:+ PyStr.of_nat counter +:+ ")"
        +:+ PyPath.suffix target].

Section UniqueName.
(** [Path.exists] on the current filesystem. *)
Variable occupied : path → bool.

(** The [while True] loop, entered with [counter].  [fuel] bounds the
    number of iterations; the loop leaves on its own through the
    [counter > 10000] test before the fuel is used up when it is started
    with [MAX_COLLISIONS] (see [unique_loop_exhausted]).  The second
    component tells whether the collision error was logged. *)
Fixpoint unique_loop (target : path) (fuel counter : nat) : path * bool :=
  match fuel with
  | 0 => (target, true)
  | S fuel' =>
      let new_path := numbered target counter in
      if negb (occupied new_path) then (new_path, false)
      else
        let counter := S counter in
        if MAX_COLLISIONS <? counter then (target, true)
        else unique_loop target fuel' counter
  end.

(** [generate_unique_filename] *)
Definition generate_unique_filename (target_file_path : path) : path * bool :=
  if negb (occupied target_file_path) then (target_file_path, false)
  else unique_loop target_file_path MAX_COLLISIONS 1.
End UniqueName.

(** ** Filesystem *)

Inductive entry :=
  | FileE (data : string)
  | DirE.

Global Instance entry_eq_dec : EqDecision entry.
Proof. solve_decision. Defined.

Abbreviation fs := (gmap path entry).

Module FS.

(** [Path.exists], [Path.is_dir] *)
Definition exists_ (m : fs) (p : path) : bool := bool_decide (is_Some (m !! p)).
Definition is_dir (m : fs) (p : path) : bool := bool_decide (m !! p = Some DirE).

(** The name under which [p] is an immediate child of [top]. *)
Definition child_name (top p : path) : option string :=
  match PyPath.relative_to p top with
  | Some [x] => Some x
  | _ => None
  end.

(** The immediate children of [top], with their entries, in the order
    of the map, which stands for the arbitrary order of the system. *)
Definition entries (m : fs) (top : path) : list (string * entry) :=
  omap (λ pe, (λ x, (x, pe.2)) <$> child_name top pe.1) (map_to_list m).

(** [os.listdir]; [None] stands for the [OSError]. *)
Definition listdir (m : fs) (top : path) : option (list string) :=
  if is_dir m top then Some ((entries m top).*1) else None.

(** What [os.walk] learns from [os.scandir]: the names of the
    subdirectories and of the other entries. *)
Definition scandir (m : fs) (top : path) : option (list string * list string) :=
  if is_dir m top then
    Some ((filter (λ ne, ne.2 = DirE) (entries m top)).*1,
          (filter (λ ne, ne.2 ≠ DirE) (entries m top)).*1)
  else None.

(** The entries below [src], keyed by their path relative to [src]. *)
Definition subtree (m : fs) (src : path) : fs :=
  list_to_map
    (omap (λ pe, (λ q, (q, pe.2)) <$> PyPath.relative_to pe.1 src) (map_to_list m)).

(** The tree at [src] re-rooted at [dst]. *)
Definition move_tree (m : fs) (src dst : path) : fs :=
  kmap (dst ++.) (subtree m src) ∪ filter (λ pe, ¬ src `prefix_of` pe.1) m.

(** [os.rename]; [None] stands for the [OSError].  A file replaces an
    existing file; a directory needs a free destination outside itself
    (an occupied destination is a file when the call comes from
    [shutil_move], which has dealt with the directories). *)
Definition os_rename (m : fs) (src dst : path) : option fs :=
  match m !! src with
  | None => None
  | Some e =>
      if decide (src = dst) then Some m
      else if negb (is_dir m (PyPath.parent dst)) then None
      else match e with
           | FileE d =>
               if is_dir m dst then None
               else Some (<[dst := FileE d]> (delete src m))
           | DirE =>
               if bool_decide (src `prefix_of` dst) then None
               else if exists_ m dst then None
               else Some (move_tree m src dst)
           end
  end.

(** [shutil.move] on one device; [None] stands for [OSError] or
    [shutil.Error].  An existing directory as destination receives the
    source under its own name.  (With a missing destination parent the
    library would copy a directory tree; the callers below always create
    the parent first.) *)
Definition shutil_move (m : fs) (src dst : path) : option fs :=
  if is_dir m dst then
    if decide (src = dst) then Some m
    else
      let real_dst := PyPath.join1 dst (PyPath.name src) in
      if exists_ m real_dst then None else os_rename m src real_dst
  else os_rename m src dst.

(** [Path.mkdir(parents=True, exist_ok=True)], on the reversed path. *)
Fixpoint mkdir_rev (m : fs) (rp : path) : option fs :=
  match m !! rev rp with
  | Some DirE => Some m
  | Some (FileE _) => None
  | None =>
      match rp with
      | [] => None
      | _ :: rp' =>
          match mkdir_rev m rp' with
          | Some m' => Some (<[rev rp := DirE]> m')
          | None => None
          end
      end
  end.
Definition mkdir_parents (m : fs) (p : path) : option fs := mkdir_rev m (rev p).

(** [any(p.iterdir())] is false. *)
Definition is_empty_dir (m : fs) (p : path) : bool :=
  is_dir m p && bool_decide (entries m p = []).

(** [Path.rmdir] of an empty directory. *)
Definition rmdir (m : fs) (p : path) : fs := delete p m.

End FS.

(** ** The state of a run *)

(** The lines the program logs that record a decision or a failure. *)
Inductive event :=
  | LogValidationFailed
  | LogPhase (n : nat)
  | LogProject (source target : path)
  | LogProjectFailed (source : path)
  | LogFile (source target : path)
  | LogCollisions (target : path)
  | LogFileFailed (source : path)
  | LogDeleted (dir : path)
  | LogUnexpected
  | LogCompleted.

Global Instance event_eq_dec : EqDecision event.
Proof. solve_decision. Defined.

(** [SortingProgress].  The fields [total_items] and [start_time] only
    feed the periodic progress lines and are left out. *)
Record SortingProgress := mkProgress {
  processed_items : nat;
  projects_moved : nat;
  files_moved : nat;
  errors : nat
}.

(** The filesystem, the log, the counters and the two sets
    [processed_projects] and [directories_to_check] of [sort_files].  A
    Python set is kept as the list of its elements in insertion order. *)
Record run_state := mkState {
  rs_fs : fs;
  rs_log : list event;
  rs_progress : SortingProgress;
  processed_projects : list path;
  directories_to_check : list path
}.

Definition set_fs (m : fs) (st : run_state) : run_state :=
  mkState m (rs_log st) (rs_progress st) (processed_projects st) (directories_to_check st).
Definition log (e : event) (st : run_state) : run_state :=
  mkState (rs_fs st) (rs_log st ++ [e]) (rs_progress st) (processed_projects st)
    (directories_to_check st).
Definition set_progress (pr : SortingProgress) (st : run_state) : run_state :=
  mkState (rs_fs st) (rs_log st) pr (processed_projects st) (directories_to_check st).

(** [s.add(p)] *)
Definition set_add (p : path) (s : list path) : list path :=
  if decide (p ∈ s) then s else s ++ [p].

Definition add_processed (p : path) (st : run_state) : run_state :=
  mkState (rs_fs st) (rs_log st) (rs_progress st) (set_add p (processed_projects st))
    (directories_to_check st).
Definition add_directory (p : path) (st : run_state) : run_state :=
  mkState (rs_fs st) (rs_log st) (rs_progress st) (processed_projects st)
    (set_add p (directories_to_check st)).

(** ** Path validation *)

Inductive exn :=
  | FileNotFoundError
  | NotADirectoryError
  | PermissionError
  | ValueError (msg : string).

(** The [try] block that closes [validate_input_paths]: both
    [relative_to] (when the output is not below the input) and the
    explicit [raise] (when it is) produce a [ValueError], and the handler
    [except ValueError: pass] receives either. *)
Definition check_output_not_inside (input_dir output_dir : path) : exn + unit :=
  let body : exn + unit :=
    match PyPath.relative_to output_dir input_dir with
    | None => inl (ValueError "is not in the subpath of")
    | Some _ => inl (ValueError "Output directory cannot be inside input directory")
    end in
  match body with
  | inl (ValueError _) => inr tt
  | other => other
  end.

(** [validate_input_paths], on resolved paths. *)
Definition validate_input_paths (m : fs) (input_dir : path)
    (output_dir_str : option path) : exn + (path * path) :=
  if negb (FS.exists_ m input_dir) then inl FileNotFoundError
  else if negb (FS.is_dir m input_dir) then inl NotADirectoryError
  else
    let output_dir :=
      match output_dir_str with
      | Some o => o
      | None => PyPath.parent input_dir ++ [PyPath.name input_dir +:+ "_Sorted"]
      end in
    if decide (input_dir = output_dir)
    then inl (ValueError "Input and output directories cannot be the same")
    else
      match check_output_not_inside input_dir output_dir with
      | inl e => inl e
      | inr _ => inr (input_dir, output_dir)
      end.

(** ** Marker-based classifier *)

(** [is_project_or_app_folder] *)
Definition is_project_or_app_folder (cfg : Config) (dir_path : path)
    (dir_contents : list string) : bool :=
  let dir_name := PyPath.name dir_path in
  if existsb (λ suffix, PyStr.endswith dir_name suffix) (SPECIAL_APP_DIRS_AS_FILES cfg)
  then true
  else existsb (λ item_name,
         bool_decide (item_name ∈ PROJECT_FILE_MARKERS cfg)
         || bool_decide (item_name ∈ PROJECT_DIR_MARKERS cfg)) dir_contents.

(** [cache_directory_contents] *)
Definition cache_directory_contents (m : fs) (directory : path) : option (list string) :=
  FS.listdir m directory.

(** The guard [contents and is_project_or_app_folder(path, contents)]:
    [None] and the empty list are both false in Python. *)
Definition listed_as_project (cfg : Config) (m : fs) (p : path) : bool :=
  match cache_directory_contents m p with
  | Some (x :: l) => is_project_or_app_folder cfg p (x :: l)
  | Some [] => false
  | None => false
  end.

(** ** [os.walk], top-down *)

Section Walk.
Context {St : Type}.
(** The filesystem the walk reads, and the body of the [for] loop: it
    receives [root], [dirs], [files] and returns the new state with the
    list [dirs] as the body left it. *)
Variable fs_of : St → fs.
Variable body : path → list string → list string → St → St * list string.

Fixpoint walk_dirs (rec : path → St → option St) (top : path)
    (dirs : list string) (st : St) : option St :=
  match dirs with
  | [] => Some st
  | d :: ds =>
      match rec (top ++ [d]) st with
      | Some st' => walk_dirs rec top ds st'
      | None => None
      end
  end.

(** [fuel] bounds the depth of the recursion; [None] means it ran out.
    A path that cannot be scanned is skipped silently. *)
Fixpoint os_walk (fuel : nat) (top : path) (st : St) : option St :=
  match FS.scandir (fs_of st) top with
  | None => Some st
  | Some (dirs, files) =>
      match fuel with
      | 0 => None
      | S fuel' =>
          let '(st', dirs') := body top dirs files st in
          walk_dirs (os_walk fuel') top dirs' st'
      end
  end.
End Walk.

(** ** Project discovery *)

Definition APPS : string := "Applications_And_Projects".

(** [any(processed == p or processed in p.parents for processed in s)] *)
Definition under_processed (s : list path) (p : path) : bool :=
  existsb (λ processed,
    bool_decide (processed = p) || bool_decide (processed ∈ PyPath.parents p)) s.

(** [dirs.remove(x)] guarded by [x in dirs] *)
Fixpoint remove_first (x : string) (dirs : list string) : list string :=
  match dirs with
  | [] => []
  | d :: ds => if decide (d = x) then ds else d :: remove_first x ds
  end.

(** One turn of the loop over [dirs]: the state is the list of
    relocations and [dirs_to_remove]. *)
Definition check_subdir (cfg : Config) (m : fs) (processed : list path)
    (current_root_path : path)
    (acc : list (path * path) * list string) (dir_name : string)
    : list (path * path) * list string :=
  let sub_dir_path := current_root_path ++ [dir_name] in
  if under_processed processed sub_dir_path then (acc.1, acc.2 ++ [dir_name])
  else if listed_as_project cfg m sub_dir_path then
    (acc.1 ++ [(sub_dir_path, current_root_path ++ [APPS; dir_name])],
     acc.2 ++ [dir_name])
  else acc.

(** The body of the walk of [identify_projects]. *)
Definition identify_body (cfg : Config) (m : fs) (processed : list path)
    (current_root_path : path) (dirs files : list string)
    (projects_to_move : list (path * path)) : list (path * path) * list string :=
  if under_processed processed current_root_path then (projects_to_move, [])
  else if listed_as_project cfg m current_root_path then
    (projects_to_move ++
       [(current_root_path,
         PyPath.join1 (PyPath.parent current_root_path ++ [APPS])
           (PyPath.name current_root_path))],
     [])
  else
    let '(projects_to_move, dirs_to_remove) :=
      fold_left (check_subdir cfg m processed current_root_path) dirs
        (projects_to_move, []) in
    (projects_to_move, fold_left (λ ds x, remove_first x ds) dirs_to_remove dirs).

(** [identify_projects]; the filesystem is only read. *)
Definition identify_projects (cfg : Config) (m : fs) (fuel : nat)
    (input_dir : path) (processed : list path) : option (list (path * path)) :=
  os_walk (λ _, m) (identify_body cfg m processed) fuel input_dir [].

(** ** Moving *)

(** [move_project].  The outer [inl] is the [ValueError] that
    [relative_to] raises outside the [try]; the boolean is the result. *)
Definition move_project (source destination output_dir : path) (dry_run : bool)
    (st : run_state) : exn + (run_state * bool) :=
  match PyPath.relative_to destination (PyPath.parent source) with
  | None => inl (ValueError "is not in the subpath of")
  | Some rel =>
      let target_project_dir := output_dir ++ rel in
      let st := log (LogProject source target_project_dir) st in
      if dry_run then inr (st, true)
      else
        match FS.mkdir_parents (rs_fs st) (PyPath.parent target_project_dir) with
        | None => inr (log (LogProjectFailed source) st, false)
        | Some m1 =>
            match FS.shutil_move m1 source target_project_dir with
            | None => inr (log (LogProjectFailed source) (set_fs m1 st), false)
            | Some m2 => inr (set_fs m2 st, true)
            end
        end
  end.

(** [categorize_and_move_file] *)
Definition categorize_and_move_file (cfg : Config) (file_path output_dir : path)
    (dry_run : bool) (st : run_state) : run_state * bool :=
  let category_path_str := get_category_for_file cfg (PyPath.name file_path) in
  let target_file_dir := PyPath.div output_dir category_path_str in
  let '(target_file_path, overflow) :=
    generate_unique_filename (FS.exists_ (rs_fs st))
      (PyPath.join1 target_file_dir (PyPath.name file_path)) in
  let st := if overflow
            then log (LogCollisions (PyPath.join1 target_file_dir (PyPath.name file_path))) st
            else st in
  let st := log (LogFile file_path target_file_path) st in
  if dry_run then (st, true)
  else
    match FS.mkdir_parents (rs_fs st) target_file_dir with
    | None => (log (LogFileFailed file_path) st, false)
    | Some m1 =>
        match FS.shutil_move m1 file_path target_file_path with
        | None => (log (LogFileFailed file_path) (set_fs m1 st), false)
        | Some m2 => (set_fs m2 st, true)
        end
    end.

(** ** Empty-directory reclamation *)

(** [sorted(directories_to_check, key=lambda p: len(p.parts), reverse=True)]:
    a stable sort by decreasing number of components. *)
Fixpoint insert_by_depth (p : path) (l : list path) : list path :=
  match l with
  | [] => [p]
  | q :: l' =>
      if length q <=? length p then p :: q :: l'
      else q :: insert_by_depth p l'
  end.
Definition sorted_by_depth (l : list path) : list path := foldr insert_by_depth [] l.

(** The order of that list: [a] may come before [b]. *)
Definition deeper_first (a b : path) : Prop := length b ≤ length a.

(** One turn of the loop of [cleanup_empty_directories]: the filesystem,
    the log and [deleted_count]. *)
Definition cleanup_step (input_dir : path) (acc : fs * list event * nat)
    (dir_path : path) : fs * list event * nat :=
  let '(m, lg, deleted_count) := acc in
  if decide (dir_path = input_dir) then acc
  else if FS.exists_ m dir_path && FS.is_dir m dir_path then
    if FS.is_empty_dir m dir_path
    then (FS.rmdir m dir_path, lg ++ [LogDeleted dir_path], S deleted_count)
    else acc
  else acc.

(** [cleanup_empty_directories] *)
Definition cleanup_empty_directories (input_dir : path)
    (directories_to_check : list path) (dry_run : bool) (m : fs)
    : fs * list event * nat :=
  if dry_run then (m, [], 0)
  else fold_left (cleanup_step input_dir) (sorted_by_depth directories_to_check) (m, [], 0).

(** ** [sort_files] *)

Definition count_project (ok : bool) (pr : SortingProgress) : SortingProgress :=
  if ok
  then mkProgress (S (processed_items pr)) (S (projects_moved pr)) (files_moved pr) (errors pr)
  else mkProgress (S (processed_items pr)) (projects_moved pr) (files_moved pr) (S (errors pr)).

Definition count_file (ok : bool) (pr : SortingProgress) : SortingProgress :=
  if ok
  then mkProgress (S (processed_items pr)) (projects_moved pr) (S (files_moved pr)) (errors pr)
  else mkProgress (S (processed_items pr)) (projects_moved pr) (files_moved pr) (S (errors pr)).

(** One turn of the loop of phase 1. *)
Definition project_step (output_dir : path) (dry_run : bool) (st : run_state)
    (project : path * path) : exn + run_state :=
  match move_project project.1 project.2 output_dir dry_run st with
  | inl e => inl e
  | inr (st, ok) =>
      let st := if ok then add_processed project.1 st else st in
      inr (set_progress (count_project ok (rs_progress st)) st)
  end.

(** Phase 1: the loop over [projects_to_move].  An exception leaves the
    loop with the state reached so far. *)
Fixpoint move_projects (output_dir : path) (dry_run : bool)
    (projects_to_move : list (path * path)) (st : run_state)
    : exn * run_state + run_state :=
  match projects_to_move with
  | [] => inr st
  | project :: rest =>
      match project_step output_dir dry_run st project with
      | inl e => inl (e, st)
      | inr st => move_projects output_dir dry_run rest st
      end
  end.

(** One turn of the loop over [files] of phase 2. *)
Definition file_step (cfg : Config) (output_dir : path) (dry_run : bool)
    (current_root_path : path) (st : run_state) (filename : string) : run_state :=
  let file_path := current_root_path ++ [filename] in
  if existsb (λ processed, bool_decide (processed ∈ PyPath.parents file_path))
       (processed_projects st)
  then st
  else
    let '(st, ok) := categorize_and_move_file cfg file_path output_dir dry_run st in
    set_progress (count_file ok (rs_progress st)) st.

(** The body of the walk of phase 2. *)
Definition relocate_body (cfg : Config) (output_dir : path)
    (dry_run delete_empty_dirs : bool)
    (current_root_path : path) (dirs files : list string) (st : run_state)
    : run_state * list string :=
  if under_processed (processed_projects st) current_root_path then (st, [])
  else
    let st := if delete_empty_dirs then add_directory current_root_path st else st in
    (fold_left (file_step cfg output_dir dry_run current_root_path) files st, dirs).

(** Phase 2: the walk that relocates the loose files. *)
Definition relocate_files (cfg : Config) (fuel : nat) (input_dir output_dir : path)
    (dry_run delete_empty_dirs : bool) (st : run_state) : option run_state :=
  os_walk rs_fs (relocate_body cfg output_dir dry_run delete_empty_dirs) fuel input_dir st.

(** Phase 3 and the closing report. *)
Definition finish (input_dir : path) (dry_run delete_empty_dirs : bool)
    (st : run_state) : run_state :=
  let st :=
    if delete_empty_dirs then
      let st := log (LogPhase 3) st in
      let '(m, lg, _) :=
        cleanup_empty_directories input_dir (directories_to_check st) dry_run (rs_fs st) in
      mkState m (rs_log st ++ lg) (rs_progress st) (processed_projects st)
        (directories_to_check st)
    else st in
  log LogCompleted st.

Definition initial_state (m : fs) : run_state :=
  mkState m [] (mkProgress 0 0 0 0) [] [].

(** [sort_files]: the returned boolean and the state the run ends in.
    [None] means that one of the two walks ran out of [fuel].  The
    handler [except Exception] of the main [try] receives what
    [move_project] raises outside its own [try]. *)
Definition sort_files (cfg : Config) (fuel : nat) (m : fs) (input_dir_str : path)
    (output_dir_str : option path) (dry_run delete_empty_dirs : bool)
    : option (bool * run_state) :=
  match validate_input_paths m input_dir_str output_dir_str with
  | inl _ => Some (false, log LogValidationFailed (initial_state m))
  | inr (input_dir, output_dir) =>
      let st := log (LogPhase 1) (initial_state m) in
      match identify_projects cfg (rs_fs st) fuel input_dir (processed_projects st) with
      | None => None
      | Some projects_to_move =>
          match move_projects output_dir dry_run projects_to_move st with
          | inl (_, st) => Some (false, log LogUnexpected st)
          | inr st =>
              let st := log (LogPhase 2) st in
              match relocate_files cfg fuel input_dir output_dir dry_run delete_empty_dirs st with
              | None => None
              | Some st =>
                  let st := finish input_dir dry_run delete_empty_dirs st in
                  Some (bool_decide (errors (rs_progress st) = 0), st)
              end
          end
      end
  end.

(** ** The claimed-project set *)

(** No two paths of the list are equal, or ancestor and descendant. *)
Definition antichain (l : list path) : Prop :=
  NoDup l ∧ ∀ a b, a ∈ l → b ∈ l → a `prefix_of` b → a = b.

(** The relocation recorded for the child [d] of [top]. *)
Definition child_move (top : path) (d : string) : path * path :=
  (top ++ [d], top ++ [APPS; d]).

(** Every recorded source lies at or below [top]. *)
Definition under (top : path) (new : list (path * path)) : Prop :=
  ∀ s, s ∈ new.*1 → top `prefix_of` s.

(** The destination recorded with a source is
    [parent / "Applications_And_Projects" / name]. *)
Definition well_targeted (new : list (path * path)) : Prop :=
  Forall (λ sd, sd.2 = PyPath.join1 (PyPath.parent sd.1 ++ [APPS]) (PyPath.name sd.1)
                ∨ ∃ top d, sd = child_move top d) new.

(** ** Reading a log *)

Definition file_decisions (lg : list event) : list (path * path) :=
  omap (λ e, match e with LogFile s t => Some (s, t) | _ => None end) lg.
Definition project_decisions (lg : list event) : list (path * path) :=
  omap (λ e, match e with LogProject s t => Some (s, t) | _ => None end) lg.
Definition is_failure (e : event) : bool :=
  match e with
  | LogProjectFailed _ | LogFileFailed _ => true
  | _ => false
  end.
Definition failures (lg : list event) : nat := length (List.filter is_failure lg).

(** The events [categorize_and_move_file] logs for a result. *)
Definition file_events (requested target file_path : path) (overflow ok : bool)
    : list event :=
  (if overflow then [LogCollisions requested] else [])
  ++ LogFile file_path target :: (if ok then [] else [LogFileFailed file_path]).

(** The events [move_project] logs for a result. *)
Definition project_events (source target : path) (ok : bool) : list event :=
  LogProject source target :: (if ok then [] else [LogProjectFailed source]).

(** [p] is a regular file of [m]. *)
Definition is_file (m : fs) (p : path) : Prop := ∃ d, m !! p = Some (FileE d).

(** ** Destinations *)

(** The path [categorize_and_move_file] asks the unique-name generator
    for: [output_dir / category / file_path.name]. *)
Definition requested_target (cfg : Config) (output_dir file_path : path) : path :=
  PyPath.join1 (PyPath.div output_dir (get_category_for_file cfg (PyPath.name file_path)))
    (PyPath.name file_path).

(** The destination of a file as it is decided against the tree [m]. *)
Definition decided_target (cfg : Config) (m : fs) (output_dir file_path : path) : path :=
  (generate_unique_filename (FS.exists_ m) (requested_target cfg output_dir file_path)).1.

(** [output_dir / "Applications_And_Projects" / source.name] *)
Definition project_target (output_dir source : path) : path :=
  PyPath.join1 (output_dir ++ [APPS]) (PyPath.name source).

(** The decisions phase 1 logs for the relocations [ps]. *)
Definition recorded_targets (output_dir : path) (ps : list (path * path))
    : list (path * path) :=
  omap (λ pr, (λ rel, (pr.1, output_dir ++ rel))
                <$> PyPath.relative_to pr.2 (PyPath.parent pr.1)) ps.

(** A bound on the number of components of a category directory. *)
Definition category_depth (cfg : Config) (output_dir : path) : nat :=
  max (length (PyPath.div output_dir (DEFAULT_CATEGORY cfg)))
      (max_list ((λ kv, length (PyPath.div output_dir kv.2))
                   <$> map_to_list (FILE_CATEGORIES cfg))).

(** Every directory of [m] has at most [D] components. *)
Definition dirs_le (D : nat) (m : fs) : Prop :=
  ∀ p, m !! p = Some DirE → length p ≤ D.

(** The counters agree with the log. *)
Definition counted (st : run_state) : Prop :=
  errors (rs_progress st) = failures (rs_log st) ∧
  processed_items (rs_progress st)
    = projects_moved (rs_progress st) + files_moved (rs_progress st)
      + errors (rs_progress st).

(** ** Building a filesystem *)

(** A tree written as the list of its paths; every ancestor of a listed
    path is a directory. *)
Definition touch (p : path) (data : string) (m : fs) : fs :=
  <[p := FileE data]> (default m (FS.mkdir_parents m (PyPath.parent p))).
Definition mkdir (p : path) (m : fs) : fs := default m (FS.mkdir_parents m p).
Definition root_only : fs := {[ [] := DirE ]}.

(** What a finished run is asked about: the returned boolean, the log,
    the error counter, [processed_projects] and the entry at a path. *)
Definition returned (r : option (bool * run_state)) : option bool := fst <$> r.
Definition logged (r : option (bool * run_state)) : option (list event) :=
  (λ x, rs_log x.2) <$> r.
Definition error_count (r : option (bool * run_state)) : option nat :=
  (λ x, errors (rs_progress x.2)) <$> r.
Definition claimed (r : option (bool * run_state)) : option (list path) :=
  (λ x, processed_projects x.2) <$> r.
Definition entry_at (p : path) (r : option (bool * run_state)) : option (option entry) :=
  (λ x, rs_fs x.2 !! p) <$> r.

(** Every filesystem is finite, so the depth of its directories is
    bounded. *)
Definition depth_bound (m : fs) : nat := max_list (length <$> (map_to_list m).*1).

(** ** Trees used below *)

(** The tree of [test_generate_unique_filename_with_collision]. *)
Definition collision_tree : fs :=
  touch ["output"; "test (1).txt"] "" (touch ["output"; "test.txt"] "" root_only).

(** The tree of [test_validate_input_paths_output_inside_input], with one
    file to sort. *)
Definition nested_tree : fs := touch ["input"; "report.txt"] "r" root_only.

(** An application bundle without and with contents. *)
Definition empty_bundle_tree : fs := mkdir ["in"; "Foo.app"] root_only.
Definition full_bundle_tree : fs := mkdir ["in"; "Foo.app"; "Contents"] root_only.

(** A project [proj] whose destination is taken: an earlier run left
    [Applications_And_Projects/proj/proj] in the output. *)
Definition stuck_project_tree : fs :=
  touch ["in"; "proj"; "main.py"] "m"
    (mkdir ["in"; "proj"; ".git"]
       (mkdir ["out"; "Applications_And_Projects"; "proj"; "proj"] root_only)).

(** The tree of [test_sort_files_filename_collisions]. *)
Definition same_name_tree : fs :=
  touch ["input"; "folder"; "file.txt"] "content2"
    (touch ["input"; "file.txt"] "content1" (mkdir ["output"] root_only)).

(** A project with a project inside it, and an application bundle. *)
Definition nested_projects_tree : fs :=
  mkdir ["in"; "tools"; "Viewer.app"; "Contents"]
    (mkdir ["in"; "outer"; "src"; "inner"; ".git"]
       (mkdir ["in"; "outer"; ".git"] root_only)).

(** What a run leaves of the tree of [test_sort_files_delete_empty_dirs]
    before phase 3, with one directory that kept a file. *)
Definition emptied_tree : fs :=
  touch ["input"; "kept"; "locked.dat"] "x"
    (mkdir ["input"; "nested"; "deep"] (mkdir ["input"; "empty_folder"] root_only)).
Definition emptied_candidates : list path :=
  [["input"]; ["input"; "empty_folder"]; ["input"; "nested"];
   ["input"; "nested"; "deep"]; ["input"; "kept"]; ["input"; "gone"]].

(** A project at the input root, with a free destination and with a
    destination that an earlier run has taken. *)
Definition root_project_tree : fs :=
  touch ["in"; "main.py"] "m" (mkdir ["in"; ".git"] (mkdir ["out"] root_only)).
Definition stuck_root_tree : fs :=
  touch ["in"; "main.py"] "m"
    (mkdir ["in"; ".git"]
       (mkdir ["out"; "Applications_And_Projects"; "in"; "in"] root_only)).

(** ** The test suite

    The configuration and the trees of [test_file_sorter.py]. *)

Definition test_config : Config := {|
  FILE_CATEGORIES :=
    list_to_map [("txt", "Documents/Text"); ("jpg", "Images/Photos");
                 ("png", "Images/Photos"); ("py", "SourceCode/Python");
                 ("js", "SourceCode/JavaScript"); ("exe", "Applications/Executables");
                 ("zip", "Archives"); ("pdf", "Documents/PDFs");
                 ("mp3", "Audio/Music"); ("mp4", "Video/Common")];
  DEFAULT_CATEGORY := "Miscellaneous/Other";
  PROJECT_FILE_MARKERS := [".git"; "package.json"; "pom.xml"; "requirements.txt"];
  PROJECT_DIR_MARKERS := ["node_modules"; ".idea"; "venv"; "__pycache__"];
  SPECIAL_APP_DIRS_AS_FILES := [".app"]
|}.

(** [setUp]: [temp_dir/input] and [temp_dir/output] exist. *)
Definition test_dirs : fs := mkdir ["tmp"; "output"] (mkdir ["tmp"; "input"] root_only).
Definition test_input : path := ["tmp"; "input"].
Definition test_output : path := ["tmp"; "output"].

Definition basic_operation_tree : fs :=
  touch (test_input ++ ["regular_folder"; "nested.pdf"]) ""
    (touch (test_input ++ ["project"; "main.py"]) "print('hello')"
       (mkdir (test_input ++ ["project"; ".git"])
          (touch (test_input ++ ["unknown.xyz"]) ""
             (touch (test_input ++ ["photo.jpg"]) ""
                (touch (test_input ++ ["document.txt"]) "Test content" test_dirs))))).

Definition dry_run_tree : fs :=
  mkdir (test_input ++ ["project"; ".git"])
    (touch (test_input ++ ["test.txt"]) "content" test_dirs).

Definition delete_empty_dirs_tree : fs :=
  touch (test_input ++ ["nested"; "deep"; "file.txt"]) "content"
    (mkdir (test_input ++ ["empty_folder"])
       (touch (test_input ++ ["file.txt"]) "content" test_dirs)).

Definition nested_project_tree : fs :=
  touch (test_input ++ ["outer_project"; "src"; "inner_project"; "index.js"]) "js"
    (touch (test_input ++ ["outer_project"; "src"; "inner_project"; "package.json"]) "{}"
       (mkdir (test_input ++ ["outer_project"; ".git"]) test_dirs)).


(** * Further definitions *)

From Stdlib Require Import DecimalNat.

(** ** Outermost projects *)

(** What the discovery pass records below [input_dir]: the directories
    that are listed as projects and are reached from [input_dir] through
    directories that are neither claimed already nor projects
    themselves. *)
Definition outermost_project (cfg : Config) (m : fs) (processed : list path)
    (input_dir s : path) : Prop :=
  input_dir `prefix_of` s ∧
  (∀ q, input_dir `prefix_of` q → q `prefix_of` s →
        m !! q = Some DirE ∧ under_processed processed q = false) ∧
  listed_as_project cfg m s = true ∧
  (∀ q, input_dir `prefix_of` q → q `prefix_of` s → q ≠ s →
        listed_as_project cfg m q = false).

(** ** Comparing two trees *)

(** [m'] is [m] with directories added and nothing else changed. *)
Definition only_directories_added (m m' : fs) : Prop :=
  m ⊆ m' ∧ ∀ q e, m' !! q = Some e → m !! q = Some e ∨ e = DirE.

(** ** The reach of a run *)

(** [q] lies neither in the input tree nor in the output tree nor on the
    way from the root to the output directory. *)
Definition outside (input_dir output_dir q : path) : Prop :=
  ¬ input_dir `prefix_of` q ∧ ¬ output_dir `prefix_of` q ∧ ¬ q `prefix_of` output_dir.

(** Every category of the configuration is a relative path that does
    not climb with [..]. *)
Definition relative_categories (cfg : Config) : Prop :=
  ∀ c, (c = DEFAULT_CATEGORY cfg ∨ ∃ k, FILE_CATEGORIES cfg !! k = Some c) →
       PyPath.is_absolute c = false ∧ ".." ∉ PyPath.parse c.

(** No entry of the tree has an empty name. *)
Definition well_named (m : fs) : Prop := ∀ p, is_Some (m !! p) → "" ∉ p.

(** What a run keeps from step to step: the entries outside are those of
    the initial tree [m], no empty name appears, and only directories of
    the input tree are candidates for deletion. *)
Definition framed (m : fs) (input_dir output_dir : path) (st : run_state) : Prop :=
  (∀ q, outside input_dir output_dir q → rs_fs st !! q = m !! q) ∧
  well_named (rs_fs st) ∧
  (∀ p, p ∈ directories_to_check st → input_dir `prefix_of` p).

(** ** Configuration files *)

(** A JSON value as [json.load] returns it: [None], a [bool], a number, a
    [str], a [list] or a [dict].  A [dict] is the list of its items, whose
    keys are pairwise distinct; the loader never looks at the value of a
    number. *)
Inductive json :=
  | JNull
  | JBool (b : bool)
  | JNumber
  | JString (s : string)
  | JArray (l : list json)
  | JObject (d : list (string * json)).

(** The three types [CONFIG_SCHEMA] mentions. *)
Inductive py_type := TDict | TStr | TList.

(** [expected_type.__name__] *)
Definition type_name (t : py_type) : string :=
  match t with
  | TDict => "dict"
  | TStr => "str"
  | TList => "list"
  end.

Definition isinstance (v : json) (t : py_type) : bool :=
  match v, t with
  | JObject _, TDict => true
  | JString _, TStr => true
  | JArray _, TList => true
  | _, _ => false
  end.

Definition CONFIG_SCHEMA : list (string * py_type) :=
  [("FILE_CATEGORIES", TDict); ("DEFAULT_CATEGORY", TStr);
   ("PROJECT_FILE_MARKERS", TList); ("PROJECT_DIR_MARKERS", TList);
   ("APPLICATION_EXECUTABLE_EXTENSIONS", TList);
   ("SPECIAL_APP_DIRS_AS_FILES", TList)].

(** What the operations on a loaded value can raise. *)
Inductive config_error := TypeError | AttributeError | KeyError.

(** [d.get(key)] *)
Definition dict_get (d : list (string * json)) (key : string) : option json :=
  (list_to_map d : gmap string json) !! key.

(** [key in s] for two strings. *)
Fixpoint substring (key s : string) : bool :=
  String.prefix key s
  || match s with
     | EmptyString => false
     | String _ s' => substring key s'
     end.

(** [key in container]: membership in a [dict], a [list] or a [str]; the
    other values are not iterable. *)
Definition py_contains (container : json) (key : string) : config_error + bool :=
  match container with
  | JObject d => inr (bool_decide (key ∈ d.*1))
  | JArray l =>
      inr (existsb (λ x, match x with
                         | JString s => bool_decide (s = key)
                         | _ => false
                         end) l)
  | JString s => inr (substring key s)
  | JNull | JBool _ | JNumber => inl TypeError
  end.

(** [container[key]] for a string [key]. *)
Definition py_getitem (container : json) (key : string) : config_error + json :=
  match container with
  | JObject d =>
      match dict_get d key with
      | Some v => inr v
      | None => inl KeyError
      end
  | _ => inl TypeError
  end.

(** [v.items()] *)
Definition py_items (v : json) : config_error + list (string * json) :=
  match v with
  | JObject d => inr d
  | _ => inl AttributeError
  end.

Definition is_str (v : json) : bool := isinstance v TStr.

(** The loop of [validate_config_schema] over [CONFIG_SCHEMA.items()]. *)
Fixpoint schema_loop (config_data : json) (schema : list (string * py_type))
    (errors : list string) : config_error + list string :=
  match schema with
  | [] => inr errors
  | (key, expected_type) :: rest =>
      match py_contains config_data key with
      | inl e => inl e
      | inr false =>
          schema_loop config_data rest
            (errors ++ ["Missing required configuration key: " +:+ key])
      | inr true =>
          match py_getitem config_data key with
          | inl e => inl e
          | inr v =>
              if isinstance v expected_type then schema_loop config_data rest errors
              else schema_loop config_data rest
                     (errors ++ ["Configuration key '" +:+ key +:+ "' must be of type "
                                 +:+ type_name expected_type])
          end
      end
  end.

(** [validate_config_schema]: the list of messages, or what the body
    raises.  The keys of a JSON object are strings, so only the values of
    [FILE_CATEGORIES] are left to test. *)
Definition validate_config_schema (config_data : json) : config_error + list string :=
  match schema_loop config_data CONFIG_SCHEMA [] with
  | inl e => inl e
  | inr errors =>
      match py_contains config_data "FILE_CATEGORIES" with
      | inl e => inl e
      | inr false => inr errors
      | inr true =>
          match py_getitem config_data "FILE_CATEGORIES" with
          | inl e => inl e
          | inr file_cats =>
              match py_items file_cats with
              | inl e => inl e
              | inr items =>
                  if forallb (λ kv, is_str kv.2) items then inr errors
                  else inr (errors
                            ++ ["FILE_CATEGORIES must contain only string key-value pairs"])
              end
          end
      end
  end.

(** The module-level tables as [load_config] leaves them.  The elements
    of the four lists are not validated and stay JSON values. *)
Record Globals := {
  G_FILE_CATEGORIES : gmap string string;
  G_DEFAULT_CATEGORY : string;
  G_PROJECT_FILE_MARKERS : list json;
  G_PROJECT_DIR_MARKERS : list json;
  G_APPLICATION_EXECUTABLE_EXTENSIONS : list json;
  G_SPECIAL_APP_DIRS_AS_FILES : list json
}.

(** The hard-coded fallbacks the function starts from. *)
Definition fallback_globals : Globals := {|
  G_FILE_CATEGORIES := {[ "txt" := "Documents/Text" ]};
  G_DEFAULT_CATEGORY := "Miscellaneous/Other";
  G_PROJECT_FILE_MARKERS := [JString ".git"];
  G_PROJECT_DIR_MARKERS := [JString "node_modules"];
  G_APPLICATION_EXECUTABLE_EXTENSIONS := [JString ".exe"];
  G_SPECIAL_APP_DIRS_AS_FILES := [JString ".app"]
|}.

(** The string items of a validated [dict]. *)
Definition str_items (d : list (string * json)) : gmap string string :=
  list_to_map (omap (λ kv, match kv.2 with
                           | JString s => Some (kv.1, s)
                           | _ => None
                           end) d).

(** [config_data.get(key, fallback)] at the type validation has
    established; the fallback also stands for the cases validation has
    excluded. *)
Definition get_dict (d : list (string * json)) (key : string)
    (fallback : gmap string string) : gmap string string :=
  match dict_get d key with
  | Some (JObject items) => str_items items
  | _ => fallback
  end.
Definition get_str (d : list (string * json)) (key : string) (fallback : string)
    : string :=
  match dict_get d key with
  | Some (JString s) => s
  | _ => fallback
  end.
Definition get_list (d : list (string * json)) (key : string) (fallback : list json)
    : list json :=
  match dict_get d key with
  | Some (JArray l) => l
  | _ => fallback
  end.

(** The assignments that follow a successful validation. *)
Definition globals_of (config_data : json) : Globals :=
  match config_data with
  | JObject d => {|
      G_FILE_CATEGORIES :=
        get_dict d "FILE_CATEGORIES" (G_FILE_CATEGORIES fallback_globals);
      G_DEFAULT_CATEGORY :=
        get_str d "DEFAULT_CATEGORY" (G_DEFAULT_CATEGORY fallback_globals);
      G_PROJECT_FILE_MARKERS :=
        get_list d "PROJECT_FILE_MARKERS" (G_PROJECT_FILE_MARKERS fallback_globals);
      G_PROJECT_DIR_MARKERS :=
        get_list d "PROJECT_DIR_MARKERS" (G_PROJECT_DIR_MARKERS fallback_globals);
      G_APPLICATION_EXECUTABLE_EXTENSIONS :=
        get_list d "APPLICATION_EXECUTABLE_EXTENSIONS"
          (G_APPLICATION_EXECUTABLE_EXTENSIONS fallback_globals);
      G_SPECIAL_APP_DIRS_AS_FILES :=
        get_list d "SPECIAL_APP_DIRS_AS_FILES"
          (G_SPECIAL_APP_DIRS_AS_FILES fallback_globals)
    |}
  | _ => fallback_globals
  end.

(** What [load_config] finds at one of the paths it tries: nothing it
    can use ([is_file] is false or the path cannot be accessed), a file
    that cannot be opened or parsed, or a file with its parsed content. *)
Inductive candidate :=
  | NotAFile
  | Unreadable
  | Parsed (config_data : json).

(** The loop that picks [loaded_config_path]: the first path that is a
    file. *)
Fixpoint first_file (config_paths_to_try : list candidate) : option candidate :=
  match config_paths_to_try with
  | [] => None
  | NotAFile :: rest => first_file rest
  | c :: _ => Some c
  end.

(** [load_config], on what is found at the given path, if any, and at
    the two standard locations of [default_config.json]: the returned
    boolean and the tables. *)
Definition load_config (config_paths_to_try : list candidate) : bool * Globals :=
  match first_file config_paths_to_try with
  | None => (false, fallback_globals)
  | Some NotAFile => (false, fallback_globals)
  | Some Unreadable => (false, fallback_globals)
  | Some (Parsed config_data) =>
      match validate_config_schema config_data with
      | inr [] => (true, globals_of config_data)
      | inr (_ :: _) => (false, fallback_globals)
      | inl _ => (false, fallback_globals)
      end
  end.

(** The strings of a list of JSON values, when all of them are. *)
Definition strings_of (l : list json) : option (list string) :=
  mapM (λ x, match x with JString s => Some s | _ => None end) l.

(** The tables as the rest of the program reads them.  A marker that is
    not a string is never equal to a name and can be dropped; a suffix that
    is not a string makes [str.endswith] raise, so there is no
    configuration then. *)
Definition to_config (g : Globals) : option Config :=
  match strings_of (G_SPECIAL_APP_DIRS_AS_FILES g) with
  | None => None
  | Some special => Some {|
      FILE_CATEGORIES := G_FILE_CATEGORIES g;
      DEFAULT_CATEGORY := G_DEFAULT_CATEGORY g;
      PROJECT_FILE_MARKERS :=
        omap (λ x, match x with JString s => Some s | _ => None end)
          (G_PROJECT_FILE_MARKERS g);
      PROJECT_DIR_MARKERS :=
        omap (λ x, match x with JString s => Some s | _ => None end)
          (G_PROJECT_DIR_MARKERS g);
      SPECIAL_APP_DIRS_AS_FILES := special
    |}
  end.

(** A configuration as the schema wants it: every key of the schema is
    present with a value of its type, and the values of [FILE_CATEGORIES]
    are strings. *)
Definition well_typed_config (d : list (string * json)) : Prop :=
  (∀ key expected_type, (key, expected_type) ∈ CONFIG_SCHEMA →
     ∃ v, dict_get d key = Some v ∧ isinstance v expected_type = true) ∧
  (∀ items, dict_get d "FILE_CATEGORIES" = Some (JObject items) →
     Forall (λ kv, ∃ s, kv.2 = JString s) items).

(** [mock_config_data] of the test suite, as a JSON object. *)
Definition mock_config_data : json :=
  JObject
    [("FILE_CATEGORIES",
      JObject [("txt", JString "Documents/Text"); ("jpg", JString "Images/Photos");
               ("png", JString "Images/Photos"); ("py", JString "SourceCode/Python");
               ("js", JString "SourceCode/JavaScript");
               ("exe", JString "Applications/Executables"); ("zip", JString "Archives");
               ("pdf", JString "Documents/PDFs"); ("mp3", JString "Audio/Music");
               ("mp4", JString "Video/Common")]);
     ("DEFAULT_CATEGORY", JString "Miscellaneous/Other");
     ("PROJECT_FILE_MARKERS",
      JArray [JString ".git"; JString "package.json"; JString "pom.xml";
              JString "requirements.txt"]);
     ("PROJECT_DIR_MARKERS",
      JArray [JString "node_modules"; JString ".idea"; JString "venv";
              JString "__pycache__"]);
     ("APPLICATION_EXECUTABLE_EXTENSIONS",
      JArray [JString ".exe"; JString ".msi"; JString ".app"]);
     ("SPECIAL_APP_DIRS_AS_FILES", JArray [JString ".app"])].

(** [invalid_config] of [test_validate_config_schema_wrong_types]. *)
Definition invalid_config : json :=
  JObject [("FILE_CATEGORIES", JString "not_a_dict");
           ("DEFAULT_CATEGORY", JNumber);
           ("PROJECT_FILE_MARKERS", JString "not_a_list");
           ("PROJECT_DIR_MARKERS", JArray []);
           ("APPLICATION_EXECUTABLE_EXTENSIONS", JArray []);
           ("SPECIAL_APP_DIRS_AS_FILES", JArray [])].

(** ** Counting *)

(** The body of the walk of [count_items_to_process]:
    [total += len(files) + len(dirs)]. *)
Definition count_body (root : path) (dirs files : list string) (total : nat)
    : nat * list string :=
  (total + (length files + length dirs), dirs).

(** In a tree every entry lies in a directory. *)
Definition parent_closed (m : fs) : Prop :=
  ∀ p x, is_Some (m !! (p ++ [x])) → m !! p = Some DirE.

(** The paths of the entries strictly below [top]. *)
Definition entries_below (m : fs) (top : path) : list path :=
  filter (λ p, top `prefix_of` p ∧ p ≠ top) (map_to_list m).*1.

(** ** Loose files *)

(** A regular file strictly below [top] whose directory is neither a
    claimed project nor inside one. *)
Definition loose_file (m : fs) (processed : list path) (top p : path) : Prop :=
  is_file m p ∧ top `prefix_of` p ∧ p ≠ top ∧
  under_processed processed (PyPath.parent p) = false.

(** ** Where a moved tree lands *)

(** The path at which [shutil.move] puts [source] when it is asked for
    [target] and succeeds: [target] itself when nothing is there or when
    it is the source, and [target / source.name] when [target] exists
    already. *)
Definition landing (m : fs) (source target : path) : path :=
  match m !! target with
  | None => target
  | Some _ =>
      if decide (source = target) then target
      else PyPath.join1 target (PyPath.name source)
  end.

(** ** The resolver for an arbitrary [str.lower]

    [PyStr.lower] folds the letters [A] to [Z] only, while [str.lower]
    folds every cased letter of Unicode.  The definitions of this module
    take the folding function as a parameter; [case_folding] states what is
    used of it.  With [PyStr.lower] they are the definitions above. *)
Module Folding.

Section Lower.
(** [str.lower] *)
Variable lower : string → string.

(** [Path(filename).suffix.lower().lstrip('.')] *)
Definition file_extension (filename : string) : string :=
  PyStr.lstrip_dot (lower (PyPath.suffix (PyPath.parse filename))).

(** [get_category_for_file] *)
Definition get_category_for_file (cfg : Config) (filename : string) : string :=
  default (DEFAULT_CATEGORY cfg) (FILE_CATEGORIES cfg !! file_extension filename).

(** The resolver as the specification words it. *)
Definition spec_extension (filename : string) : option string :=
  match PyStr.rfind_dot filename with
  | None => None
  | Some i =>
      let e := lower (PyStr.drop (S i) filename) in
      if decide (e = "") then None else Some e
  end.

Definition spec_category (cfg : Config) (filename : string) : string :=
  match spec_extension filename with
  | Some e => default (DEFAULT_CATEGORY cfg) (FILE_CATEGORIES cfg !! e)
  | None => DEFAULT_CATEGORY cfg
  end.

(** What the resolver needs of [str.lower]: the empty string and only
    the empty string folds to the empty string, a leading full stop is
    kept and does not change the folding of what follows it, and folding
    brings no full stop into a string that has none. *)
Definition case_folding : Prop :=
  lower "" = "" ∧
  (∀ s, lower s = "" → s = "") ∧
  (∀ s, lower (String PyStr.dot s) = String PyStr.dot (lower s)) ∧
  (∀ s, PyStr.rfind_dot s = None → PyStr.rfind_dot (lower s) = None).
End Lower.

(** A folding beyond ASCII, on strings in UTF-8: besides [A] to [Z] it
    folds the letters [À] to [Þ] of Latin-1, whose encoding is the byte
    195 followed by a byte from 128 to 158 other than 151 (the
    multiplication sign); folding adds 32 to the second byte. *)
Definition lead_byte : ascii := ascii_of_nat 195.

Definition is_upper_latin1 (d : ascii) : bool :=
  (128 <=? nat_of_ascii d) && (nat_of_ascii d <=? 158)
  && negb (nat_of_ascii d =? 151).

Fixpoint lower_latin1 (s : string) : string :=
  match s with
  | EmptyString => EmptyString
  | String c s' =>
      if decide (c = lead_byte) then
        match s' with
        | EmptyString => String c EmptyString
        | String d s'' =>
            if is_upper_latin1 d
            then String c (String (ascii_of_nat (nat_of_ascii d + 32)) (lower_latin1 s''))
            else String c (lower_latin1 s')
        end
      else String (PyStr.lower_ascii c) (lower_latin1 s')
  end.

End Folding.

(** A configuration with a key that is not ASCII. *)
Definition accent_config : Config := {|
  FILE_CATEGORIES := {[ "é" := "Documents/Accents" ]};
  DEFAULT_CATEGORY := "Miscellaneous/Other";
  PROJECT_FILE_MARKERS := [];
  PROJECT_DIR_MARKERS := [];
  SPECIAL_APP_DIRS_AS_FILES := []
|}.

(** ** What phase 1 leaves of the input tree *)



(** * Faults that escape the handlers of the moves

    The definitions above give every library call an answer.  In the
    program three kinds of calls can raise an exception that the handlers
    of [move_project] and [categorize_and_move_file] do not receive:
    [Path.exists], which re-raises every [OSError] other than ENOENT,
    ENOTDIR, EBADF and ELOOP (ENAMETOOLONG for a numbered name longer than
    the filesystem allows); [Path.mkdir], which raises [ValueError] for a
    path with a null character; and [os.walk], which is recursive up to
    CPython 3.11 and raises [RecursionError] in a tree deeper than the
    interpreter allows.  The module [Env] is the program with these
    faults; an environment says where they arise.  A run of
    [Env.sort_files] that reaches its end is the run of [sort_files]. *)
Module Env.

(** What a call raises: one of the classes of [exn], a plain [OSError]
    (an errno for which Python has no subclass) or [RecursionError]. *)
Inductive exception :=
  | Builtin (e : exn)
  | OSError
  | RecursionError.

(** [except (OSError, PermissionError)]: [OSError] and its subclasses. *)
Definition is_oserror (e : exception) : bool :=
  match e with
  | OSError => true
  | Builtin FileNotFoundError => true
  | Builtin NotADirectoryError => true
  | Builtin PermissionError => true
  | Builtin (ValueError _) => false
  | RecursionError => false
  end.

(** The environment of a run, besides the tree: the paths on which
    [Path.exists] raises [OSError] when no entry is there, the paths
    for which [Path.mkdir] raises [ValueError], and the number of
    directory levels that a walk started by a function called from
    [sort_files] can enter before the recursion limit of the interpreter
    is reached.  The walk of phase 2 runs in [sort_files] itself, one
    frame higher, and can enter one level more.  For an interpreter whose
    [os.walk] is not recursive the limit is any number larger than the
    depth of the trees of the run. *)
Record env := {
  exists_fault : path → bool;
  mkdir_fault : path → bool;
  recursion_limit : nat
}.

(** [Path.exists]: an entry that is there is found (nothing in the
    filesystem of this development hides an entry); for a path without
    an entry the answer is false unless the environment has an error for
    it. *)
Definition exists_ (E : env) (m : fs) (p : path) : exception + bool :=
  if FS.exists_ m p then inr true
  else if exists_fault E p then inl OSError
  else inr false.

(** ** Unique-name generator *)

Section UniqueName.
(** [Path.exists] on the current filesystem. *)
Variable probe : path → exception + bool.

(** The [while True] loop, entered with [counter]; see [unique_loop]
    above for [fuel]. *)
Fixpoint unique_loop (target : path) (fuel counter : nat)
    : exception + path * bool :=
  match fuel with
  | 0 => inr (target, true)
  | S fuel' =>
      let new_path := numbered target counter in
      match probe new_path with
      | inl e => inl e
      | inr false => inr (new_path, false)
      | inr true =>
          let counter := S counter in
          if MAX_COLLISIONS <? counter then inr (target, true)
          else unique_loop target fuel' counter
      end
  end.

(** [generate_unique_filename]: no handler surrounds the calls of
    [exists], so that what they raise leaves the function. *)
Definition generate_unique_filename (target_file_path : path)
    : exception + path * bool :=
  match probe target_file_path with
  | inl e => inl e
  | inr false => inr (target_file_path, false)
  | inr true => unique_loop target_file_path MAX_COLLISIONS 1
  end.
End UniqueName.

(** ** [os.walk], top-down *)

Section Walk.
Context {St : Type}.
(** The filesystem the walk reads, and the body of the [for] loop, which
    can raise: the state is then the one reached so far. *)
Variable fs_of : St → fs.
Variable body : path → list string → list string → St
                → exception * St + St * list string.

Fixpoint walk_dirs (rec : path → St → exception * St + St) (top : path)
    (dirs : list string) (st : St) : exception * St + St :=
  match dirs with
  | [] => inr st
  | d :: ds =>
      match rec (top ++ [d]) st with
      | inr st' => walk_dirs rec top ds st'
      | inl r => inl r
      end
  end.

(** [limit] is the number of levels that the walk can still enter: a
    directory that lies deeper raises [RecursionError].  A path that
    cannot be scanned is skipped silently. *)
Fixpoint os_walk (limit : nat) (top : path) (st : St) : exception * St + St :=
  match FS.scandir (fs_of st) top with
  | None => inr st
  | Some (dirs, files) =>
      match limit with
      | 0 => inl (RecursionError, st)
      | S limit' =>
          match body top dirs files st with
          | inl r => inl r
          | inr (st', dirs') => walk_dirs (os_walk limit') top dirs' st'
          end
      end
  end.
End Walk.

(** ** Counting and discovery *)

(** [count_items_to_process]: the handler [except (OSError,
    PermissionError)] returns 0; any other exception leaves the
    function. *)
Definition count_items_to_process (E : env) (m : fs) (input_dir : path)
    : exception + nat :=
  match os_walk (λ _, m) (λ root dirs files total, inr (count_body root dirs files total))
          (recursion_limit E) input_dir 0 with
  | inr total => inr total
  | inl (e, _) => if is_oserror e then inr 0 else inl e
  end.

(** [identify_projects]: the handler [except (OSError, PermissionError)]
    logs the error and the list found so far is returned; any other
    exception leaves the function. *)
Definition identify_projects (E : env) (cfg : Config) (m : fs)
    (input_dir : path) (processed : list path) : exception + list (path * path) :=
  match os_walk (λ _, m)
          (λ root dirs files projects_to_move,
             inr (identify_body cfg m processed root dirs files projects_to_move))
          (recursion_limit E) input_dir [] with
  | inr projects_to_move => inr projects_to_move
  | inl (e, projects_to_move) => if is_oserror e then inr projects_to_move else inl e
  end.

(** ** Path validation *)

(** [validate_input_paths]: [input_dir.exists()] is called first. *)
Definition validate_input_paths (E : env) (m : fs) (input_dir : path)
    (output_dir_str : option path) : exception + path * path :=
  match exists_ E m input_dir with
  | inl e => inl e
  | inr _ =>
      match validate_input_paths m input_dir output_dir_str with
      | inl e => inl (Builtin e)
      | inr r => inr r
      end
  end.

(** ** Moving *)

(** [move_project].  The [ValueError] of [relative_to] is raised before
    the [try], that of [mkdir] inside it, where the handler [except
    (OSError, PermissionError, shutil.Error)] does not receive it. *)
Definition move_project (E : env) (source destination output_dir : path)
    (dry_run : bool) (st : run_state) : exception * run_state + run_state * bool :=
  match PyPath.relative_to destination (PyPath.parent source) with
  | None => inl (Builtin (ValueError "is not in the subpath of"), st)
  | Some rel =>
      let target_project_dir := output_dir ++ rel in
      let st := log (LogProject source target_project_dir) st in
      if dry_run then inr (st, true)
      else if mkdir_fault E (PyPath.parent target_project_dir)
      then inl (Builtin (ValueError "embedded null byte"), st)
      else
        match FS.mkdir_parents (rs_fs st) (PyPath.parent target_project_dir) with
        | None => inr (log (LogProjectFailed source) st, false)
        | Some m1 =>
            match FS.shutil_move m1 source target_project_dir with
            | None => inr (log (LogProjectFailed source) (set_fs m1 st), false)
            | Some m2 => inr (set_fs m2 st, true)
            end
        end
  end.

(** [categorize_and_move_file]: [generate_unique_filename] is called
    before the [try]. *)
Definition categorize_and_move_file (E : env) (cfg : Config)
    (file_path output_dir : path) (dry_run : bool) (st : run_state)
    : exception * run_state + run_state * bool :=
  let category_path_str := get_category_for_file cfg (PyPath.name file_path) in
  let target_file_dir := PyPath.div output_dir category_path_str in
  match generate_unique_filename (exists_ E (rs_fs st))
          (PyPath.join1 target_file_dir (PyPath.name file_path)) with
  | inl e => inl (e, st)
  | inr (target_file_path, overflow) =>
      let st := if overflow
                then log (LogCollisions
                            (PyPath.join1 target_file_dir (PyPath.name file_path))) st
                else st in
      let st := log (LogFile file_path target_file_path) st in
      if dry_run then inr (st, true)
      else if mkdir_fault E target_file_dir
      then inl (Builtin (ValueError "embedded null byte"), st)
      else
        match FS.mkdir_parents (rs_fs st) target_file_dir with
        | None => inr (log (LogFileFailed file_path) st, false)
        | Some m1 =>
            match FS.shutil_move m1 file_path target_file_path with
            | None => inr (log (LogFileFailed file_path) (set_fs m1 st), false)
            | Some m2 => inr (set_fs m2 st, true)
            end
        end
  end.

(** ** [sort_files] *)

(** One turn of the loop of phase 1. *)
Definition project_step (E : env) (output_dir : path) (dry_run : bool)
    (st : run_state) (project : path * path) : exception * run_state + run_state :=
  match move_project E project.1 project.2 output_dir dry_run st with
  | inl r => inl r
  | inr (st, ok) =>
      let st := if ok then add_processed project.1 st else st in
      inr (set_progress (count_project ok (rs_progress st)) st)
  end.

(** Phase 1: the loop over [projects_to_move]. *)
Fixpoint move_projects (E : env) (output_dir : path) (dry_run : bool)
    (projects_to_move : list (path * path)) (st : run_state)
    : exception * run_state + run_state :=
  match projects_to_move with
  | [] => inr st
  | project :: rest =>
      match project_step E output_dir dry_run st project with
      | inl r => inl r
      | inr st => move_projects E output_dir dry_run rest st
      end
  end.

(** One turn of the loop over [files] of phase 2. *)
Definition file_step (E : env) (cfg : Config) (output_dir : path) (dry_run : bool)
    (current_root_path : path) (st : run_state) (filename : string)
    : exception * run_state + run_state :=
  let file_path := current_root_path ++ [filename] in
  if existsb (λ processed, bool_decide (processed ∈ PyPath.parents file_path))
       (processed_projects st)
  then inr st
  else
    match categorize_and_move_file E cfg file_path output_dir dry_run st with
    | inl r => inl r
    | inr (st, ok) => inr (set_progress (count_file ok (rs_progress st)) st)
    end.

(** The loop over [files]. *)
Fixpoint file_steps (E : env) (cfg : Config) (output_dir : path) (dry_run : bool)
    (current_root_path : path) (files : list string) (st : run_state)
    : exception * run_state + run_state :=
  match files with
  | [] => inr st
  | filename :: rest =>
      match file_step E cfg output_dir dry_run current_root_path st filename with
      | inl r => inl r
      | inr st => file_steps E cfg output_dir dry_run current_root_path rest st
      end
  end.

(** The body of the walk of phase 2. *)
Definition relocate_body (E : env) (cfg : Config) (output_dir : path)
    (dry_run delete_empty_dirs : bool)
    (current_root_path : path) (dirs files : list string) (st : run_state)
    : exception * run_state + run_state * list string :=
  if under_processed (processed_projects st) current_root_path then inr (st, [])
  else
    let st := if delete_empty_dirs then add_directory current_root_path st else st in
    match file_steps E cfg output_dir dry_run current_root_path files st with
    | inl r => inl r
    | inr st => inr (st, dirs)
    end.

(** Phase 2: the walk that relocates the loose files. *)
Definition relocate_files (E : env) (cfg : Config) (input_dir output_dir : path)
    (dry_run delete_empty_dirs : bool) (st : run_state)
    : exception * run_state + run_state :=
  os_walk rs_fs (relocate_body E cfg output_dir dry_run delete_empty_dirs)
    (S (recursion_limit E)) input_dir st.

(** The body of the main [try] of [sort_files].  In phase 3 the calls of
    [exists] stand inside the handler of [cleanup_empty_directories] and
    answer for every directory that is there, so that [finish] is the
    function above. *)
Definition phases (E : env) (cfg : Config) (input_dir output_dir : path)
    (dry_run delete_empty_dirs : bool) (st : run_state)
    : exception * run_state + run_state :=
  let st := log (LogPhase 1) st in
  match identify_projects E cfg (rs_fs st) input_dir (processed_projects st) with
  | inl e => inl (e, st)
  | inr projects_to_move =>
      match move_projects E output_dir dry_run projects_to_move st with
      | inl r => inl r
      | inr st =>
          let st := log (LogPhase 2) st in
          match relocate_files E cfg input_dir output_dir dry_run delete_empty_dirs st with
          | inl r => inl r
          | inr st => inr (finish input_dir dry_run delete_empty_dirs st)
          end
      end
  end.

(** How a call of [sort_files] ends: with an exception that reaches the
    caller, or with the returned boolean and the state of the run. *)
Inductive outcome :=
  | Raised (e : exception)
  | Returned (result : bool) (st : run_state).

(** [sort_files].  The handler of the first [try] receives the four
    classes of [exn]; [count_items_to_process] is called between the two
    [try] blocks; the handler [except Exception] of the main [try]
    receives every exception, logs it and returns false. *)
Definition sort_files (E : env) (cfg : Config) (m : fs) (input_dir_str : path)
    (output_dir_str : option path) (dry_run delete_empty_dirs : bool) : outcome :=
  match validate_input_paths E m input_dir_str output_dir_str with
  | inl (Builtin _) => Returned false (log LogValidationFailed (initial_state m))
  | inl e => Raised e
  | inr (input_dir, output_dir) =>
      match count_items_to_process E m input_dir with
      | inl e => Raised e
      | inr _ =>
          match phases E cfg input_dir output_dir dry_run delete_empty_dirs
                  (initial_state m) with
          | inl (_, st) => Returned false (log LogUnexpected st)
          | inr st => Returned (bool_decide (errors (rs_progress st) = 0)) st
          end
      end
  end.

(** The state in which a call that returned has left the run. *)
Definition final (r : outcome) : option run_state :=
  match r with
  | Returned _ st => Some st
  | Raised _ => None
  end.

(** The boolean that a call returned. *)
Definition result (r : outcome) : option bool :=
  match r with
  | Returned b _ => Some b
  | Raised _ => None
  end.

(** ** Environments *)

(** No call raises, and [limit] levels can be entered. *)
Definition quiet (limit : nat) : env :=
  {| exists_fault := λ _, false; mkdir_fault := λ _, false; recursion_limit := limit |}.

(** The limit of a file name on the common filesystems, in bytes. *)
Definition NAME_MAX : nat := 255.

(** [Path.exists] raises [OSError] (ENAMETOOLONG) for a path with a
    component longer than [NAME_MAX]. *)
Definition name_too_long (p : path) : bool :=
  existsb (λ component, NAME_MAX <? String.length component) p.

Definition posix (limit : nat) : env :=
  {| exists_fault := name_too_long; mkdir_fault := λ _, false;
     recursion_limit := limit |}.

End Env.

(** ** Trees with a fault *)

(** A name of 255 bytes: 251 letters and [.txt]. *)
Definition long_name : string :=
  string_of_list_ascii (replicate 251 "a"%char) +:+ ".txt".

(** Two files of that name in two directories of the input. *)
Definition long_names_tree : fs :=
  touch ["input"; "sub"; long_name] "2"
    (touch ["input"; long_name] "1" (mkdir ["output"] root_only)).

(** A file of that name in the output. *)
Definition long_name_taken_tree : fs := touch ["output"; long_name] "0" root_only.

(** A chain of four directories below the input. *)
Definition deep_tree : fs :=
  touch ["input"; "a"; "b"; "c"; "d"; "note.txt"] "n" (mkdir ["output"] root_only).

(** ** Reading the result of a run *)

(** The two calls inside the [try] of [move_project] and of
    [categorize_and_move_file]; [None] when one of them fails. *)
Definition mkdir_and_move (m : fs) (dir src dst : path) : option fs :=
  match FS.mkdir_parents m dir with
  | Some m1 => FS.shutil_move m1 src dst
  | None => None
  end.

(** The run has logged its closing report. *)
Definition completed (st : run_state) : Prop :=
  List.last (rs_log st) LogUnexpected = LogCompleted.


(** The state [st'] in which a step that started in [st] raised: the
    step has added to the log, without a failure or a closing report, and
    has changed nothing else. *)
Definition raised_from (st st' : run_state) : Prop :=
  rs_fs st' = rs_fs st ∧ rs_progress st' = rs_progress st ∧
  processed_projects st' = processed_projects st ∧
  directories_to_check st' = directories_to_check st ∧
  ∃ lg, rs_log st' = rs_log st ++ lg ∧ failures lg = 0 ∧ LogCompleted ∉ lg.



(** * Properties *)

(** ** Strings and names *)

Module PyStrFacts.
Import PyStr.

Lemma lower_ascii_dot c : lower_ascii c = dot ↔ c = dot.
Proof.
  destruct c as [[] [] [] [] [] [] [] []]; vm_compute; split; congruence.
Qed.

Lemma lower_empty s : lower s = "" ↔ s = "".
Proof. destruct s; simpl; split; congruence. Qed.

Lemma lstrip_dot_lower_nodot s : rfind_dot s = None → lstrip_dot (lower s) = lower s.
Proof.
  destruct s as [|c s]; simpl; [done|].
  destruct (rfind_dot s); [done|].
  destruct (decide (c = dot)); [done|]. intros _.
  destruct (decide (lower_ascii c = dot)) as [E|E]; [|done].
  apply (proj1 (lower_ascii_dot c)) in E. done.
Qed.

Lemma rfind_dot_lt s i : rfind_dot s = Some i → i < String.length s.
Proof.
  revert i. induction s as [|c s IH]; simpl; intros i; [done|].
  destruct (rfind_dot s) as [j|].
  - intros [= <-]. specialize (IH j eq_refl). lia.
  - destruct (decide (c = dot)); intros [= <-]. lia.
Qed.

Lemma rfind_dot_drop s i :
  rfind_dot s = Some i →
  drop i s = String dot (drop (S i) s) ∧ rfind_dot (drop (S i) s) = None.
Proof.
  revert i. induction s as [|c s IH]; simpl; intros i; [done|].
  destruct (rfind_dot s) as [j|] eqn:E.
  - intros [= <-]. destruct (IH j eq_refl) as [H1 H2]. simpl. auto.
  - destruct (decide (c = dot)) as [->|]; intros [= <-]. simpl.
    split; [|done]. by destruct s.
Qed.

Lemma drop_empty n s : drop n s = "" ↔ String.length s ≤ n.
Proof.
  revert s. induction n as [|n IH]; intros [|c s]; simpl; try (split; (done || lia)).
  rewrite IH. lia.
Qed.

Lemma split_slash_none s : has_slash s = false → split_slash s = [s].
Proof.
  induction s as [|c s IH]; simpl; [done|].
  intros [H1 H2]%orb_false_iff. apply bool_decide_eq_false in H1.
  destruct (decide (c = slash)); [done|]. by rewrite IH.
Qed.

End PyStrFacts.

Module PyPathFacts.
Import PyPath.

Lemma parse_component s :
  PyStr.has_slash s = false → s ≠ "" → s ≠ "." → parse s = [s].
Proof.
  intros H H1 H2. unfold parse. rewrite PyStrFacts.split_slash_none by done.
  rewrite filter_cons_True by done. done.
Qed.

Lemma name_snoc p s : name (p ++ [s]) = s.
Proof. unfold name. apply last_last. Qed.

Lemma parent_snoc p s : parent (p ++ [s]) = p.
Proof. unfold parent. apply removelast_last. Qed.

Lemma length_parent p : length (parent p) = length p - 1.
Proof.
  unfold parent. induction p as [|x [|y p] IH]; [done|done|].
  change (removelast (x :: y :: p)) with (x :: removelast (y :: p)).
  cbn [length] in *. rewrite IH. lia.
Qed.

Lemma relative_to_app p q : relative_to (p ++ q) p = Some q.
Proof. induction p as [|x p IH]; simpl; [done|]. by rewrite decide_True. Qed.

Lemma relative_to_Some p base q : relative_to p base = Some q ↔ p = base ++ q.
Proof.
  split; [|intros ->; apply relative_to_app].
  revert p; induction base as [|b base IH]; intros p; simpl.
  - by intros [= ->].
  - destruct p as [|x p]; [done|]. destruct (decide (b = x)) as [->|]; [|done].
    intros ->%IH. done.
Qed.

Lemma relative_to_prefix p base : is_Some (relative_to p base) ↔ base `prefix_of` p.
Proof.
  split.
  - intros [q ->%relative_to_Some]. by exists q.
  - intros [q ->]. rewrite relative_to_app. eauto.
Qed.

Lemma elem_of_parents_rev x rp : x ∈ parents_rev rp ↔ ∃ k, k ≠ [] ∧ rp = k ++ rev x.
Proof.
  induction rp as [|s rp IH]; simpl.
  - split; [by intros ?%elem_of_nil|]. intros (k & Hk & E).
    destruct k; [done|]. done.
  - rewrite elem_of_cons, IH. split.
    + intros [->|(k & Hk & ->)].
      * exists [s]. rewrite rev_involutive. done.
      * exists (s :: k). done.
    + intros (k & Hk & E). destruct k as [|s' k]; [done|].
      injection E as -> ->. destruct k as [|s'' k].
      * left. simpl. by rewrite rev_involutive.
      * right. exists (s'' :: k). done.
Qed.

(** [x in p.parents] says that [x] is a proper ancestor of [p]. *)
Lemma elem_of_parents x p : x ∈ parents p ↔ x `prefix_of` p ∧ x ≠ p.
Proof.
  unfold parents. rewrite elem_of_parents_rev. split.
  - intros (k & Hk & E). apply (f_equal (@rev _)) in E.
    rewrite rev_involutive, rev_app_distr, rev_involutive in E. subst p. split.
    + by eexists.
    + intros E. apply (f_equal length) in E. rewrite length_app, length_rev in E.
      destruct k; [done|]. simpl in E. lia.
  - intros [[k ->] Hne]. exists (rev k). split.
    + destruct k; [by rewrite app_nil_r in Hne|]. simpl.
      intros E. apply (f_equal length) in E. rewrite length_app in E. simpl in E. lia.
    + by rewrite rev_app_distr.
Qed.

End PyPathFacts.

(** ** The category resolver *)

Lemma file_extension_component s :
  PyStr.has_slash s = false →
  file_extension s = PyStr.lstrip_dot (PyStr.lower (PyPath.suffix_of_name s)).
Proof.
  intros H. unfold file_extension, PyPath.suffix.
  destruct (decide (s = "")) as [->|H1]; [done|].
  destruct (decide (s = ".")) as [->|H2]; [done|].
  rewrite PyPathFacts.parse_component by done. done.
Qed.

(** The extension the code extracts, in the words of the specification
    when the last dot is not the first character. *)
Lemma file_extension_spec s :
  PyStr.has_slash s = false →
  PyStr.rfind_dot s ≠ Some 0 →
  file_extension s = default "" (spec_extension s).
Proof.
  intros H H0. rewrite file_extension_component by done.
  unfold PyPath.suffix_of_name, spec_extension.
  destruct (PyStr.rfind_dot s) as [i|] eqn:E; [|done].
  destruct (PyStrFacts.rfind_dot_drop _ _ E) as [Hd Hn].
  pose proof (PyStrFacts.rfind_dot_lt _ _ E) as Hlt.
  destruct i as [|i]; [done|]. simpl (0 <? S i). cbv beta iota.
  destruct (decide (PyStr.lower (PyStr.drop (S (S i)) s) = "")) as [He|He].
  - apply (proj1 (PyStrFacts.lower_empty _)), (proj1 (PyStrFacts.drop_empty _ _)) in He.
    replace (S i <? String.length s - 1) with false
      by (symmetry; apply Nat.ltb_ge; lia). done.
  - assert (S i < String.length s - 1) as Hlt'.
    { destruct (decide (S i < String.length s - 1)); [done|]. exfalso. apply He.
      apply (proj2 (PyStrFacts.lower_empty _)), (proj2 (PyStrFacts.drop_empty _ _)). lia. }
    apply Nat.ltb_lt in Hlt'. rewrite Hlt'. simpl andb. cbv iota.
    rewrite Hd. simpl.
    by apply PyStrFacts.lstrip_dot_lower_nodot.
Qed.

Lemma file_extension_dotfile s :
  PyStr.has_slash s = false → PyStr.rfind_dot s = Some 0 → file_extension s = "".
Proof.
  intros H E. rewrite file_extension_component by done.
  unfold PyPath.suffix_of_name. rewrite E. done.
Qed.

(** C5 as stated fails on a dotfile: the specification's extension of
    [.txt] is [txt], the code's is empty. *)
Lemma get_category_for_file_dotfile_counterexample :
  spec_category default_config ".txt" = "Documents/Text" ∧
  get_category_for_file default_config ".txt" = "Miscellaneous/Other".
Proof. split; vm_compute; reflexivity. Qed.


(** ** The unique-name generator *)

Section UniqueNameFacts.
Variable occupied : path → bool.
Variable target : path.

Lemma MAX_COLLISIONS_pos : 1 ≤ MAX_COLLISIONS.
Proof. apply Nat.leb_le. vm_compute. reflexivity. Qed.

Lemma unique_loop_S fuel counter :
  unique_loop occupied target (S fuel) counter =
    if negb (occupied (numbered target counter)) then (numbered target counter, false)
    else if MAX_COLLISIONS <? S counter then (target, true)
    else unique_loop occupied target fuel (S counter).
Proof. reflexivity. Qed.



End UniqueNameFacts.


(** ** Path validation *)

(** The closing [try] block of [validate_input_paths] never raises. *)
Lemma check_output_not_inside_passes input_dir output_dir :
  check_output_not_inside input_dir output_dir = inr tt.
Proof. unfold check_output_not_inside. by destruct (PyPath.relative_to _ _). Qed.

(** Hence an output below the input is accepted like any other. *)
Lemma validate_input_paths_accepts_nested m input_dir rel :
  FS.is_dir m input_dir = true → rel ≠ [] →
  validate_input_paths m input_dir (Some (input_dir ++ rel))
    = inr (input_dir, input_dir ++ rel).
Proof.
  intros Hd Hrel. unfold validate_input_paths.
  assert (FS.exists_ m input_dir = true) as ->.
  { apply bool_decide_eq_true in Hd. apply bool_decide_eq_true. by rewrite Hd. }
  rewrite Hd. simpl. rewrite decide_False.
  - by rewrite check_output_not_inside_passes.
  - intros E. apply (f_equal length) in E. rewrite length_app in E.
    destruct rel; [done|]. simpl in E. lia.
Qed.

Lemma validate_input_paths_same m input_dir :
  FS.is_dir m input_dir = true →
  validate_input_paths m input_dir (Some input_dir)
    = inl (ValueError "Input and output directories cannot be the same").
Proof.
  intros Hd. unfold validate_input_paths.
  assert (FS.exists_ m input_dir = true) as ->.
  { apply bool_decide_eq_true in Hd. apply bool_decide_eq_true. by rewrite Hd. }
  rewrite Hd. simpl. by rewrite decide_True.
Qed.

(** C1 fails on the code: with the output [input/nested_output] the
    validation returns normally, all phases run and the file is moved
    into the tree that is being walked.  The same call with the output
    equal to the input is rejected and moves nothing. *)
Theorem sort_files_nested_output_not_rejected :
  let nested := sort_files default_config 3 nested_tree ["input"]
                  (Some ["input"; "nested_output"]) false false in
  validate_input_paths nested_tree ["input"] (Some ["input"; "nested_output"])
    = inr (["input"], ["input"; "nested_output"]) ∧
  returned nested = Some true ∧
  logged nested = Some [LogPhase 1; LogPhase 2;
                        LogFile ["input"; "report.txt"]
                          ["input"; "nested_output"; "Documents"; "Text"; "report.txt"];
                        LogCompleted] ∧
  entry_at ["input"; "report.txt"] nested = Some None ∧
  entry_at ["input"; "nested_output"; "Documents"; "Text"; "report.txt"] nested
    = Some (Some (FileE "r")) ∧
  logged (sort_files default_config 3 nested_tree ["input"] (Some ["input"]) false false)
    = Some [LogValidationFailed].
Proof. vm_compute. repeat split; reflexivity. Qed.

(** ** An empty application bundle *)

(** The classifier accepts a bundle name whatever the listing, and any
    listing that holds a marker. *)
Lemma is_project_or_app_folder_bundle cfg dir_path dir_contents suffix :
  suffix ∈ SPECIAL_APP_DIRS_AS_FILES cfg →
  PyStr.endswith (PyPath.name dir_path) suffix = true →
  is_project_or_app_folder cfg dir_path dir_contents = true.
Proof.
  intros Hin He. unfold is_project_or_app_folder.
  assert (existsb (λ suffix, PyStr.endswith (PyPath.name dir_path) suffix)
            (SPECIAL_APP_DIRS_AS_FILES cfg) = true) as ->; [|done].
  apply existsb_exists. exists suffix. split; [by apply list_elem_of_In|done].
Qed.

Lemma is_project_or_app_folder_marker cfg dir_path dir_contents item_name :
  item_name ∈ dir_contents →
  item_name ∈ PROJECT_FILE_MARKERS cfg ∨ item_name ∈ PROJECT_DIR_MARKERS cfg →
  is_project_or_app_folder cfg dir_path dir_contents = true.
Proof.
  intros Hin Hm. unfold is_project_or_app_folder. destruct (existsb _ _); [done|].
  apply existsb_exists. exists item_name. split; [by apply list_elem_of_In|].
  apply orb_true_iff. destruct Hm; [left|right]; by apply bool_decide_eq_true.
Qed.

(** The discovery pass consults the classifier on a listing that is not
    empty, and on no other. *)
Lemma listed_as_project_nonempty cfg m p x l :
  FS.listdir m p = Some (x :: l) →
  listed_as_project cfg m p = is_project_or_app_folder cfg p (x :: l).
Proof. unfold listed_as_project, cache_directory_contents. by intros ->. Qed.

Lemma listed_as_project_empty cfg m p :
  FS.listdir m p = Some [] → listed_as_project cfg m p = false.
Proof. unfold listed_as_project, cache_directory_contents. by intros ->. Qed.

(** C4 fails on the code: the classifier accepts [Foo.app] with an empty
    listing, but the discovery pass tests the listing for truth first, so
    an empty [Foo.app] is not recorded (and is walked into), while the
    same directory with one entry is. *)
Theorem identify_projects_misses_empty_bundle :
  FS.listdir empty_bundle_tree ["in"; "Foo.app"] = Some [] ∧
  is_project_or_app_folder default_config ["in"; "Foo.app"] [] = true ∧
  identify_projects default_config empty_bundle_tree 5 ["in"] [] = Some [] ∧
  identify_projects default_config full_bundle_tree 5 ["in"] []
    = Some [(["in"; "Foo.app"], ["in"; "Applications_And_Projects"; "Foo.app"])].
Proof. vm_compute. repeat split; reflexivity. Qed.

(** ** A project that cannot be moved *)

(** C2 fails on the code: the failed relocation is logged and counted
    and the run goes on, but the project is not entered into
    [processed_projects], so phase 2 walks into it and moves [main.py]
    away from [.git]. *)
Theorem sort_files_splits_failed_project :
  let run := sort_files default_config 5 stuck_project_tree ["in"] (Some ["out"])
               false false in
  identify_projects default_config stuck_project_tree 5 ["in"] []
    = Some [(["in"; "proj"], ["in"; "Applications_And_Projects"; "proj"])] ∧
  returned run = Some false ∧
  logged run = Some [LogPhase 1;
                     LogProject ["in"; "proj"] ["out"; "Applications_And_Projects"; "proj"];
                     LogProjectFailed ["in"; "proj"];
                     LogPhase 2;
                     LogFile ["in"; "proj"; "main.py"]
                       ["out"; "Miscellaneous"; "Other"; "main.py"];
                     LogCompleted] ∧
  error_count run = Some 1 ∧
  claimed run = Some [] ∧
  entry_at ["in"; "proj"; ".git"] run = Some (Some DirE) ∧
  entry_at ["in"; "proj"; "main.py"] run = Some None ∧
  entry_at ["out"; "Miscellaneous"; "Other"; "main.py"] run = Some (Some (FileE "m")).
Proof. vm_compute. repeat split; reflexivity. Qed.


(** ** The filesystem *)

Module FSFacts.
Import FS.

Lemma exists_true m p : exists_ m p = true ↔ is_Some (m !! p).
Proof. unfold exists_. apply bool_decide_eq_true. Qed.

Lemma exists_false m p : exists_ m p = false ↔ m !! p = None.
Proof.
  unfold exists_. rewrite bool_decide_eq_false. by rewrite eq_None_not_Some.
Qed.

Lemma is_dir_true m p : is_dir m p = true ↔ m !! p = Some DirE.
Proof. unfold is_dir. apply bool_decide_eq_true. Qed.

Lemma is_dir_exists m p : is_dir m p = true → exists_ m p = true.
Proof. rewrite is_dir_true, exists_true. intros ->. eauto. Qed.

Lemma child_name_Some top p x : child_name top p = Some x ↔ p = top ++ [x].
Proof.
  unfold child_name. split.
  - destruct (PyPath.relative_to p top) as [[|y [|z q]]|] eqn:E; try done.
    intros [= ->]. by apply PyPathFacts.relative_to_Some.
  - intros ->. by rewrite PyPathFacts.relative_to_app.
Qed.

Lemma elem_of_entries m top x e :
  (x, e) ∈ entries m top ↔ m !! (top ++ [x]) = Some e.
Proof.
  unfold entries. rewrite list_elem_of_omap. split.
  - intros ([p e'] & Hin & Hf). simpl in Hf.
    destruct (child_name top p) as [y|] eqn:E; [|done]. simpl in Hf.
    injection Hf as -> ->. apply child_name_Some in E as ->.
    by apply elem_of_map_to_list in Hin.
  - intros H. exists (top ++ [x], e). split; [by apply elem_of_map_to_list|].
    simpl. by rewrite (proj2 (child_name_Some top _ x) eq_refl).
Qed.

Lemma NoDup_omap_keys {B} (g : path → option string) (l : list (path * B)) :
  (∀ p q x, g p = Some x → g q = Some x → p = q) →
  NoDup l.*1 → NoDup (omap (λ pe, (λ x, (x, pe.2)) <$> g pe.1) l).*1.
Proof.
  intros Hg. induction l as [|[p b] l IH]; simpl; [constructor|].
  intros [Hnin Hnd]%NoDup_cons. specialize (IH Hnd).
  destruct (g p) as [x|] eqn:E; simpl; [|done].
  apply NoDup_cons. split; [|done].
  intros ([x' b'] & -> & Hin)%list_elem_of_fmap. simpl in *.
  apply list_elem_of_omap in Hin as ([q b''] & Hq & Hf). simpl in Hf.
  destruct (g q) as [y|] eqn:E'; [|done]. simpl in Hf. injection Hf as -> ->.
  assert (p = q) as -> by eauto. apply Hnin.
  apply list_elem_of_fmap. by exists (q, b').
Qed.

Lemma NoDup_entries m top : NoDup (entries m top).*1.
Proof.
  apply NoDup_omap_keys; [|apply NoDup_fst_map_to_list].
  intros p q x Hp Hq. apply child_name_Some in Hp, Hq. congruence.
Qed.

Lemma listdir_Some m top l :
  listdir m top = Some l →
  m !! top = Some DirE ∧ NoDup l ∧ ∀ x, x ∈ l ↔ is_Some (m !! (top ++ [x])).
Proof.
  unfold listdir. destruct (is_dir m top) eqn:E; [|done]. intros [= <-].
  split; [by apply is_dir_true|]. split; [apply NoDup_entries|].
  intros x. rewrite list_elem_of_fmap. split.
  - intros ([y e] & -> & Hin). apply elem_of_entries in Hin. simpl. eauto.
  - intros [e He]. exists (x, e). split; [done|]. by apply elem_of_entries.
Qed.

Lemma scandir_Some m top dirs files :
  scandir m top = Some (dirs, files) →
  m !! top = Some DirE ∧ NoDup dirs ∧ NoDup files ∧
  (∀ x, x ∈ dirs ↔ m !! (top ++ [x]) = Some DirE) ∧
  (∀ x, x ∈ files ↔ ∃ d, m !! (top ++ [x]) = Some (FileE d)).
Proof.
  unfold scandir. destruct (is_dir m top) eqn:E; [|done]. intros [= <- <-].
  split; [by apply is_dir_true|].
  pose proof (NoDup_entries m top) as Hnd.
  split; [|split; [|split]].
  - eapply NoDup_fmap_fst; [|apply NoDup_filter, (NoDup_fmap_1 fst), Hnd].
    intros x y1 y2 [_ H1]%list_elem_of_filter [_ H2]%list_elem_of_filter.
    apply elem_of_entries in H1, H2. congruence.
  - eapply NoDup_fmap_fst; [|apply NoDup_filter, (NoDup_fmap_1 fst), Hnd].
    intros x y1 y2 [_ H1]%list_elem_of_filter [_ H2]%list_elem_of_filter.
    apply elem_of_entries in H1, H2. congruence.
  - intros x. rewrite list_elem_of_fmap. split.
    + intros ([y e] & -> & [He Hin]%list_elem_of_filter). simpl in *. subst e.
      by apply elem_of_entries in Hin.
    + intros H. exists (x, DirE). split; [done|]. apply list_elem_of_filter.
      split; [done|]. by apply elem_of_entries.
  - intros x. rewrite list_elem_of_fmap. split.
    + intros ([y e] & -> & [He Hin]%list_elem_of_filter). simpl in *.
      apply elem_of_entries in Hin. destruct e; [eauto|done].
    + intros [d H]. exists (x, FileE d). split; [done|]. apply list_elem_of_filter.
      split; [done|]. by apply elem_of_entries.
Qed.

Lemma scandir_None m top : scandir m top = None ↔ m !! top ≠ Some DirE.
Proof.
  unfold scandir. destruct (is_dir m top) eqn:E.
  - apply is_dir_true in E. split; [done|]. congruence.
  - split; [|done]. intros _ H. apply is_dir_true in H. congruence.
Qed.

Lemma is_empty_dir_true m p :
  is_empty_dir m p = true ↔ m !! p = Some DirE ∧ ∀ x, m !! (p ++ [x]) = None.
Proof.
  unfold is_empty_dir. rewrite andb_true_iff, is_dir_true, bool_decide_eq_true.
  split; intros [H1 H2]; (split; [done|]).
  - intros x. destruct (m !! (p ++ [x])) as [e|] eqn:E; [|done].
    apply elem_of_entries in E. rewrite H2 in E. by apply elem_of_nil in E.
  - destruct (entries m p) as [|[x e] l] eqn:E; [done|].
    assert ((x, e) ∈ entries m p) as Hin by (rewrite E; left).
    apply elem_of_entries in Hin. by rewrite H2 in Hin.
Qed.

(** *** [mkdir] *)

Lemma mkdir_rev_spec m rp m' :
  mkdir_rev m rp = Some m' →
  m ⊆ m' ∧ m' !! rev rp = Some DirE ∧
  ∀ q e, m' !! q = Some e → m !! q = Some e ∨ (e = DirE ∧ q `prefix_of` rev rp).
Proof.
  revert m'. induction rp as [|s rp IH]; intros m'.
  - simpl. destruct (m !! []) as [[]|] eqn:E; try done. intros [= <-].
    split; [done|]. split; [done|]. eauto.
  - cbn [mkdir_rev]. destruct (m !! rev (s :: rp)) as [[]|] eqn:E; try done.
    + intros [= <-]. split; [done|]. split; [done|]. eauto.
    + destruct (mkdir_rev m rp) as [m1|]; [|done]. intros [= <-].
      destruct (IH m1 eq_refl) as (Hsub & Hdir & Hnew).
      split; [|split].
      * etrans; [exact Hsub|]. apply insert_subseteq.
        destruct (m1 !! rev (s :: rp)) as [e|] eqn:E1; [|done].
        apply Hnew in E1 as [E1|[_ Hp]]; [congruence|].
        simpl in Hp. apply prefix_length in Hp.
        rewrite length_app in Hp. simpl in Hp. lia.
      * apply lookup_insert_eq.
      * intros q e. rewrite lookup_insert. case_decide as Hq.
        -- intros [= <-]. right. by subst q.
        -- intros [?|[-> Hp]]%Hnew; [by left|]. right. split; [done|].
           simpl. by apply prefix_app_r.
Qed.

Lemma mkdir_parents_spec m p m' :
  mkdir_parents m p = Some m' →
  m ⊆ m' ∧ m' !! p = Some DirE ∧
  ∀ q e, m' !! q = Some e → m !! q = Some e ∨ (e = DirE ∧ q `prefix_of` p).
Proof.
  unfold mkdir_parents. intros H%mkdir_rev_spec. by rewrite rev_involutive in H.
Qed.

(** *** Moving *)

Lemma lookup_subtree m src q : subtree m src !! q = m !! (src ++ q).
Proof.
  unfold subtree. apply option_eq. intros e. split.
  - intros H%elem_of_list_to_map_2.
    apply list_elem_of_omap in H as ([p e'] & Hin & Hf). simpl in Hf.
    destruct (PyPath.relative_to p src) as [q'|] eqn:E; [|done].
    simpl in Hf. injection Hf as -> ->.
    apply PyPathFacts.relative_to_Some in E as ->. by apply elem_of_map_to_list.
  - intros H. apply elem_of_list_to_map_1'.
    + intros e' He'. apply list_elem_of_omap in He' as ([p e''] & Hin & Hf).
      simpl in Hf. destruct (PyPath.relative_to p src) as [q'|] eqn:E; [|done].
      simpl in Hf. injection Hf as -> ->.
      apply PyPathFacts.relative_to_Some in E as ->.
      apply elem_of_map_to_list in Hin. congruence.
    + apply list_elem_of_omap. exists (src ++ q, e).
      split; [by apply elem_of_map_to_list|]. simpl.
      by rewrite PyPathFacts.relative_to_app.
Qed.

(** An entry of the moved tree is an old entry outside [src] or the image
    of an entry below [src]. *)
Lemma lookup_move_tree_Some m src dst p e :
  move_tree m src dst !! p = Some e ↔
  (∃ q, p = dst ++ q ∧ m !! (src ++ q) = Some e) ∨
  ((∀ q, p = dst ++ q → m !! (src ++ q) = None) ∧
   ¬ src `prefix_of` p ∧ m !! p = Some e).
Proof.
  unfold move_tree. rewrite lookup_union_Some_raw.
  rewrite lookup_kmap_Some by apply _. rewrite lookup_kmap_None by apply _.
  rewrite map_lookup_filter_Some. simpl.
  setoid_rewrite lookup_subtree. naive_solver.
Qed.

Lemma lookup_move_tree_dst m src dst q :
  move_tree m src dst !! (dst ++ q) =
    match m !! (src ++ q) with
    | Some e => Some e
    | None => if decide (src `prefix_of` dst ++ q) then None else m !! (dst ++ q)
    end.
Proof.
  apply option_eq. intros e. rewrite lookup_move_tree_Some.
  destruct (m !! (src ++ q)) as [e'|] eqn:E.
  - split.
    + intros [(q' & ->%app_inv_head & H)|(H & _)]; [congruence|].
      specialize (H q eq_refl). congruence.
    + intros [= <-]. left. eauto.
  - case_decide as Hp; split.
    + intros [(q' & ->%app_inv_head & H)|(_ & H & _)]; [congruence|done].
    + done.
    + intros [(q' & ->%app_inv_head & H)|(_ & _ & H)]; [congruence|done].
    + intros H. right. split; [|done]. intros q' ->%app_inv_head. done.
Qed.

End FSFacts.


(** ** The walk *)

Section WalkFacts.
Context {St : Type}.
Variable fs_of : St → fs.
Variable body : path → list string → list string → St → St * list string.

Lemma os_walk_unfold fuel top st :
  os_walk fs_of body fuel top st =
    match FS.scandir (fs_of st) top with
    | None => Some st
    | Some (dirs, files) =>
        match fuel with
        | 0 => None
        | S fuel' =>
            walk_dirs (os_walk fs_of body fuel') top
              (body top dirs files st).2 (body top dirs files st).1
        end
    end.
Proof.
  destruct fuel; simpl; destruct (FS.scandir _ _) as [[dirs files]|]; try done.
  by destruct (body top dirs files st).
Qed.

Lemma walk_dirs_invariant (I : St → Prop) (rec : path → St → option St) top dirs st st' :
  (∀ p st st', I st → rec p st = Some st' → I st') →
  I st → walk_dirs rec top dirs st = Some st' → I st'.
Proof.
  intros Hrec. revert st. induction dirs as [|d ds IH]; intros st Hst; simpl.
  - by intros [= <-].
  - destruct (rec (top ++ [d]) st) as [st1|] eqn:E; [|done]. eauto.
Qed.

(** A property that every turn of the loop keeps holds when the walk
    is over. *)
Lemma os_walk_invariant (I : St → Prop) :
  (∀ top dirs files st,
     I st → FS.scandir (fs_of st) top = Some (dirs, files) →
     I (body top dirs files st).1) →
  ∀ fuel top st st', I st → os_walk fs_of body fuel top st = Some st' → I st'.
Proof.
  intros Hbody. induction fuel as [|fuel IH]; intros top st st' Hst;
    rewrite os_walk_unfold;
    destruct (FS.scandir (fs_of st) top) as [[dirs files]|] eqn:E;
    try done; try by intros [= <-].
  apply walk_dirs_invariant; eauto.
Qed.

Lemma walk_dirs_mono (rec rec' : path → St → option St) top dirs st st' :
  (∀ p st st', rec p st = Some st' → rec' p st = Some st') →
  walk_dirs rec top dirs st = Some st' → walk_dirs rec' top dirs st = Some st'.
Proof.
  intros Hrec. revert st. induction dirs as [|d ds IH]; intros st; simpl; [done|].
  destruct (rec (top ++ [d]) st) as [st1|] eqn:E; [|done].
  rewrite (Hrec _ _ _ E). apply IH.
Qed.

(** More fuel does not change the result of a walk that ended. *)
Lemma os_walk_fuel_mono fuel fuel' top st st' :
  fuel ≤ fuel' →
  os_walk fs_of body fuel top st = Some st' →
  os_walk fs_of body fuel' top st = Some st'.
Proof.
  revert fuel' top st st'. induction fuel as [|fuel IH]; intros fuel' top st st' Hle;
    rewrite !os_walk_unfold;
    destruct (FS.scandir (fs_of st) top) as [[dirs files]|] eqn:E; try done.
  destruct fuel' as [|fuel']; [lia|].
  apply walk_dirs_mono. intros p st1 st2. apply IH. lia.
Qed.

(** The walk ends when the fuel exceeds the depth of every directory
    that exists while it runs. *)
Lemma os_walk_total (I : St → Prop) (D : nat) :
  (∀ st p, I st → fs_of st !! p = Some DirE → length p ≤ D) →
  (∀ top dirs files st,
     I st → FS.scandir (fs_of st) top = Some (dirs, files) →
     I (body top dirs files st).1) →
  ∀ fuel top st, I st → D < fuel + length top →
    ∃ st', os_walk fs_of body fuel top st = Some st' ∧ I st'.
Proof.
  intros Hdepth Hbody. induction fuel as [|fuel IH]; intros top st Hst Hfuel;
    rewrite os_walk_unfold;
    destruct (FS.scandir (fs_of st) top) as [[dirs files]|] eqn:E; eauto.
  - apply FSFacts.scandir_Some in E as (Hd & _). apply (Hdepth _ _ Hst) in Hd. lia.
  - pose proof (Hbody _ _ _ _ Hst E) as Hst1.
    generalize dependent (body top dirs files st).1. intros st1 Hst1.
    generalize (body top dirs files st).2. intros dirs'. clear E.
    revert st1 Hst1. induction dirs' as [|d ds IHd]; intros st1 Hst1; simpl; [eauto|].
    destruct (IH (top ++ [d]) st1 Hst1) as (st2 & -> & Hst2).
    { rewrite length_app. simpl. lia. }
    eauto.
Qed.
End WalkFacts.

Lemma depth_bound_spec (m : fs) p e : m !! p = Some e → length p ≤ depth_bound m.
Proof.
  intros H. apply max_list_elem_of_le, list_elem_of_fmap. exists p. split; [done|].
  apply list_elem_of_fmap. exists (p, e). split; [done|]. by apply elem_of_map_to_list.
Qed.


(** ** Project discovery *)

Lemma prefix_snoc_distinct (top : path) d d' a b :
  top ++ [d] `prefix_of` a → top ++ [d'] `prefix_of` b →
  a `prefix_of` b ∨ b `prefix_of` a → d = d'.
Proof.
  intros Ha Hb Hab.
  assert (∃ c, top ++ [d] `prefix_of` c ∧ top ++ [d'] `prefix_of` c) as (c & H1 & H2).
  { destruct Hab; [exists b|exists a]; split; try done; by etrans. }
  assert (top ++ [d] = top ++ [d']) as E.
  { destruct (prefix_weak_total _ _ _ H1 H2) as [H|H].
    - apply prefix_length_eq; [done|]. rewrite !length_app. simpl. lia.
    - symmetry. apply prefix_length_eq; [done|]. rewrite !length_app. simpl. lia. }
  by apply app_inj_tail in E as [_ ?].
Qed.

Lemma antichain_nil : antichain [].
Proof. split; [constructor|]. by intros a b ?%elem_of_nil. Qed.

Lemma antichain_singleton p : antichain [p].
Proof.
  split; [apply NoDup_singleton|].
  by intros a b ->%list_elem_of_singleton ->%list_elem_of_singleton.
Qed.

Lemma antichain_app l1 l2 :
  antichain l1 → antichain l2 →
  (∀ a b, a ∈ l1 → b ∈ l2 → ¬ a `prefix_of` b ∧ ¬ b `prefix_of` a) →
  antichain (l1 ++ l2).
Proof.
  intros [Hn1 H1] [Hn2 H2] Hx. split.
  - apply NoDup_app. split; [done|]. split; [|done].
    intros a Ha Hb. by destruct (Hx a a Ha Hb).
  - intros a b [Ha|Ha]%elem_of_app [Hb|Hb]%elem_of_app Hab; eauto.
    + by destruct (Hx a b Ha Hb).
    + by destruct (Hx b a Hb Ha).
Qed.

Lemma antichain_subseteq l1 l2 : NoDup l1 → l1 ⊆ l2 → antichain l2 → antichain l1.
Proof. intros Hn Hs [_ H]. split; [done|]. intros a b Ha Hb. apply H; auto. Qed.

Lemma antichain_children (top : path) cs :
  NoDup cs → antichain ((λ d, top ++ [d]) <$> cs).
Proof.
  intros Hn. split.
  - apply NoDup_fmap_2; [|done]. intros d d' E. by apply app_inj_tail in E as [_ ?].
  - intros a b (d & -> & Hd)%list_elem_of_fmap (d' & -> & Hd')%list_elem_of_fmap Hp.
    f_equal. f_equal. eapply prefix_snoc_distinct; [done|done|by left].
Qed.

Lemma remove_first_spec x (l : list string) :
  NoDup l →
  NoDup (remove_first x l) ∧ ∀ y, y ∈ remove_first x l ↔ y ∈ l ∧ y ≠ x.
Proof.
  induction l as [|d l IH]; simpl.
  - intros _. split; [constructor|]. intros y. split; [by intros ?%elem_of_nil|].
    by intros [?%elem_of_nil _].
  - intros [Hd Hn]%NoDup_cons. destruct (IH Hn) as [IH1 IH2].
    destruct (decide (d = x)) as [->|Hne].
    + split; [done|]. intros y. rewrite elem_of_cons. split.
      * intros Hy. split; [by right|]. by intros ->.
      * by intros [[->|?] ?].
    + split.
      * apply NoDup_cons. split; [|done]. rewrite IH2. by intros [? _].
      * intros y. rewrite !elem_of_cons, IH2. split.
        -- intros [->|[? ?]]; split; auto.
        -- intros [[->|?] ?]; auto.
Qed.

Lemma remove_all_spec rs (dirs : list string) :
  NoDup dirs →
  NoDup (fold_left (λ ds x, remove_first x ds) rs dirs) ∧
  ∀ y, y ∈ fold_left (λ ds x, remove_first x ds) rs dirs ↔ y ∈ dirs ∧ y ∉ rs.
Proof.
  revert dirs. induction rs as [|x rs IH]; intros dirs Hn; simpl.
  - split; [done|]. intros y. split; [|by intros [? _]].
    intros ?. split; [done|]. by intros ?%elem_of_nil.
  - destruct (remove_first_spec x dirs Hn) as [H1 H2].
    destruct (IH _ H1) as [H3 H4]. split; [done|].
    intros y. rewrite H4, H2, not_elem_of_cons. naive_solver.
Qed.

Section Discovery.
Variable cfg : Config.
Variable m : fs.
Variable processed : list path.

Lemma fold_check_subdir top dirs acc rm :
  ∃ cs rs,
    fold_left (check_subdir cfg m processed top) dirs (acc, rm)
      = (acc ++ (child_move top <$> cs), rm ++ rs) ∧
    cs ⊆ rs ∧ sublist cs dirs.
Proof.
  revert acc rm. induction dirs as [|d ds IH]; intros acc rm; simpl.
  - exists [], []. by rewrite !app_nil_r.
  - unfold check_subdir at 2. simpl.
    destruct (under_processed processed (top ++ [d])).
    { destruct (IH acc (rm ++ [d])) as (cs & rs & -> & Hs & Hsub).
      exists cs, (d :: rs). rewrite <- app_assoc. split; [done|].
      split; [set_solver|by apply sublist_cons]. }
    destruct (listed_as_project cfg m (top ++ [d])).
    { destruct (IH (acc ++ [(top ++ [d], top ++ [APPS; d])]) (rm ++ [d]))
        as (cs & rs & -> & Hs & Hsub).
      exists (d :: cs), (d :: rs). rewrite <- !app_assoc. split; [done|].
      split; [set_solver|by apply sublist_skip]. }
    destruct (IH acc rm) as (cs & rs & -> & Hs & Hsub).
    exists cs, rs. split; [done|]. split; [done|by apply sublist_cons].
Qed.

(** What one turn of the discovery loop adds, and what it leaves in
    [dirs]. *)
Lemma identify_body_spec top dirs files acc :
  NoDup dirs →
  ∃ new dirs',
    identify_body cfg m processed top dirs files acc = (acc ++ new, dirs') ∧
    ((new = [] ∧ dirs' = []) ∨
     (new = [(top, PyPath.join1 (PyPath.parent top ++ [APPS]) (PyPath.name top))]
      ∧ dirs' = []) ∨
     (∃ cs, new = child_move top <$> cs ∧ NoDup cs ∧ NoDup dirs' ∧
            ∀ d, d ∈ dirs' → d ∉ cs)).
Proof.
  intros Hn. unfold identify_body.
  destruct (under_processed processed top).
  { exists [], []. rewrite app_nil_r. auto. }
  destruct (listed_as_project cfg m top).
  { eexists _, []. split; [done|]. auto. }
  destruct (fold_check_subdir top dirs acc []) as (cs & rs & -> & Hs & Hsub).
  eexists _, _. split; [done|]. right. right. exists cs. split; [done|].
  destruct (remove_all_spec rs dirs Hn) as [H1 H2].
  split; [eapply sublist_NoDup; [|exact Hsub]; exact Hn|]. split; [done|].
  intros d [_ Hd]%H2 Hc. apply Hd. simpl. auto.
Qed.

Lemma walk_dirs_identify (rec : path → list (path * path) → option (list (path * path)))
    top ds acc acc' :
  (∀ p a a', rec p a = Some a' →
     ∃ new, a' = a ++ new ∧ antichain new.*1 ∧ under p new ∧ well_targeted new) →
  NoDup ds →
  walk_dirs rec top ds acc = Some acc' →
  ∃ new, acc' = acc ++ new ∧ antichain new.*1 ∧ well_targeted new ∧
         ∀ s, s ∈ new.*1 → ∃ d, d ∈ ds ∧ top ++ [d] `prefix_of` s.
Proof.
  intros Hrec. revert acc. induction ds as [|d ds IH]; intros acc Hn; simpl.
  - intros [= <-]. exists []. rewrite app_nil_r. split; [done|].
    split; [apply antichain_nil|]. split; [constructor|]. by intros s ?%elem_of_nil.
  - apply NoDup_cons in Hn as [Hd Hn].
    destruct (rec (top ++ [d]) acc) as [acc1|] eqn:E; [|done].
    apply Hrec in E as (n1 & -> & Ha1 & Hu1 & Hw1).
    intros (n2 & -> & Ha2 & Hw2 & Hu2)%IH; [|done].
    exists (n1 ++ n2). rewrite app_assoc. split; [done|]. rewrite fmap_app.
    split; [|split].
    + apply antichain_app; [done|done|].
      intros a b Ha Hb. destruct (Hu2 b Hb) as (d' & Hd' & Hp).
      specialize (Hu1 a Ha).
      split; intros Hab; apply Hd;
        rewrite (prefix_snoc_distinct top d d' a b); auto.
    + by apply Forall_app.
    + intros s [Hs|Hs]%elem_of_app.
      * exists d. split; [left|]. by apply Hu1.
      * destruct (Hu2 s Hs) as (d' & ? & ?). exists d'. split; [by right|done].
Qed.

(** The sources a walk from [top] records lie at or below [top] and no
    two of them are related. *)
Lemma identify_walk fuel top acc acc' :
  os_walk (λ _, m) (identify_body cfg m processed) fuel top acc = Some acc' →
  ∃ new, acc' = acc ++ new ∧ antichain new.*1 ∧ under top new ∧ well_targeted new.
Proof.
  revert top acc acc'. induction fuel as [|fuel IH]; intros top acc acc';
    rewrite os_walk_unfold;
    destruct (FS.scandir m top) as [[dirs files]|] eqn:E; try done;
    try (intros [= <-]; exists []; rewrite app_nil_r; split; [done|];
         split; [apply antichain_nil|]; split; [by intros s ?%elem_of_nil|constructor]).
  apply FSFacts.scandir_Some in E as (_ & Hnd & _).
  destruct (identify_body_spec top dirs files acc Hnd) as (new & dirs' & -> & Hcase).
  simpl. destruct Hcase as [[-> ->]|[[-> ->]|(cs & -> & Hcs & Hnd' & Hdis)]].
  - simpl. intros [= <-]. exists []. split; [done|].
    split; [apply antichain_nil|]. split; [by intros s ?%elem_of_nil|constructor].
  - simpl. intros [= <-]. eexists. split; [done|].
    split; [apply antichain_singleton|]. split.
    + by intros s ->%list_elem_of_singleton.
    + constructor; [by left|constructor].
  - intros (n2 & -> & Ha2 & Hw2 & Hu2)%walk_dirs_identify; [|by apply IH|done].
    exists ((child_move top <$> cs) ++ n2). rewrite app_assoc. split; [done|].
    assert ((child_move top <$> cs).*1 = (λ d, top ++ [d]) <$> cs) as Hsrc.
    { rewrite <- list_fmap_compose. done. }
    unfold under. rewrite fmap_app, Hsrc. split; [|split].
    + apply antichain_app; [by apply antichain_children|done|].
      intros a b (c & -> & Hc)%list_elem_of_fmap Hb.
      destruct (Hu2 b Hb) as (d' & Hd' & Hp).
      split; intros Hab; apply (Hdis d' Hd');
        rewrite <- (prefix_snoc_distinct top c d' (top ++ [c]) b); auto.
    + intros s [(c & -> & Hc)%list_elem_of_fmap|Hs]%elem_of_app.
      * by apply prefix_app_r.
      * destruct (Hu2 s Hs) as (d' & ? & Hp). etrans; [|exact Hp].
        by apply prefix_app_r.
    + apply Forall_app. split; [|done]. apply Forall_fmap, Forall_forall.
      intros c _. simpl. right. eauto.
Qed.

Lemma identify_projects_antichain fuel input ps :
  identify_projects cfg m fuel input processed = Some ps → antichain ps.*1.
Proof. intros (new & -> & H & _)%identify_walk. done. Qed.

Lemma identify_projects_well_targeted fuel input ps :
  identify_projects cfg m fuel input processed = Some ps → well_targeted ps.
Proof. intros (new & -> & _ & _ & H)%identify_walk. done. Qed.

(** Discovery ends once the fuel exceeds the depth of the tree. *)
Lemma identify_projects_total fuel input :
  depth_bound m < fuel →
  ∃ ps, identify_projects cfg m fuel input processed = Some ps.
Proof.
  intros Hf. unfold identify_projects.
  destruct (os_walk_total (λ _, m) (identify_body cfg m processed) (λ _, True)
              (depth_bound m)) with (fuel := fuel) (top := input)
              (st := @nil (path * path)) as (ps & H & _); eauto.
  - intros _ p _ H. by eapply depth_bound_spec.
  - lia.
Qed.
End Discovery.


(** ** Empty-directory reclamation *)

Lemma insert_by_depth_perm p l : insert_by_depth p l ≡ₚ p :: l.
Proof.
  induction l as [|q l IH]; simpl; [done|].
  destruct (length q <=? length p); [done|]. rewrite IH. apply Permutation_swap.
Qed.

Lemma insert_by_depth_sorted p l :
  StronglySorted deeper_first l → StronglySorted deeper_first (insert_by_depth p l).
Proof.
  induction l as [|q l IH]; simpl; intros Hs.
  - repeat constructor.
  - apply StronglySorted_cons in Hs as [Hq Hs].
    destruct (length q <=? length p) eqn:E.
    + apply Nat.leb_le in E. apply StronglySorted_cons. split.
      * constructor; [done|]. eapply Forall_impl; [exact Hq|].
        unfold deeper_first. intros; lia.
      * by apply StronglySorted_cons.
    + apply Nat.leb_gt in E. apply StronglySorted_cons. split; [|by apply IH].
      rewrite insert_by_depth_perm. constructor; [|done]. unfold deeper_first. lia.
Qed.

Lemma sorted_by_depth_perm l : sorted_by_depth l ≡ₚ l.
Proof.
  induction l as [|p l IH]; simpl; [done|].
  by rewrite insert_by_depth_perm, IH.
Qed.

Lemma sorted_by_depth_sorted l : StronglySorted deeper_first (sorted_by_depth l).
Proof.
  induction l as [|p l IH]; simpl; [constructor|]. by apply insert_by_depth_sorted.
Qed.

Section Cleanup.
Variable input_dir : path.

(** A candidate that is the root, is missing, is a file or has an
    entry is passed over: nothing changes and nothing is recorded. *)
Lemma cleanup_step_skip acc d :
  d = input_dir ∨ FS.is_empty_dir acc.1.1 d = false →
  cleanup_step input_dir acc d = acc.
Proof.
  destruct acc as [[m lg] n]. simpl. unfold cleanup_step. intros [->|He].
  - by rewrite decide_True.
  - destruct (decide (d = input_dir)); [done|]. rewrite He.
    by destruct (FS.exists_ m d && FS.is_dir m d).
Qed.

(** An empty candidate other than the root is removed and counted. *)
Lemma cleanup_step_delete m lg n d :
  d ≠ input_dir → FS.is_empty_dir m d = true →
  cleanup_step input_dir (m, lg, n) d = (delete d m, lg ++ [LogDeleted d], S n).
Proof.
  intros Hne He. unfold cleanup_step. rewrite decide_False by done. rewrite He.
  assert (FS.is_dir m d = true) as Hd.
  { unfold FS.is_empty_dir in He. by apply andb_true_iff in He as [? _]. }
  by rewrite Hd, (FSFacts.is_dir_exists _ _ Hd).
Qed.

Lemma cleanup_step_cases m lg n d :
  cleanup_step input_dir (m, lg, n) d = (m, lg, n) ∨
  (d ≠ input_dir ∧ FS.is_empty_dir m d = true ∧
   cleanup_step input_dir (m, lg, n) d = (delete d m, lg ++ [LogDeleted d], S n)).
Proof.
  destruct (decide (d = input_dir)) as [E|E].
  { left. apply (cleanup_step_skip (m, lg, n)). by left. }
  destruct (FS.is_empty_dir m d) eqn:He.
  - right. split; [done|]. split; [done|]. by apply cleanup_step_delete.
  - left. apply (cleanup_step_skip (m, lg, n)). by right.
Qed.

(** What a pass over any list of candidates does to the tree. *)
Lemma cleanup_fold_spec l m lg n m' lg' n' :
  fold_left (cleanup_step input_dir) l (m, lg, n) = (m', lg', n') →
  (∀ p, m' !! p = m !! p ∨
        (m' !! p = None ∧ m !! p = Some DirE ∧ p ∈ l ∧ p ≠ input_dir)) ∧
  size m = size m' + (n' - n) ∧ n ≤ n' ∧
  (∃ removed, lg' = lg ++ (LogDeleted <$> removed) ∧ length removed = n' - n) ∧
  (∀ d x, m !! d = Some DirE → m' !! d = None → m' !! (d ++ [x]) = None).
Proof.
  revert m lg n. induction l as [|d l IH]; intros m lg n; cbn [fold_left].
  - intros [= <- <- <-]. split; [auto|]. split; [lia|]. split; [lia|].
    split; [exists []; simpl; rewrite app_nil_r; split; [done|lia]|]. congruence.
  - destruct (cleanup_step_cases m lg n d) as [->|(Hne & He & ->)].
    + intros (H1 & H2 & H3 & H4 & H5)%IH. split; [|done].
      intros p. destruct (H1 p) as [?|(? & ? & ? & ?)]; [by left|].
      right. repeat split; try done. by right.
    + apply FSFacts.is_empty_dir_true in He as [Hd Hempty].
      intros (H1 & H2 & H3 & (removed & -> & Hlen) & H5)%IH.
      split; [|split; [|split; [|split]]].
      * intros p. destruct (decide (p = d)) as [->|Hp].
        -- right. destruct (H1 d) as [E|(E & _)].
           ++ rewrite lookup_delete_eq in E. repeat split; try done. left.
           ++ repeat split; try done. left.
        -- destruct (H1 p) as [E|(E1 & E2 & E3 & E4)].
           ++ left. by rewrite E, lookup_delete_ne.
           ++ right. rewrite lookup_delete_ne in E2 by done.
              repeat split; try done. by right.
      * rewrite map_size_delete, Hd in H2. simpl in H2.
        assert (size m ≠ 0) by (apply (map_size_ne_0_lookup_2 m d); eauto). lia.
      * lia.
      * exists (d :: removed). rewrite <- app_assoc. split; [done|]. simpl. lia.
      * intros d' x Hd' Hgone. destruct (decide (d' = d)) as [->|Hp].
        -- destruct (H1 (d ++ [x])) as [E|(E & _)]; [|done].
           rewrite E. rewrite lookup_delete_ne; [apply Hempty|].
           intros E'. apply (f_equal length) in E'.
           rewrite length_app in E'. simpl in E'. lia.
        -- apply H5; [|done]. by rewrite lookup_delete_ne.
Qed.

(** Deleting directories that are not deeper than [d] does not empty
    [d]. *)
Lemma cleanup_fold_keeps_nonempty l m lg n d :
  Forall (deeper_first d) l →
  FS.is_empty_dir m d = false →
  FS.is_empty_dir (fold_left (cleanup_step input_dir) l (m, lg, n)).1.1 d = false.
Proof.
  revert m lg n. induction l as [|d' l IH]; intros m lg n Hl He; cbn [fold_left]; [done|].
  apply Forall_cons in Hl as [Hd' Hl].
  destruct (cleanup_step_cases m lg n d') as [->|(Hne & He' & ->)]; [by apply IH|].
  apply IH; [done|].
  destruct (FS.is_empty_dir (delete d' m) d) eqn:E; [|done].
  apply FSFacts.is_empty_dir_true in E as [E1 E2].
  apply lookup_delete_Some in E1 as [Hdd E1].
  rewrite <- He. symmetry. apply FSFacts.is_empty_dir_true. split; [done|].
  intros x. specialize (E2 x). apply lookup_delete_None in E2 as [E2|E2]; [|done].
  unfold deeper_first in Hd'. rewrite E2, length_app in Hd'. simpl in Hd'. lia.
Qed.

(** After a pass in deepest-first order no candidate but the root is
    an empty directory. *)
Lemma cleanup_fold_no_empty_left l m lg n :
  StronglySorted deeper_first l →
  ∀ d, d ∈ l → d ≠ input_dir →
    FS.is_empty_dir (fold_left (cleanup_step input_dir) l (m, lg, n)).1.1 d = false.
Proof.
  revert m lg n. induction l as [|d0 l IH]; intros m lg n Hs d Hd Hne.
  { by apply elem_of_nil in Hd. }
  apply StronglySorted_cons in Hs as [Hall Hs]. cbn [fold_left].
  apply elem_of_cons in Hd as [->|Hd].
  - destruct (cleanup_step_cases m lg n d0) as [E|(_ & He & E)]; rewrite E.
    + apply cleanup_fold_keeps_nonempty; [done|].
      destruct (FS.is_empty_dir m d0) eqn:He; [|done].
      rewrite cleanup_step_delete in E by done. injection E as E _ _.
      apply FSFacts.is_empty_dir_true in He as [He _].
      apply (f_equal (.!! d0)) in E. rewrite lookup_delete_eq in E. congruence.
    + apply cleanup_fold_keeps_nonempty; [done|].
      destruct (FS.is_empty_dir (delete d0 m) d0) eqn:He'; [|done].
      apply FSFacts.is_empty_dir_true in He' as [He' _].
      by rewrite lookup_delete_eq in He'.
  - destruct (cleanup_step input_dir (m, lg, n) d0) as [[m1 lg1] n1]. by apply IH.
Qed.
End Cleanup.

Lemma cleanup_empty_directories_log input_dir candidates m m' lg n :
  cleanup_empty_directories input_dir candidates false m = (m', lg, n) →
  ∃ removed, lg = LogDeleted <$> removed.
Proof.
  intros (_ & _ & _ & (removed & -> & _) & _)%cleanup_fold_spec. by exists removed.
Qed.

(** C8: under dry-run nothing is removed and 0 is returned; otherwise
    the candidates are processed by decreasing number of components; a
    candidate that is the root, is missing or is not empty is passed over
    with no change and no record, an empty one is removed and counted;
    the pass removes only candidate directories other than the root, the
    returned count is the number of entries removed, a removed directory
    leaves no entry behind, and when it is over no candidate but the root
    is an empty directory, so a parent emptied by the removal of its
    children goes in the same pass. *)
Theorem cleanup_empty_directories_spec (input_dir : path) (candidates : list path)
    (m m' : fs) (lg : list event) (n : nat) :
  cleanup_empty_directories input_dir candidates false m = (m', lg, n) →
  cleanup_empty_directories input_dir candidates true m = (m, [], 0) ∧
  (sorted_by_depth candidates ≡ₚ candidates ∧
   StronglySorted (λ a b, length b ≤ length a) (sorted_by_depth candidates)) ∧
  (∀ acc d, d = input_dir ∨ FS.is_empty_dir acc.1.1 d = false →
            cleanup_step input_dir acc d = acc) ∧
  (∀ m0 lg0 n0 d, d ≠ input_dir → FS.is_empty_dir m0 d = true →
     cleanup_step input_dir (m0, lg0, n0) d
       = (FS.rmdir m0 d, lg0 ++ [LogDeleted d], S n0)) ∧
  (∀ p, m' !! p = m !! p ∨
        (m' !! p = None ∧ m !! p = Some DirE ∧ p ∈ candidates ∧ p ≠ input_dir)) ∧
  size m = size m' + n ∧
  (∃ removed, lg = LogDeleted <$> removed ∧ length removed = n) ∧
  (∀ d x, m !! d = Some DirE → m' !! d = None → m' !! (d ++ [x]) = None) ∧
  (∀ d, d ∈ candidates → d ≠ input_dir → FS.is_empty_dir m' d = false).
Proof.
  intros Hrun. split; [done|].
  split; [split; [apply sorted_by_depth_perm|apply sorted_by_depth_sorted]|].
  split; [apply cleanup_step_skip|]. split; [apply cleanup_step_delete|].
  unfold cleanup_empty_directories in Hrun.
  pose proof (cleanup_fold_spec _ _ _ _ _ _ _ _ Hrun)
    as (H1 & H2 & _ & (removed & H3 & H4) & H5).
  split; [|split; [|split; [|split]]].
  - intros p. destruct (H1 p) as [?|(? & ? & Hin & ?)]; [by left|].
    right. repeat split; try done. by rewrite <- sorted_by_depth_perm.
  - rewrite H2. f_equal. lia.
  - exists removed. split; [done|]. lia.
  - done.
  - intros d Hd Hne.
    pose proof (cleanup_fold_no_empty_left input_dir _ m [] 0
                  (sorted_by_depth_sorted candidates) d) as H.
    rewrite Hrun in H. apply H; [|done]. by rewrite sorted_by_depth_perm.
Qed.


(** ** The phases of a run *)

Lemma failures_app l1 l2 : failures (l1 ++ l2) = failures l1 + failures l2.
Proof. unfold failures. by rewrite List.filter_app, length_app. Qed.

Lemma file_decisions_app l1 l2 :
  file_decisions (l1 ++ l2) = file_decisions l1 ++ file_decisions l2.
Proof. apply omap_app. Qed.

Lemma project_decisions_app l1 l2 :
  project_decisions (l1 ++ l2) = project_decisions l1 ++ project_decisions l2.
Proof. apply omap_app. Qed.

Lemma join1_app p q s : PyPath.join1 (p ++ q) s = p ++ PyPath.join1 q s.
Proof. unfold PyPath.join1. destruct (decide (s = "")); [done|]. by rewrite app_assoc. Qed.

Lemma elem_of_set_add p q s : p ∈ set_add q s ↔ p = q ∨ p ∈ s.
Proof.
  unfold set_add. destruct (decide (q ∈ s)).
  - split; [auto|]. by intros [->|?].
  - rewrite elem_of_app, list_elem_of_singleton. tauto.
Qed.

Lemma NoDup_set_add q s : NoDup s → NoDup (set_add q s).
Proof.
  intros Hn. unfold set_add. destruct (decide (q ∈ s)); [done|].
  apply NoDup_app. split; [done|]. split; [|apply NoDup_singleton].
  by intros x Hx ->%list_elem_of_singleton.
Qed.

(** *** [move_project] *)

Lemma move_project_spec source destination output_dir dry_run st :
  match move_project source destination output_dir dry_run st with
  | inl _ => PyPath.relative_to destination (PyPath.parent source) = None
  | inr (st', ok) =>
      ∃ rel, PyPath.relative_to destination (PyPath.parent source) = Some rel ∧
        rs_log st' = rs_log st ++ project_events source (output_dir ++ rel) ok ∧
        rs_progress st' = rs_progress st ∧
        processed_projects st' = processed_projects st ∧
        directories_to_check st' = directories_to_check st ∧
        (dry_run = true → ok = true ∧ rs_fs st' = rs_fs st) ∧
        (dry_run = false → ok = true →
           ∃ m1, FS.mkdir_parents (rs_fs st) (PyPath.parent (output_dir ++ rel)) = Some m1 ∧
                 FS.shutil_move m1 source (output_dir ++ rel) = Some (rs_fs st'))
  end.
Proof.
  unfold move_project.
  destruct (PyPath.relative_to destination (PyPath.parent source)) as [rel|]; [|done].
  destruct dry_run.
  { exists rel. simpl. repeat split; done. }
  simpl.
  destruct (FS.mkdir_parents (rs_fs st) _) as [m1|] eqn:E1.
  - destruct (FS.shutil_move m1 source _) as [m2|] eqn:E2.
    + exists rel. simpl. repeat split; try done. intros _ _. eauto.
    + exists rel. simpl. rewrite <- app_assoc. repeat split; done.
  - exists rel. simpl. rewrite <- app_assoc. repeat split; done.
Qed.

(** *** [categorize_and_move_file] *)

Lemma categorize_and_move_file_spec cfg file_path output_dir dry_run st st' ok :
  categorize_and_move_file cfg file_path output_dir dry_run st = (st', ok) →
  ∃ overflow,
    rs_log st' = rs_log st ++
      file_events (requested_target cfg output_dir file_path)
        (decided_target cfg (rs_fs st) output_dir file_path) file_path overflow ok ∧
    rs_progress st' = rs_progress st ∧
    processed_projects st' = processed_projects st ∧
    directories_to_check st' = directories_to_check st ∧
    (dry_run = true → ok = true ∧ rs_fs st' = rs_fs st) ∧
    (rs_fs st' = rs_fs st ∨
     ∃ m1, FS.mkdir_parents (rs_fs st)
             (PyPath.div output_dir (get_category_for_file cfg (PyPath.name file_path)))
             = Some m1 ∧
           (rs_fs st' = m1 ∨
            FS.shutil_move m1 file_path
              (decided_target cfg (rs_fs st) output_dir file_path) = Some (rs_fs st'))).
Proof.
  unfold categorize_and_move_file, decided_target.
  change (PyPath.join1 (PyPath.div output_dir _) (PyPath.name file_path))
    with (requested_target cfg output_dir file_path).
  destruct (generate_unique_filename _ _) as [target overflow].
  intros H. exists overflow. revert H. unfold file_events. cbn [fst snd].
  destruct overflow, dry_run; cbn [rs_fs log];
    try (intros [= <- <-]; simpl; rewrite <- ?app_assoc; repeat split; eauto; fail);
    (destruct (FS.mkdir_parents (rs_fs st) _) as [m1|] eqn:E1;
     [destruct (FS.shutil_move m1 file_path target) as [m2|] eqn:E2|]);
    intros [= <- <-]; simpl; rewrite <- ?app_assoc; repeat split; eauto; done.
Qed.

(** *** The loops *)

Lemma project_step_spec output_dir dry_run st project :
  match project_step output_dir dry_run st project with
  | inl _ => PyPath.relative_to project.2 (PyPath.parent project.1) = None
  | inr st' =>
      ∃ rel ok,
        PyPath.relative_to project.2 (PyPath.parent project.1) = Some rel ∧
        rs_log st' = rs_log st ++ project_events project.1 (output_dir ++ rel) ok ∧
        rs_progress st' = count_project ok (rs_progress st) ∧
        processed_projects st'
          = (if ok then set_add project.1 (processed_projects st)
             else processed_projects st) ∧
        directories_to_check st' = directories_to_check st ∧
        (dry_run = true → ok = true ∧ rs_fs st' = rs_fs st) ∧
        (dry_run = false → ok = true →
           ∃ m1, FS.mkdir_parents (rs_fs st) (PyPath.parent (output_dir ++ rel)) = Some m1 ∧
                 FS.shutil_move m1 project.1 (output_dir ++ rel) = Some (rs_fs st'))
  end.
Proof.
  unfold project_step.
  pose proof (move_project_spec project.1 project.2 output_dir dry_run st) as H.
  destruct (move_project _ _ _ _ _) as [e|[st1 ok]]; [done|].
  destruct H as (rel & Hrel & Hlog & Hpr & Hproc & Hdirs & Hdry & Hreal).
  exists rel, ok. destruct ok; simpl; rewrite ?Hpr, ?Hproc; repeat split; auto;
    try (by destruct Hdry); try done.
Qed.

Lemma file_step_spec cfg output_dir dry_run top st filename :
  let st' := file_step cfg output_dir dry_run top st filename in
  st' = st ∨
  ∃ overflow ok,
    rs_log st' = rs_log st ++
      file_events (requested_target cfg output_dir (top ++ [filename]))
        (decided_target cfg (rs_fs st) output_dir (top ++ [filename]))
        (top ++ [filename]) overflow ok ∧
    rs_progress st' = count_file ok (rs_progress st) ∧
    processed_projects st' = processed_projects st ∧
    directories_to_check st' = directories_to_check st ∧
    (dry_run = true → ok = true ∧ rs_fs st' = rs_fs st) ∧
    (rs_fs st' = rs_fs st ∨
     ∃ m1, FS.mkdir_parents (rs_fs st)
             (PyPath.div output_dir (get_category_for_file cfg filename)) = Some m1 ∧
           (rs_fs st' = m1 ∨
            FS.shutil_move m1 (top ++ [filename])
              (decided_target cfg (rs_fs st) output_dir (top ++ [filename]))
              = Some (rs_fs st'))).
Proof.
  unfold file_step. destruct (existsb _ _); [by left|]. right.
  destruct (categorize_and_move_file _ _ _ _ _) as [st1 ok] eqn:E.
  apply categorize_and_move_file_spec in E
    as (overflow & Hlog & Hpr & Hproc & Hdirs & Hdry & Hfs).
  rewrite PyPathFacts.name_snoc in Hfs.
  exists overflow, ok. simpl. rewrite Hpr. repeat split; auto; try (by destruct Hdry).
Qed.

Section Relocate.
Variable cfg : Config.
Variable output_dir : path.
Variables dry_run delete_empty_dirs : bool.

(** A property kept by [add_directory] and by every turn of the loop
    over the files is kept by phase 2. *)
Lemma relocate_files_invariant (I : run_state → Prop) fuel input_dir st st' :
  (∀ p st, I st → I (add_directory p st)) →
  (∀ top st f, I st → I (file_step cfg output_dir dry_run top st f)) →
  I st →
  relocate_files cfg fuel input_dir output_dir dry_run delete_empty_dirs st = Some st' →
  I st'.
Proof.
  intros Hadd Hstep. unfold relocate_files. apply os_walk_invariant.
  clear st st'. intros top dirs files st Hst _. unfold relocate_body.
  destruct (under_processed _ _); [done|]. simpl.
  assert (I (if delete_empty_dirs then add_directory top st else st)) as Hst1
    by (destruct delete_empty_dirs; auto).
  generalize dependent (if delete_empty_dirs then add_directory top st else st).
  clear Hst. intros st1 Hst1. revert st1 Hst1.
  induction files as [|f files IH]; intros st1 Hst1; simpl; auto.
Qed.
End Relocate.

Lemma move_projects_invariant (I : run_state → Prop) output_dir dry_run ps st st' :
  (∀ st pr st', I st → project_step output_dir dry_run st pr = inr st' → I st') →
  I st → move_projects output_dir dry_run ps st = inr st' → I st'.
Proof.
  intros Hstep. revert st. induction ps as [|pr ps IH]; intros st Hst; simpl.
  - by intros [= <-].
  - destruct (project_step output_dir dry_run st pr) as [e|st1] eqn:E; [done|]. eauto.
Qed.

Lemma finish_spec input_dir dry_run delete_empty_dirs st :
  let st' := finish input_dir dry_run delete_empty_dirs st in
  rs_progress st' = rs_progress st ∧
  processed_projects st' = processed_projects st ∧
  directories_to_check st' = directories_to_check st ∧
  (∃ removed,
     rs_log st' = rs_log st
       ++ (if delete_empty_dirs then LogPhase 3 :: (LogDeleted <$> removed) else [])
       ++ [LogCompleted]) ∧
  (dry_run = true ∨ delete_empty_dirs = false ∨ directories_to_check st = [] →
   rs_fs st' = rs_fs st).
Proof.
  unfold finish. destruct delete_empty_dirs; simpl.
  - destruct (cleanup_empty_directories _ _ _ _) as [[m lg] n] eqn:E. simpl.
    repeat split.
    + destruct dry_run.
      * injection E as <- <- <-. exists []. by rewrite <- !app_assoc.
      * apply cleanup_empty_directories_log in E as (removed & ->).
        exists removed. by rewrite <- !app_assoc.
    + intros [->|[?|Hd]]; [by injection E as <- _ _|done|].
      rewrite Hd in E. destruct dry_run; by injection E as <- _ _.
  - split; [done|]. split; [done|]. split; [done|]. split; [by exists []|done].
Qed.


(** ** Termination *)

Lemma category_depth_spec cfg output_dir filename :
  length (PyPath.div output_dir (get_category_for_file cfg filename))
    ≤ category_depth cfg output_dir.
Proof.
  unfold get_category_for_file, category_depth.
  destruct (FILE_CATEGORIES cfg !! file_extension filename) as [c|] eqn:E; simpl; [|lia].
  etrans; [|apply Nat.le_max_r]. apply max_list_elem_of_le, list_elem_of_fmap.
  exists (file_extension filename, c). split; [done|]. by apply elem_of_map_to_list.
Qed.

Lemma os_rename_file m src dst d m2 :
  m !! src = Some (FileE d) → FS.os_rename m src dst = Some m2 →
  m2 = m ∨ m2 = <[dst := FileE d]> (delete src m).
Proof.
  intros Hsrc. unfold FS.os_rename. rewrite Hsrc.
  destruct (decide (src = dst)); [by intros [= <-]; left|].
  destruct (negb _); [done|]. destruct (FS.is_dir m dst); [done|].
  intros [= <-]. by right.
Qed.

(** Moving a file replaces its entry by an entry elsewhere. *)
Lemma shutil_move_file m src dst d m2 :
  m !! src = Some (FileE d) → FS.shutil_move m src dst = Some m2 →
  m2 = m ∨ ∃ real, m2 = <[real := FileE d]> (delete src m).
Proof.
  intros Hsrc. unfold FS.shutil_move. destruct (FS.is_dir m dst).
  - destruct (decide (src = dst)); [by intros [= <-]; left|].
    destruct (FS.exists_ m _); [done|].
    intros [?|?]%(os_rename_file _ _ _ d); eauto.
  - intros [?|?]%(os_rename_file _ _ _ d); eauto.
Qed.

Lemma mkdir_parents_dirs_le D m p m1 :
  dirs_le D m → length p ≤ D → FS.mkdir_parents m p = Some m1 → dirs_le D m1.
Proof.
  intros Hm Hp (_ & _ & Hnew)%FSFacts.mkdir_parents_spec q Hq.
  apply Hnew in Hq as [Hq|[_ Hq]]; [by apply Hm|].
  apply prefix_length in Hq. lia.
Qed.

Section RelocateTotal.
Variable cfg : Config.
Variable output_dir : path.
Variables dry_run delete_empty_dirs : bool.
Variable D : nat.
Hypothesis HD : category_depth cfg output_dir ≤ D.

(** Moving the file [f] of [top] keeps the directories within the
    bound and the other files of the tree files. *)
Lemma file_step_keeps top st f :
  dirs_le D (rs_fs st) → is_file (rs_fs st) (top ++ [f]) →
  dirs_le D (rs_fs (file_step cfg output_dir dry_run top st f)) ∧
  ∀ p, p ≠ top ++ [f] → is_file (rs_fs st) p →
       is_file (rs_fs (file_step cfg output_dir dry_run top st f)) p.
Proof.
  intros Hle [d Hf].
  destruct (file_step_spec cfg output_dir dry_run top st f)
    as [->|(overflow & ok & _ & _ & _ & _ & _ & Hfs)]; [by split; eauto|].
  destruct Hfs as [->|(m1 & Hmk & Hfs)]; [by split; auto|].
  assert (dirs_le D m1) as Hle1.
  { eapply mkdir_parents_dirs_le; [done| |done].
    etrans; [apply category_depth_spec|done]. }
  pose proof Hmk as (Hsub & _)%FSFacts.mkdir_parents_spec.
  assert (∀ p, is_file (rs_fs st) p → is_file m1 p) as Hfiles.
  { intros p [d' Hp]. exists d'. by eapply lookup_weaken. }
  destruct Hfs as [->|Hmv]; [by split; auto|].
  eapply shutil_move_file in Hmv as [->|[real ->]];
    [by split; auto| |by eapply lookup_weaken]. split.
  - intros p Hp. apply lookup_insert_Some in Hp as [[_ ?]|[_ Hp]]; [done|].
    apply lookup_delete_Some in Hp as [_ Hp]. by apply Hle1.
  - intros p Hne [d' Hp]%Hfiles. destruct (decide (real = p)) as [->|Hr].
    + exists d. apply lookup_insert_eq.
    + exists d'. rewrite lookup_insert_ne, lookup_delete_ne by done. done.
Qed.

Lemma file_steps_keep top files st :
  NoDup files →
  dirs_le D (rs_fs st) →
  (∀ f, f ∈ files → is_file (rs_fs st) (top ++ [f])) →
  dirs_le D (rs_fs (fold_left (file_step cfg output_dir dry_run top) files st)).
Proof.
  revert st. induction files as [|f files IH]; intros st Hn Hle Hfiles; simpl; [done|].
  apply NoDup_cons in Hn as [Hf Hn].
  destruct (file_step_keeps top st f Hle) as [Hle1 Hkeep]; [apply Hfiles; left|].
  apply IH; [done|done|]. intros f' Hf'. apply Hkeep; [|apply Hfiles; by right].
  intros E. apply app_inj_tail in E as [_ ->]. done.
Qed.

(** Phase 2 ends once the fuel exceeds the bound. *)
Lemma relocate_files_total fuel input_dir st :
  dirs_le D (rs_fs st) → D < fuel →
  ∃ st', relocate_files cfg fuel input_dir output_dir dry_run delete_empty_dirs st
           = Some st'.
Proof.
  intros Hle Hfuel. unfold relocate_files.
  destruct (os_walk_total rs_fs
              (relocate_body cfg output_dir dry_run delete_empty_dirs)
              (λ st, dirs_le D (rs_fs st)) D) with (fuel := fuel) (top := input_dir)
              (st := st) as (st' & H & _); eauto; [|lia].
  clear st Hle. intros top dirs files st Hle Hscan. unfold relocate_body.
  destruct (under_processed _ _); [done|]. simpl.
  apply FSFacts.scandir_Some in Hscan as (_ & _ & Hn & _ & Hfiles).
  apply file_steps_keep; [done|by destruct delete_empty_dirs|].
  intros f Hf. apply Hfiles in Hf. by destruct delete_empty_dirs.
Qed.
End RelocateTotal.

(** Destinations recorded by discovery never make [move_project] raise. *)
Lemma well_targeted_relative sd :
  (sd.2 = PyPath.join1 (PyPath.parent sd.1 ++ [APPS]) (PyPath.name sd.1)
   ∨ ∃ top d, sd = child_move top d) →
  PyPath.relative_to sd.2 (PyPath.parent sd.1)
    = Some (PyPath.join1 [APPS] (PyPath.name sd.1)) ∨
  ∃ top d, sd = child_move top d ∧
           PyPath.relative_to sd.2 (PyPath.parent sd.1) = Some [APPS; d].
Proof.
  intros [->|(top & d & ->)].
  - left. rewrite join1_app. apply PyPathFacts.relative_to_app.
  - right. exists top, d. split; [done|]. simpl.
    rewrite PyPathFacts.parent_snoc. apply (PyPathFacts.relative_to_app top [APPS; d]).
Qed.

Lemma move_projects_no_exception output_dir dry_run ps st :
  well_targeted ps → ∃ st', move_projects output_dir dry_run ps st = inr st'.
Proof.
  intros Hw. revert st. induction Hw as [|pr ps Hpr Hw IH]; intros st; simpl; [eauto|].
  pose proof (project_step_spec output_dir dry_run st pr) as H.
  destruct (project_step output_dir dry_run st pr) as [e|st1]; [|apply IH].
  apply well_targeted_relative in Hpr as [Hr|(? & ? & _ & Hr)]; congruence.
Qed.

Lemma identify_projects_fuel_mono cfg m fuel fuel' input_dir processed ps :
  fuel ≤ fuel' →
  identify_projects cfg m fuel input_dir processed = Some ps →
  identify_projects cfg m fuel' input_dir processed = Some ps.
Proof. apply os_walk_fuel_mono. Qed.

(** What [sort_files] does once the paths are validated. *)
Lemma sort_files_phases cfg fuel m input_dir_str output_dir_str dry_run delete_empty_dirs
    input_dir output_dir r :
  validate_input_paths m input_dir_str output_dir_str = inr (input_dir, output_dir) →
  sort_files cfg fuel m input_dir_str output_dir_str dry_run delete_empty_dirs = Some r →
  ∃ ps st1 st2,
    identify_projects cfg m fuel input_dir [] = Some ps ∧
    move_projects output_dir dry_run ps (log (LogPhase 1) (initial_state m)) = inr st1 ∧
    relocate_files cfg fuel input_dir output_dir dry_run delete_empty_dirs
      (log (LogPhase 2) st1) = Some st2 ∧
    r = (bool_decide (errors (rs_progress (finish input_dir dry_run delete_empty_dirs st2)) = 0),
         finish input_dir dry_run delete_empty_dirs st2).
Proof.
  intros Hv. unfold sort_files. rewrite Hv. simpl.
  destruct (identify_projects cfg m fuel input_dir []) as [ps|] eqn:Eid; [|done].
  destruct (move_projects_no_exception output_dir dry_run ps
              (log (LogPhase 1) (initial_state m))) as [st1 E1].
  { by eapply identify_projects_well_targeted. }
  rewrite E1.
  destruct (relocate_files _ _ _ _ _ _ _) as [st2|] eqn:E2; [|done].
  intros [= <-]. eauto 10.
Qed.

(** [sort_files] returns for every tree and every argument, once the
    fuel is large enough. *)
Lemma sort_files_total cfg m input_dir_str output_dir_str dry_run delete_empty_dirs :
  ∃ fuel0, ∀ fuel, fuel0 ≤ fuel →
    ∃ r, sort_files cfg fuel m input_dir_str output_dir_str dry_run delete_empty_dirs
           = Some r.
Proof.
  unfold sort_files.
  destruct (validate_input_paths m input_dir_str output_dir_str)
    as [e|[input_dir output_dir]]; [exists 0; eauto|]. simpl.
  destruct (identify_projects_total cfg m [] (S (depth_bound m)) input_dir)
    as [ps Hps]; [lia|].
  destruct (move_projects output_dir dry_run ps (log (LogPhase 1) (initial_state m)))
    as [[e st1]|st1] eqn:E1.
  { exists (S (depth_bound m)). intros fuel Hfuel.
    rewrite (identify_projects_fuel_mono _ _ _ fuel _ _ _ Hfuel Hps), E1. eauto. }
  exists (S (max (depth_bound m)
                (max (depth_bound (rs_fs st1)) (category_depth cfg output_dir)))).
  intros fuel Hfuel.
  assert (S (depth_bound m) ≤ fuel) as Hf1 by lia.
  rewrite (identify_projects_fuel_mono _ _ _ fuel _ _ _ Hf1 Hps), E1.
  set (D := max (depth_bound (rs_fs st1)) (category_depth cfg output_dir)) in *.
  assert (category_depth cfg output_dir ≤ D) as HD by lia.
  destruct (relocate_files_total cfg output_dir dry_run delete_empty_dirs D HD
              fuel input_dir (log (LogPhase 2) st1)) as [st2 ->]; [|lia|eauto].
  intros p Hp. simpl in Hp. apply depth_bound_spec in Hp. lia.
Qed.


(** ** What the log of a run contains *)

Lemma decisions_deleted removed :
  file_decisions (LogDeleted <$> removed) = [] ∧
  project_decisions (LogDeleted <$> removed) = [] ∧
  failures (LogDeleted <$> removed) = 0.
Proof. induction removed as [|d l (H1 & H2 & H3)]; simpl; auto. Qed.

Lemma project_events_read source target ok :
  file_decisions (project_events source target ok) = [] ∧
  project_decisions (project_events source target ok) = [(source, target)] ∧
  failures (project_events source target ok) = (if ok then 0 else 1).
Proof. by destruct ok. Qed.

Lemma file_events_read requested target file_path overflow ok :
  file_decisions (file_events requested target file_path overflow ok)
    = [(file_path, target)] ∧
  project_decisions (file_events requested target file_path overflow ok) = [] ∧
  failures (file_events requested target file_path overflow ok) = (if ok then 0 else 1).
Proof. by destruct overflow, ok. Qed.

(** A property of the state that every step of [sort_files] keeps holds
    of the state a validated run ends in. *)
Lemma sort_files_invariant (I : run_state → Prop)
    cfg fuel m input_dir_str output_dir_str dry_run delete_empty_dirs
    input_dir output_dir b st :
  validate_input_paths m input_dir_str output_dir_str = inr (input_dir, output_dir) →
  sort_files cfg fuel m input_dir_str output_dir_str dry_run delete_empty_dirs
    = Some (b, st) →
  I (initial_state m) →
  (∀ n st, I st → I (log (LogPhase n) st)) →
  (∀ st pr st', I st → project_step output_dir dry_run st pr = inr st' → I st') →
  (∀ p st, I st → I (add_directory p st)) →
  (∀ top st f, I st → I (file_step cfg output_dir dry_run top st f)) →
  (∀ st, I st → I (finish input_dir dry_run delete_empty_dirs st)) →
  I st.
Proof.
  intros Hv Hrun H0 Hlog Hproj Hadd Hfile Hfin.
  destruct (sort_files_phases _ _ _ _ _ _ _ _ _ _ Hv Hrun)
    as (ps & st1 & st2 & _ & H1 & H2 & [= -> ->]).
  apply Hfin. eapply relocate_files_invariant; [exact Hadd|exact Hfile| |exact H2].
  apply Hlog. eapply move_projects_invariant; [exact Hproj| |exact H1]. auto.
Qed.

Lemma count_project_counted (ok : bool) st lg pr :
  counted st →
  rs_log lg = rs_log st ++ pr → failures pr = (if ok then 0 else 1)%nat →
  rs_progress lg = count_project ok (rs_progress st) → counted lg.
Proof.
  intros [H1 H2] Hl Hf Hp. unfold counted. rewrite Hl, Hp, failures_app, Hf.
  destruct ok; simpl; lia.
Qed.

Lemma count_file_counted (ok : bool) st lg pr :
  counted st →
  rs_log lg = rs_log st ++ pr → failures pr = (if ok then 0 else 1)%nat →
  rs_progress lg = count_file ok (rs_progress st) → counted lg.
Proof.
  intros [H1 H2] Hl Hf Hp. unfold counted. rewrite Hl, Hp, failures_app, Hf.
  destruct ok; simpl; lia.
Qed.

(** The counters agree with the log when the run ends. *)
Lemma sort_files_counted cfg fuel m input_dir_str output_dir_str dry_run
    delete_empty_dirs input_dir output_dir b st :
  validate_input_paths m input_dir_str output_dir_str = inr (input_dir, output_dir) →
  sort_files cfg fuel m input_dir_str output_dir_str dry_run delete_empty_dirs
    = Some (b, st) →
  counted st.
Proof.
  intros Hv Hrun. apply (sort_files_invariant counted _ _ _ _ _ _ _ _ _ _ _ Hv Hrun).
  - split; reflexivity.
  - intros n st0 [H1 H2]. split; simpl; [|done].
    rewrite failures_app. simpl. unfold failures in *. simpl. lia.
  - intros st0 pr st' Hc Hstep.
    pose proof (project_step_spec output_dir dry_run st0 pr) as H. rewrite Hstep in H.
    destruct H as (rel & ok & _ & Hl & Hp & _).
    eapply count_project_counted; [done|exact Hl| |exact Hp].
    apply project_events_read.
  - by intros p st0 [H1 H2].
  - intros top st0 f Hc.
    destruct (file_step_spec cfg output_dir dry_run top st0 f)
      as [->|(overflow & ok & Hl & Hp & _)]; [done|].
    eapply count_file_counted; [done|exact Hl| |exact Hp]. apply file_events_read.
  - intros st0 [H1 H2].
    destruct (finish_spec input_dir dry_run delete_empty_dirs st0)
      as (Hp & _ & _ & (removed & Hl) & _).
    unfold counted. rewrite Hp, Hl, !failures_app.
    destruct (decisions_deleted removed) as (_ & _ & Hd).
    assert (failures (if delete_empty_dirs
                      then LogPhase 3 :: (LogDeleted <$> removed) else []) = 0) as ->.
    { destruct delete_empty_dirs; [exact Hd|reflexivity]. }
    change (failures [LogCompleted]) with 0. lia.
Qed.

(** The log only grows, so what was logged stays logged. *)
Lemma sort_files_log cfg fuel m input_dir_str output_dir_str dry_run
    delete_empty_dirs input_dir output_dir b st :
  validate_input_paths m input_dir_str output_dir_str = inr (input_dir, output_dir) →
  sort_files cfg fuel m input_dir_str output_dir_str dry_run delete_empty_dirs
    = Some (b, st) →
  LogPhase 1 ∈ rs_log st ∧ LogPhase 2 ∈ rs_log st ∧
  List.last (rs_log st) LogUnexpected = LogCompleted.
Proof.
  intros Hv Hrun.
  destruct (sort_files_phases _ _ _ _ _ _ _ _ _ _ Hv Hrun)
    as (ps & st1 & st2 & _ & H1 & H2 & [= -> ->]).
  assert (∀ l0 output_dir dry_run top st f,
            l0 `prefix_of` rs_log st →
            l0 `prefix_of` rs_log (file_step cfg output_dir dry_run top st f)) as Hfile.
  { intros l0 o d top st f Hl.
    destruct (file_step_spec cfg o d top st f) as [->|(? & ? & -> & _)]; [done|].
    by apply prefix_app_r. }
  assert ([LogPhase 1] `prefix_of` rs_log st1) as Hp1.
  { eapply (move_projects_invariant (λ st, [LogPhase 1] `prefix_of` rs_log st));
      [ | |exact H1]; [|done].
    intros st0 pr st' Hl Hstep.
    pose proof (project_step_spec output_dir dry_run st0 pr) as H. rewrite Hstep in H.
    destruct H as (rel & ok & _ & -> & _). by apply prefix_app_r. }
  assert ((rs_log st1 ++ [LogPhase 2]) `prefix_of` rs_log st2) as Hp2.
  { eapply (relocate_files_invariant _ _ _ _
              (λ st, (rs_log st1 ++ [LogPhase 2]) `prefix_of` rs_log st));
      [ | | |exact H2]; [done|by intros; apply Hfile|done]. }
  destruct (finish_spec input_dir dry_run delete_empty_dirs st2)
    as (_ & _ & _ & (removed & Hl) & _).
  rewrite Hl. split; [|split].
  - apply elem_of_app. left. destruct Hp2 as [k ->]. destruct Hp1 as [k' ->].
    apply elem_of_app. left. apply elem_of_app. left. left.
  - apply elem_of_app. left. destruct Hp2 as [k ->].
    apply elem_of_app. left. apply elem_of_app. right. left.
  - rewrite app_assoc. apply last_last.
Qed.

Lemma sort_files_returned cfg fuel m input_dir_str output_dir_str dry_run
    delete_empty_dirs input_dir output_dir b st :
  validate_input_paths m input_dir_str output_dir_str = inr (input_dir, output_dir) →
  sort_files cfg fuel m input_dir_str output_dir_str dry_run delete_empty_dirs
    = Some (b, st) →
  b = bool_decide (errors (rs_progress st) = 0).
Proof.
  intros Hv Hrun.
  destruct (sort_files_phases _ _ _ _ _ _ _ _ _ _ Hv Hrun)
    as (ps & st1 & st2 & _ & _ & _ & [= Hb Hst]).
  by rewrite Hb, Hst.
Qed.


(** ** The claimed-project set *)

Lemma move_projects_processed output_dir dry_run ps st st' :
  move_projects output_dir dry_run ps st = inr st' →
  NoDup (processed_projects st) →
  NoDup (processed_projects st') ∧
  processed_projects st ⊆ processed_projects st' ∧
  processed_projects st' ⊆ processed_projects st ++ ps.*1.
Proof.
  revert st. induction ps as [|pr ps IH]; intros st; simpl.
  - intros [= <-] Hn. split; [done|]. split; [done|]. by rewrite app_nil_r.
  - destruct (project_step output_dir dry_run st pr) as [e|st1] eqn:E; [done|].
    pose proof (project_step_spec output_dir dry_run st pr) as H. rewrite E in H.
    destruct H as (rel & ok & _ & _ & _ & Hproc & _).
    intros Hrun Hn. destruct (IH st1 Hrun) as (H1 & H2 & H3).
    { rewrite Hproc. destruct ok; [by apply NoDup_set_add|done]. }
    split; [done|]. rewrite Hproc in H2, H3. split.
    + intros p Hp. apply H2. destruct ok; [|done]. apply elem_of_set_add. by right.
    + intros p [Hp|Hp]%H3%elem_of_app.
      * destruct ok; [|set_solver]. apply elem_of_set_add in Hp as [->|Hp]; set_solver.
      * set_solver.
Qed.

(** C7: the sources that discovery records are pairwise unrelated (none
    is equal to, an ancestor of or a descendant of another); every step
    of a run keeps or extends [processed_projects] and none removes from
    it; and the set a run ends with is a duplicate-free part of the
    recorded sources, hence pairwise unrelated as well. *)
Theorem claimed_projects_invariant cfg fuel m input_dir_str output_dir_str
    dry_run delete_empty_dirs :
  (∀ input_dir processed ps,
     identify_projects cfg m fuel input_dir processed = Some ps → antichain ps.*1) ∧
  (∀ output_dir st project st',
     project_step output_dir dry_run st project = inr st' →
     processed_projects st ⊆ processed_projects st') ∧
  (∀ output_dir top st filename,
     processed_projects (file_step cfg output_dir dry_run top st filename)
       = processed_projects st) ∧
  (∀ p st, processed_projects (add_directory p st) = processed_projects st) ∧
  (∀ input_dir st,
     processed_projects (finish input_dir dry_run delete_empty_dirs st)
       = processed_projects st) ∧
  (∀ b st,
     sort_files cfg fuel m input_dir_str output_dir_str dry_run delete_empty_dirs
       = Some (b, st) →
     antichain (processed_projects st)).
Proof.
  split; [intros; by eapply identify_projects_antichain|].
  split.
  { intros output_dir st pr st' Hstep.
    pose proof (project_step_spec output_dir dry_run st pr) as H. rewrite Hstep in H.
    destruct H as (rel & ok & _ & _ & _ & -> & _).
    destruct ok; [|done]. intros p Hp. apply elem_of_set_add. by right. }
  assert (∀ output_dir top st filename,
            processed_projects (file_step cfg output_dir dry_run top st filename)
              = processed_projects st) as Hfile.
  { intros output_dir top st f.
    by destruct (file_step_spec cfg output_dir dry_run top st f)
      as [->|(? & ? & _ & _ & -> & _)]. }
  split; [done|]. split; [done|].
  assert (∀ input_dir st,
            processed_projects (finish input_dir dry_run delete_empty_dirs st)
              = processed_projects st) as Hfin.
  { intros input_dir st. apply finish_spec. }
  split; [done|].
  intros b st Hrun.
  destruct (validate_input_paths m input_dir_str output_dir_str)
    as [e|[input_dir output_dir]] eqn:Hv.
  { unfold sort_files in Hrun. rewrite Hv in Hrun. injection Hrun as <- <-.
    apply antichain_nil. }
  destruct (sort_files_phases _ _ _ _ _ _ _ _ _ _ Hv Hrun)
    as (ps & st1 & st2 & Hid & H1 & H2 & [= -> ->]).
  rewrite Hfin.
  assert (processed_projects st2 = processed_projects st1) as ->.
  { eapply (relocate_files_invariant _ _ _ _
              (λ st, processed_projects st = processed_projects st1));
      [ | | |exact H2]; [done| |done].
    intros top st f <-. apply Hfile. }
  apply move_projects_processed in H1 as (Hn & _ & Hsub); [|constructor].
  eapply antichain_subseteq; [done|exact Hsub|].
  simpl. by eapply identify_projects_antichain.
Qed.

(** ** Dry run *)

Lemma move_projects_decisions output_dir dry_run ps st st' :
  move_projects output_dir dry_run ps st = inr st' →
  project_decisions (rs_log st')
    = project_decisions (rs_log st) ++ recorded_targets output_dir ps.
Proof.
  revert st. induction ps as [|pr ps IH]; intros st; simpl.
  - intros [= <-]. by rewrite app_nil_r.
  - destruct (project_step output_dir dry_run st pr) as [e|st1] eqn:E; [done|].
    pose proof (project_step_spec output_dir dry_run st pr) as H. rewrite E in H.
    destruct H as (rel & ok & Hrel & Hlog & _).
    intros ->%IH. rewrite Hlog, project_decisions_app.
    destruct (project_events_read pr.1 (output_dir ++ rel) ok) as (_ & -> & _).
    unfold recorded_targets. simpl. rewrite Hrel. simpl. by rewrite <- app_assoc.
Qed.

(** The project decisions of a run are those of discovery, with or
    without the dry-run flag. *)
Lemma sort_files_project_decisions cfg fuel m input_dir_str output_dir_str dry_run
    delete_empty_dirs input_dir output_dir b st :
  validate_input_paths m input_dir_str output_dir_str = inr (input_dir, output_dir) →
  sort_files cfg fuel m input_dir_str output_dir_str dry_run delete_empty_dirs
    = Some (b, st) →
  ∃ ps, identify_projects cfg m fuel input_dir [] = Some ps ∧
        project_decisions (rs_log st) = recorded_targets output_dir ps.
Proof.
  intros Hv Hrun.
  destruct (sort_files_phases _ _ _ _ _ _ _ _ _ _ Hv Hrun)
    as (ps & st1 & st2 & Hid & H1 & H2 & [= -> ->]).
  exists ps. split; [done|]. apply move_projects_decisions in H1. simpl in H1.
  destruct (finish_spec input_dir dry_run delete_empty_dirs st2)
    as (_ & _ & _ & (removed & ->) & _).
  rewrite !project_decisions_app.
  assert (project_decisions (if delete_empty_dirs
            then LogPhase 3 :: (LogDeleted <$> removed) else []) = []) as ->.
  { destruct delete_empty_dirs; [|done]. apply (decisions_deleted removed). }
  simpl. rewrite !app_nil_r.
  eapply (relocate_files_invariant _ _ _ _
            (λ st, project_decisions (rs_log st) = recorded_targets output_dir ps));
    [ | | |exact H2]; [done| |].
  - intros top st f <-.
    destruct (file_step_spec cfg output_dir dry_run top st f)
      as [->|(overflow & ok & -> & _)]; [done|].
    rewrite project_decisions_app.
    destruct (file_events_read
                (requested_target cfg output_dir (top ++ [f]))
                (decided_target cfg (rs_fs st) output_dir (top ++ [f]))
                (top ++ [f]) overflow ok) as (_ & -> & _).
    by rewrite app_nil_r.
  - simpl. rewrite project_decisions_app, H1. simpl. by rewrite app_nil_r.
Qed.




(** ** A project at the input root *)

Lemma under_processed_elem s p : p ∈ s → under_processed s p = true.
Proof.
  intros Hp. unfold under_processed. apply existsb_exists. exists p.
  split; [by apply list_elem_of_In|]. by rewrite bool_decide_eq_true_2.
Qed.

Lemma listed_as_project_scandir cfg m p :
  listed_as_project cfg m p = true → ∃ dirs files, FS.scandir m p = Some (dirs, files).
Proof.
  unfold listed_as_project, cache_directory_contents, FS.listdir, FS.scandir.
  destruct (FS.is_dir m p); [eauto|done].
Qed.

(** Discovery stops at a root that is listed as a project. *)
Lemma identify_projects_root cfg m fuel input_dir :
  listed_as_project cfg m input_dir = true →
  identify_projects cfg m (S fuel) input_dir []
    = Some [(input_dir,
             PyPath.join1 (PyPath.parent input_dir ++ [APPS]) (PyPath.name input_dir))].
Proof.
  intros Hl. unfold identify_projects. rewrite os_walk_unfold.
  destruct (listed_as_project_scandir _ _ _ Hl) as (dirs & files & ->).
  unfold identify_body. simpl. by rewrite Hl.
Qed.

(** Phase 2 does nothing when the root is claimed. *)
Lemma relocate_files_root_claimed cfg fuel input_dir output_dir dry_run
    delete_empty_dirs st :
  input_dir ∈ processed_projects st →
  relocate_files cfg (S fuel) input_dir output_dir dry_run delete_empty_dirs st = Some st.
Proof.
  intros Hp. unfold relocate_files. rewrite os_walk_unfold.
  destruct (FS.scandir (rs_fs st) input_dir) as [[dirs files]|]; [|done].
  unfold relocate_body. by rewrite under_processed_elem.
Qed.

Lemma project_target_relative output_dir input_dir :
  PyPath.relative_to
    (PyPath.join1 (PyPath.parent input_dir ++ [APPS]) (PyPath.name input_dir))
    (PyPath.parent input_dir) = Some (PyPath.join1 [APPS] (PyPath.name input_dir)) ∧
  output_dir ++ PyPath.join1 [APPS] (PyPath.name input_dir)
    = project_target output_dir input_dir.
Proof.
  split.
  - rewrite join1_app. apply PyPathFacts.relative_to_app.
  - unfold project_target. by rewrite join1_app.
Qed.

(** A directory moved to a free destination reappears there entry by
    entry. *)
Lemma shutil_move_dir m src dst m2 q e :
  m !! src = Some DirE → m !! dst = None →
  FS.shutil_move m src dst = Some m2 →
  m !! (src ++ q) = Some e → m2 !! (dst ++ q) = Some e.
Proof.
  intros Hsrc Hdst. unfold FS.shutil_move, FS.os_rename.
  assert (FS.is_dir m dst = false) as ->.
  { apply not_true_is_false. rewrite FSFacts.is_dir_true. congruence. }
  rewrite Hsrc. destruct (decide (src = dst)) as [->|Hne]; [congruence|].
  destruct (negb _); [done|]. destruct (bool_decide _); [done|].
  destruct (FS.exists_ m dst); [done|]. intros [= <-] Hq.
  by rewrite FSFacts.lookup_move_tree_dst, Hq.
Qed.

(** Phase 1 on the single relocation of the root, when its move
    succeeds (or is only simulated). *)
Lemma move_projects_root (output_dir : path) (dry_run : bool) (input_dir : path)
    (m m2 : fs) :
  (if dry_run then m2 = m
   else ∃ m1, FS.mkdir_parents m (PyPath.parent (project_target output_dir input_dir))
                = Some m1 ∧
              FS.shutil_move m1 input_dir (project_target output_dir input_dir)
                = Some m2) →
  move_projects output_dir dry_run
    [(input_dir,
      PyPath.join1 (PyPath.parent input_dir ++ [APPS]) (PyPath.name input_dir))]
    (log (LogPhase 1) (initial_state m))
  = inr (mkState m2
           [LogPhase 1; LogProject input_dir (project_target output_dir input_dir)]
           (mkProgress 1 1 0 0) [input_dir] []).
Proof.
  intros Hm2. destruct (project_target_relative output_dir input_dir) as [Hrel Htarget].
  cbn [move_projects]. unfold project_step, move_project. cbn [fst snd].
  rewrite Hrel, Htarget. destruct dry_run.
  - subst m2. reflexivity.
  - destruct Hm2 as (m1 & Hmk & Hmv). cbn [rs_fs log initial_state].
    rewrite Hmk, Hmv. reflexivity.
Qed.


(** ** The theorems at concrete trees *)

Lemma claimed_projects_invariant_witness :
  identify_projects default_config nested_projects_tree 5 ["in"] []
    = Some [(["in"; "outer"], ["in"; "Applications_And_Projects"; "outer"]);
            (["in"; "tools"; "Viewer.app"],
             ["in"; "tools"; "Applications_And_Projects"; "Viewer.app"])] ∧
  antichain [["in"; "outer"]; ["in"; "tools"; "Viewer.app"]].
Proof.
  split; [vm_compute; reflexivity|].
  apply (proj1 (claimed_projects_invariant default_config 5 nested_projects_tree
                  ["in"] None false false) ["in"] []
           [(["in"; "outer"], ["in"; "Applications_And_Projects"; "outer"]);
            (["in"; "tools"; "Viewer.app"],
             ["in"; "tools"; "Applications_And_Projects"; "Viewer.app"])]).
  vm_compute; reflexivity.
Defined.

Lemma cleanup_empty_directories_spec_witness :
  let r := cleanup_empty_directories ["input"] emptied_candidates false emptied_tree in
  r.1.2 = [LogDeleted ["input"; "nested"; "deep"]; LogDeleted ["input"; "empty_folder"];
           LogDeleted ["input"; "nested"]] ∧
  r.2 = 3 ∧
  size emptied_tree = size r.1.1 + r.2 ∧
  FS.is_empty_dir r.1.1 ["input"; "nested"] = false.
Proof.
  intros r. split; [vm_compute; reflexivity|]. split; [vm_compute; reflexivity|].
  destruct (cleanup_empty_directories_spec ["input"] emptied_candidates emptied_tree
              r.1.1 r.1.2 r.2) as (_ & _ & _ & _ & _ & Hsize & _ & _ & Hleft).
  - subst r. by destruct (cleanup_empty_directories _ _ _ _) as [[m' lg] n].
  - split; [exact Hsize|]. apply Hleft.
    + apply (bool_decide_unpack _). vm_compute; reflexivity.
    + intros E. discriminate E.
Defined.


(** C10 as stated fails in two ways.  Under dry-run the root is claimed
    but the tree stays where it is.  In a real run the move of the root
    can fail: here the root is listed as a project and recorded, its
    destination is taken, and phase 2 categorizes [main.py] on its own
    while [.git] stays where it was. *)
Lemma root_project_counterexample :
  let dry := sort_files default_config 5 root_project_tree ["in"] (Some ["out"])
               true false in
  let run := sort_files default_config 5 stuck_root_tree ["in"] (Some ["out"])
               false false in
  (claimed dry = Some [["in"]] ∧
   entry_at ["in"; ".git"] dry = Some (Some DirE) ∧
   entry_at ["out"; "Applications_And_Projects"; "in"; ".git"] dry = Some None) ∧
  listed_as_project default_config stuck_root_tree ["in"] = true ∧
  identify_projects default_config stuck_root_tree 5 ["in"] []
    = Some [(["in"], ["Applications_And_Projects"; "in"])] ∧
  returned run = Some false ∧
  file_decisions <$> logged run
    = Some [(["in"; "main.py"], ["out"; "Miscellaneous"; "Other"; "main.py"])] ∧
  entry_at ["in"; ".git"] run = Some (Some DirE) ∧
  entry_at ["in"; "main.py"] run = Some None ∧
  entry_at ["out"; "Miscellaneous"; "Other"; "main.py"] run = Some (Some (FileE "m")).
Proof. vm_compute. repeat split; reflexivity. Qed.


(** ** The test suite on the model

    The assertions of [test_file_sorter.py], evaluated on the embedding.
    They all hold but the one of
    [test_validate_input_paths_output_inside_input], which is the
    subject of [sort_files_nested_output_not_rejected]. *)

Example test_validate_input_paths_valid :
  validate_input_paths test_dirs test_input (Some test_output)
    = inr (test_input, test_output).
Proof. vm_compute; reflexivity. Qed.

Example test_validate_input_paths_nonexistent_input :
  validate_input_paths test_dirs ["tmp"; "nonexistent"] None = inl FileNotFoundError.
Proof. vm_compute; reflexivity. Qed.

Example test_validate_input_paths_input_is_file :
  validate_input_paths (touch ["tmp"; "test_file.txt"] "" test_dirs)
    ["tmp"; "test_file.txt"] None = inl NotADirectoryError.
Proof. vm_compute; reflexivity. Qed.

Example test_validate_input_paths_same_input_output :
  validate_input_paths test_dirs test_input (Some test_input)
    = inl (ValueError "Input and output directories cannot be the same").
Proof. vm_compute; reflexivity. Qed.

Example test_validate_input_paths_default_output :
  validate_input_paths test_dirs test_input None
    = inr (test_input, ["tmp"; "input_Sorted"]).
Proof. vm_compute; reflexivity. Qed.

Example test_get_category_known_extensions :
  get_category_for_file test_config <$>
    ["document.txt"; "photo.jpg"; "script.py"; "archive.zip"; "music.mp3"; "video.mp4"]
  = ["Documents/Text"; "Images/Photos"; "SourceCode/Python"; "Archives";
     "Audio/Music"; "Video/Common"].
Proof. vm_compute; reflexivity. Qed.

Example test_get_category_unknown_extension :
  get_category_for_file test_config "unknown.xyz" = "Miscellaneous/Other".
Proof. vm_compute; reflexivity. Qed.

Example test_get_category_case_insensitive :
  get_category_for_file test_config <$> ["DOCUMENT.TXT"; "Photo.JPG"; "Script.PY"]
  = ["Documents/Text"; "Images/Photos"; "SourceCode/Python"].
Proof. vm_compute; reflexivity. Qed.

Example test_get_category_no_extension :
  get_category_for_file test_config "README" = "Miscellaneous/Other".
Proof. vm_compute; reflexivity. Qed.

Example test_get_category_multiple_dots :
  get_category_for_file test_config "archive.tar.gz" = "Miscellaneous/Other".
Proof. vm_compute; reflexivity. Qed.

Example test_is_project_folder :
  is_project_or_app_folder test_config test_input [".git"; "README.md"] = true ∧
  is_project_or_app_folder test_config test_input ["package.json"; "node_modules"] = true ∧
  is_project_or_app_folder test_config test_input ["requirements.txt"; "venv"] = true ∧
  is_project_or_app_folder test_config (test_input ++ ["TestApp.app"]) ["Contents"] = true ∧
  is_project_or_app_folder test_config test_input
    ["document.txt"; "photo.jpg"; "regular_folder"] = false.
Proof. vm_compute. repeat split; reflexivity. Qed.

Example test_generate_unique_filename_no_collision :
  generate_unique_filename (FS.exists_ test_dirs) (test_output ++ ["test.txt"])
    = (test_output ++ ["test.txt"], false).
Proof. vm_compute; reflexivity. Qed.

Example test_sort_files_basic_operation :
  let run := sort_files test_config 5 basic_operation_tree test_input (Some test_output)
               false false in
  returned run = Some true ∧
  entry_at (test_output ++ ["Documents"; "Text"; "document.txt"]) run
    = Some (Some (FileE "Test content")) ∧
  entry_at (test_output ++ ["Images"; "Photos"; "photo.jpg"]) run = Some (Some (FileE "")) ∧
  entry_at (test_output ++ ["Miscellaneous"; "Other"; "unknown.xyz"]) run
    = Some (Some (FileE "")) ∧
  entry_at (test_output ++ ["Documents"; "PDFs"; "nested.pdf"]) run
    = Some (Some (FileE "")) ∧
  entry_at (test_output ++ ["Applications_And_Projects"; "project"; ".git"]) run
    = Some (Some DirE) ∧
  entry_at (test_output ++ ["Applications_And_Projects"; "project"; "main.py"]) run
    = Some (Some (FileE "print('hello')")).
Proof. vm_compute. repeat split; reflexivity. Qed.

Example test_sort_files_dry_run :
  let run := sort_files test_config 5 dry_run_tree test_input (Some test_output)
               true false in
  returned run = Some true ∧
  entry_at (test_input ++ ["test.txt"]) run = Some (Some (FileE "content")) ∧
  entry_at (test_input ++ ["project"]) run = Some (Some DirE) ∧
  entry_at (test_output ++ ["Documents"; "Text"; "test.txt"]) run = Some None.
Proof. vm_compute. repeat split; reflexivity. Qed.

Example test_sort_files_filename_collisions :
  let run := sort_files test_config 5 same_name_tree ["input"] (Some ["output"])
               false false in
  returned run = Some true ∧
  entry_at ["output"; "Documents"; "Text"; "file.txt"] run
    = Some (Some (FileE "content1")) ∧
  entry_at ["output"; "Documents"; "Text"; "file (1).txt"] run
    = Some (Some (FileE "content2")).
Proof. vm_compute. repeat split; reflexivity. Qed.

Example test_sort_files_delete_empty_dirs :
  let run := sort_files test_config 5 delete_empty_dirs_tree test_input
               (Some test_output) false true in
  returned run = Some true ∧
  entry_at (test_input ++ ["empty_folder"]) run = Some None ∧
  entry_at (test_input ++ ["nested"; "deep"]) run = Some None ∧
  entry_at (test_input ++ ["nested"]) run = Some None ∧
  entry_at test_input run = Some (Some DirE).
Proof. vm_compute. repeat split; reflexivity. Qed.

Example test_empty_input_directory :
  returned (sort_files test_config 5 test_dirs test_input (Some test_output) false false)
    = Some true.
Proof. vm_compute; reflexivity. Qed.

Example test_nested_project_structures :
  let run := sort_files test_config 5 nested_project_tree test_input (Some test_output)
               false false in
  returned run = Some true ∧
  entry_at (test_output ++ ["Applications_And_Projects"; "outer_project"; ".git"]) run
    = Some (Some DirE) ∧
  entry_at (test_output ++ ["Applications_And_Projects"; "outer_project"; "src";
                            "inner_project"; "package.json"]) run
    = Some (Some (FileE "{}")).
Proof. vm_compute. repeat split; reflexivity. Qed.


(** * Further properties *)

(** ** Letter case *)

Module PyStrCase.
Import PyStr.

Lemma lower_ascii_slash c : lower_ascii c = slash ↔ c = slash.
Proof.
  destruct c as [[] [] [] [] [] [] [] []]; vm_compute; split; congruence.
Qed.

Lemma lower_ascii_idemp c : lower_ascii (lower_ascii c) = lower_ascii c.
Proof. by destruct c as [[] [] [] [] [] [] [] []]. Qed.

Lemma lower_idemp s : lower (lower s) = lower s.
Proof.
  induction s as [|c s IH]; simpl; [done|]. by rewrite lower_ascii_idemp, IH.
Qed.

Lemma length_lower s : String.length (lower s) = String.length s.
Proof. induction s as [|c s IH]; simpl; [done|]. by rewrite IH. Qed.

Lemma rfind_dot_lower s : rfind_dot (lower s) = rfind_dot s.
Proof.
  induction s as [|c s IH]; simpl; [done|]. rewrite IH.
  destruct (rfind_dot s); [done|].
  destruct (decide (c = dot)) as [->|Hc]; [done|].
  destruct (decide (lower_ascii c = dot)) as [E|E]; [|done].
  by apply (proj1 (PyStrFacts.lower_ascii_dot c)) in E.
Qed.

Lemma drop_lower n s : drop n (lower s) = lower (drop n s).
Proof. revert s. induction n as [|n IH]; intros [|c s]; simpl; auto. Qed.

Lemma lstrip_dot_lower s : lstrip_dot (lower s) = lower (lstrip_dot s).
Proof.
  induction s as [|c s IH]; simpl; [done|].
  destruct (decide (c = dot)) as [->|Hc]; [done|].
  destruct (decide (lower_ascii c = dot)) as [E|E]; [|done].
  by apply (proj1 (PyStrFacts.lower_ascii_dot c)) in E.
Qed.

Lemma split_slash_lower s : split_slash (lower s) = lower <$> split_slash s.
Proof.
  induction s as [|c s IH]; simpl; [done|]. rewrite IH.
  destruct (decide (c = slash)) as [->|Hc]; [done|].
  destruct (decide (lower_ascii c = slash)) as [E|E].
  { by apply (proj1 (lower_ascii_slash c)) in E. }
  by destruct (split_slash s).
Qed.

End PyStrCase.

Lemma suffix_of_name_lower nm :
  PyPath.suffix_of_name (PyStr.lower nm) = PyStr.lower (PyPath.suffix_of_name nm).
Proof.
  unfold PyPath.suffix_of_name.
  rewrite PyStrCase.rfind_dot_lower, PyStrCase.length_lower.
  destruct (PyStr.rfind_dot nm) as [i|]; [|done].
  destruct ((0 <? i) && (i <? String.length nm - 1)); [|done].
  apply PyStrCase.drop_lower.
Qed.

Lemma parse_lower s : PyPath.parse (PyStr.lower s) = PyStr.lower <$> PyPath.parse s.
Proof.
  unfold PyPath.parse. rewrite PyStrCase.split_slash_lower.
  induction (PyStr.split_slash s) as [|w l IH]; [done|].
  rewrite fmap_cons, !filter_cons, IH.
  assert (PyStr.lower w = "." ↔ w = ".") as Hd.
  { destruct w as [|c [|c' w]]; simpl; split; try congruence.
    - intros [= E]. apply (proj1 (PyStrFacts.lower_ascii_dot c)) in E.
      by rewrite E.
    - intros [= ->]. done. }
  pose proof (PyStrFacts.lower_empty w) as He.
  repeat case_decide; try done; tauto.
Qed.

Lemma name_lower p : PyPath.name (PyStr.lower <$> p) = PyStr.lower (PyPath.name p).
Proof.
  unfold PyPath.name. induction p as [|x [|y p] IH]; [done|done|].
  exact IH.
Qed.

Lemma file_extension_lower s : file_extension (PyStr.lower s) = file_extension s.
Proof.
  unfold file_extension, PyPath.suffix.
  by rewrite parse_lower, name_lower, suffix_of_name_lower, PyStrCase.lower_idemp.
Qed.

(** X1: the category of a file does not depend on the letter case of its
    name: folding the whole name to lower case first changes nothing. *)
Theorem get_category_for_file_case (cfg : Config) (filename : string) :
  get_category_for_file cfg (PyStr.lower filename) = get_category_for_file cfg filename.
Proof. unfold get_category_for_file. by rewrite file_extension_lower. Qed.


(** ** Numbered names *)

Module PyStrApp.
Import PyStr.

Lemma append_cons c a b : String c a +:+ b = String c (a +:+ b).
Proof. reflexivity. Qed.

Lemma append_nil b : "" +:+ b = b.
Proof. reflexivity. Qed.

Lemma append_nil_r a : a +:+ "" = a.
Proof. induction a as [|c a IH]; [done|]. by rewrite append_cons, IH. Qed.

Lemma append_assoc a b c : a +:+ b +:+ c = (a +:+ b) +:+ c.
Proof. induction a as [|x a IH]; [done|]. by rewrite !append_cons, IH. Qed.

Lemma length_append a b : String.length (a +:+ b) = String.length a + String.length b.
Proof.
  induction a as [|c a IH]; [done|]. rewrite append_cons. simpl. by rewrite IH.
Qed.

Lemma append_inv_tail a b t : a +:+ t = b +:+ t → a = b.
Proof.
  revert b. induction a as [|c a IH]; intros [|c' b]; intros E; try done.
  - apply (f_equal String.length) in E. rewrite !length_append in E. simpl in E. lia.
  - apply (f_equal String.length) in E. rewrite !length_append in E. simpl in E. lia.
  - rewrite !append_cons in E. injection E as -> E. by rewrite (IH b E).
Qed.

Lemma take_drop n s : take n s +:+ drop n s = s.
Proof.
  revert s. induction n as [|n IH]; intros [|c s]; simpl; try done.
  rewrite append_cons. f_equal. apply IH.
Qed.

Lemma drop_append a b : drop (String.length a) (a +:+ b) = b.
Proof.
  induction a as [|c a IH]; [by destruct b|]. rewrite append_cons. exact IH.
Qed.

Lemma take_append a b : take (String.length a) (a +:+ b) = a.
Proof.
  induction a as [|c a IH]; [by destruct b|]. rewrite append_cons. simpl.
  by rewrite IH.
Qed.

Lemma rfind_dot_append a b :
  rfind_dot (a +:+ b) =
    match rfind_dot b with
    | Some j => Some (String.length a + j)
    | None => rfind_dot a
    end.
Proof.
  induction a as [|c a IH].
  - rewrite append_nil. by destruct (rfind_dot b).
  - rewrite append_cons. simpl. rewrite IH. by destruct (rfind_dot b).
Qed.

Lemma of_nat_inj a b : of_nat a = of_nat b → a = b.
Proof.
  unfold of_nat. intros E. apply Unsigned.to_uint_inj.
  pose proof (NilEmpty.usu (Nat.to_uint a)) as Ha.
  pose proof (NilEmpty.usu (Nat.to_uint b)) as Hb.
  rewrite E in Ha. congruence.
Qed.

(** The decimal digits of a number contain no dot. *)
Lemma rfind_dot_of_uint d : rfind_dot (NilEmpty.string_of_uint d) = None.
Proof. induction d; simpl; try done; by rewrite IHd. Qed.

End PyStrApp.

Lemma stem_suffix nm : PyPath.stem_of_name nm +:+ PyPath.suffix_of_name nm = nm.
Proof.
  unfold PyPath.stem_of_name, PyPath.suffix_of_name.
  destruct (PyStr.rfind_dot nm) as [i|].
  - destruct ((0 <? i) && (i <? String.length nm - 1)).
    + apply PyStrApp.take_drop.
    + apply PyStrApp.append_nil_r.
  - apply PyStrApp.append_nil_r.
Qed.

Lemma numbered_inj target a b : numbered target a = numbered target b → a = b.
Proof.
  unfold numbered. intros E%app_inv_head. injection E as E.
  apply String.app_inj, String.app_inj in E.
  apply PyStrApp.append_inv_tail in E. by apply PyStrApp.of_nat_inj.
Qed.

Lemma numbered_fresh target n : numbered target n ≠ target.
Proof.
  unfold numbered. intros E.
  destruct (decide (target = [])) as [->|Hne]; [done|].
  destruct (exists_last Hne) as (p & nm & ->).
  unfold PyPath.stem, PyPath.suffix in E.
  rewrite PyPathFacts.parent_snoc, PyPathFacts.name_snoc in E.
  apply app_inv_head in E. injection E as E.
  apply (f_equal String.length) in E.
  rewrite <- (stem_suffix nm) in E at 3.
  rewrite !PyStrApp.length_append in E. simpl in E. lia.
Qed.

(** X2: the candidates [stem (1)suffix], [stem (2)suffix], ... that the
    unique-name generator tries are pairwise different and none of them is
    the requested path itself. *)
Theorem numbered_distinct (target : path) (a b : nat) :
  (numbered target a = numbered target b ↔ a = b) ∧ numbered target a ≠ target.
Proof.
  split; [split; [apply numbered_inj | by intros ->]|apply numbered_fresh].
Qed.

Lemma numbered_distinct_witness :
  numbered ["output"; "test.txt"] 1 ≠ numbered ["output"; "test.txt"] 2.
Proof.
  intros H.
  apply (proj1 (proj1 (numbered_distinct ["output"; "test.txt"] 1 2))) in H.
  discriminate H.
Defined.

Lemma parent_numbered target n : PyPath.parent (numbered target n) = PyPath.parent target.
Proof. unfold numbered. apply PyPathFacts.parent_snoc. Qed.

(** X3: a requested name with an extension keeps it when it is numbered:
    the counter goes between the stem and the suffix, so the numbered file
    still has the suffix of the original. *)
Theorem numbered_keeps_suffix (target : path) (n : nat) :
  PyPath.suffix target ≠ "" →
  PyPath.suffix (numbered target n) = PyPath.suffix target ∧
  PyPath.stem (numbered target n)
    = PyPath.stem target +:+ " (" +:+ PyStr.of_nat n +:+ ")".
Proof.
  intros Hs. unfold numbered.
  unfold PyPath.suffix at 1, PyPath.stem at 1. rewrite PyPathFacts.name_snoc.
  unfold PyPath.suffix, PyPath.stem in *.
  set (nm := PyPath.name target) in *.
  assert (∃ rest, PyPath.suffix_of_name nm = String PyStr.dot rest
                  ∧ PyStr.rfind_dot rest = None ∧ rest ≠ "") as (rest & Er & Hr & Hne).
  { unfold PyPath.suffix_of_name in *.
    destruct (PyStr.rfind_dot nm) as [i|] eqn:Ei; [|done].
    destruct ((0 <? i) && (i <? String.length nm - 1)) eqn:Eb; [|done].
    apply andb_true_iff in Eb as [H0 H1].
    apply Nat.ltb_lt in H0. apply Nat.ltb_lt in H1.
    destruct (PyStrFacts.rfind_dot_drop _ _ Ei) as [Hd Hn].
    exists (PyStr.drop (S i) nm). split; [done|]. split; [done|].
    intros E. apply (proj1 (PyStrFacts.drop_empty _ _)) in E. lia. }
  set (pre := PyPath.stem_of_name nm +:+ " (" +:+ PyStr.of_nat n +:+ ")").
  assert (PyPath.stem_of_name nm +:+ " (" +:+ PyStr.of_nat n +:+ ")"
            +:+ PyPath.suffix_of_name nm
          = pre +:+ PyPath.suffix_of_name nm) as ->.
  { unfold pre. by rewrite !PyStrApp.append_assoc. }
  assert (2 ≤ String.length pre) as Hpre.
  { unfold pre. rewrite !PyStrApp.length_append. simpl. lia. }
  assert (PyStr.rfind_dot (pre +:+ PyPath.suffix_of_name nm)
          = Some (String.length pre)) as Ei.
  { rewrite PyStrApp.rfind_dot_append, Er. cbn [PyStr.rfind_dot]. rewrite Hr.
    destruct (decide (PyStr.dot = PyStr.dot)); [|done]. f_equal. lia. }
  assert (String.length pre <? String.length (pre +:+ PyPath.suffix_of_name nm) - 1
          = true) as Hlt.
  { apply Nat.ltb_lt. rewrite PyStrApp.length_append, Er. simpl.
    destruct rest; [done|]. simpl. lia. }
  assert (0 <? String.length pre = true) as Hpos by (apply Nat.ltb_lt; lia).
  split.
  - unfold PyPath.suffix_of_name at 1. rewrite Ei, Hpos, Hlt. cbn [andb].
    apply PyStrApp.drop_append.
  - rewrite PyPathFacts.name_snoc. unfold PyPath.stem_of_name at 1.
    rewrite Ei, Hpos, Hlt. cbn [andb].
    apply PyStrApp.take_append.
Qed.

Lemma numbered_keeps_suffix_witness :
  PyPath.suffix (numbered ["output"; "test.txt"] 2) = ".txt" ∧
  PyPath.stem (numbered ["output"; "test.txt"] 2) = "test (2)".
Proof. apply (numbered_keeps_suffix ["output"; "test.txt"] 2). done. Defined.

(** ** The search of the unique-name generator *)

Section UniqueSearch.
Variable occupied : path → bool.
Variable target : path.

Lemma unique_loop_inv fuel counter :
counter ≤ MAX_COLLISIONS → MAX_COLLISIONS < counter + fuel →
let r := unique_loop occupied target fuel counter in
(r.2 = false →
   occupied r.1 = false ∧
   ∃ n, counter ≤ n ∧ n ≤ MAX_COLLISIONS ∧ r.1 = numbered target n ∧
        ∀ k, counter ≤ k → k < n → occupied (numbered target k) = true) ∧
(r.2 = true →
   r.1 = target ∧
   ∀ k, counter ≤ k → k ≤ MAX_COLLISIONS → occupied (numbered target k) = true).
Proof.
revert counter. induction fuel as [|fuel IH]; intros counter H1 H2; [lia|].
rewrite unique_loop_S.
destruct (occupied (numbered target counter)) eqn:Ec; cbn [negb].
- destruct (MAX_COLLISIONS <? S counter) eqn:El.
  + apply Nat.ltb_lt in El. cbn [fst snd]. split; [done|]. intros _.
    split; [done|]. intros k Hk1 Hk2. by replace k with counter by lia.
  + apply Nat.ltb_ge in El.
    destruct (IH (S counter)) as [Ha Hb]; [lia|lia|]. split.
    * intros Hf. destruct (Ha Hf) as (Ho & n & Hn1 & Hn2 & En & Hall).
      split; [done|]. exists n. repeat split; [lia|done|done|].
      intros k Hk1 Hk2. destruct (decide (k = counter)) as [->|]; [done|].
      apply Hall; lia.
    * intros Ht. destruct (Hb Ht) as (Et & Hall). split; [done|].
      intros k Hk1 Hk2. destruct (decide (k = counter)) as [->|]; [done|].
      apply Hall; lia.
- cbn [fst snd]. split; [|done]. intros _. split; [done|].
  exists counter. repeat split; [lia|done|]. intros; lia.
Qed.

(** The result is the request or one of the numbered candidates. *)
Lemma generate_unique_filename_form :
(generate_unique_filename occupied target).1 = target ∨
∃ n, (generate_unique_filename occupied target).1 = numbered target n.
Proof.
unfold generate_unique_filename. destruct (negb (occupied target)); [by left|].
destruct (unique_loop_inv MAX_COLLISIONS 1) as [Ha Hb];
  [apply MAX_COLLISIONS_pos|lia|].
destruct (unique_loop occupied target MAX_COLLISIONS 1) as [p []]; cbn [fst snd] in *.
- left. by destruct (Hb eq_refl).
- right. destruct (Ha eq_refl) as (_ & n & _ & _ & -> & _). eauto.
Qed.

Lemma generate_unique_filename_parent :
PyPath.parent (generate_unique_filename occupied target).1 = PyPath.parent target.
Proof.
destruct generate_unique_filename_form as [->|[n ->]]; [done|apply parent_numbered].
Qed.

Lemma generate_unique_filename_free :
(generate_unique_filename occupied target).2 = false →
occupied (generate_unique_filename occupied target).1 = false.
Proof.
unfold generate_unique_filename. destruct (occupied target) eqn:Et; cbn [negb]; [|done].
intros H. by apply (unique_loop_inv MAX_COLLISIONS 1);
  [apply MAX_COLLISIONS_pos|lia|].
Qed.

(** X4: what the unique-name generator returns, read backwards.  The
  result stays in the directory of the request.  Without the collision
  error it is a free path: the request itself or the first free numbered
  candidate.  With the error it is the request, which is occupied, as are
  all 10000 numbered candidates. *)
Theorem generate_unique_filename_inv :
let r := generate_unique_filename occupied target in
PyPath.parent r.1 = PyPath.parent target ∧
(r.2 = false →
   occupied r.1 = false ∧
   (r.1 = target ∨
    ∃ n, 1 ≤ n ∧ n ≤ MAX_COLLISIONS ∧ r.1 = numbered target n ∧
         occupied target = true ∧
         ∀ k, 1 ≤ k → k < n → occupied (numbered target k) = true)) ∧
(r.2 = true →
   r.1 = target ∧ occupied target = true ∧
   ∀ k, 1 ≤ k → k ≤ MAX_COLLISIONS → occupied (numbered target k) = true).
Proof.
cbv zeta. split; [apply generate_unique_filename_parent|].
unfold generate_unique_filename.
destruct (occupied target) eqn:Et; cbn [negb].
- destruct (unique_loop_inv MAX_COLLISIONS 1) as [Ha Hb];
    [apply MAX_COLLISIONS_pos|lia|].
  split.
  + intros Hf. destruct (Ha Hf) as (Ho & n & Hn1 & Hn2 & En & Hall).
    split; [done|]. right. exists n. done.
  + intros Ht. destruct (Hb Ht) as [E Hall]. done.
- cbn [fst snd]. split; [|done]. intros _. split; [done|]. by left.
Qed.

End UniqueSearch.

Lemma generate_unique_filename_inv_witness :
  FS.exists_ collision_tree
    (generate_unique_filename (FS.exists_ collision_tree) ["output"; "test.txt"]).1 = false.
Proof.
  apply (generate_unique_filename_inv (FS.exists_ collision_tree) ["output"; "test.txt"]).
  reflexivity.
Defined.


(** ** Path validation *)

Lemma default_output_ne input_dir :
  PyPath.parent input_dir ++ [PyPath.name input_dir +:+ "_Sorted"] ≠ input_dir.
Proof.
  intros E. destruct (decide (input_dir = [])) as [->|Hne]; [done|].
  destruct (exists_last Hne) as (p & nm & ->).
  rewrite PyPathFacts.parent_snoc, PyPathFacts.name_snoc in E.
  apply app_inv_head in E. injection E as E.
  apply (f_equal String.length) in E.
  rewrite PyStrApp.length_append in E. simpl in E. lia.
Qed.

Lemma validate_input_paths_ok (m : fs) (input_dir : path) (output_dir_str : option path) :
  m !! input_dir = Some DirE → output_dir_str ≠ Some input_dir →
  validate_input_paths m input_dir output_dir_str
    = inr (input_dir,
           default (PyPath.parent input_dir ++ [PyPath.name input_dir +:+ "_Sorted"])
             output_dir_str).
Proof.
  intros Hd Hne. unfold validate_input_paths.
  rewrite FSFacts.is_dir_exists by (by apply FSFacts.is_dir_true).
  rewrite (proj2 (FSFacts.is_dir_true m input_dir) Hd). cbn [negb].
  rewrite check_output_not_inside_passes.
  destruct output_dir_str as [o|]; cbn [default].
  - rewrite decide_False by congruence. done.
  - rewrite decide_False; [done|]. intros E. symmetry in E.
    by apply default_output_ne in E.
Qed.

(** X5: path validation succeeds exactly when the input is an existing
    directory and the output, if one is given, is another path.  It then
    returns the input with the given output or, by default, with the
    sibling [<name>_Sorted]; the output is not looked up, so it need not
    exist, and the default is never refused. *)
Theorem validate_input_paths_success (m : fs) (input_dir : path)
    (output_dir_str : option path) (r : path * path) :
  validate_input_paths m input_dir output_dir_str = inr r ↔
  m !! input_dir = Some DirE ∧ output_dir_str ≠ Some input_dir ∧
  r = (input_dir,
       default (PyPath.parent input_dir ++ [PyPath.name input_dir +:+ "_Sorted"])
         output_dir_str).
Proof.
  unfold validate_input_paths.
  destruct (FS.exists_ m input_dir) eqn:Ee; cbn [negb].
  2:{ apply FSFacts.exists_false in Ee. split; [done|]. intros [H _]. congruence. }
  destruct (FS.is_dir m input_dir) eqn:Ed; cbn [negb].
  2:{ split; [done|]. intros [H%FSFacts.is_dir_true _]. congruence. }
  apply FSFacts.is_dir_true in Ed.
  rewrite check_output_not_inside_passes.
  destruct output_dir_str as [o|]; cbn [default].
  - destruct (decide (input_dir = o)) as [->|Hne].
    + split; [done|]. intros (_ & H & _). done.
    + split.
      * intros [= <-]. repeat split; [done|congruence].
      * intros (_ & _ & ->). done.
  - destruct (decide _) as [E|_].
    + symmetry in E. by apply default_output_ne in E.
    + split.
      * intros [= <-]. done.
      * intros (_ & _ & ->). done.
Qed.

Lemma validate_input_paths_success_witness :
  validate_input_paths test_dirs test_input None
    = inr (test_input, ["tmp"; "input_Sorted"]).
Proof.
  apply (proj2 (validate_input_paths_success test_dirs test_input None
                  (test_input, ["tmp"; "input_Sorted"]))).
  split; [vm_compute; reflexivity|]. split; [intros H; discriminate H|reflexivity].
Defined.

(** ** Marker-based classifier *)

(** X6: the verdict of the classifier grows with the listing: a directory
    that counts as a project still does when entries are added to it, and
    the order in which the system lists the entries does not matter. *)
Theorem is_project_or_app_folder_mono (cfg : Config) (dir_path : path)
    (l1 l2 : list string) :
  (∀ x, x ∈ l1 → x ∈ l2) →
  is_project_or_app_folder cfg dir_path l1 = true →
  is_project_or_app_folder cfg dir_path l2 = true.
Proof.
  unfold is_project_or_app_folder. intros Hsub.
  destruct (existsb _ (SPECIAL_APP_DIRS_AS_FILES cfg)); [done|].
  rewrite !existsb_exists. intros (x & Hx%list_elem_of_In & Hm).
  exists x. split; [|done]. apply list_elem_of_In. auto.
Qed.

Lemma is_project_or_app_folder_mono_witness :
  is_project_or_app_folder default_config ["in"; "proj"] ["main.py"; ".git"; "README"]
    = true.
Proof.
  apply (is_project_or_app_folder_mono default_config ["in"; "proj"] [".git"; "main.py"]).
  - intros x Hx. apply list_elem_of_In. apply list_elem_of_In in Hx.
    simpl in *. tauto.
  - reflexivity.
Defined.


(** ** What the discovery pass records *)

Lemma prefix_snoc_cases (top q : path) (d : string) :
  top `prefix_of` q → q `prefix_of` top ++ [d] → q = top ∨ q = top ++ [d].
Proof.
  intros [k ->] [k2 E]. rewrite <- app_assoc in E. apply app_inv_head in E.
  destruct k as [|x k]; [left; by rewrite app_nil_r|].
  right. destruct k; [|by destruct k]. simpl in E. by injection E as ->.
Qed.

Lemma prefix_between (top q s : path) (d : string) :
  top `prefix_of` q → q `prefix_of` s → top ++ [d] `prefix_of` s →
  q = top ∨ top ++ [d] `prefix_of` q.
Proof.
  intros [k ->] [k2 ->] [r E]. rewrite <- !app_assoc in E. apply app_inv_head in E.
  destruct k as [|x k]; [left; by rewrite app_nil_r|].
  right. simpl in E. injection E as -> E. exists k. by rewrite <- app_assoc.
Qed.

Lemma prefix_strict_child (top s : path) :
  top `prefix_of` s → s ≠ top → ∃ d, top ++ [d] `prefix_of` s.
Proof.
  intros [k ->] Hne. destruct k as [|d k]; [by rewrite app_nil_r in Hne|].
  exists d, k. by rewrite <- app_assoc.
Qed.

Lemma prefix_snoc_inv (top : path) (d d' : string) :
  top ++ [d] `prefix_of` top ++ [d'] → d = d'.
Proof.
  intros [k E]. rewrite <- app_assoc in E. apply app_inv_head in E.
  simpl in E. by injection E as ->.
Qed.

Section Outermost.
Variable cfg : Config.
Variable m : fs.
Variable processed : list path.

(** The loop over [dirs] records the children that are projects and are
  not claimed, and takes these and the claimed ones out of the walk. *)
Lemma fold_check_subdir_exact top dirs acc rm :
fold_left (check_subdir cfg m processed top) dirs (acc, rm) =
  (acc ++ (child_move top <$>
             filter (λ d, negb (under_processed processed (top ++ [d]))
                          && listed_as_project cfg m (top ++ [d])) dirs),
   rm ++ filter (λ d, under_processed processed (top ++ [d])
                      || listed_as_project cfg m (top ++ [d])) dirs).
Proof.
revert acc rm. induction dirs as [|d ds IH]; intros acc rm.
- simpl. by rewrite !app_nil_r.
- cbn [fold_left]. rewrite !filter_cons. unfold check_subdir at 2. cbn [fst snd].
  destruct (under_processed processed (top ++ [d])) eqn:Eu; cbn [negb andb orb].
  + rewrite IH. rewrite decide_False, decide_True by (simpl; tauto).
    by rewrite <- app_assoc.
  + destruct (listed_as_project cfg m (top ++ [d])) eqn:El.
    * rewrite IH. rewrite !decide_True by (simpl; tauto).
      rewrite fmap_cons, <- !app_assoc. done.
    * rewrite IH. rewrite !decide_False by (simpl; tauto). done.
Qed.

Lemma walk_dirs_exact
  (rec : path → list (path * path) → option (list (path * path))) top ds acc acc' :
(∀ p a a', rec p a = Some a' →
   ∃ new, a' = a ++ new ∧ ∀ s, s ∈ new.*1 ↔ outermost_project cfg m processed p s) →
walk_dirs rec top ds acc = Some acc' →
∃ new, acc' = acc ++ new ∧
       ∀ s, s ∈ new.*1 ↔
            ∃ d, d ∈ ds ∧ outermost_project cfg m processed (top ++ [d]) s.
Proof.
intros Hrec. revert acc. induction ds as [|d ds IH]; intros acc; simpl.
- intros [= <-]. exists []. rewrite app_nil_r. split; [done|].
  intros s. split; [by intros ?%elem_of_nil|]. by intros (d & ?%elem_of_nil & _).
- destruct (rec (top ++ [d]) acc) as [acc1|] eqn:E; [|done].
  apply Hrec in E as (n1 & -> & H1).
  intros (n2 & -> & H2)%IH. exists (n1 ++ n2). rewrite app_assoc.
  split; [done|]. intros s. rewrite fmap_app, elem_of_app, H1, H2. split.
  + intros [H|(d' & Hd' & H)]; [exists d|exists d']; split; auto;
      [by left|by right].
  + intros (d' & [->|Hd']%elem_of_cons & H); [by left|right; eauto].
Qed.

Lemma outermost_child top d s :
m !! top = Some DirE → under_processed processed top = false →
listed_as_project cfg m top = false →
outermost_project cfg m processed (top ++ [d]) s →
outermost_project cfg m processed top s.
Proof.
intros Htop Hu Hl (Hp & Hall & Hs & Hout).
assert (top `prefix_of` s) as Hts
  by (trans (top ++ [d]); [by apply prefix_app_r|exact Hp]).
split; [done|]. split; [|split; [done|]].
- intros q Hq1 Hq2.
  destruct (prefix_between top q s d Hq1 Hq2 Hp) as [->|Hq]; [done|]. by apply Hall.
- intros q Hq1 Hq2 Hne.
  destruct (prefix_between top q s d Hq1 Hq2 Hp) as [->|Hq]; [done|]. by apply Hout.
Qed.

Lemma outermost_descend top s :
listed_as_project cfg m top = false →
outermost_project cfg m processed top s →
∃ d, m !! (top ++ [d]) = Some DirE ∧
     under_processed processed (top ++ [d]) = false ∧
     top ++ [d] `prefix_of` s ∧
     (s = top ++ [d] ∨
      (listed_as_project cfg m (top ++ [d]) = false ∧
       outermost_project cfg m processed (top ++ [d]) s)).
Proof.
intros Hl (Hp & Hall & Hs & Hout).
assert (s ≠ top) as Hne by (intros ->; congruence).
destruct (prefix_strict_child top s Hp Hne) as (d & Hd). exists d.
destruct (Hall (top ++ [d])) as [Hdir Hu]; [by apply prefix_app_r|done|].
split; [done|]. split; [done|]. split; [done|].
destruct (decide (s = top ++ [d])) as [->|Hsd]; [by left|right].
split.
- apply Hout; [by apply prefix_app_r|done|congruence].
- split; [done|]. split; [|split; [done|]].
  + intros q Hq1 Hq2. apply Hall; [|done].
    trans (top ++ [d]); [by apply prefix_app_r|exact Hq1].
  + intros q Hq1 Hq2 Hq3. apply Hout; [|done|done].
    trans (top ++ [d]); [by apply prefix_app_r|exact Hq1].
Qed.

Lemma outermost_needs_dir top s :
outermost_project cfg m processed top s →
m !! top = Some DirE ∧ under_processed processed top = false.
Proof. intros (Hp & Hall & _). by apply Hall. Qed.

Lemma outermost_self top :
m !! top = Some DirE → under_processed processed top = false →
listed_as_project cfg m top = true →
∀ s, outermost_project cfg m processed top s ↔ s = top.
Proof.
intros Htop Hu Hl s. split.
- intros (Hp & Hall & Hs & Hout). destruct (decide (s = top)) as [|Hne]; [done|].
  rewrite Hout in Hl; [done|done|done|congruence].
- intros ->. split; [done|]. split; [|split; [done|]].
  + intros q Hq1 Hq2. by rewrite (anti_symm prefix _ _ Hq2 Hq1).
  + intros q Hq1 Hq2 Hne. destruct Hne. by apply (anti_symm prefix).
Qed.

Lemma identify_walk_exact fuel top acc acc' :
os_walk (λ _, m) (identify_body cfg m processed) fuel top acc = Some acc' →
∃ new, acc' = acc ++ new ∧
       ∀ s, s ∈ new.*1 ↔ outermost_project cfg m processed top s.
Proof.
revert top acc acc'. induction fuel as [|fuel IH]; intros top acc acc';
  rewrite os_walk_unfold;
  destruct (FS.scandir m top) as [[dirs files]|] eqn:E; try done;
  try (intros [= <-]; exists []; rewrite app_nil_r; split; [done|];
       intros s; split; [by intros ?%elem_of_nil|];
       intros [Hd _]%outermost_needs_dir;
       by apply FSFacts.scandir_None in E).
apply FSFacts.scandir_Some in E as (Htop & Hnd & _ & Hdirs & _).
unfold identify_body.
destruct (under_processed processed top) eqn:Eu.
{ cbn [fst snd walk_dirs]. intros [= <-]. exists []. rewrite app_nil_r.
  split; [done|]. intros s; split; [by intros ?%elem_of_nil|].
  intros [_ Hu]%outermost_needs_dir. congruence. }
destruct (listed_as_project cfg m top) eqn:El.
{ cbn [fst snd walk_dirs]. intros [= <-]. eexists. split; [done|].
  intros s. rewrite outermost_self by done. cbn [fmap list_fmap fst].
  by rewrite list_elem_of_singleton. }
rewrite fold_check_subdir_exact. cbn [fst snd app].
intros (n2 & -> & H2)%walk_dirs_exact; [|by apply IH].
eexists. rewrite <- app_assoc. split; [done|].
intros s. rewrite fmap_app, elem_of_app, H2, <- list_fmap_compose.
destruct (remove_all_spec
            (filter (λ d, under_processed processed (top ++ [d])
                          || listed_as_project cfg m (top ++ [d])) dirs)
            dirs Hnd) as [_ Hrem].
split.
- intros [(d & -> & Hd)%list_elem_of_fmap|(d & Hd & Hout)].
  + apply list_elem_of_filter in Hd as [Hc Hd]. cbn [compose child_move fst].
    apply andb_prop_elim in Hc as [Hu%negb_prop_elim Hl].
    apply Is_true_true in Hl. apply Is_true_false in Hu.
    apply (outermost_child top d); [done|done|done|].
    apply outermost_self; [by apply Hdirs|done|done|done].
  + apply Hrem in Hd as [Hd Hnot]. by apply (outermost_child top d).
- intros Hout. destruct (outermost_descend top s El Hout)
    as (d & Hdir & Hu & Hp & [->|[Hl Hs]]).
  + left. apply list_elem_of_fmap. exists d. split; [done|].
    apply list_elem_of_filter. split; [|by apply Hdirs].
    rewrite Hu. destruct Hout as (_ & _ & -> & _). done.
  + right. exists d. split; [|done]. apply Hrem. split; [by apply Hdirs|].
    intros [Hc _]%list_elem_of_filter. by rewrite Hu, Hl in Hc.
Qed.

End Outermost.

(** X7: the discovery pass records exactly the outermost projects: a
    directory is recorded if and only if it is listed as a project and the
    directories from the input down to it exist, are not claimed, and are
    not listed as projects themselves. *)
Theorem identify_projects_outermost (cfg : Config) (m : fs) (fuel : nat)
    (input_dir : path) (processed : list path) (ps : list (path * path)) (s : path) :
  identify_projects cfg m fuel input_dir processed = Some ps →
  s ∈ ps.*1 ↔ outermost_project cfg m processed input_dir s.
Proof.
  intros (new & -> & H)%identify_walk_exact. apply H.
Qed.

Lemma identify_projects_outermost_witness :
  outermost_project default_config nested_projects_tree [] ["in"]
    ["in"; "tools"; "Viewer.app"].
Proof.
  apply (identify_projects_outermost default_config nested_projects_tree 5 ["in"] []
           [(["in"; "outer"], ["in"; "Applications_And_Projects"; "outer"]);
            (["in"; "tools"; "Viewer.app"],
             ["in"; "tools"; "Applications_And_Projects"; "Viewer.app"])]).
  - vm_compute. reflexivity.
  - right. left.
Defined.


(** ** Files below a claimed project *)

Lemma sort_files_invalid cfg fuel m input_dir_str output_dir_str dry_run
    delete_empty_dirs e :
  validate_input_paths m input_dir_str output_dir_str = inl e →
  sort_files cfg fuel m input_dir_str output_dir_str dry_run delete_empty_dirs
    = Some (false, log LogValidationFailed (initial_state m)).
Proof. intros Hv. unfold sort_files. by rewrite Hv. Qed.

Lemma file_step_shielded cfg output_dir dry_run top st f :
  let st' := file_step cfg output_dir dry_run top st f in
  processed_projects st' = processed_projects st ∧
  ∃ new, file_decisions (rs_log st') = file_decisions (rs_log st) ++ new ∧
         ∀ sd p, sd ∈ new → p ∈ processed_projects st → p ∉ PyPath.parents sd.1.
Proof.
  unfold file_step. destruct (existsb _ _) eqn:Ex.
  - split; [done|]. exists []. rewrite app_nil_r. split; [done|].
    by intros sd p ?%elem_of_nil.
  - destruct (categorize_and_move_file _ _ _ _ _) as [st1 ok] eqn:E.
    apply categorize_and_move_file_spec in E as (overflow & Hlog & Hpr & Hproc & _).
    cbn [set_progress processed_projects rs_log]. split; [done|].
    rewrite Hlog, file_decisions_app.
    destruct (file_events_read (requested_target cfg output_dir (top ++ [f]))
                (decided_target cfg (rs_fs st) output_dir (top ++ [f]))
                (top ++ [f]) overflow ok) as (-> & _).
    eexists. split; [done|]. intros sd p ->%list_elem_of_singleton Hp Hin.
    cbn [fst] in Hin.
    assert (existsb (λ processed, bool_decide (processed ∈ PyPath.parents (top ++ [f])))
              (processed_projects st) = true) as Ht; [|congruence].
    apply existsb_exists. exists p. split; [by apply list_elem_of_In|].
    by apply bool_decide_eq_true.
Qed.

(** X8: a file below a claimed project is never categorized: no source of
    a file decision in the log of a run has a member of
    [processed_projects] as a proper ancestor. *)
Theorem claimed_projects_shielded (cfg : Config) (fuel : nat) (m : fs)
    (input_dir_str : path) (output_dir_str : option path)
    (dry_run delete_empty_dirs : bool) (b : bool) (st : run_state)
    (source target p : path) :
  sort_files cfg fuel m input_dir_str output_dir_str dry_run delete_empty_dirs
    = Some (b, st) →
  (source, target) ∈ file_decisions (rs_log st) →
  p ∈ processed_projects st →
  ¬ (p `prefix_of` source ∧ p ≠ source).
Proof.
  intros Hrun Hin Hp Hanc. apply PyPathFacts.elem_of_parents in Hanc.
  destruct (validate_input_paths m input_dir_str output_dir_str)
    as [e|[input_dir output_dir]] eqn:Hv.
  { rewrite (sort_files_invalid _ _ _ _ _ _ _ e Hv) in Hrun.
    injection Hrun as <- <-. by apply elem_of_nil in Hin. }
  destruct (sort_files_phases _ _ _ _ _ _ _ _ _ _ Hv Hrun)
    as (ps & st1 & st2 & _ & H1 & H2 & [= -> ->]).
  destruct (finish_spec input_dir dry_run delete_empty_dirs st2)
    as (_ & Hproc & _ & (removed & Hlog) & _).
  rewrite Hproc in Hp. rewrite Hlog, !file_decisions_app in Hin.
  assert (file_decisions (if delete_empty_dirs
            then LogPhase 3 :: (LogDeleted <$> removed) else []) = []) as Hdel.
  { destruct delete_empty_dirs; [|done]. apply (decisions_deleted removed). }
  rewrite Hdel in Hin. cbn in Hin. rewrite app_nil_r in Hin.
  assert (file_decisions (rs_log st1) = []) as H0.
  { apply (move_projects_invariant (λ st, file_decisions (rs_log st) = [])
             output_dir dry_run ps (log (LogPhase 1) (initial_state m)) st1);
      [|reflexivity|exact H1].
    intros st0 pr st' Hst0 Hstep.
    pose proof (project_step_spec output_dir dry_run st0 pr) as H. rewrite Hstep in H.
    destruct H as (rel & ok & _ & -> & _). rewrite file_decisions_app, Hst0.
    apply project_events_read. }
  assert (∀ sd q, sd ∈ file_decisions (rs_log st2) → q ∈ processed_projects st2 →
                  q ∉ PyPath.parents sd.1) as Hall.
  { eapply (relocate_files_invariant _ _ _ _
              (λ st, ∀ sd q, sd ∈ file_decisions (rs_log st) → q ∈ processed_projects st →
                             q ∉ PyPath.parents sd.1)); [| | |exact H2].
    - done.
    - intros top st f Hst sd q.
      destruct (file_step_shielded cfg output_dir dry_run top st f)
        as (-> & new & -> & Hnew).
      intros [?|?]%elem_of_app; eauto.
    - cbn. rewrite file_decisions_app, H0. cbn. by intros sd q ?%elem_of_nil. }
  by apply (Hall (source, target) p).
Qed.

Lemma claimed_projects_shielded_witness :
  ∃ b st,
    sort_files test_config 5 basic_operation_tree test_input (Some test_output) false false
      = Some (b, st) ∧
    (test_input ++ ["photo.jpg"], test_output ++ ["Images"; "Photos"; "photo.jpg"])
      ∈ file_decisions (rs_log st) ∧
    ∀ p, p ∈ processed_projects st →
         ¬ (p `prefix_of` test_input ++ ["photo.jpg"] ∧ p ≠ test_input ++ ["photo.jpg"]).
Proof.
  assert (file_decisions <$>
            logged (sort_files test_config 5 basic_operation_tree test_input
                      (Some test_output) false false)
          = Some [(test_input ++ ["unknown.xyz"],
                   test_output ++ ["Miscellaneous"; "Other"; "unknown.xyz"]);
                  (test_input ++ ["document.txt"],
                   test_output ++ ["Documents"; "Text"; "document.txt"]);
                  (test_input ++ ["photo.jpg"],
                   test_output ++ ["Images"; "Photos"; "photo.jpg"]);
                  (test_input ++ ["regular_folder"; "nested.pdf"],
                   test_output ++ ["Documents"; "PDFs"; "nested.pdf"])]) as Hl
    by (vm_compute; reflexivity).
  destruct (sort_files test_config 5 basic_operation_tree test_input
              (Some test_output) false false) as [[b st]|] eqn:E; [|discriminate Hl].
  injection Hl as Hl.
  assert ((test_input ++ ["photo.jpg"], test_output ++ ["Images"; "Photos"; "photo.jpg"])
            ∈ file_decisions (rs_log st)) as Hin.
  { cbn [logged fmap option_fmap option_map snd] in Hl. rewrite Hl. right. right. left. }
  exists b, st. split; [reflexivity|]. split; [exact Hin|].
  intros p Hp.
  exact (claimed_projects_shielded test_config 5 basic_operation_tree test_input
           (Some test_output) false false b st _ _ p E Hin Hp).
Defined.


(** ** The claimed set and the counters *)

Lemma project_failed_in_events s source target (ok : bool) :
  LogProjectFailed s ∈ project_events source target ok ↔ s = source ∧ ok = false.
Proof.
  unfold project_events. destruct ok; rewrite elem_of_cons.
  - rewrite elem_of_nil. split; [by intros [?|?]|by intros [_ ?]].
  - rewrite list_elem_of_singleton. split.
    + intros [?|[= ->]]; done.
    + intros [-> _]. by right.
Qed.

Lemma project_failed_in_file_events s requested target file_path overflow ok :
  LogProjectFailed s ∉ file_events requested target file_path overflow ok.
Proof.
  unfold file_events. destruct overflow, ok; cbn;
    rewrite ?elem_of_cons, ?elem_of_nil; naive_solver.
Qed.

Lemma move_projects_claimed output_dir dry_run ps st st' :
  move_projects output_dir dry_run ps st = inr st' →
  NoDup ps.*1 →
  (∀ s, s ∈ ps.*1 → s ∉ processed_projects st ∧ LogProjectFailed s ∉ rs_log st) →
  processed_projects st'
    = processed_projects st ++ filter (λ s, LogProjectFailed s ∉ rs_log st') ps.*1 ∧
  projects_moved (rs_progress st')
    = projects_moved (rs_progress st)
      + length (filter (λ s, LogProjectFailed s ∉ rs_log st') ps.*1) ∧
  (∀ s, LogProjectFailed s ∈ rs_log st' → LogProjectFailed s ∈ rs_log st ∨ s ∈ ps.*1) ∧
  (∀ e, e ∈ rs_log st → e ∈ rs_log st') ∧
  (dry_run = true →
   ∀ s, LogProjectFailed s ∈ rs_log st' → LogProjectFailed s ∈ rs_log st).
Proof.
  revert st. induction ps as [|pr ps IH]; intros st; cbn [move_projects].
  - intros [= <-] _ _. cbn. rewrite app_nil_r. repeat split; auto.
  - rewrite fmap_cons.
    destruct (project_step output_dir dry_run st pr) as [e|st1] eqn:E; [done|].
    pose proof (project_step_spec output_dir dry_run st pr) as H. rewrite E in H.
    destruct H as (rel & ok & _ & Hlog & Hprog & Hproc & _ & Hdry & _).
    intros Hrun [Hhd Hnd]%NoDup_cons Hfresh.
    destruct (Hfresh pr.1 ltac:(left)) as [Hp1 Hf1].
    destruct (IH st1 Hrun Hnd) as (IHp & IHc & IHf & IHl & IHd).
    { intros s Hs. destruct (Hfresh s ltac:(by right)) as [Hp Hf].
      assert (s ≠ pr.1) as Hne by (intros ->; done). split.
      - rewrite Hproc. destruct ok; [|done]. rewrite elem_of_set_add. naive_solver.
      - rewrite Hlog, elem_of_app, project_failed_in_events. naive_solver. }
    assert (LogProjectFailed pr.1 ∈ rs_log st' ↔ ok = false) as Hhead.
    { split.
      - intros [Hin|Hin]%IHf; [|done].
        rewrite Hlog, elem_of_app, project_failed_in_events in Hin. naive_solver.
      - intros ->. apply IHl. rewrite Hlog, elem_of_app, project_failed_in_events.
        by right. }
    rewrite filter_cons. split; [|split; [|split; [|split]]].
    + rewrite IHp, Hproc. destruct ok.
      * rewrite decide_True by (rewrite Hhead; done).
        unfold set_add. rewrite decide_False by done. by rewrite <- app_assoc.
      * rewrite decide_False by (rewrite Hhead; auto). done.
    + rewrite IHc, Hprog. destruct ok; unfold count_project; cbn [projects_moved].
      * rewrite decide_True by (rewrite Hhead; done). rewrite length_cons. lia.
      * rewrite decide_False by (rewrite Hhead; auto). done.
    + intros s [Hin|Hin]%IHf; [|right; by right].
      rewrite Hlog, elem_of_app, project_failed_in_events in Hin.
      destruct Hin as [?|[-> _]]; [by left|right; left].
    + intros e He. apply IHl. rewrite Hlog, elem_of_app. by left.
    + intros Hd s Hs. specialize (IHd Hd s Hs).
      rewrite Hlog, elem_of_app, project_failed_in_events in IHd.
      destruct IHd as [?|[_ ->]]; [done|]. by destruct (Hdry Hd).
Qed.

(** X9: when a run ends, the claimed set holds exactly the discovered
    projects whose move did not fail, and [projects_moved] is its size.
    A dry run claims every discovered project. *)
Theorem claimed_projects_exact (cfg : Config) (fuel : nat) (m : fs)
    (input_dir_str : path) (output_dir_str : option path)
    (dry_run delete_empty_dirs : bool) (input_dir output_dir : path)
    (b : bool) (st : run_state) :
  validate_input_paths m input_dir_str output_dir_str = inr (input_dir, output_dir) →
  sort_files cfg fuel m input_dir_str output_dir_str dry_run delete_empty_dirs
    = Some (b, st) →
  ∃ ps, identify_projects cfg m fuel input_dir [] = Some ps ∧
        processed_projects st = filter (λ s, LogProjectFailed s ∉ rs_log st) ps.*1 ∧
        projects_moved (rs_progress st) = length (processed_projects st) ∧
        (dry_run = true → processed_projects st = ps.*1).
Proof.
  intros Hv Hrun.
  destruct (sort_files_phases _ _ _ _ _ _ _ _ _ _ Hv Hrun)
    as (ps & st1 & st2 & Hid & H1 & H2 & [= -> ->]).
  exists ps. split; [done|].
  destruct (move_projects_claimed _ _ _ _ _ H1) as (Hp & Hc & Hf & _ & Hd).
  { by apply (identify_projects_antichain cfg m [] fuel input_dir). }
  { intros s _. cbn. split; [apply not_elem_of_nil|].
    rewrite list_elem_of_singleton. done. }
  cbn [log processed_projects rs_progress projects_moved initial_state app] in Hp, Hc.
  assert (processed_projects st2 = processed_projects st1 ∧
          projects_moved (rs_progress st2) = projects_moved (rs_progress st1) ∧
          ∀ s, LogProjectFailed s ∈ rs_log st2 ↔ LogProjectFailed s ∈ rs_log st1)
    as (Hp2 & Hc2 & Hf2).
  { apply (relocate_files_invariant cfg output_dir dry_run delete_empty_dirs
             (λ st, processed_projects st = processed_projects st1 ∧
                    projects_moved (rs_progress st) = projects_moved (rs_progress st1) ∧
                    ∀ s, LogProjectFailed s ∈ rs_log st ↔ LogProjectFailed s ∈ rs_log st1)
             fuel input_dir (log (LogPhase 2) st1) st2); [done| | |exact H2].
    - intros top st f (Ha & Hb & Hc').
      destruct (file_step_spec cfg output_dir dry_run top st f)
        as [->|(overflow & ok & Hl & Hpr & Hpp & _)]; [done|].
      rewrite Hpp, Hpr. split; [done|]. split; [by destruct ok|].
      intros s. rewrite Hl, elem_of_app, Hc'. split; [|by left].
      intros [?|Hin]; [done|]. by apply project_failed_in_file_events in Hin.
    - split; [done|]. split; [done|]. intros s. cbn. rewrite elem_of_app.
      rewrite list_elem_of_singleton. naive_solver. }
  destruct (finish_spec input_dir dry_run delete_empty_dirs st2)
    as (Hpr3 & Hp3 & _ & (removed & Hl3) & _).
  assert (∀ s, LogProjectFailed s ∈ rs_log (finish input_dir dry_run delete_empty_dirs st2)
               ↔ LogProjectFailed s ∈ rs_log st1) as Hf3.
  { intros s. rewrite Hl3, !elem_of_app, Hf2, list_elem_of_singleton.
    split; [|by left]. intros [?|[Hin|?]]; [done| |done].
    destruct delete_empty_dirs; [|by apply elem_of_nil in Hin].
    apply elem_of_cons in Hin as [?|(x & ? & _)%list_elem_of_fmap]; done. }
  assert (filter (λ s, LogProjectFailed s ∉
                       rs_log (finish input_dir dry_run delete_empty_dirs st2)) ps.*1
          = filter (λ s, LogProjectFailed s ∉ rs_log st1) ps.*1) as Hfilter.
  { apply list_filter_iff. intros s. by rewrite Hf3. }
  cbn [fst snd]. rewrite Hp3, Hpr3, Hp2, Hc2, Hfilter, Hp, Hc.
  split; [done|]. split; [done|].
  intros Hdry. specialize (Hd Hdry).
  clear -Hd. induction (ps.*1) as [|s l IH]; [done|]. rewrite filter_cons.
  rewrite decide_True; [by rewrite IH|].
  intros Hin%Hd. cbn in Hin. by apply list_elem_of_singleton in Hin.
Qed.

Lemma claimed_projects_exact_witness :
  ∃ b st ps,
    sort_files default_config 5 stuck_project_tree ["in"] (Some ["out"]) false false
      = Some (b, st) ∧
    identify_projects default_config stuck_project_tree 5 ["in"] [] = Some ps ∧
    processed_projects st = filter (λ s, LogProjectFailed s ∉ rs_log st) ps.*1 ∧
    projects_moved (rs_progress st) = length (processed_projects st).
Proof.
  assert (returned (sort_files default_config 5 stuck_project_tree ["in"]
                      (Some ["out"]) false false) = Some false) as Hr
    by (vm_compute; reflexivity).
  destruct (sort_files default_config 5 stuck_project_tree ["in"] (Some ["out"])
              false false) as [[b st]|] eqn:E; [|discriminate Hr].
  destruct (claimed_projects_exact default_config 5 stuck_project_tree ["in"]
              (Some ["out"]) false false ["in"] ["out"] b st)
    as (ps & Hid & Hp & Hc & _).
  - vm_compute; reflexivity.
  - exact E.
  - exists b, st, ps. split; [reflexivity|]. split; [exact Hid|].
    split; [exact Hp|exact Hc].
Defined.

(** X10: [processed_items] counts the decisions: when a run ends it is the
    number of project decisions plus the number of file decisions in the
    log, whether the moves succeeded or not. *)
Theorem processed_items_counts_decisions (cfg : Config) (fuel : nat) (m : fs)
    (input_dir_str : path) (output_dir_str : option path)
    (dry_run delete_empty_dirs : bool) (b : bool) (st : run_state) :
  sort_files cfg fuel m input_dir_str output_dir_str dry_run delete_empty_dirs
    = Some (b, st) →
  processed_items (rs_progress st)
    = length (project_decisions (rs_log st)) + length (file_decisions (rs_log st)).
Proof.
  intros Hrun.
  destruct (validate_input_paths m input_dir_str output_dir_str)
    as [e|[input_dir output_dir]] eqn:Hv.
  { rewrite (sort_files_invalid _ _ _ _ _ _ _ e Hv) in Hrun. by injection Hrun as <- <-. }
  apply (sort_files_invariant
           (λ st, processed_items (rs_progress st)
                  = length (project_decisions (rs_log st))
                    + length (file_decisions (rs_log st)))
           _ _ _ _ _ _ _ _ _ _ _ Hv Hrun).
  - reflexivity.
  - intros n st0 H. cbn [log rs_log rs_progress].
    rewrite project_decisions_app, file_decisions_app, !length_app. cbn. lia.
  - intros st0 pr st' H Hstep.
    pose proof (project_step_spec output_dir dry_run st0 pr) as Hs. rewrite Hstep in Hs.
    destruct Hs as (rel & ok & _ & -> & -> & _).
    rewrite project_decisions_app, file_decisions_app, !length_app.
    destruct (project_events_read pr.1 (output_dir ++ rel) ok) as (-> & -> & _).
    destruct ok; cbn; lia.
  - done.
  - intros top st0 f H.
    destruct (file_step_spec cfg output_dir dry_run top st0 f)
      as [->|(overflow & ok & -> & -> & _)]; [done|].
    rewrite project_decisions_app, file_decisions_app, !length_app.
    destruct (file_events_read (requested_target cfg output_dir (top ++ [f]))
                (decided_target cfg (rs_fs st0) output_dir (top ++ [f]))
                (top ++ [f]) overflow ok) as (-> & -> & _).
    destruct ok; cbn; lia.
  - intros st0 H.
    destruct (finish_spec input_dir dry_run delete_empty_dirs st0)
      as (-> & _ & _ & (removed & ->) & _).
    rewrite !project_decisions_app, !file_decisions_app, !length_app.
    assert (project_decisions (if delete_empty_dirs
              then LogPhase 3 :: (LogDeleted <$> removed) else []) = [] ∧
            file_decisions (if delete_empty_dirs
              then LogPhase 3 :: (LogDeleted <$> removed) else []) = []) as [-> ->].
    { destruct delete_empty_dirs; [|done].
      destruct (decisions_deleted removed) as (? & ? & _). done. }
    cbn. lia.
Qed.

Lemma processed_items_counts_decisions_witness :
  ∃ b st,
    sort_files test_config 5 basic_operation_tree test_input (Some test_output) false false
      = Some (b, st) ∧
    processed_items (rs_progress st)
      = length (project_decisions (rs_log st)) + length (file_decisions (rs_log st)).
Proof.
  assert (returned (sort_files test_config 5 basic_operation_tree test_input
                      (Some test_output) false false) = Some true) as Hr
    by (vm_compute; reflexivity).
  destruct (sort_files test_config 5 basic_operation_tree test_input (Some test_output)
              false false) as [[b st]|] eqn:E; [|discriminate Hr].
  exists b, st. split; [reflexivity|].
  exact (processed_items_counts_decisions test_config 5 basic_operation_tree test_input
           (Some test_output) false false b st E).
Defined.


(** ** An empty input directory *)

Lemma scandir_empty m p : FS.is_empty_dir m p = true → FS.scandir m p = Some ([], []).
Proof.
  unfold FS.is_empty_dir, FS.scandir. intros [Hd He]%andb_true_iff.
  apply bool_decide_eq_true in He. by rewrite Hd, He.
Qed.

Lemma listed_as_project_empty_dir cfg m p :
  FS.is_empty_dir m p = true → listed_as_project cfg m p = false.
Proof.
  unfold FS.is_empty_dir. intros [Hd He]%andb_true_iff.
  apply bool_decide_eq_true in He. apply listed_as_project_empty.
  unfold FS.listdir. by rewrite Hd, He.
Qed.

(** X11: a run on an empty input directory changes nothing and succeeds:
    nothing is discovered, moved or counted, the input directory itself is
    kept even when empty directories are to be deleted, and the log holds
    only the phase markers. *)
Theorem sort_files_empty_input (cfg : Config) (fuel : nat) (m : fs)
    (input_dir : path) (output_dir_str : option path)
    (dry_run delete_empty_dirs : bool) :
  FS.is_empty_dir m input_dir = true →
  output_dir_str ≠ Some input_dir →
  ∃ st,
    sort_files cfg (S fuel) m input_dir output_dir_str dry_run delete_empty_dirs
      = Some (true, st) ∧
    rs_fs st = m ∧
    rs_log st = [LogPhase 1; LogPhase 2]
                  ++ (if delete_empty_dirs then [LogPhase 3] else [])
                  ++ [LogCompleted] ∧
    rs_progress st = mkProgress 0 0 0 0 ∧
    processed_projects st = [].
Proof.
  intros He Hout.
  pose proof (scandir_empty _ _ He) as Hscan.
  pose proof (listed_as_project_empty_dir cfg _ _ He) as Hl.
  assert (m !! input_dir = Some DirE) as Hd.
  { apply andb_true_iff in He as [Hd _]. by apply FSFacts.is_dir_true. }
  assert (identify_projects cfg m (S fuel) input_dir [] = Some []) as Hid.
  { unfold identify_projects. rewrite os_walk_unfold, Hscan. unfold identify_body.
    cbn [under_processed existsb]. rewrite Hl. reflexivity. }
  assert (∀ st, rs_fs st = m → processed_projects st = [] →
            relocate_files cfg (S fuel) input_dir
              (default (PyPath.parent input_dir ++ [PyPath.name input_dir +:+ "_Sorted"])
                 output_dir_str) dry_run delete_empty_dirs st
            = Some (if delete_empty_dirs then add_directory input_dir st else st)) as Hrel.
  { intros st Hfs Hp. unfold relocate_files. rewrite os_walk_unfold, Hfs, Hscan.
    unfold relocate_body. rewrite Hp. reflexivity. }
  unfold sort_files.
  rewrite (validate_input_paths_ok m input_dir output_dir_str Hd Hout).
  cbn [rs_fs log initial_state processed_projects]. rewrite Hid.
  cbn [move_projects]. rewrite Hrel by reflexivity.
  assert (set_add input_dir [] = [input_dir]) as Hset.
  { unfold set_add. rewrite decide_False; [done|apply not_elem_of_nil]. }
  unfold finish, cleanup_empty_directories.
  destruct delete_empty_dirs, dry_run; cbn; rewrite ?Hset; cbn;
    unfold cleanup_step; rewrite ?decide_True by done; cbn;
    eexists; (split; [reflexivity|done]).
Qed.

Lemma sort_files_empty_input_witness :
  ∃ st, sort_files test_config 5 test_dirs test_input (Some test_output) false true
          = Some (true, st) ∧ rs_fs st = test_dirs.
Proof.
  destruct (sort_files_empty_input test_config 4 test_dirs test_input (Some test_output)
              false true) as (st & Hrun & Hfs & _).
  - vm_compute; reflexivity.
  - intros E. discriminate E.
  - exists st. split; [exact Hrun|exact Hfs].
Defined.

(** ** Reclamation, twice *)

Lemma cleanup_fold_skip input_dir l m lg n :
  (∀ d, d ∈ l → d = input_dir ∨ FS.is_empty_dir m d = false) →
  fold_left (cleanup_step input_dir) l (m, lg, n) = (m, lg, n).
Proof.
  induction l as [|d l IH]; intros H; cbn [fold_left]; [done|].
  rewrite cleanup_step_skip by (apply H; left).
  apply IH. intros d' Hd'. apply H. by right.
Qed.

(** X12: reclaiming empty directories is idempotent: a second pass over
    the same candidates, on the tree the first pass left, deletes
    nothing. *)
Theorem cleanup_empty_directories_idempotent (input_dir : path)
    (candidates : list path) (m m' : fs) (lg : list event) (n : nat) :
  cleanup_empty_directories input_dir candidates false m = (m', lg, n) →
  cleanup_empty_directories input_dir candidates false m' = (m', [], 0).
Proof.
  unfold cleanup_empty_directories. intros H.
  apply cleanup_fold_skip. intros d Hd.
  destruct (decide (d = input_dir)) as [|Hne]; [by left|right].
  pose proof (cleanup_fold_no_empty_left input_dir (sorted_by_depth candidates) m [] 0
                (sorted_by_depth_sorted candidates) d Hd Hne) as Hleft.
  by rewrite H in Hleft.
Qed.

Lemma cleanup_empty_directories_idempotent_witness :
  let r := cleanup_empty_directories ["input"] emptied_candidates false emptied_tree in
  cleanup_empty_directories ["input"] emptied_candidates false r.1.1 = (r.1.1, [], 0).
Proof.
  intros r.
  apply (cleanup_empty_directories_idempotent ["input"] emptied_candidates emptied_tree
           r.1.1 r.1.2 r.2).
  subst r. by destruct (cleanup_empty_directories _ _ _ _) as [[m' lg] n].
Defined.

(** X13: after a real run that deletes empty directories, none of the
    directories visited in phase 2, the input directory apart, is left
    empty: each is gone or still holds an entry. *)
Theorem sort_files_no_empty_left (cfg : Config) (fuel : nat) (m : fs)
    (input_dir_str : path) (output_dir_str : option path)
    (input_dir output_dir : path) (b : bool) (st : run_state) (d : path) :
  validate_input_paths m input_dir_str output_dir_str = inr (input_dir, output_dir) →
  sort_files cfg fuel m input_dir_str output_dir_str false true = Some (b, st) →
  d ∈ directories_to_check st → d ≠ input_dir →
  FS.is_empty_dir (rs_fs st) d = false.
Proof.
  intros Hv Hrun Hd Hne.
  destruct (sort_files_phases _ _ _ _ _ _ _ _ _ _ Hv Hrun)
    as (ps & st1 & st2 & _ & _ & _ & [= -> ->]).
  destruct (finish_spec input_dir false true st2) as (_ & _ & Hdirs & _).
  cbv zeta in Hdirs. rewrite Hdirs in Hd.
  unfold finish, cleanup_empty_directories. cbn [log directories_to_check rs_fs].
  pose proof (cleanup_fold_no_empty_left input_dir
                (sorted_by_depth (directories_to_check st2)) (rs_fs st2) [] 0
                (sorted_by_depth_sorted _) d) as Hleft.
  destruct (fold_left _ _ _) as [[m' lg] n]. cbn [rs_fs log fst] in *.
  apply Hleft; [|done]. by rewrite sorted_by_depth_perm.
Qed.

Lemma sort_files_no_empty_left_witness :
  ∃ b st,
    sort_files test_config 5 delete_empty_dirs_tree test_input (Some test_output)
      false true = Some (b, st) ∧
    ∀ d, d ∈ directories_to_check st → d ≠ test_input →
         FS.is_empty_dir (rs_fs st) d = false.
Proof.
  assert (returned (sort_files test_config 5 delete_empty_dirs_tree test_input
                      (Some test_output) false true) = Some true) as Hr
    by (vm_compute; reflexivity).
  destruct (sort_files test_config 5 delete_empty_dirs_tree test_input
              (Some test_output) false true) as [[b st]|] eqn:E; [|discriminate Hr].
  exists b, st. split; [reflexivity|]. intros d Hd Hne.
  apply (sort_files_no_empty_left test_config 5 delete_empty_dirs_tree test_input
           (Some test_output) test_input test_output b st d);
    [vm_compute; reflexivity|exact E|exact Hd|exact Hne].
Defined.


(** ** What a move does to the tree *)

Lemma mkdir_parents_existing m p : m !! p = Some DirE → FS.mkdir_parents m p = Some m.
Proof.
  intros H. unfold FS.mkdir_parents.
  destruct (rev p) as [|x rp] eqn:E; cbn [FS.mkdir_rev];
    rewrite <- E, rev_involutive, H; done.
Qed.

Lemma mkdir_parents_outside m p m1 q :
  FS.mkdir_parents m p = Some m1 → ¬ q `prefix_of` p → m1 !! q = m !! q.
Proof.
  intros (Hsub & _ & Hnew)%FSFacts.mkdir_parents_spec Hq.
  destruct (m1 !! q) as [e|] eqn:E.
  - destruct (Hnew q e E) as [?|[_ ?]]; done.
  - destruct (m !! q) as [e|] eqn:E'; [|done].
    rewrite (lookup_weaken _ _ _ _ E' Hsub) in E. done.
Qed.

Lemma mkdir_parents_only_directories m p m1 :
  FS.mkdir_parents m p = Some m1 → only_directories_added m m1.
Proof.
  intros (Hsub & _ & Hnew)%FSFacts.mkdir_parents_spec. split; [done|].
  intros q e [?|[? _]]%Hnew; auto.
Qed.

Lemma only_directories_added_refl m : only_directories_added m m.
Proof. split; [done|]. auto. Qed.

(** What [move_project] leaves in the tree, case by case. *)
Lemma move_project_fs source destination output_dir st st' ok :
  move_project source destination output_dir false st = inr (st', ok) →
  ∃ rel, PyPath.relative_to destination (PyPath.parent source) = Some rel ∧
    match FS.mkdir_parents (rs_fs st) (PyPath.parent (output_dir ++ rel)) with
    | None => rs_fs st' = rs_fs st ∧ ok = false
    | Some m1 =>
        match FS.shutil_move m1 source (output_dir ++ rel) with
        | None => rs_fs st' = m1 ∧ ok = false
        | Some m2 => rs_fs st' = m2 ∧ ok = true
        end
    end.
Proof.
  unfold move_project.
  destruct (PyPath.relative_to destination (PyPath.parent source)) as [rel|]; [|done].
  cbn [rs_fs log]. intros H. exists rel. split; [done|].
  destruct (FS.mkdir_parents (rs_fs st) _) as [m1|].
  - destruct (FS.shutil_move m1 source _) as [m2|]; by injection H as <- <-.
  - by injection H as <- <-.
Qed.

(** What [categorize_and_move_file] leaves in the tree, case by case. *)
Lemma categorize_and_move_file_fs cfg file_path output_dir st st' ok :
  categorize_and_move_file cfg file_path output_dir false st = (st', ok) →
  match FS.mkdir_parents (rs_fs st)
          (PyPath.div output_dir (get_category_for_file cfg (PyPath.name file_path))) with
  | None => rs_fs st' = rs_fs st ∧ ok = false
  | Some m1 =>
      match FS.shutil_move m1 file_path
              (decided_target cfg (rs_fs st) output_dir file_path) with
      | None => rs_fs st' = m1 ∧ ok = false
      | Some m2 => rs_fs st' = m2 ∧ ok = true
      end
  end.
Proof.
  unfold categorize_and_move_file, decided_target.
  change (PyPath.join1 (PyPath.div output_dir _) (PyPath.name file_path))
    with (requested_target cfg output_dir file_path).
  destruct (generate_unique_filename _ _) as [target overflow]. cbn [fst].
  destruct overflow; cbn [rs_fs log];
    (destruct (FS.mkdir_parents (rs_fs st) _) as [m1|];
     [destruct (FS.shutil_move m1 file_path target) as [m2|]|]);
    by intros [= <- <-].
Qed.

(** X14: a move that fails loses nothing: when [categorize_and_move_file]
    or [move_project] returns false, every entry of the tree is where it
    was, and the only change can be that destination directories were
    created. *)
Theorem failed_move_keeps_tree (cfg : Config) (output_dir : path) (st st' : run_state) :
  (∀ file_path,
     categorize_and_move_file cfg file_path output_dir false st = (st', false) →
     only_directories_added (rs_fs st) (rs_fs st')) ∧
  (∀ source destination,
     move_project source destination output_dir false st = inr (st', false) →
     only_directories_added (rs_fs st) (rs_fs st')).
Proof.
  split.
  - intros file_path H%categorize_and_move_file_fs.
    destruct (FS.mkdir_parents (rs_fs st) _) as [m1|] eqn:E1.
    + destruct (FS.shutil_move m1 file_path _) as [m2|]; destruct H as [-> ?]; [done|].
      by eapply mkdir_parents_only_directories.
    + destruct H as [-> _]. apply only_directories_added_refl.
  - intros source destination (rel & _ & H)%move_project_fs.
    destruct (FS.mkdir_parents (rs_fs st) _) as [m1|] eqn:E1.
    + destruct (FS.shutil_move m1 source _) as [m2|]; destruct H as [-> ?]; [done|].
      by eapply mkdir_parents_only_directories.
    + destruct H as [-> _]. apply only_directories_added_refl.
Qed.

Lemma failed_move_keeps_tree_witness :
  ∃ st',
    move_project ["in"; "proj"] ["in"; "Applications_And_Projects"; "proj"] ["out"] false
      (initial_state stuck_project_tree) = inr (st', false) ∧
    only_directories_added stuck_project_tree (rs_fs st').
Proof.
  assert (match move_project ["in"; "proj"] ["in"; "Applications_And_Projects"; "proj"]
                  ["out"] false (initial_state stuck_project_tree) with
          | inr (_, ok) => Some ok
          | inl _ => None
          end = Some false) as Hr by (vm_compute; reflexivity).
  destruct (move_project ["in"; "proj"] ["in"; "Applications_And_Projects"; "proj"]
              ["out"] false (initial_state stuck_project_tree))
    as [e|[st' ok]] eqn:E; [discriminate Hr|].
  injection Hr as ->. exists st'. split; [reflexivity|].
  exact (proj2 (failed_move_keeps_tree default_config ["out"]
                  (initial_state stuck_project_tree) st')
           ["in"; "proj"] ["in"; "Applications_And_Projects"; "proj"] E).
Defined.

Lemma is_dir_free m p : m !! p = None → FS.is_dir m p = false.
Proof. intros H. unfold FS.is_dir. apply bool_decide_eq_false. by rewrite H. Qed.

Lemma os_rename_file_free m src dst d m2 :
  m !! src = Some (FileE d) → m !! dst = None →
  FS.os_rename m src dst = Some m2 → m2 = <[dst := FileE d]> (delete src m).
Proof.
  intros Hs Hd. unfold FS.os_rename. rewrite Hs.
  destruct (decide (src = dst)) as [->|Hne]; [congruence|].
  destruct (negb _); [done|]. rewrite (is_dir_free _ _ Hd).
  by intros [= <-].
Qed.

(** X15: when a file is reported moved and the unique-name search did not
    overflow, the file is at the decided target with its content, its old
    path is free, and every other entry of the tree is still in place:
    nothing is overwritten. *)
Theorem categorize_and_move_file_moves (cfg : Config) (file_path output_dir : path)
    (st st' : run_state) (d : string) :
  rs_fs st !! file_path = Some (FileE d) →
  PyPath.name file_path ≠ "" →
  (generate_unique_filename (FS.exists_ (rs_fs st))
     (requested_target cfg output_dir file_path)).2 = false →
  categorize_and_move_file cfg file_path output_dir false st = (st', true) →
  rs_fs st' !! decided_target cfg (rs_fs st) output_dir file_path = Some (FileE d) ∧
  rs_fs st' !! file_path = None ∧
  ∀ q e, q ≠ file_path → rs_fs st !! q = Some e → rs_fs st' !! q = Some e.
Proof.
  intros Hsrc Hname Hover H%categorize_and_move_file_fs.
  pose proof (generate_unique_filename_free _ _ Hover) as Hfree.
  apply FSFacts.exists_false in Hfree.
  fold (decided_target cfg (rs_fs st) output_dir file_path) in Hfree.
  set (target := decided_target cfg (rs_fs st) output_dir file_path) in *.
  set (target_dir := PyPath.div output_dir
                       (get_category_for_file cfg (PyPath.name file_path))) in *.
  assert (PyPath.parent target = target_dir) as Hparent.
  { unfold target, decided_target.
    rewrite generate_unique_filename_parent.
    unfold requested_target, PyPath.join1. rewrite decide_False by done.
    apply PyPathFacts.parent_snoc. }
  assert (target ≠ []) as Hnil.
  { intros E. unfold target, decided_target in E.
    destruct (generate_unique_filename_form (FS.exists_ (rs_fs st))
                (requested_target cfg output_dir file_path)) as [E'|[n E']];
      rewrite E' in E.
    - unfold requested_target, PyPath.join1 in E. rewrite decide_False in E by done.
      by apply app_eq_nil in E as [_ ?].
    - unfold numbered in E. by apply app_eq_nil in E as [_ ?]. }
  destruct (FS.mkdir_parents (rs_fs st) target_dir) as [m1|] eqn:E1; [|by destruct H].
  destruct (FS.shutil_move m1 file_path target) as [m2|] eqn:E2; [|by destruct H].
  destruct H as [-> _].
  pose proof (FSFacts.mkdir_parents_spec _ _ _ E1) as (Hsub & _ & _).
  assert (m1 !! target = None) as Hfree1.
  { rewrite (mkdir_parents_outside _ _ _ target E1); [done|].
    rewrite <- Hparent. intros Hp%prefix_length.
    rewrite PyPathFacts.length_parent in Hp. destruct target; [done|]. simpl in Hp. lia. }
  assert (m1 !! file_path = Some (FileE d)) as Hsrc1 by (by eapply lookup_weaken).
  unfold FS.shutil_move in E2. rewrite (is_dir_free _ _ Hfree1) in E2.
  apply (os_rename_file_free _ _ _ d) in E2; [|done|done]. subst m2.
  assert (file_path ≠ target) as Hne by congruence.
  split; [by rewrite lookup_insert_eq|]. split.
  - rewrite lookup_insert_ne by done. by rewrite lookup_delete_eq.
  - intros q e Hq He. assert (q ≠ target) as Hqt by congruence.
    rewrite lookup_insert_ne by done. rewrite lookup_delete_ne by done.
    by eapply lookup_weaken.
Qed.

Lemma categorize_and_move_file_moves_witness :
  ∃ st',
    categorize_and_move_file test_config ["input"; "file.txt"] ["output"] false
      (initial_state same_name_tree) = (st', true) ∧
    rs_fs st' !! ["output"; "Documents"; "Text"; "file.txt"] = Some (FileE "content1") ∧
    rs_fs st' !! ["input"; "file.txt"] = None.
Proof.
  assert ((categorize_and_move_file test_config ["input"; "file.txt"] ["output"] false
             (initial_state same_name_tree)).2 = true) as Hr by (vm_compute; reflexivity).
  destruct (categorize_and_move_file test_config ["input"; "file.txt"] ["output"] false
              (initial_state same_name_tree)) as [st' ok] eqn:E.
  cbn [snd] in Hr. subst ok. exists st'. split; [reflexivity|].
  destruct (categorize_and_move_file_moves test_config ["input"; "file.txt"] ["output"]
              (initial_state same_name_tree) st' "content1") as (Ht & Hs & _).
  - vm_compute; reflexivity.
  - intros H; discriminate H.
  - vm_compute; reflexivity.
  - exact E.
  - split; [|exact Hs].
    replace ["output"; "Documents"; "Text"; "file.txt"]
      with (decided_target test_config (rs_fs (initial_state same_name_tree))
              ["output"] ["input"; "file.txt"]) by (vm_compute; reflexivity).
    exact Ht.
Defined.

Lemma lookup_move_tree_gone m src dst p :
  src `prefix_of` p → ¬ src `prefix_of` dst → ¬ dst `prefix_of` src →
  FS.move_tree m src dst !! p = None.
Proof.
  intros Hsp Hsd Hds. destruct (FS.move_tree m src dst !! p) as [e|] eqn:E; [|done].
  apply FSFacts.lookup_move_tree_Some in E as [(q & -> & _)|(_ & Hn & _)]; [|done].
  destruct (prefix_weak_total src dst (dst ++ q)); [done|by apply prefix_app_r|done|done].
Qed.

Lemma mkdir_parents_root m : m !! [] = None → FS.mkdir_parents m [] = None.
Proof. intros H. unfold FS.mkdir_parents. cbn. by rewrite H. Qed.

Lemma mkdir_parents_keeps_free m p m1 :
  FS.mkdir_parents m (PyPath.parent p) = Some m1 → m !! p = None → m1 !! p = None.
Proof.
  intros E1 Hfree. destruct (decide (p = [])) as [->|Hne].
  { change (PyPath.parent []) with (@nil string) in E1.
    by rewrite mkdir_parents_root in E1. }
  rewrite (mkdir_parents_outside _ _ _ p E1); [done|].
  intros Hp%prefix_length. rewrite PyPathFacts.length_parent in Hp.
  destruct p; [done|]. simpl in Hp. lia.
Qed.

(** X16: a project moved to a free target: when [move_project] returns
    true and nothing was at the target path, every entry of the source
    tree is found at the same place under the target, and nothing is left
    at or below the source path. *)
Theorem move_project_relocates (source destination output_dir : path)
    (st st' : run_state) (rel : path) :
  PyPath.relative_to destination (PyPath.parent source) = Some rel →
  rs_fs st !! source = Some DirE →
  rs_fs st !! (output_dir ++ rel) = None →
  ¬ output_dir ++ rel `prefix_of` source →
  move_project source destination output_dir false st = inr (st', true) →
  ∀ q, (∀ e, rs_fs st !! (source ++ q) = Some e →
             rs_fs st' !! (output_dir ++ rel ++ q) = Some e) ∧
       rs_fs st' !! (source ++ q) = None.
Proof.
  intros Hrel Hsrc Hfree Hanc (rel' & Hrel' & H)%move_project_fs.
  rewrite Hrel in Hrel'. injection Hrel' as <-.
  set (target := output_dir ++ rel) in *.
  destruct (FS.mkdir_parents (rs_fs st) (PyPath.parent target)) as [m1|] eqn:E1;
    [|by destruct H].
  destruct (FS.shutil_move m1 source target) as [m2|] eqn:E2; [|by destruct H].
  destruct H as [-> _].
  pose proof (FSFacts.mkdir_parents_spec _ _ _ E1) as (Hsub & _ & _).
  assert (m1 !! source = Some DirE) as Hsrc1 by (by eapply lookup_weaken).
  pose proof (mkdir_parents_keeps_free _ _ _ E1 Hfree) as Hfree1.
  unfold FS.shutil_move in E2. rewrite (is_dir_free _ _ Hfree1) in E2.
  unfold FS.os_rename in E2. rewrite Hsrc1 in E2.
  destruct (decide (source = target)) as [Est|Hne]; [congruence|].
  destruct (negb _); [done|].
  destruct (bool_decide (source `prefix_of` target)) eqn:Ep; [done|].
  apply bool_decide_eq_false in Ep.
  destruct (FS.exists_ m1 target); [done|]. injection E2 as <-.
  intros q. split.
  - intros e He. rewrite app_assoc. fold target.
    apply FSFacts.lookup_move_tree_Some. left. exists q. split; [done|].
    by eapply lookup_weaken.
  - apply lookup_move_tree_gone; [by apply prefix_app_r|done|done].
Qed.

Lemma move_project_relocates_witness :
  ∃ st',
    move_project ["in"] ["Applications_And_Projects"; "in"] ["out"] false
      (initial_state root_project_tree) = inr (st', true) ∧
    rs_fs st' !! ["out"; "Applications_And_Projects"; "in"; "main.py"]
      = Some (FileE "m") ∧
    rs_fs st' !! ["in"; "main.py"] = None.
Proof.
  assert (match move_project ["in"] ["Applications_And_Projects"; "in"] ["out"] false
                  (initial_state root_project_tree) with
          | inr (_, ok) => Some ok
          | inl _ => None
          end = Some true) as Hr by (vm_compute; reflexivity).
  destruct (move_project ["in"] ["Applications_And_Projects"; "in"] ["out"] false
              (initial_state root_project_tree)) as [e|[st' ok]] eqn:E; [discriminate Hr|].
  injection Hr as ->. exists st'. split; [reflexivity|].
  destruct (move_project_relocates ["in"] ["Applications_And_Projects"; "in"] ["out"]
              (initial_state root_project_tree) st' ["Applications_And_Projects"; "in"])
    with (q := ["main.py"]) as [Ha Hb].
  - reflexivity.
  - vm_compute; reflexivity.
  - vm_compute; reflexivity.
  - intros [k Hk]. discriminate Hk.
  - exact E.
  - split; [|exact Hb]. apply (Ha (FileE "m")). vm_compute; reflexivity.
Defined.

(** X17: a project whose target directory exists already is not merged
    into it.  When the directory holds no entry with the name of the
    project, the project is moved inside it, one level below the path that
    the log records as its destination; when it holds one, the move is
    refused: the result is false, the failure is logged and the tree is
    left as it was. *)
Theorem move_project_nests (source destination output_dir : path)
    (st : run_state) (rel : path) :
  PyPath.relative_to destination (PyPath.parent source) = Some rel →
  rs_fs st !! source = Some DirE →
  rs_fs st !! (output_dir ++ rel) = Some DirE →
  rs_fs st !! PyPath.parent (output_dir ++ rel) = Some DirE →
  PyPath.name source ≠ "" →
  ¬ source `prefix_of` output_dir ++ rel →
  ∃ st' ok,
    move_project source destination output_dir false st = inr (st', ok) ∧
    (ok = true ↔ rs_fs st !! (output_dir ++ rel ++ [PyPath.name source]) = None) ∧
    (ok = true →
     rs_log st' = rs_log st ++ [LogProject source (output_dir ++ rel)] ∧
     ∀ q e, rs_fs st !! (source ++ q) = Some e →
            rs_fs st' !! (output_dir ++ rel ++ [PyPath.name source] ++ q) = Some e) ∧
    (ok = false →
     rs_fs st' = rs_fs st ∧
     rs_log st' = rs_log st ++ [LogProject source (output_dir ++ rel);
                                LogProjectFailed source]).
Proof.
  intros Hrel Hsrc Htgt Hpar Hname Hanc.
  unfold move_project. rewrite Hrel. cbn [rs_fs log].
  set (target := output_dir ++ rel) in *.
  rewrite (mkdir_parents_existing _ _ Hpar).
  unfold FS.shutil_move.
  rewrite (proj2 (FSFacts.is_dir_true _ _) Htgt).
  rewrite decide_False by (intros ->; by apply Hanc).
  unfold PyPath.join1. rewrite decide_False by done.
  replace (output_dir ++ rel ++ [PyPath.name source])
    with (target ++ [PyPath.name source]) by (unfold target; by rewrite <- app_assoc).
  destruct (rs_fs st !! (target ++ [PyPath.name source])) as [e'|] eqn:Hfree'.
  - rewrite (proj2 (FSFacts.exists_true _ _)) by (rewrite Hfree'; eauto).
    eexists _, false. split; [reflexivity|]. cbn [rs_fs rs_log set_fs log].
    split; [split; discriminate|]. split; [discriminate|].
    intros _. split; [done|]. by rewrite <- app_assoc.
  - assert (source ≠ target ++ [PyPath.name source]) as Hne by congruence.
    assert (¬ source `prefix_of` target ++ [PyPath.name source]) as Hanc'.
    { intros [k Hk]. destruct (decide (k = [])) as [->|Hk'].
      - rewrite app_nil_r in Hk. done.
      - destruct (exists_last Hk') as (k' & x & ->). rewrite app_assoc in Hk.
        apply app_inj_tail in Hk as [Hk _]. apply Hanc. by exists k'. }
    rewrite (proj2 (FSFacts.exists_false _ _) Hfree').
    unfold FS.os_rename. rewrite Hsrc. rewrite decide_False by done.
    rewrite PyPathFacts.parent_snoc, (proj2 (FSFacts.is_dir_true _ _) Htgt). cbn [negb].
    rewrite (proj2 (bool_decide_eq_false _) Hanc').
    rewrite (proj2 (FSFacts.exists_false _ _) Hfree').
    eexists _, true. split; [reflexivity|]. cbn [rs_fs rs_log set_fs log].
    split; [done|]. split; [|discriminate]. intros _. split; [done|].
    intros q e He. rewrite !app_assoc. fold target.
    apply FSFacts.lookup_move_tree_Some. left. by exists q.
Qed.

Lemma move_project_nests_witness :
  ∃ st',
    move_project ["in"; "proj"] ["in"; "Applications_And_Projects"; "proj"] ["out"] false
      (initial_state
         (mkdir ["out"; "Applications_And_Projects"; "proj"]
            (touch ["in"; "proj"; "main.py"] "m" root_only))) = inr (st', true) ∧
    rs_fs st' !! ["out"; "Applications_And_Projects"; "proj"; "proj"; "main.py"]
      = Some (FileE "m").
Proof.
  destruct (move_project_nests ["in"; "proj"] ["in"; "Applications_And_Projects"; "proj"]
              ["out"]
              (initial_state
                 (mkdir ["out"; "Applications_And_Projects"; "proj"]
                    (touch ["in"; "proj"; "main.py"] "m" root_only)))
              ["Applications_And_Projects"; "proj"])
    as (st' & ok & Hrun & Hiff & Hall & _).
  - reflexivity.
  - vm_compute; reflexivity.
  - vm_compute; reflexivity.
  - vm_compute; reflexivity.
  - intros H; discriminate H.
  - intros [k Hk]. discriminate Hk.
  - assert (ok = true) as -> by (apply Hiff; vm_compute; reflexivity).
    exists st'. split; [exact Hrun|].
    apply (proj2 (Hall eq_refl) ["main.py"] (FileE "m")). vm_compute; reflexivity.
Defined.


(** ** The reach of a run *)

Lemma os_rename_cases m src dst m2 :
  FS.os_rename m src dst = Some m2 →
  m2 = m ∨
  (∃ d, m !! src = Some (FileE d) ∧ m2 = <[dst := FileE d]> (delete src m)) ∨
  (m !! src = Some DirE ∧ m2 = FS.move_tree m src dst).
Proof.
  unfold FS.os_rename. destruct (m !! src) as [e|] eqn:Es; [|done].
  destruct (decide (src = dst)); [intros [= <-]; by left|].
  destruct (negb _); [done|]. destruct e as [d|].
  - destruct (FS.is_dir m dst); [done|]. intros [= <-]. right. left. eauto.
  - destruct (bool_decide _); [done|]. destruct (FS.exists_ m dst); [done|].
    intros [= <-]. right. by right.
Qed.

(** Where [shutil.move] writes: at [dst] or, when [dst] is a directory,
    at [dst / src.name]. *)
Lemma shutil_move_cases m src dst m2 :
  FS.shutil_move m src dst = Some m2 →
  m2 = m ∨
  ∃ real, (real = dst ∨ (real = dst ++ [PyPath.name src] ∧ PyPath.name src ≠ "")) ∧
    ((∃ d, m !! src = Some (FileE d) ∧ m2 = <[real := FileE d]> (delete src m)) ∨
     (m !! src = Some DirE ∧ m2 = FS.move_tree m src real)).
Proof.
  unfold FS.shutil_move. destruct (FS.is_dir m dst).
  - destruct (decide (src = dst)); [intros [= <-]; by left|].
    destruct (FS.exists_ m _); [done|].
    intros [->|H]%os_rename_cases; [by left|right].
    exists (PyPath.join1 dst (PyPath.name src)). split; [|done].
    unfold PyPath.join1. destruct (decide _); [by left|by right].
  - intros [->|H]%os_rename_cases; [by left|right]. exists dst. split; [by left|done].
Qed.

Lemma shutil_move_effect m src dst m2 :
  FS.shutil_move m src dst = Some m2 →
  ∃ real, dst `prefix_of` real ∧
    (∀ x, x ∈ real → x ∈ dst ∨ x ≠ "") ∧
    ∀ p, (¬ src `prefix_of` p → ¬ real `prefix_of` p → m2 !! p = m !! p) ∧
         (∀ e, m2 !! p = Some e →
               m !! p = Some e ∨ ∃ k, p = real ++ k ∧ is_Some (m !! (src ++ k))).
Proof.
  intros [->|(real & Hreal & Hcase)]%shutil_move_cases.
  { exists dst. split; [done|]. split; [auto|]. intros p. split; auto. }
  exists real. split; [|split].
  - destruct Hreal as [->|[-> _]]; [done|by apply prefix_app_r].
  - intros x Hx. destruct Hreal as [->|[-> Hn]]; [by left|].
    apply elem_of_app in Hx as [?|Hx]; [by left|].
    apply list_elem_of_singleton in Hx as ->. by right.
  - intros p. destruct Hcase as [(d & Hs & ->)|[Hs ->]].
    + split.
      * intros Hp1 Hp2. rewrite lookup_insert_ne by (intros ->; by apply Hp2).
        apply lookup_delete_ne. intros ->. by apply Hp1.
      * intros e. destruct (decide (real = p)) as [->|Hne].
        { rewrite lookup_insert_eq. intros [= <-]. right. exists [].
          rewrite !app_nil_r. eauto. }
        rewrite lookup_insert_ne by done. intros He. left.
        destruct (decide (src = p)) as [->|Hne'].
        { by rewrite lookup_delete_eq in He. }
        by rewrite lookup_delete_ne in He.
    + split.
      * intros Hp1 Hp2. apply option_eq. intros e.
        rewrite FSFacts.lookup_move_tree_Some. split.
        { intros [(k & -> & _)|(_ & _ & ?)]; [|done]. destruct Hp2. by apply prefix_app_r. }
        intros He. right. split; [|done]. intros k ->. destruct Hp2.
        by apply prefix_app_r.
      * intros e [(k & -> & He)|(_ & _ & ?)]%FSFacts.lookup_move_tree_Some; [|by left].
        right. exists k. eauto.
Qed.

Lemma elem_of_parent (x : string) p : x ∈ PyPath.parent p → x ∈ p.
Proof.
  unfold PyPath.parent. destruct (decide (p = [])) as [->|Hne]; [done|].
  destruct (exists_last Hne) as (p' & y & ->). rewrite removelast_last.
  intros ?. apply elem_of_app. by left.
Qed.

Lemma prefix_parent (p : path) : PyPath.parent p `prefix_of` p.
Proof.
  unfold PyPath.parent. destruct (decide (p = [])) as [->|Hne]; [done|].
  destruct (exists_last Hne) as (p' & y & ->). rewrite removelast_last.
  by apply prefix_app_r.
Qed.

Lemma elem_of_prefix (x : string) (p q : path) : p `prefix_of` q → x ∈ p → x ∈ q.
Proof. intros [k ->] ?. apply elem_of_app. by left. Qed.

Lemma mkdir_parents_well_named m p m1 :
  FS.mkdir_parents m p = Some m1 → well_named m → "" ∉ p → well_named m1.
Proof.
  intros (_ & _ & Hnew)%FSFacts.mkdir_parents_spec Hwf Hp q [e He] Hq.
  destruct (Hnew q e He) as [Hm|[_ Hpre]].
  - by apply (Hwf q).
  - apply Hp. by eapply elem_of_prefix.
Qed.

Lemma shutil_move_well_named m src dst m2 :
  FS.shutil_move m src dst = Some m2 → well_named m → "" ∉ dst → well_named m2.
Proof.
  intros (real & _ & Hreal & Hp)%shutil_move_effect Hwf Hdst p [e He] Hin.
  destruct (proj2 (Hp p) e He) as [Hm|(k & -> & Hk)].
  - by apply (Hwf p).
  - apply elem_of_app in Hin as [Hin|Hin].
    + destruct (Hreal _ Hin); done.
    + apply (Hwf _ Hk). apply elem_of_app. by right.
Qed.

Lemma outside_not_below input_dir output_dir q p :
  outside input_dir output_dir q → output_dir `prefix_of` p → ¬ q `prefix_of` p.
Proof.
  intros (_ & H1 & H2) Hp Hq.
  destruct (prefix_weak_total q output_dir p Hq Hp); done.
Qed.

Lemma parse_no_empty s : "" ∉ PyPath.parse s.
Proof. unfold PyPath.parse. intros [[? _] _]%list_elem_of_filter. done. Qed.

Lemma numbered_name_nonempty stem n suffix :
  stem +:+ " (" +:+ PyStr.of_nat n +:+ ")" +:+ suffix ≠ "".
Proof.
  intros E. apply (f_equal String.length) in E.
  rewrite !PyStrApp.length_append in E. simpl in E. lia.
Qed.

(** The path a file is sent to lies in its category directory. *)
Lemma decided_target_form cfg m output_dir file_path :
  PyPath.name file_path ≠ "" →
  ∃ x, x ≠ "" ∧
       decided_target cfg m output_dir file_path
         = PyPath.div output_dir (get_category_for_file cfg (PyPath.name file_path)) ++ [x].
Proof.
  intros Hname. unfold decided_target.
  assert (requested_target cfg output_dir file_path
          = PyPath.div output_dir (get_category_for_file cfg (PyPath.name file_path))
              ++ [PyPath.name file_path]) as Hreq.
  { unfold requested_target, PyPath.join1. by rewrite decide_False. }
  destruct (generate_unique_filename_form (FS.exists_ m)
              (requested_target cfg output_dir file_path)) as [->|[n ->]]; [eauto|].
    unfold numbered.
    assert (PyPath.parent (requested_target cfg output_dir file_path)
            = PyPath.div output_dir (get_category_for_file cfg (PyPath.name file_path)))
      as -> by (rewrite Hreq; apply PyPathFacts.parent_snoc).
    eexists. split; [|done]. apply numbered_name_nonempty.
Qed.

Lemma category_relative cfg output_dir filename :
  relative_categories cfg →
  PyPath.div output_dir (get_category_for_file cfg filename)
    = output_dir ++ PyPath.parse (get_category_for_file cfg filename).
Proof.
  intros Hrel. unfold PyPath.div.
  destruct (Hrel (get_category_for_file cfg filename)) as [-> _]; [|done].
  unfold get_category_for_file.
  destruct (FILE_CATEGORIES cfg !! file_extension filename) eqn:E; cbn; eauto.
Qed.

(** A property that the loop keeps at every directory at or below the
    top of the walk holds when the walk is over. *)
Lemma os_walk_invariant_under {St : Type} (fs_of : St → fs)
    (body : path → list string → list string → St → St * list string)
    (I : St → Prop) (input_dir : path) :
  (∀ top dirs files st,
     input_dir `prefix_of` top → I st →
     FS.scandir (fs_of st) top = Some (dirs, files) →
     I (body top dirs files st).1) →
  ∀ fuel top st st',
    input_dir `prefix_of` top → I st →
    os_walk fs_of body fuel top st = Some st' → I st'.
Proof.
  intros Hbody. induction fuel as [|fuel IH]; intros top st st' Htop Hst;
    rewrite os_walk_unfold;
    destruct (FS.scandir (fs_of st) top) as [[dirs files]|] eqn:E;
    try done; try by intros [= <-].
  pose proof (Hbody _ _ _ _ Htop Hst E) as Hst1.
  generalize dependent (body top dirs files st).1. intros st1 Hst1.
  generalize (body top dirs files st).2. intros dirs'. clear E.
  revert st1 Hst1. induction dirs' as [|d ds IHd]; intros st1 Hst1; simpl.
  - by intros [= <-].
  - destruct (os_walk fs_of body fuel (top ++ [d]) st1) as [st2|] eqn:E2; [|done].
    apply IHd. eapply IH; [|exact Hst1|exact E2]. by apply prefix_app_r.
Qed.

Section Frame.
Variable cfg : Config.
Variable m : fs.
Variables input_dir output_dir : path.
Hypothesis Hrel : relative_categories cfg.
Hypothesis Hout : "" ∉ output_dir.

Lemma framed_move st m1 m2 src dst p :
framed m input_dir output_dir st →
input_dir `prefix_of` src → output_dir `prefix_of` dst → "" ∉ dst →
FS.mkdir_parents (rs_fs st) p = Some m1 → p `prefix_of` dst →
(m2 = m1 ∨ FS.shutil_move m1 src dst = Some m2) →
(∀ q, outside input_dir output_dir q → m2 !! q = m !! q) ∧ well_named m2.
Proof.
intros (Hf & Hw & _) Hsrc Hdst Hne E1 Hp Hm2.
assert (∀ q, outside input_dir output_dir q → m1 !! q = m !! q) as Hf1.
{ intros q Hq. rewrite <- (Hf q Hq). apply (mkdir_parents_outside _ _ _ _ E1).
  intros Hqp. apply (outside_not_below _ _ _ dst Hq Hdst). by trans p. }
assert (well_named m1) as Hw1.
{ apply (mkdir_parents_well_named _ _ _ E1 Hw). intros Hin. apply Hne.
  by eapply elem_of_prefix. }
destruct Hm2 as [->|E2]; [done|]. split.
- intros q Hq. rewrite <- (Hf1 q Hq).
  destruct (shutil_move_effect _ _ _ _ E2) as (real & Hreal & _ & Heff).
  apply (proj1 (Heff q)).
  + intros Hs. destruct Hq as (Hq & _). apply Hq. by trans src.
  + intros Hr. destruct Hq as (_ & Hq & _). apply Hq. trans dst; [done|]. by trans real.
- by apply (shutil_move_well_named _ _ _ _ E2).
Qed.

Lemma project_step_framed dry_run st pr st' :
input_dir `prefix_of` pr.1 → "" ∉ pr.1 →
(pr.2 = PyPath.join1 (PyPath.parent pr.1 ++ [APPS]) (PyPath.name pr.1)
 ∨ ∃ top d, pr = child_move top d) →
framed m input_dir output_dir st →
project_step output_dir dry_run st pr = inr st' →
framed m input_dir output_dir st'.
Proof.
intros Hsrc Hnm Hwt Hst. unfold project_step.
destruct (move_project pr.1 pr.2 output_dir dry_run st) as [e|[st1 ok]] eqn:E; [done|].
intros [= <-].
assert (framed m input_dir output_dir st1) as (Hf1 & Hw1 & Hd1).
{ pose proof (move_project_spec pr.1 pr.2 output_dir dry_run st) as Hspec.
  rewrite E in Hspec.
  destruct Hspec as (rel & Hrel' & _ & _ & _ & Hdirs & Hdry & _).
  assert (∀ p, p ∈ directories_to_check st1 → input_dir `prefix_of` p) as Hd.
  { rewrite Hdirs. apply Hst. }
  destruct dry_run.
  { destruct (Hdry eq_refl) as [_ Hfs]. destruct Hst as (Hf & Hw & _).
    split; [|split]; [by rewrite Hfs|by rewrite Hfs|done]. }
  apply move_project_fs in E as (rel2 & Hrel2 & Hcase).
  rewrite Hrel' in Hrel2. injection Hrel2 as <-.
  assert ("" ∉ output_dir ++ rel) as Hne.
  { intros [?|Hin]%elem_of_app; [done|].
    apply well_targeted_relative in Hwt as [Hr|(top & d & -> & Hr)];
      rewrite Hr in Hrel'; injection Hrel' as <-.
    - unfold PyPath.join1 in Hin. destruct (decide _) as [|Hn].
      + by apply list_elem_of_singleton in Hin.
      + apply elem_of_cons in Hin as [?|Hin]; [done|].
        apply list_elem_of_singleton in Hin. done.
    - apply elem_of_cons in Hin as [?|Hin]; [done|].
      apply list_elem_of_singleton in Hin as <-. apply Hnm. cbn.
      apply elem_of_app. right. by left. }
  destruct (FS.mkdir_parents (rs_fs st) _) as [m1|] eqn:E1.
  - destruct (framed_move st m1 (rs_fs st1) pr.1 (output_dir ++ rel)
                (PyPath.parent (output_dir ++ rel))) as [Ha Hb]; try done.
    + by apply prefix_app_r.
    + apply prefix_parent.
    + destruct (FS.shutil_move m1 pr.1 (output_dir ++ rel)) as [m2|];
        destruct Hcase as [-> _]; auto.
  - destruct Hcase as [Hfs _]. destruct Hst as (Hf & Hw & _).
    split; [|split]; [by rewrite Hfs|by rewrite Hfs|done]. }
by destruct ok.
Qed.

Lemma file_step_framed dry_run top st f :
input_dir `prefix_of` top → f ≠ "" →
framed m input_dir output_dir st →
framed m input_dir output_dir (file_step cfg output_dir dry_run top st f).
Proof.
intros Htop Hf Hst. unfold file_step. destruct (existsb _ _); [done|].
destruct (categorize_and_move_file cfg (top ++ [f]) output_dir dry_run st)
  as [st1 ok] eqn:E.
assert (framed m input_dir output_dir st1); [|done].
pose proof (categorize_and_move_file_spec _ _ _ _ _ _ _ E)
  as (overflow & _ & _ & _ & Hdirs & Hdry & _).
assert (∀ p, p ∈ directories_to_check st1 → input_dir `prefix_of` p) as Hd.
{ rewrite Hdirs. apply Hst. }
destruct dry_run.
{ destruct (Hdry eq_refl) as [_ Hfs]. destruct Hst as (Ha & Hb & _).
  split; [|split]; [by rewrite Hfs|by rewrite Hfs|done]. }
apply categorize_and_move_file_fs in E.
rewrite PyPathFacts.name_snoc in E.
destruct (decided_target_form cfg (rs_fs st) output_dir (top ++ [f]))
  as (x & Hx & Htarget); [by rewrite PyPathFacts.name_snoc|].
rewrite PyPathFacts.name_snoc in Htarget. rewrite Htarget in E.
rewrite (category_relative cfg output_dir f Hrel) in E.
set (target_dir := output_dir ++ PyPath.parse (get_category_for_file cfg f)) in *.
destruct (FS.mkdir_parents (rs_fs st) target_dir) as [m1|] eqn:E1.
- destruct (framed_move st m1 (rs_fs st1) (top ++ [f]) (target_dir ++ [x]) target_dir)
    as [Ha Hb]; try done.
  + by apply prefix_app_r.
  + unfold target_dir. rewrite <- app_assoc. by apply prefix_app_r.
  + unfold target_dir. rewrite !elem_of_app, list_elem_of_singleton.
    intros [[?|Hin]|?]; [done| |done]. by apply parse_no_empty in Hin.
  + by apply prefix_app_r.
  + destruct (FS.shutil_move m1 (top ++ [f]) (target_dir ++ [x])) as [m2|];
      destruct E as [-> _]; auto.
- destruct E as [Hfs _]. destruct Hst as (Ha & Hb & _).
  split; [|split]; [by rewrite Hfs|by rewrite Hfs|done].
Qed.

Lemma relocate_files_framed fuel dry_run delete_empty_dirs st st' :
framed m input_dir output_dir st →
relocate_files cfg fuel input_dir output_dir dry_run delete_empty_dirs st = Some st' →
framed m input_dir output_dir st'.
Proof.
intros Hst. unfold relocate_files.
apply (os_walk_invariant_under rs_fs _ (framed m input_dir output_dir) input_dir);
  [|done|done].
clear st st' Hst. intros top dirs files st Htop Hst Hscan. unfold relocate_body.
destruct (under_processed _ _); [done|]. cbn [fst].
apply FSFacts.scandir_Some in Hscan as (_ & _ & _ & _ & Hfiles).
assert (∀ f, f ∈ files → f ≠ "") as Hnames.
{ intros f [d Hd]%Hfiles ->. destruct Hst as (_ & Hw & _).
  apply (Hw (top ++ [""])); [eauto|]. apply elem_of_app. right. by left. }
assert (framed m input_dir output_dir
          (if delete_empty_dirs then add_directory top st else st)) as Hst1.
{ destruct delete_empty_dirs; [|done]. destruct Hst as (Ha & Hb & Hc).
  split; [done|]. split; [done|]. cbn. intros p [->|?]%elem_of_set_add; auto. }
generalize dependent (if delete_empty_dirs then add_directory top st else st).
clear Hst Hfiles. intros st1 Hst1. revert st1 Hst1.
induction files as [|f files IH]; intros st1 Hst1; cbn [fold_left]; [done|].
apply IH.
- intros f' Hf'. apply Hnames. by right.
- apply file_step_framed; [done| |done]. apply Hnames. by left.
Qed.

Lemma finish_framed dry_run delete_empty_dirs st :
framed m input_dir output_dir st →
framed m input_dir output_dir (finish input_dir dry_run delete_empty_dirs st).
Proof.
intros (Ha & Hb & Hc).
destruct (finish_spec input_dir dry_run delete_empty_dirs st) as (_ & _ & Hdirs & _).
cbv zeta in Hdirs.
assert (∀ p, rs_fs (finish input_dir dry_run delete_empty_dirs st) !! p
             = rs_fs st !! p ∨
             (rs_fs (finish input_dir dry_run delete_empty_dirs st) !! p = None ∧
              p ∈ directories_to_check st)) as Hfs.
{ unfold finish. destruct delete_empty_dirs; [|by left].
  unfold cleanup_empty_directories. cbn [log directories_to_check rs_fs].
  destruct dry_run; [by left|].
  destruct (fold_left _ _ _) as [[m' lg] n] eqn:E. cbn [log rs_fs].
  apply cleanup_fold_spec in E as (Hcase & _).
  intros p. destruct (Hcase p) as [?|(? & _ & Hin & _)]; [by left|right].
  split; [done|]. by rewrite sorted_by_depth_perm in Hin. }
split; [|split].
- intros q Hq. destruct (Hfs q) as [->|[_ Hin]]; [by apply Ha|].
  destruct Hq as (Hq & _). destruct Hq. by apply Hc.
- intros p [e He]. destruct (Hfs p) as [E|[E _]]; rewrite E in He; [|done].
  apply Hb. eauto.
- by rewrite Hdirs.
Qed.

End Frame.

(** X18: a run reaches only the input tree, the output tree and the chain
    of directories that leads to the output: every other path holds after
    the run what it held before.  The categories are relative paths
    without [..], and no name of the tree or of the output path is
    empty. *)
Theorem sort_files_frame (cfg : Config) (fuel : nat) (m : fs)
    (input_dir_str : path) (output_dir_str : option path)
    (dry_run delete_empty_dirs : bool) (input_dir output_dir : path)
    (b : bool) (st : run_state) (q : path) :
  validate_input_paths m input_dir_str output_dir_str = inr (input_dir, output_dir) →
  relative_categories cfg → well_named m → "" ∉ output_dir →
  sort_files cfg fuel m input_dir_str output_dir_str dry_run delete_empty_dirs
    = Some (b, st) →
  outside input_dir output_dir q →
  rs_fs st !! q = m !! q.
Proof.
  intros Hv Hrel Hwf Hout Hrun Hq.
  destruct (sort_files_phases _ _ _ _ _ _ _ _ _ _ Hv Hrun)
    as (ps & st1 & st2 & Hid & H1 & H2 & [= -> ->]).
  assert (framed m input_dir output_dir (log (LogPhase 1) (initial_state m))) as H0.
  { split; [done|]. split; [done|]. by intros p ?%elem_of_nil. }
  assert (Forall (λ pr, input_dir `prefix_of` pr.1 ∧ "" ∉ pr.1 ∧
                        (pr.2 = PyPath.join1 (PyPath.parent pr.1 ++ [APPS])
                                  (PyPath.name pr.1)
                         ∨ ∃ top d, pr = child_move top d)) ps) as Hps.
  { pose proof (identify_projects_well_targeted _ _ _ _ _ _ Hid) as Hwt.
    apply Forall_forall. intros pr Hpr. split; [|split].
    - apply identify_walk in Hid as (new & -> & _ & Hu & _). apply Hu.
      apply list_elem_of_fmap. eauto.
    - apply identify_walk_exact in Hid as (new & -> & Hex).
      assert (pr.1 ∈ new.*1) as Hin by (apply list_elem_of_fmap; eauto).
      apply Hex in Hin as (Hp & Hall & _). apply Hwf.
      destruct (Hall pr.1 Hp) as [-> _]; [done|eauto].
    - unfold well_targeted in Hwt. rewrite Forall_forall in Hwt. by apply Hwt. }
  assert (framed m input_dir output_dir st1) as Hst1.
  { clear Hid H2. revert H0 H1. generalize (log (LogPhase 1) (initial_state m)).
    induction Hps as [|pr ps (Ha & Hb & Hc) _ IH]; intros st0 Hst0; cbn [move_projects].
    - by intros [= <-].
    - destruct (project_step output_dir dry_run st0 pr) as [e|st'] eqn:E; [done|].
      apply IH. by eapply project_step_framed. }
  assert (framed m input_dir output_dir (log (LogPhase 2) st1)) as Hst1' by done.
  pose proof (relocate_files_framed cfg m input_dir output_dir Hrel Hout fuel dry_run
                delete_empty_dirs _ _ Hst1' H2) as Hst2.
  by apply (finish_framed m input_dir output_dir dry_run delete_empty_dirs st2 Hst2).
Qed.

Lemma well_named_check (m : fs) :
  forallb (λ pe, bool_decide ("" ∉ pe.1)) (map_to_list m) = true → well_named m.
Proof.
  intros H p [e He] Hin. rewrite forallb_forall in H.
  specialize (H (p, e)). cbn [fst] in H.
  assert (bool_decide ("" ∉ p) = true) as Hb.
  { apply H. apply list_elem_of_In. by apply elem_of_map_to_list. }
  by apply bool_decide_eq_true in Hb.
Qed.

Lemma relative_categories_check (cfg : Config) :
  forallb (λ c, negb (PyPath.is_absolute c) && bool_decide (".." ∉ PyPath.parse c))
    (DEFAULT_CATEGORY cfg :: (map_to_list (FILE_CATEGORIES cfg)).*2) = true →
  relative_categories cfg.
Proof.
  intros H c Hc. rewrite forallb_forall in H.
  assert (negb (PyPath.is_absolute c) && bool_decide (".." ∉ PyPath.parse c) = true)
    as [Ha Hb]%andb_true_iff.
  { apply H. apply list_elem_of_In. destruct Hc as [->|[k Hk]]; [left|right].
    apply list_elem_of_fmap. exists (k, c). split; [done|].
    by apply elem_of_map_to_list. }
  split; [by apply negb_true_iff|by apply bool_decide_eq_true in Hb].
Qed.

Lemma sort_files_frame_witness :
  ∃ b st,
    sort_files default_config 5 (touch ["notes.txt"] "n" nested_tree) ["input"]
      (Some ["out"]) false false = Some (b, st) ∧
    rs_fs st !! ["notes.txt"] = Some (FileE "n").
Proof.
  assert (returned (sort_files default_config 5 (touch ["notes.txt"] "n" nested_tree)
                      ["input"] (Some ["out"]) false false) = Some true) as Hr
    by (vm_compute; reflexivity).
  destruct (sort_files default_config 5 (touch ["notes.txt"] "n" nested_tree) ["input"]
              (Some ["out"]) false false) as [[b st]|] eqn:E; [|discriminate Hr].
  exists b, st. split; [reflexivity|].
  rewrite (sort_files_frame default_config 5 (touch ["notes.txt"] "n" nested_tree)
             ["input"] (Some ["out"]) false false ["input"] ["out"] b st ["notes.txt"]).
  - vm_compute; reflexivity.
  - vm_compute; reflexivity.
  - apply relative_categories_check. vm_compute; reflexivity.
  - apply well_named_check. vm_compute; reflexivity.
  - apply (bool_decide_unpack _). vm_compute; reflexivity.
  - exact E.
  - repeat split; intros [k Hk]; discriminate Hk.
Defined.


(** ** The configuration schema *)

Lemma dict_get_Some d key : is_Some (dict_get d key) ↔ key ∈ d.*1.
Proof.
  unfold dict_get. split.
  - intros [v Hv]. apply elem_of_list_to_map_2 in Hv.
    apply list_elem_of_fmap. by exists (key, v).
  - intros Hin. destruct (list_to_map d !! key) as [v|] eqn:E; [eauto|].
    by apply not_elem_of_list_to_map in E.
Qed.

(** On a [dict] the loop raises nothing and adds one message for each
    key that is missing or has the wrong type. *)
Lemma schema_loop_object d schema errors :
  schema_loop (JObject d) schema errors =
    inr (errors ++
         omap (λ kt, match dict_get d kt.1 with
                     | None => Some ("Missing required configuration key: " +:+ kt.1)
                     | Some v =>
                         if isinstance v kt.2 then None
                         else Some ("Configuration key '" +:+ kt.1
                                    +:+ "' must be of type " +:+ type_name kt.2)
                     end) schema).
Proof.
  revert errors. induction schema as [|[key t] schema IH]; intros errors.
  - cbn. by rewrite app_nil_r.
  - cbn [schema_loop py_contains py_getitem omap list_omap fst snd].
    destruct (dict_get d key) as [v|] eqn:E.
    + rewrite bool_decide_eq_true_2 by (apply dict_get_Some; eauto).
      destruct (isinstance v t); rewrite IH; [done|]. by rewrite <- app_assoc.
    + rewrite bool_decide_eq_false_2.
      * rewrite IH. by rewrite <- app_assoc.
      * intros Hin%dict_get_Some. rewrite E in Hin. by destruct Hin.
Qed.

(** On a value that is not a [dict] the loop raises, or reports every
    key of the schema as missing. *)
Lemma schema_loop_other j schema errors errors' :
  (∀ d, j ≠ JObject d) →
  schema_loop j schema errors = inr errors' →
  length errors' = length errors + length schema.
Proof.
  intros Hj. revert errors. induction schema as [|[key t] schema IH]; intros errors.
  - cbn. intros [= <-]. lia.
  - cbn [schema_loop length].
    destruct (py_contains j key) as [e|[]] eqn:Ec; [done| |].
    + destruct j; try done. by destruct (Hj d).
    + intros ->%IH. rewrite length_app. cbn. lia.
Qed.

Lemma forallb_is_str items :
  forallb (λ kv : string * json, is_str kv.2) items = true
  ↔ Forall (λ kv, ∃ s, kv.2 = JString s) items.
Proof.
  rewrite forallb_forall, Forall_forall. split; intros H kv Hin.
  - apply list_elem_of_In, H in Hin. destruct kv as [k []]; try done. eauto.
  - apply list_elem_of_In, H in Hin as [s Hs]. by rewrite Hs.
Qed.

Lemma validate_config_schema_object d :
  validate_config_schema (JObject d) = inr [] ↔ well_typed_config d.
Proof.
  unfold validate_config_schema. rewrite schema_loop_object.
  cbn [py_contains py_getitem app].
  set (errs := omap _ CONFIG_SCHEMA).
  assert (errs = [] ↔
          ∀ key t, (key, t) ∈ CONFIG_SCHEMA →
                   ∃ v, dict_get d key = Some v ∧ isinstance v t = true) as Herrs.
  { unfold errs. clear errs. induction CONFIG_SCHEMA as [|[key t] schema IH].
    - split; [|done]. by intros _ key t ?%elem_of_nil.
    - cbn [omap list_omap fst snd]. split.
      + destruct (dict_get d key) as [v|] eqn:E; [|done].
        destruct (isinstance v t) eqn:Ei; [|done].
        intros H. pose proof (proj1 IH H) as H'.
        intros key' t' [[= -> ->]|Hin]%elem_of_cons; eauto.
      + intros H. destruct (H key t ltac:(left)) as (v & -> & ->).
        apply IH. intros key' t' Hin. apply H. by right. }
  split.
  - intros H. assert (errs = []) as He.
    { destruct (bool_decide _); [|by injection H].
      destruct (dict_get d "FILE_CATEGORIES") as [v|]; [|done].
      destruct (py_items v); [done|]. destruct (forallb _ _); [by injection H|].
      injection H as H. by apply app_eq_nil in H as [? _]. }
    split; [by apply Herrs|]. intros items Hitems. rewrite He in H.
    rewrite bool_decide_eq_true_2 in H by (apply dict_get_Some; eauto).
    rewrite Hitems in H. cbn [py_items app] in H.
    destruct (forallb _ items) eqn:Ef; [|done]. by apply forallb_is_str.
  - intros [H1 H2]. rewrite (proj2 Herrs H1).
    destruct (H1 "FILE_CATEGORIES" TDict ltac:(left)) as (v & Hv & Hi).
    rewrite bool_decide_eq_true_2 by (apply dict_get_Some; eauto). rewrite Hv.
    destruct v; try done. cbn [py_items].
    by rewrite (proj2 (forallb_is_str d0) (H2 _ Hv)).
Qed.

(** Only a [dict] passes without a message. *)
Lemma validate_config_schema_nil (config_data : json) :
  validate_config_schema config_data = inr [] → ∃ d, config_data = JObject d.
Proof.
  intros H.
  assert ((∃ d, config_data = JObject d) ∨ ∀ d, config_data ≠ JObject d) as [?|Hn];
    [destruct config_data; eauto|done|].
  exfalso. unfold validate_config_schema in H.
  destruct (schema_loop config_data CONFIG_SCHEMA []) as [e|errs] eqn:E; [done|].
  apply schema_loop_other in E; [|done].
  destruct (py_contains config_data _) as [?|[]]; [done| |].
  - destruct (py_getitem config_data _); [done|].
    destruct (py_items _); [done|]. destruct (forallb _ _).
    + injection H as ->. done.
    + injection H as H. apply app_eq_nil in H as [-> _]. done.
  - injection H as ->. done.
Qed.

(** X19: the schema check returns no message exactly for a JSON object
    that has every key of the schema with a value of the required type and
    only strings as values of [FILE_CATEGORIES].  The elements of the four
    lists are not looked at. *)
Theorem validate_config_schema_accepts (config_data : json) :
  validate_config_schema config_data = inr [] ↔
  ∃ d, config_data = JObject d ∧ well_typed_config d.
Proof.
  split.
  - intros H. destruct (validate_config_schema_nil _ H) as [d ->].
    exists d. split; [done|]. by apply validate_config_schema_object.
  - intros (d & -> & H). by apply validate_config_schema_object.
Qed.

Lemma validate_config_schema_accepts_witness :
  ∃ d, mock_config_data = JObject d ∧ well_typed_config d.
Proof.
  apply (proj1 (validate_config_schema_accepts mock_config_data)).
  vm_compute; reflexivity.
Defined.

(** X20: the schema check raises instead of reporting when
    [FILE_CATEGORIES] is present in the object and is not a [dict]: the
    type mismatch is recorded by the loop, and then [.items()] fails with
    an [AttributeError] before the list of messages is returned. *)
Theorem validate_config_schema_raises (d : list (string * json)) (v : json) :
  dict_get d "FILE_CATEGORIES" = Some v →
  isinstance v TDict = false →
  validate_config_schema (JObject d) = inl AttributeError.
Proof.
  intros Hv Hi. unfold validate_config_schema. rewrite schema_loop_object.
  cbn [py_contains py_getitem].
  rewrite bool_decide_eq_true_2 by (apply dict_get_Some; eauto). rewrite Hv.
  by destruct v.
Qed.

Lemma validate_config_schema_raises_witness :
  validate_config_schema invalid_config = inl AttributeError.
Proof.
  apply (validate_config_schema_raises _ (JString "not_a_dict")); reflexivity.
Defined.

(** ** Loading the configuration *)

Lemma load_config_true config_paths_to_try :
  (load_config config_paths_to_try).1 = true →
  ∃ d, first_file config_paths_to_try = Some (Parsed (JObject d)) ∧
       well_typed_config d ∧
       (load_config config_paths_to_try).2 = globals_of (JObject d).
Proof.
  unfold load_config.
  destruct (first_file config_paths_to_try) as [[| |j]|]; try done.
  destruct (validate_config_schema j) as [e|[|x errs]] eqn:E; try done.
  destruct (validate_config_schema_nil _ E) as [d ->].
  apply validate_config_schema_object in E. eauto.
Qed.

(** X21: [load_config] returns true exactly when the first of the tried
    paths that is a file parses to an object that passes the schema check.
    In every other case, a later candidate is not tried and the tables are
    the hard-coded fallbacks, which are the default configuration. *)
Theorem load_config_fallback (config_paths_to_try : list candidate) :
  ((load_config config_paths_to_try).1 = true ↔
   ∃ d, first_file config_paths_to_try = Some (Parsed (JObject d)) ∧
        well_typed_config d) ∧
  ((load_config config_paths_to_try).1 = false →
   (load_config config_paths_to_try).2 = fallback_globals) ∧
  to_config fallback_globals = Some default_config.
Proof.
  split; [split|split; [|done]].
  - intros (d & H1 & H2 & _)%load_config_true. eauto.
  - intros (d & Hf & Hd). unfold load_config. rewrite Hf.
    by rewrite (proj2 (validate_config_schema_object d) Hd).
  - unfold load_config.
    destruct (first_file config_paths_to_try) as [[| |j]|]; try done.
    by destruct (validate_config_schema j) as [e|[|x errs]].
Qed.

Lemma load_config_fallback_witness :
  load_config [NotAFile; Parsed invalid_config; Parsed mock_config_data]
    = (false, fallback_globals).
Proof.
  pose proof (proj1 (proj2 (load_config_fallback
                [NotAFile; Parsed invalid_config; Parsed mock_config_data]))) as H.
  destruct (load_config [NotAFile; Parsed invalid_config; Parsed mock_config_data])
    as [b g] eqn:E.
  assert (b = false) as -> by (apply (f_equal fst) in E; exact (eq_sym E)).
  cbn [fst snd] in H. by rewrite (H eq_refl).
Defined.

Lemma str_items_lookup items k s :
  Forall (λ kv : string * json, ∃ s, kv.2 = JString s) items →
  str_items items !! k = Some s ↔ dict_get items k = Some (JString s).
Proof.
  unfold str_items, dict_get. induction 1 as [|[k' v] items [s' Hs] _ IH].
  - cbn. by rewrite !lookup_empty.
  - cbn in Hs. subst v. cbn [omap list_omap fst snd list_to_map foldr uncurry].
    fold (omap (λ kv : string * json,
                  match kv.2 with JString s => Some (kv.1, s) | _ => None end) items).
    destruct (decide (k' = k)) as [->|Hne].
    + rewrite !lookup_insert_eq. split; intros [= ->]; done.
    + rewrite !lookup_insert_ne by done. exact IH.
Qed.

(** X22: after a successful load the tables hold what the file says: the
    categories are the items of its [FILE_CATEGORIES], and the default
    category and the four lists are its values, element for element. *)
Theorem load_config_loaded (config_paths_to_try : list candidate) (g : Globals) :
  load_config config_paths_to_try = (true, g) →
  ∃ d items,
    first_file config_paths_to_try = Some (Parsed (JObject d)) ∧
    dict_get d "FILE_CATEGORIES" = Some (JObject items) ∧
    (∀ k s, G_FILE_CATEGORIES g !! k = Some s ↔ dict_get items k = Some (JString s)) ∧
    dict_get d "DEFAULT_CATEGORY" = Some (JString (G_DEFAULT_CATEGORY g)) ∧
    dict_get d "PROJECT_FILE_MARKERS" = Some (JArray (G_PROJECT_FILE_MARKERS g)) ∧
    dict_get d "PROJECT_DIR_MARKERS" = Some (JArray (G_PROJECT_DIR_MARKERS g)) ∧
    dict_get d "APPLICATION_EXECUTABLE_EXTENSIONS"
      = Some (JArray (G_APPLICATION_EXECUTABLE_EXTENSIONS g)) ∧
    dict_get d "SPECIAL_APP_DIRS_AS_FILES"
      = Some (JArray (G_SPECIAL_APP_DIRS_AS_FILES g)).
Proof.
  intros H.
  destruct (load_config_true config_paths_to_try) as (d & Hf & [H1 H2] & Hg).
  { by rewrite H. }
  rewrite H in Hg. cbn [snd] in Hg. subst g.
  assert (∀ key t, (key, t) ∈ CONFIG_SCHEMA →
            ∃ v, dict_get d key = Some v ∧ isinstance v t = true) as Hk by exact H1.
  destruct (Hk "FILE_CATEGORIES" TDict) as (v1 & E1 & T1);
    [repeat first [left|right]; fail|].
  destruct (Hk "DEFAULT_CATEGORY" TStr) as (v2 & E2 & T2);
    [apply list_elem_of_In; cbn; tauto|].
  destruct (Hk "PROJECT_FILE_MARKERS" TList) as (v3 & E3 & T3);
    [apply list_elem_of_In; cbn; tauto|].
  destruct (Hk "PROJECT_DIR_MARKERS" TList) as (v4 & E4 & T4);
    [apply list_elem_of_In; cbn; tauto|].
  destruct (Hk "APPLICATION_EXECUTABLE_EXTENSIONS" TList) as (v5 & E5 & T5);
    [apply list_elem_of_In; cbn; tauto|].
  destruct (Hk "SPECIAL_APP_DIRS_AS_FILES" TList) as (v6 & E6 & T6);
    [apply list_elem_of_In; cbn; tauto|].
  destruct v1 as [| | | | |items]; try done.
  destruct v2 as [| | |s2| |]; try done.
  destruct v3 as [| | | |l3|]; try done.
  destruct v4 as [| | | |l4|]; try done.
  destruct v5 as [| | | |l5|]; try done.
  destruct v6 as [| | | |l6|]; try done.
  exists d, items. split; [done|]. split; [done|].
  unfold globals_of, get_dict, get_str, get_list. rewrite E1, E2, E3, E4, E5, E6.
  cbn [G_FILE_CATEGORIES G_DEFAULT_CATEGORY G_PROJECT_FILE_MARKERS G_PROJECT_DIR_MARKERS
       G_APPLICATION_EXECUTABLE_EXTENSIONS G_SPECIAL_APP_DIRS_AS_FILES].
  split; [|done]. intros k s. apply str_items_lookup. by apply H2.
Qed.

Lemma load_config_loaded_witness :
  ∃ g, load_config [NotAFile; Parsed mock_config_data] = (true, g) ∧
       G_DEFAULT_CATEGORY g = "Miscellaneous/Other" ∧
       G_SPECIAL_APP_DIRS_AS_FILES g = [JString ".app"].
Proof.
  assert ((load_config [NotAFile; Parsed mock_config_data]).1 = true) as Hb
    by (vm_compute; reflexivity).
  destruct (load_config [NotAFile; Parsed mock_config_data]) as [b g] eqn:E.
  cbn [fst] in Hb. subst b. exists g. split; [reflexivity|].
  destruct (load_config_loaded [NotAFile; Parsed mock_config_data] g E)
    as (d & items & Hf & _ & _ & Hd & _ & _ & _ & Hs).
  injection Hf as <-. split.
  - match type of Hd with
    | ?L = _ => assert (L = Some (JString "Miscellaneous/Other")) as Hd'
                  by (vm_compute; reflexivity)
    end.
    rewrite Hd' in Hd. by injection Hd as <-.
  - match type of Hs with
    | ?L = _ => assert (L = Some (JArray [JString ".app"])) as Hs'
                  by (vm_compute; reflexivity)
    end.
    rewrite Hs' in Hs. by injection Hs as <-.
Defined.


(** ** Counting the items to process *)

Lemma parent_closed_ancestor (m : fs) q k :
  parent_closed m → k ≠ [] → is_Some (m !! (q ++ k)) → m !! q = Some DirE.
Proof.
  intros Hc. induction k as [|x k IH] using rev_ind; [done|]. intros _ Hs.
  rewrite app_assoc in Hs. apply Hc in Hs.
  destruct k as [|y k'] using rev_ind; [by rewrite app_nil_r in Hs|].
  apply IH; [by destruct k'|by rewrite Hs].
Qed.

Section Count.
Variable m : fs.
Hypothesis Hclosed : parent_closed m.

Lemma count_children top dirs files :
FS.scandir m top = Some (dirs, files) →
NoDup ((λ x, top ++ [x]) <$> (files ++ dirs)) ∧
∀ p, p ∈ (λ x, top ++ [x]) <$> (files ++ dirs)
     ↔ ∃ x, p = top ++ [x] ∧ is_Some (m !! p).
Proof.
intros (_ & Hnd & Hnf & Hd & Hf)%FSFacts.scandir_Some. split.
- apply NoDup_fmap_2; [intros x y E; by apply app_inv_head in E as [= ->]|].
  apply NoDup_app. split; [done|]. split; [|done].
  intros x [d Hx]%Hf Hx'%Hd. congruence.
- intros p. rewrite list_elem_of_fmap. split.
  + intros (x & -> & [[d Hx]%Hf|Hx%Hd]%elem_of_app); eauto.
  + intros (x & -> & [[d|] Hx]); exists x; (split; [done|]); apply elem_of_app.
    * left. apply Hf. eauto.
    * right. by apply Hd.
Qed.

Lemma count_walk_dirs (rec : path → nat → option nat) top ds acc n :
(∀ p a a', rec p a = Some a' →
   ∃ l, a' = a + length l ∧ NoDup l ∧
        ∀ q, q ∈ l ↔ is_Some (m !! q) ∧ p `prefix_of` q ∧ q ≠ p) →
NoDup ds →
walk_dirs rec top ds acc = Some n →
∃ l, n = acc + length l ∧ NoDup l ∧
     ∀ q, q ∈ l ↔ ∃ d, d ∈ ds ∧ is_Some (m !! q) ∧ top ++ [d] `prefix_of` q
                       ∧ q ≠ top ++ [d].
Proof.
intros Hrec. revert acc. induction ds as [|d ds IH]; intros acc Hnd; simpl.
- intros [= <-]. exists []. split; [simpl; lia|]. split; [constructor|].
  intros q. split; [by intros ?%elem_of_nil|]. by intros (d & ?%elem_of_nil & _).
- apply NoDup_cons in Hnd as [Hd Hnd].
  destruct (rec (top ++ [d]) acc) as [a1|] eqn:E; [|done].
  apply Hrec in E as (l1 & -> & Hn1 & H1).
  intros (l2 & -> & Hn2 & H2)%IH; [|done].
  exists (l1 ++ l2). split; [rewrite length_app; lia|]. split.
  + apply NoDup_app. split; [done|]. split; [|done].
    intros q (_ & Hq1 & _)%H1 (d' & Hd' & _ & Hq2 & _)%H2.
    apply Hd. rewrite (prefix_snoc_distinct top d d' q q); auto.
  + intros q. rewrite elem_of_app, H1, H2. split.
    * intros [(? & ? & ?)|(d' & Hd' & ?)]; [exists d|exists d'];
        (split; [|done]); [by left|by right].
    * intros (d' & [->|Hd']%elem_of_cons & ?); [by left|right; eauto].
Qed.

Lemma count_walk fuel top acc n :
os_walk (λ _, m) count_body fuel top acc = Some n →
∃ l, n = acc + length l ∧ NoDup l ∧
     ∀ q, q ∈ l ↔ is_Some (m !! q) ∧ top `prefix_of` q ∧ q ≠ top.
Proof.
revert top acc n. induction fuel as [|fuel IH]; intros top acc n;
  rewrite os_walk_unfold;
  destruct (FS.scandir m top) as [[dirs files]|] eqn:E; try done;
  try (intros [= <-]; exists []; split; [simpl; lia|]; split; [constructor|];
       intros q; split; [by intros ?%elem_of_nil|];
       intros (Hq & [k ->] & Hne);
       apply FSFacts.scandir_None in E; destruct E;
       apply (parent_closed_ancestor m top k Hclosed); [|done];
       intros ->; by rewrite app_nil_r in Hne).
cbn [count_body fst snd].
pose proof (count_children top dirs files E) as [Hn0 H0].
pose proof (FSFacts.scandir_Some _ _ _ _ E) as (_ & Hnd & _ & Hd & _).
intros (l & -> & Hnl & Hl)%count_walk_dirs; [|by apply IH|done].
exists (((λ x, top ++ [x]) <$> (files ++ dirs)) ++ l).
split; [rewrite length_app, length_fmap, length_app; lia|]. split.
- apply NoDup_app. split; [done|]. split; [|done].
  intros q (x & -> & _)%H0 (d & _ & _ & Hp & Hne)%Hl.
  apply Hne. symmetry. apply (anti_symm prefix); [done|].
  apply prefix_snoc_inv in Hp as ->. done.
- intros q. rewrite elem_of_app, H0, Hl. split.
  + intros [(x & -> & Hs)|(d & Hd' & Hs & Hp & Hne)].
    * split; [done|]. split; [by apply prefix_app_r|].
      intros Eq. apply (f_equal length) in Eq. rewrite length_app in Eq.
      simpl in Eq. lia.
    * split; [done|]. split; [trans (top ++ [d]); [by apply prefix_app_r|done]|].
      intros ->. apply prefix_length in Hp. rewrite length_app in Hp.
      simpl in Hp. lia.
  + intros (Hs & [k ->] & Hne). destruct k as [|x k]; [by rewrite app_nil_r in Hne|].
    destruct k as [|y k]; [left; eauto|right].
    exists x. assert (m !! (top ++ [x]) = Some DirE) as Hdir.
    { apply (parent_closed_ancestor m (top ++ [x]) (y :: k) Hclosed); [done|].
      by rewrite <- app_assoc. }
    split; [by apply Hd|]. split; [done|]. split.
    * exists (y :: k). by rewrite <- app_assoc.
    * intros Eq. apply (f_equal length) in Eq. rewrite !length_app in Eq.
      simpl in Eq. lia.
Qed.

End Count.

Lemma parent_closed_check (m : fs) :
  forallb (λ pe, match pe.1 with
                 | [] => true
                 | _ => bool_decide (m !! PyPath.parent pe.1 = Some DirE)
                 end) (map_to_list m) = true →
  parent_closed m.
Proof.
  intros H p x [e He]. rewrite forallb_forall in H.
  specialize (H (p ++ [x], e)). cbn [fst] in H.
  rewrite PyPathFacts.parent_snoc in H.
  assert (match p ++ [x] with
          | [] => true
          | _ => bool_decide (m !! p = Some DirE)
          end = true) as Hb.
  { apply H. apply list_elem_of_In. by apply elem_of_map_to_list. }
  destruct (p ++ [x]) eqn:E; [by destruct p|]. by apply bool_decide_eq_true in Hb.
Qed.


(** ** The file decisions of a dry run *)

Lemma under_processed_true s p :
  under_processed s p = true ↔ ∃ c, c ∈ s ∧ c `prefix_of` p.
Proof.
  unfold under_processed. rewrite existsb_exists. split.
  - intros (c & Hc%list_elem_of_In & H). exists c. split; [done|].
    apply orb_true_iff in H as [->%bool_decide_eq_true|H%bool_decide_eq_true]; [done|].
    by apply PyPathFacts.elem_of_parents in H as [? _].
  - intros (c & Hc & Hp). exists c. split; [by apply list_elem_of_In|].
    destruct (decide (c = p)) as [->|Hne].
    + by rewrite bool_decide_eq_true_2.
    + apply orb_true_iff. right. apply bool_decide_eq_true.
      by apply PyPathFacts.elem_of_parents.
Qed.

Lemma under_processed_mono s q q' :
  q `prefix_of` q' → under_processed s q = true → under_processed s q' = true.
Proof.
  intros Hq (c & Hc & Hp)%under_processed_true. apply under_processed_true.
  exists c. split; [done|]. by trans q.
Qed.

Lemma prefix_of_parent (top p : path) :
  top `prefix_of` p → p ≠ top → top `prefix_of` PyPath.parent p.
Proof.
  intros [k ->] Hne. destruct k as [|x k] using rev_ind.
  - by rewrite app_nil_r in Hne.
  - rewrite app_assoc, PyPathFacts.parent_snoc. by apply prefix_app_r.
Qed.

Section DryRun.
Variable cfg : Config.
Variable m : fs.
Variable processed : list path.
Variable output_dir : path.
Variable delete_empty_dirs : bool.
Hypothesis Hclosed : parent_closed m.

Lemma file_step_dry top st f :
rs_fs st = m → processed_projects st = processed →
under_processed processed top = false →
rs_fs (file_step cfg output_dir true top st f) = m ∧
processed_projects (file_step cfg output_dir true top st f) = processed ∧
(file_decisions (rs_log (file_step cfg output_dir true top st f))).*1
  = (file_decisions (rs_log st)).*1 ++ [top ++ [f]].
Proof.
intros Hfs Hp Hu. unfold file_step.
assert (existsb (λ c, bool_decide (c ∈ PyPath.parents (top ++ [f])))
          (processed_projects st) = false) as ->.
{ apply not_true_is_false. intros (c & Hc%list_elem_of_In & H)%existsb_exists.
  apply bool_decide_eq_true, PyPathFacts.elem_of_parents in H as [[k Hk] Hne].
  rewrite Hp in Hc.
  assert (under_processed processed top = true); [|congruence].
  apply under_processed_true. exists c. split; [done|].
  destruct k as [|x k] using rev_ind; [by rewrite app_nil_r in Hk|].
  rewrite app_assoc in Hk. apply app_inj_tail in Hk as [-> _]. by exists k. }
destruct (categorize_and_move_file cfg (top ++ [f]) output_dir true st)
  as [st1 ok] eqn:E.
apply categorize_and_move_file_spec in E as (overflow & Hlog & _ & Hpp & _ & Hdry & _).
destruct (Hdry eq_refl) as [_ Hfs1].
cbn [set_progress rs_fs processed_projects rs_log].
split; [congruence|]. split; [congruence|].
rewrite Hlog, file_decisions_app, fmap_app.
by destruct (file_events_read (requested_target cfg output_dir (top ++ [f]))
               (decided_target cfg (rs_fs st) output_dir (top ++ [f]))
               (top ++ [f]) overflow ok) as (-> & _).
Qed.

Lemma file_steps_dry top files st :
rs_fs st = m → processed_projects st = processed →
under_processed processed top = false →
rs_fs (fold_left (file_step cfg output_dir true top) files st) = m ∧
processed_projects (fold_left (file_step cfg output_dir true top) files st)
  = processed ∧
(file_decisions (rs_log (fold_left (file_step cfg output_dir true top) files st))).*1
  = (file_decisions (rs_log st)).*1 ++ ((λ f, top ++ [f]) <$> files).
Proof.
intros Hfs Hp Hu. revert st Hfs Hp.
induction files as [|f files IH]; intros st Hfs Hp; cbn [fold_left].
- by rewrite app_nil_r.
- destruct (file_step_dry top st f Hfs Hp Hu) as (H1 & H2 & H3).
  destruct (IH _ H1 H2) as (H4 & H5 & H6). split; [done|]. split; [done|].
  rewrite H6, H3, <- app_assoc. done.
Qed.

Lemma dry_walk_dirs (rec : path → run_state → option run_state) top ds st st' :
(∀ p s s', rs_fs s = m → processed_projects s = processed → rec p s = Some s' →
   rs_fs s' = m ∧ processed_projects s' = processed ∧
   ∃ l, (file_decisions (rs_log s')).*1 = (file_decisions (rs_log s)).*1 ++ l ∧
        NoDup l ∧ ∀ q, q ∈ l ↔ loose_file m processed p q) →
NoDup ds →
rs_fs st = m → processed_projects st = processed →
walk_dirs rec top ds st = Some st' →
rs_fs st' = m ∧ processed_projects st' = processed ∧
∃ l, (file_decisions (rs_log st')).*1 = (file_decisions (rs_log st)).*1 ++ l ∧
     NoDup l ∧
     ∀ q, q ∈ l ↔ ∃ d, d ∈ ds ∧ loose_file m processed (top ++ [d]) q.
Proof.
intros Hrec. revert st. induction ds as [|d ds IH]; intros st Hnd Hfs Hp; simpl.
- intros [= <-]. split; [done|]. split; [done|]. exists []. rewrite app_nil_r.
  split; [done|]. split; [constructor|]. intros q.
  split; [by intros ?%elem_of_nil|]. by intros (d & ?%elem_of_nil & _).
- apply NoDup_cons in Hnd as [Hd Hnd].
  destruct (rec (top ++ [d]) st) as [st1|] eqn:E; [|done].
  apply Hrec in E as (Hfs1 & Hp1 & l1 & Hl1 & Hn1 & H1); [|done|done].
  intros (Hfs2 & Hp2 & l2 & Hl2 & Hn2 & H2)%IH; [|done|done|done].
  split; [done|]. split; [done|]. exists (l1 ++ l2).
  split; [by rewrite Hl2, Hl1, <- app_assoc|]. split.
  + apply NoDup_app. split; [done|]. split; [|done].
    intros q (_ & Hq1 & _)%H1 (d' & Hd' & _ & Hq2 & _)%H2.
    apply Hd. rewrite (prefix_snoc_distinct top d d' q q); auto.
  + intros q. rewrite elem_of_app, H1, H2. split.
    * intros [?|(d' & Hd' & ?)]; [exists d|exists d']; (split; [|done]);
        [by left|by right].
    * intros (d' & [->|Hd']%elem_of_cons & ?); [by left|right; eauto].
Qed.

Lemma dry_walk fuel top st st' :
rs_fs st = m → processed_projects st = processed →
os_walk rs_fs (relocate_body cfg output_dir true delete_empty_dirs) fuel top st
  = Some st' →
rs_fs st' = m ∧ processed_projects st' = processed ∧
∃ l, (file_decisions (rs_log st')).*1 = (file_decisions (rs_log st)).*1 ++ l ∧
     NoDup l ∧ ∀ q, q ∈ l ↔ loose_file m processed top q.
Proof.
revert top st st'. induction fuel as [|fuel IH]; intros top st st' Hfs Hp;
  rewrite os_walk_unfold, Hfs;
  destruct (FS.scandir m top) as [[dirs files]|] eqn:E; try done;
  try (intros [= <-]; split; [done|]; split; [done|]; exists [];
       rewrite app_nil_r; split; [done|]; split; [constructor|];
       intros q; split; [by intros ?%elem_of_nil|];
       intros ([d Hq] & [k ->] & Hne & _);
       apply FSFacts.scandir_None in E; destruct E;
       apply (parent_closed_ancestor m top k Hclosed); [|by rewrite Hq];
       intros ->; by rewrite app_nil_r in Hne).
unfold relocate_body. rewrite Hp.
destruct (under_processed processed top) eqn:Eu.
{ cbn [fst snd walk_dirs]. intros [= <-]. split; [done|]. split; [done|].
  exists []. rewrite app_nil_r. split; [done|]. split; [constructor|].
  intros q. split; [by intros ?%elem_of_nil|]. intros (_ & Hq & Hne & Hu).
  rewrite (under_processed_mono processed top (PyPath.parent q)) in Hu;
    [done|by apply prefix_of_parent|done]. }
cbn [fst snd].
pose proof (FSFacts.scandir_Some _ _ _ _ E) as (_ & Hnd & Hnf & Hd & Hf).
set (st0 := if delete_empty_dirs then add_directory top st else st).
assert (rs_fs st0 = m ∧ processed_projects st0 = processed ∧ rs_log st0 = rs_log st)
  as (Hfs0 & Hp0 & Hl0) by (unfold st0; by destruct delete_empty_dirs).
destruct (file_steps_dry top files st0 Hfs0 Hp0 Eu) as (Hfs1 & Hp1 & Hl1).
intros (Hfs2 & Hp2 & l & Hl & Hnl & Hall)%dry_walk_dirs;
  [|intros p s s' ? ?; by apply IH|done|done|done].
split; [done|]. split; [done|].
exists (((λ f, top ++ [f]) <$> files) ++ l).
split; [by rewrite Hl, Hl1, Hl0, <- app_assoc|]. split.
- apply NoDup_app. split; [|split; [|done]].
  + apply NoDup_fmap_2; [|done]. intros x y Exy. by apply app_inv_head in Exy as [= ->].
  + intros q (f & -> & _)%list_elem_of_fmap (d & _ & _ & Hq & Hne & _)%Hall.
    apply Hne. symmetry. apply (anti_symm prefix); [done|].
    apply prefix_snoc_inv in Hq as ->. done.
- intros q. rewrite elem_of_app, Hall, list_elem_of_fmap. split.
  + intros [(f & -> & Hin)|(d & Hin & Hq & Hpre & Hne & Hu)].
    * split; [by apply Hf|]. split; [by apply prefix_app_r|]. split.
      { intros Eq. apply (f_equal length) in Eq. rewrite length_app in Eq.
        simpl in Eq. lia. }
      by rewrite PyPathFacts.parent_snoc.
    * split; [done|]. split; [trans (top ++ [d]); [by apply prefix_app_r|done]|].
      split; [|done]. intros ->. apply prefix_length in Hpre.
      rewrite length_app in Hpre. simpl in Hpre. lia.
  + intros ([dat Hq] & [k ->] & Hne & Hu).
    destruct k as [|x k]; [by rewrite app_nil_r in Hne|].
    destruct k as [|y k].
    * left. exists x. split; [done|]. apply Hf. eauto.
    * right. exists x.
      assert (m !! (top ++ [x]) = Some DirE) as Hdir.
      { apply (parent_closed_ancestor m (top ++ [x]) (y :: k) Hclosed); [done|].
        rewrite <- app_assoc. cbn [app]. by rewrite Hq. }
      split; [by apply Hd|]. split; [by exists dat|]. split.
      { exists (y :: k). by rewrite <- app_assoc. }
      split; [|done]. intros Eq. apply (f_equal length) in Eq.
      rewrite !length_app in Eq. simpl in Eq. lia.
Qed.

End DryRun.

(** X24: the file decisions of a dry run on a tree are exactly the loose
    files: a path is the source of a file decision if and only if it is a
    regular file below the input whose directory is neither a claimed
    project nor inside one, and no file is decided twice. *)
Theorem dry_run_file_decisions_exact (cfg : Config) (fuel : nat) (m : fs)
    (input_dir_str : path) (output_dir_str : option path) (delete_empty_dirs : bool)
    (input_dir output_dir : path) (b : bool) (st : run_state) :
  parent_closed m →
  validate_input_paths m input_dir_str output_dir_str = inr (input_dir, output_dir) →
  sort_files cfg fuel m input_dir_str output_dir_str true delete_empty_dirs
    = Some (b, st) →
  NoDup (file_decisions (rs_log st)).*1 ∧
  ∀ p, p ∈ (file_decisions (rs_log st)).*1
       ↔ loose_file m (processed_projects st) input_dir p.
Proof.
  intros Hc Hv Hrun.
  destruct (sort_files_phases _ _ _ _ _ _ _ _ _ _ Hv Hrun)
    as (ps & st1 & st2 & _ & H1 & H2 & [= -> ->]).
  assert (rs_fs st1 = m ∧ file_decisions (rs_log st1) = []) as [Hfs1 Hd1].
  { apply (move_projects_invariant (λ st, rs_fs st = m ∧ file_decisions (rs_log st) = [])
             output_dir true ps (log (LogPhase 1) (initial_state m)) st1);
      [|done|exact H1].
    intros st0 pr st' [Ha Hb] Hstep.
    pose proof (project_step_spec output_dir true st0 pr) as H. rewrite Hstep in H.
    destruct H as (rel & ok & _ & -> & _ & _ & _ & Hdry & _).
    destruct (Hdry eq_refl) as [_ Hfs]. split; [congruence|].
    rewrite file_decisions_app, Hb. apply project_events_read. }
  unfold relocate_files in H2.
  apply (dry_walk cfg m (processed_projects st1) output_dir delete_empty_dirs Hc) in H2
    as (_ & Hp2 & l & Hl & Hnl & Hall); [|done|done].
  cbn [log rs_log] in Hl. rewrite file_decisions_app, Hd1 in Hl. cbn in Hl.
  destruct (finish_spec input_dir true delete_empty_dirs st2)
    as (_ & Hp3 & _ & (removed & Hl3) & _).
  cbv zeta in Hp3, Hl3. cbn [snd]. rewrite Hp3, Hl3, !file_decisions_app.
  assert (file_decisions (if delete_empty_dirs
            then LogPhase 3 :: (LogDeleted <$> removed) else []) = []) as ->.
  { destruct delete_empty_dirs; [|done]. apply (decisions_deleted removed). }
  cbn. rewrite !app_nil_r, Hl, Hp2. done.
Qed.

Lemma dry_run_file_decisions_exact_witness :
  ∃ b st,
    sort_files test_config 5 basic_operation_tree test_input (Some test_output) true false
      = Some (b, st) ∧
    NoDup (file_decisions (rs_log st)).*1.
Proof.
  assert (returned (sort_files test_config 5 basic_operation_tree test_input
                      (Some test_output) true false) = Some true) as Hr
    by (vm_compute; reflexivity).
  destruct (sort_files test_config 5 basic_operation_tree test_input (Some test_output)
              true false) as [[b st]|] eqn:E; [|discriminate Hr].
  exists b, st. split; [reflexivity|].
  apply (dry_run_file_decisions_exact test_config 5 basic_operation_tree test_input
           (Some test_output) false test_input test_output b st).
  - apply parent_closed_check. vm_compute; reflexivity.
  - vm_compute; reflexivity.
  - exact E.
Defined.


(** ** Where projects go *)

(** X25: the place of a project inside the input tree is not kept: every
    project decision of a run sends its source, at whatever depth it was
    found, to [output / "Applications_And_Projects" / name]. *)
Theorem project_decisions_flat (cfg : Config) (fuel : nat) (m : fs)
    (input_dir_str : path) (output_dir_str : option path)
    (dry_run delete_empty_dirs : bool) (input_dir output_dir : path)
    (b : bool) (st : run_state) (source target : path) :
  validate_input_paths m input_dir_str output_dir_str = inr (input_dir, output_dir) →
  well_named m →
  sort_files cfg fuel m input_dir_str output_dir_str dry_run delete_empty_dirs
    = Some (b, st) →
  (source, target) ∈ project_decisions (rs_log st) →
  target = project_target output_dir source.
Proof.
  intros Hv Hwf Hrun Hin.
  destruct (sort_files_project_decisions _ _ _ _ _ _ _ _ _ _ _ Hv Hrun)
    as (ps & Hid & Hdec).
  rewrite Hdec in Hin. unfold recorded_targets in Hin.
  apply list_elem_of_omap in Hin as (pr & Hpr & Hrel).
  destruct (PyPath.relative_to pr.2 (PyPath.parent pr.1)) as [rel|] eqn:Er; [|done].
  cbn in Hrel. injection Hrel as <- <-.
  pose proof (identify_projects_well_targeted _ _ _ _ _ _ Hid) as Hwt.
  unfold well_targeted in Hwt. rewrite Forall_forall in Hwt.
  destruct (well_targeted_relative pr (Hwt pr Hpr)) as [Hr|(top & d & -> & Hr)];
    rewrite Hr in Er; injection Er as <-.
  - unfold project_target. by rewrite join1_app.
  - unfold project_target. cbn [child_move fst]. rewrite PyPathFacts.name_snoc.
    unfold PyPath.join1. rewrite decide_False; [by rewrite <- app_assoc|].
    intros ->. apply identify_walk_exact in Hid as (new & -> & Hex).
    assert ((child_move top "").1 ∈ new.*1) as Hs
      by (apply list_elem_of_fmap; eauto).
    apply Hex in Hs as (Hp & Hall & _).
    destruct (Hall _ Hp) as [Hd _]; [done|]. cbn [child_move fst] in Hd.
    apply (Hwf (top ++ [""])); [by rewrite Hd|]. apply elem_of_app. right. by left.
Qed.

Lemma project_decisions_flat_witness :
  ∃ b st,
    sort_files default_config 5 nested_projects_tree ["in"] (Some ["out"]) true false
      = Some (b, st) ∧
    ∀ t, (["in"; "tools"; "Viewer.app"], t) ∈ project_decisions (rs_log st) →
         t = ["out"; "Applications_And_Projects"; "Viewer.app"].
Proof.
  assert (returned (sort_files default_config 5 nested_projects_tree ["in"]
                      (Some ["out"]) true false) = Some true) as Hr
    by (vm_compute; reflexivity).
  destruct (sort_files default_config 5 nested_projects_tree ["in"] (Some ["out"])
              true false) as [[b st]|] eqn:E; [|discriminate Hr].
  exists b, st. split; [reflexivity|]. intros t Ht.
  rewrite (project_decisions_flat default_config 5 nested_projects_tree ["in"]
             (Some ["out"]) true false ["in"] ["out"] b st
             ["in"; "tools"; "Viewer.app"] t).
  - reflexivity.
  - vm_compute; reflexivity.
  - apply well_named_check. vm_compute; reflexivity.
  - exact E.
  - exact Ht.
Defined.


(** ** The relocation of a project at the input root *)

Lemma move_tree_relocated (m m1 : fs) (src real : path) :
  (∀ q e, m !! (src ++ q) = Some e → m1 !! (src ++ q) = Some e) →
  (∀ q e, m !! (src ++ q) = Some e → FS.move_tree m1 src real !! (real ++ q) = Some e) ∧
  (∀ p, src `prefix_of` p → ¬ real `prefix_of` p → FS.move_tree m1 src real !! p = None).
Proof.
  intros Hsub. split.
  - intros q e Hq. by rewrite FSFacts.lookup_move_tree_dst, (Hsub _ _ Hq).
  - intros p Hp Hn. destruct (FS.move_tree m1 src real !! p) as [e|] eqn:E; [|done].
    apply FSFacts.lookup_move_tree_Some in E as [(q & -> & _)|(_ & Hn' & _)]; [|done].
    destruct Hn. by apply prefix_app_r.
Qed.

(** A successful [shutil.move] of a directory puts it at [landing]. *)
Lemma shutil_move_landing (m m1 m2 : fs) (src dst : path) :
  m !! src = Some DirE →
  (∀ p e, m !! p = Some e → m1 !! p = Some e) →
  m1 !! dst = m !! dst →
  FS.shutil_move m1 src dst = Some m2 →
  (∀ q e, m !! (src ++ q) = Some e → m2 !! (landing m src dst ++ q) = Some e) ∧
  (∀ p, src `prefix_of` p → ¬ landing m src dst `prefix_of` p → m2 !! p = None).
Proof.
  intros Hsrc Hsub Hdst Hmv.
  assert (m1 !! src = Some DirE) as Hsrc1 by auto.
  assert (∀ q e, m !! (src ++ q) = Some e → m1 !! (src ++ q) = Some e) as Hsub' by auto.
  unfold FS.shutil_move in Hmv. unfold landing.
  destruct (FS.is_dir m1 dst) eqn:Edir.
  - apply FSFacts.is_dir_true in Edir. rewrite Hdst in Edir. rewrite Edir.
    destruct (decide (src = dst)) as [Heq|Hne].
    + injection Hmv as <-. subst dst. split; [auto|]. intros p Hp Hn. done.
    + destruct (FS.exists_ m1 (PyPath.join1 dst (PyPath.name src))) eqn:Eex; [done|].
      unfold FS.os_rename in Hmv. rewrite Hsrc1 in Hmv.
      destruct (decide (src = PyPath.join1 dst (PyPath.name src))) as [Heq|_].
      { apply FSFacts.exists_false in Eex. rewrite <- Heq in Eex. congruence. }
      destruct (negb _); [done|]. destruct (bool_decide _); [done|].
      rewrite Eex in Hmv. injection Hmv as <-. by apply move_tree_relocated.
  - unfold FS.os_rename in Hmv. rewrite Hsrc1 in Hmv.
    destruct (decide (src = dst)) as [Heq|Hne].
    { subst dst. apply not_true_iff_false in Edir. destruct Edir.
      by apply FSFacts.is_dir_true. }
    destruct (negb _); [done|]. destruct (bool_decide _); [done|].
    destruct (FS.exists_ m1 dst) eqn:Eex; [done|]. injection Hmv as <-.
    apply FSFacts.exists_false in Eex. rewrite Hdst in Eex. rewrite Eex.
    by apply move_tree_relocated.
Qed.

(** C10, as amended: when the input root is listed as a project (its
    listing is not empty and the classifier accepts it), discovery
    records the root alone, with the destination
    [output/Applications_And_Projects/name].  Under dry-run nothing is
    moved.  In a real run in which the move of the root succeeds, the tree
    the run ends with is the result of that one move: every entry below
    the root is found, at the same relative path, below [landing], which
    is the destination when nothing was there and the directory of the
    root's name inside it when the destination existed already, and
    nothing is left below the root outside that place.  In both cases the
    root is claimed, no file is categorized and the run succeeds. *)
Theorem root_project_relocated cfg m fuel input_dir_str output_dir_str
    (dry_run delete_empty_dirs : bool) input_dir output_dir :
  validate_input_paths m input_dir_str output_dir_str = inr (input_dir, output_dir) →
  listed_as_project cfg m input_dir = true →
  let target := project_target output_dir input_dir in
  identify_projects cfg m (S fuel) input_dir []
    = Some [(input_dir,
             PyPath.join1 (PyPath.parent input_dir ++ [APPS]) (PyPath.name input_dir))] ∧
  ∀ m2 : fs,
    (if dry_run then m2 = m
     else ∃ m1, FS.mkdir_parents m (PyPath.parent target) = Some m1 ∧
                FS.shutil_move m1 input_dir target = Some m2) →
    ∃ st,
      sort_files cfg (S fuel) m input_dir_str output_dir_str dry_run delete_empty_dirs
        = Some (true, st) ∧
      rs_fs st = m2 ∧
      project_decisions (rs_log st) = [(input_dir, target)] ∧
      file_decisions (rs_log st) = [] ∧
      processed_projects st = [input_dir] ∧
      projects_moved (rs_progress st) = 1 ∧
      (dry_run = false →
       (∀ q e, m !! (input_dir ++ q) = Some e →
               m2 !! (landing m input_dir target ++ q) = Some e) ∧
       (∀ p, input_dir `prefix_of` p → ¬ landing m input_dir target `prefix_of` p →
             m2 !! p = None)).
Proof.
  intros Hv Hl target. split; [by apply identify_projects_root|].
  intros m2 Hm2. unfold sort_files. rewrite Hv.
  cbn [rs_fs log initial_state processed_projects].
  rewrite identify_projects_root by done.
  rewrite (move_projects_root output_dir dry_run input_dir m m2 Hm2). fold target.
  rewrite relocate_files_root_claimed by left.
  set (st2 := log (LogPhase 2) _).
  destruct (finish_spec input_dir dry_run delete_empty_dirs st2)
    as (Hp & Hproc & _ & (removed & Hlog) & Hfs).
  destruct (decisions_deleted removed) as (Hd1 & Hd2 & _).
  exists (finish input_dir dry_run delete_empty_dirs st2).
  rewrite Hp, Hproc, Hlog, Hfs by auto.
  rewrite !project_decisions_app, !file_decisions_app.
  assert (project_decisions (if delete_empty_dirs
            then LogPhase 3 :: (LogDeleted <$> removed) else []) = []) as ->
    by (by destruct delete_empty_dirs).
  assert (file_decisions (if delete_empty_dirs
            then LogPhase 3 :: (LogDeleted <$> removed) else []) = []) as ->
    by (by destruct delete_empty_dirs).
  split; [done|]. split; [done|]. split; [done|]. split; [done|].
  split; [done|]. split; [done|].
  intros ->. destruct Hm2 as (m1 & Hmk & Hmv).
  pose proof Hmk as (Hsub & _ & Hnew)%FSFacts.mkdir_parents_spec.
  assert (m !! input_dir = Some DirE) as Hdir.
  { destruct (listed_as_project_scandir _ _ _ Hl) as (dirs & files & Hs).
    by apply FSFacts.scandir_Some in Hs as [? _]. }
  eapply shutil_move_landing; [exact Hdir| |  |exact Hmv].
  - intros p e Hp'. by eapply lookup_weaken.
  - destruct (m !! target) as [e|] eqn:Et; [by eapply lookup_weaken|].
    destruct (m1 !! target) as [e'|] eqn:E; [|done].
    apply Hnew in E as [E|[_ E]]; [congruence|].
    apply prefix_length in E. rewrite PyPathFacts.length_parent in E.
    assert (1 ≤ length target) as Hlen; [|lia].
    unfold target, project_target, PyPath.join1.
    destruct (decide _); rewrite !length_app; simpl; lia.
Qed.

Lemma root_project_relocated_witness :
  ∃ st,
    sort_files default_config 1 root_project_tree ["in"] (Some ["out"]) false false
      = Some (true, st) ∧
    file_decisions (rs_log st) = [] ∧
    rs_fs st !! ["out"; "Applications_And_Projects"; "in"; "main.py"] = Some (FileE "m") ∧
    rs_fs st !! ["out"; "Applications_And_Projects"; "in"; ".git"] = Some DirE ∧
    rs_fs st !! ["in"; "main.py"] = None.
Proof.
  pose (m1 := mkdir ["out"; "Applications_And_Projects"] root_project_tree).
  pose (m2 := default m1 (FS.shutil_move m1 ["in"] ["out"; "Applications_And_Projects"; "in"])).
  destruct (proj2 (root_project_relocated default_config root_project_tree 0 ["in"]
                     (Some ["out"]) false false ["in"] ["out"]
                     ltac:(vm_compute; reflexivity) ltac:(vm_compute; reflexivity)) m2)
    as (st & Hrun & Hfs & _ & Hfiles & _ & _ & Hmoved).
  - exists m1. split; vm_compute; reflexivity.
  - destruct (Hmoved eq_refl) as [Hin Hout].
    exists st. split; [exact Hrun|]. split; [exact Hfiles|]. rewrite Hfs.
    split; [|split].
    + apply (Hin ["main.py"] (FileE "m")). vm_compute; reflexivity.
    + apply (Hin [".git"] DirE). vm_compute; reflexivity.
    + apply Hout; [by exists ["main.py"]|]. intros [k Hk]. discriminate Hk.
Defined.


(** ** The resolver for an arbitrary case folding *)

Lemma rfind_dot_None_head c s :
  PyStr.rfind_dot (String c s) = None → c ≠ PyStr.dot ∧ PyStr.rfind_dot s = None.
Proof.
  simpl. destruct (PyStr.rfind_dot s); [done|].
  destruct (decide (c = PyStr.dot)); [done|]. done.
Qed.

Lemma lstrip_dot_nodot s : PyStr.rfind_dot s = None → PyStr.lstrip_dot s = s.
Proof.
  destruct s as [|c s]; [done|]. intros [Hc _]%rfind_dot_None_head.
  simpl. by rewrite decide_False.
Qed.

(** [PyStr.lower] is a case folding. *)
Lemma lower_case_folding : Folding.case_folding PyStr.lower.
Proof.
  split; [done|]. split; [|split].
  - intros s. apply PyStrFacts.lower_empty.
  - intros s. done.
  - induction s as [|c s IH]; [done|]. intros [Hc Hs]%rfind_dot_None_head.
    cbn [PyStr.lower PyStr.rfind_dot]. rewrite (IH Hs).
    rewrite decide_False; [done|]. intros E. apply Hc. by apply PyStrFacts.lower_ascii_dot.
Qed.

(** [Folding.lower_latin1] is a case folding. *)
Lemma lead_byte_not_dot : Folding.lead_byte ≠ PyStr.dot.
Proof. intros E. discriminate E. Qed.

Lemma is_upper_latin1_not_dot d :
  Folding.is_upper_latin1 d = true → ascii_of_nat (nat_of_ascii d + 32) ≠ PyStr.dot.
Proof.
  destruct d as [[] [] [] [] [] [] [] []]; vm_compute; intros H E;
    first [discriminate H|discriminate E].
Qed.

Lemma lower_latin1_no_dot n s :
  String.length s ≤ n →
  PyStr.rfind_dot s = None → PyStr.rfind_dot (Folding.lower_latin1 s) = None.
Proof.
  revert s. induction n as [|n IH]; intros s Hlen Hs.
  { destruct s; [done|]. simpl in Hlen. lia. }
  destruct s as [|c s]; [done|]. apply rfind_dot_None_head in Hs as [Hc Hs].
  simpl in Hlen. cbn [Folding.lower_latin1].
  assert (∀ c' t, c' ≠ PyStr.dot → PyStr.rfind_dot t = None →
                  PyStr.rfind_dot (String c' t) = None) as Hcons.
  { intros c' t Hc' Ht. cbn [PyStr.rfind_dot]. rewrite Ht. by rewrite decide_False. }
  destruct (decide (c = Folding.lead_byte)) as [->|Hl].
  - destruct s as [|d s]; [by apply Hcons|].
    apply rfind_dot_None_head in Hs as Hs'. destruct Hs' as [Hd Hs'].
    simpl in Hlen. destruct (Folding.is_upper_latin1 d) eqn:Eu.
    + apply Hcons; [done|]. apply Hcons; [by apply is_upper_latin1_not_dot|].
      apply IH; [lia|done].
    + apply Hcons; [done|]. apply IH; [simpl; lia|done].
  - apply Hcons; [|apply IH; [lia|done]].
    intros E. apply Hc. by apply PyStrFacts.lower_ascii_dot.
Qed.

Lemma lower_latin1_case_folding : Folding.case_folding Folding.lower_latin1.
Proof.
  split; [done|]. split; [|split].
  - intros [|c s]; [done|]. cbn [Folding.lower_latin1].
    destruct (decide _); [|done]. destruct s as [|d s]; [done|].
    by destruct (Folding.is_upper_latin1 d).
  - intros s. cbn [Folding.lower_latin1].
    rewrite decide_False; [done|]. intros E. by apply lead_byte_not_dot.
  - intros s. by apply (lower_latin1_no_dot (String.length s)).
Qed.

(** The definitions of the program are those of [Folding] at
    [PyStr.lower]. *)
Lemma get_category_for_file_folding cfg filename :
  get_category_for_file cfg filename
    = Folding.get_category_for_file PyStr.lower cfg filename ∧
  spec_category cfg filename = Folding.spec_category PyStr.lower cfg filename.
Proof. done. Qed.

Section Folded.
Variable lower : string → string.
Hypothesis Hfold : Folding.case_folding lower.

Lemma folded_extension_component s :
  PyStr.has_slash s = false →
  Folding.file_extension lower s
    = PyStr.lstrip_dot (lower (PyPath.suffix_of_name s)).
Proof.
  intros H. unfold Folding.file_extension, PyPath.suffix.
  destruct (decide (s = "")) as [->|H1]; [done|].
  destruct (decide (s = ".")) as [->|H2]; [done|].
  rewrite PyPathFacts.parse_component by done. done.
Qed.

Lemma folded_extension_empty : PyStr.lstrip_dot (lower "") = "".
Proof. destruct Hfold as (-> & _). done. Qed.

Lemma folded_extension_spec s :
  PyStr.has_slash s = false →
  PyStr.rfind_dot s ≠ Some 0 →
  Folding.file_extension lower s = default "" (Folding.spec_extension lower s).
Proof.
  intros H H0. rewrite folded_extension_component by done.
  destruct Hfold as (Hnil & Hne & Hdot & Hno).
  unfold PyPath.suffix_of_name, Folding.spec_extension.
  destruct (PyStr.rfind_dot s) as [i|] eqn:E; [|by rewrite Hnil].
  destruct (PyStrFacts.rfind_dot_drop _ _ E) as [Hd Hn].
  pose proof (PyStrFacts.rfind_dot_lt _ _ E) as Hlt.
  destruct i as [|i]; [done|]. simpl (0 <? S i). cbv beta iota.
  destruct (decide (lower (PyStr.drop (S (S i)) s) = "")) as [He|He].
  - apply Hne, (proj1 (PyStrFacts.drop_empty _ _)) in He.
    replace (S i <? String.length s - 1) with false
      by (symmetry; apply Nat.ltb_ge; lia). simpl. by rewrite Hnil.
  - assert (S i < String.length s - 1) as Hlt'.
    { destruct (decide (S i < String.length s - 1)); [done|]. exfalso. apply He.
      rewrite (proj2 (PyStrFacts.drop_empty (S (S i)) s)) by lia. done. }
    apply Nat.ltb_lt in Hlt'. rewrite Hlt'. simpl andb. cbv iota.
    rewrite Hd, Hdot. simpl. apply lstrip_dot_nodot. by apply Hno.
Qed.

Lemma folded_extension_dotfile s :
  PyStr.has_slash s = false → PyStr.rfind_dot s = Some 0 →
  Folding.file_extension lower s = "".
Proof.
  intros H E. rewrite folded_extension_component by done.
  unfold PyPath.suffix_of_name. rewrite E. apply folded_extension_empty.
Qed.
End Folded.

(** C5, as amended: whatever case folding [str.lower] is (ASCII letters
    only, as [PyStr.lower], or all of Unicode), for a file name (one
    path component), when the empty string is not a key of the mapping,
    the resolver returns the default category if the only candidate dot
    is the first character of the name (a dotfile such as [.txt] has no
    extension), and otherwise what the specification says: the category
    mapped to the case-folded substring after the last dot, or the
    default when there is no dot, nothing after it, or no such key. *)
Theorem get_category_for_file_amended (lower : string → string) (cfg : Config)
    (filename : string) :
  Folding.case_folding lower →
  PyStr.has_slash filename = false →
  FILE_CATEGORIES cfg !! "" = None →
  Folding.get_category_for_file lower cfg filename =
    if decide (PyStr.rfind_dot filename = Some 0) then DEFAULT_CATEGORY cfg
    else Folding.spec_category lower cfg filename.
Proof.
  intros Hfold Hs Hk. unfold Folding.get_category_for_file.
  destruct (decide (PyStr.rfind_dot filename = Some 0)) as [E|E].
  - rewrite folded_extension_dotfile by done. by rewrite Hk.
  - rewrite folded_extension_spec by done. unfold Folding.spec_category.
    destruct (Folding.spec_extension lower filename); simpl; [done|]. by rewrite Hk.
Qed.

Lemma get_category_for_file_amended_witness :
  Folding.get_category_for_file Folding.lower_latin1 accent_config "x.É"
    = "Documents/Accents" ∧
  get_category_for_file default_config "REPORT.TXT" = "Documents/Text".
Proof.
  split.
  - rewrite (get_category_for_file_amended Folding.lower_latin1 accent_config "x.É");
      [ vm_compute; reflexivity | exact lower_latin1_case_folding
      | vm_compute; reflexivity | vm_compute; reflexivity ].
  - rewrite (proj1 (get_category_for_file_folding default_config "REPORT.TXT")).
    rewrite (get_category_for_file_amended PyStr.lower default_config "REPORT.TXT");
      [ vm_compute; reflexivity | exact lower_case_folding
      | vm_compute; reflexivity | vm_compute; reflexivity ].
Defined.


(** ** The program with faults *)

Lemma env_exists_answer E m p b : Env.exists_ E m p = inr b → FS.exists_ m p = b.
Proof.
  unfold Env.exists_. destruct (FS.exists_ m p); [by intros [= <-]|].
  destruct (Env.exists_fault E p); [done|by intros [= <-]].
Qed.

Lemma env_exists_quiet E m p :
  Env.exists_fault E p = false → Env.exists_ E m p = inr (FS.exists_ m p).
Proof. intros H. unfold Env.exists_. rewrite H. by destruct (FS.exists_ m p). Qed.

Section EnvUnique.
Variable probe : path → Env.exception + bool.
Variable target : path.

Lemma env_unique_loop_S fuel counter :
  Env.unique_loop probe target (S fuel) counter =
    match probe (numbered target counter) with
    | inl e => inl e
    | inr false => inr (numbered target counter, false)
    | inr true =>
        if MAX_COLLISIONS <? S counter then inr (target, true)
        else Env.unique_loop probe target fuel (S counter)
    end.
Proof. reflexivity. Qed.

(** The loop returns the first numbered name for which the probe
    answers that it is free, when the probe answers for every name
    before it. *)
Lemma env_unique_loop_found fuel counter n :
  counter ≤ n → n ≤ MAX_COLLISIONS → n < counter + fuel →
  probe (numbered target n) = inr false →
  (∀ k, counter ≤ k → k < n → probe (numbered target k) = inr true) →
  Env.unique_loop probe target fuel counter = inr (numbered target n, false).
Proof.
  revert counter. induction fuel as [|fuel IH]; intros counter Hc Hn Hf Hfree Hocc; [lia|].
  rewrite env_unique_loop_S. destruct (decide (counter = n)) as [->|Hne].
  - by rewrite Hfree.
  - rewrite Hocc by lia.
    replace (MAX_COLLISIONS <? S counter) with false
      by (symmetry; apply Nat.ltb_ge; lia).
    apply IH; try lia; [done|]. intros k ??. apply Hocc; lia.
Qed.

Lemma env_unique_loop_exhausted fuel counter :
  counter ≤ MAX_COLLISIONS → MAX_COLLISIONS < counter + fuel →
  (∀ k, counter ≤ k → k ≤ MAX_COLLISIONS → probe (numbered target k) = inr true) →
  Env.unique_loop probe target fuel counter = inr (target, true).
Proof.
  revert counter. induction fuel as [|fuel IH]; intros counter Hc Hf Hocc; [lia|].
  rewrite env_unique_loop_S, Hocc by lia.
  destruct (MAX_COLLISIONS <? S counter) eqn:E; [done|].
  apply Nat.ltb_ge in E. apply IH; try lia. intros k ??. apply Hocc; lia.
Qed.

(** The loop raises what the probe raises at the first name for which
    it does not answer. *)
Lemma env_unique_loop_raises fuel counter n e :
  counter ≤ n → n ≤ MAX_COLLISIONS → n < counter + fuel →
  probe (numbered target n) = inl e →
  (∀ k, counter ≤ k → k < n → probe (numbered target k) = inr true) →
  Env.unique_loop probe target fuel counter = inl e.
Proof.
  revert counter. induction fuel as [|fuel IH]; intros counter Hc Hn Hf Hfree Hocc; [lia|].
  rewrite env_unique_loop_S. destruct (decide (counter = n)) as [->|Hne].
  - by rewrite Hfree.
  - rewrite Hocc by lia.
    replace (MAX_COLLISIONS <? S counter) with false
      by (symmetry; apply Nat.ltb_ge; lia).
    apply IH; try lia; [done|]. intros k ??. apply Hocc; lia.
Qed.

Variable occupied : path → bool.

Lemma env_unique_loop_returns fuel counter r :
  (∀ p b, probe p = inr b → occupied p = b) →
  Env.unique_loop probe target fuel counter = inr r →
  unique_loop occupied target fuel counter = r.
Proof.
  intros Hans. revert counter. induction fuel as [|fuel IH]; intros counter.
  - by intros [= <-].
  - rewrite env_unique_loop_S, unique_loop_S.
    destruct (probe (numbered target counter)) as [e|[]] eqn:Ep; [done| |];
      rewrite (Hans _ _ Ep); cbn [negb].
    + destruct (MAX_COLLISIONS <? S counter); [by intros [= <-]|apply IH].
    + by intros [= <-].
Qed.

Lemma env_unique_loop_quiet fuel counter :
  (∀ p, probe p = inr (occupied p)) →
  Env.unique_loop probe target fuel counter
    = inr (unique_loop occupied target fuel counter).
Proof.
  intros Hans. revert counter. induction fuel as [|fuel IH]; intros counter; [done|].
  rewrite env_unique_loop_S, unique_loop_S, Hans.
  destruct (occupied (numbered target counter)); cbn [negb]; [|done].
  destruct (MAX_COLLISIONS <? S counter); [done|apply IH].
Qed.
End EnvUnique.

Lemma env_generate_unique_filename_returns E m target r :
  Env.generate_unique_filename (Env.exists_ E m) target = inr r →
  generate_unique_filename (FS.exists_ m) target = r.
Proof.
  unfold Env.generate_unique_filename, generate_unique_filename.
  destruct (Env.exists_ E m target) as [e|[]] eqn:Ep; [done| |];
    rewrite (env_exists_answer _ _ _ _ Ep); cbn [negb].
  - apply env_unique_loop_returns. apply env_exists_answer.
  - by intros [= <-].
Qed.

Lemma env_generate_unique_filename_quiet E m target :
  (∀ p, Env.exists_fault E p = false) →
  Env.generate_unique_filename (Env.exists_ E m) target
    = inr (generate_unique_filename (FS.exists_ m) target).
Proof.
  intros Hq. unfold Env.generate_unique_filename, generate_unique_filename.
  rewrite env_exists_quiet by done.
  destruct (FS.exists_ m target); cbn [negb]; [|done].
  apply env_unique_loop_quiet. intros p. by apply env_exists_quiet.
Qed.

(** *** The walk *)

Section EnvWalk.
Context {St : Type}.
Variable fs_of : St → fs.
Variable body : path → list string → list string → St
                → Env.exception * St + St * list string.

Lemma env_os_walk_unfold limit top st :
  Env.os_walk fs_of body limit top st =
    match FS.scandir (fs_of st) top with
    | None => inr st
    | Some (dirs, files) =>
        match limit with
        | 0 => inl (Env.RecursionError, st)
        | S limit' =>
            match body top dirs files st with
            | inl r => inl r
            | inr (st', dirs') =>
                Env.walk_dirs (Env.os_walk fs_of body limit') top dirs' st'
            end
        end
    end.
Proof. by destruct limit. Qed.

Lemma env_walk_dirs_invariant (I : St → Prop)
    (rec : path → St → Env.exception * St + St) top dirs st :
  (∀ p st, I st → match rec p st with inl (_, s) => I s | inr s => I s end) →
  I st →
  match Env.walk_dirs rec top dirs st with inl (_, s) => I s | inr s => I s end.
Proof.
  intros Hrec. revert st. induction dirs as [|d ds IH]; intros st Hst; simpl; [done|].
  specialize (Hrec (top ++ [d]) st Hst).
  destruct (rec (top ++ [d]) st) as [[e s]|s]; [done|]. by apply IH.
Qed.

(** A property that every turn of the loop keeps, whether it raises or
    not, holds of the state in which the walk ends or raises. *)
Lemma env_os_walk_invariant (I : St → Prop) :
  (∀ top dirs files st,
     I st → FS.scandir (fs_of st) top = Some (dirs, files) →
     match body top dirs files st with inl (_, s) => I s | inr (s, _) => I s end) →
  ∀ limit top st, I st →
    match Env.os_walk fs_of body limit top st with
    | inl (_, s) => I s
    | inr s => I s
    end.
Proof.
  intros Hbody. induction limit as [|limit IH]; intros top st Hst;
    rewrite env_os_walk_unfold;
    destruct (FS.scandir (fs_of st) top) as [[dirs files]|] eqn:E; try done.
  specialize (Hbody _ _ _ _ Hst E).
  destruct (body top dirs files st) as [[e s]|[s dirs']]; [done|].
  apply env_walk_dirs_invariant; [|done]. intros p s' Hs'. by apply IH.
Qed.

Variable body0 : path → list string → list string → St → St * list string.

Lemma env_walk_dirs_returns (rec : path → St → Env.exception * St + St)
    (rec0 : path → St → option St) top dirs st st' :
  (∀ p s s', rec p s = inr s' → rec0 p s = Some s') →
  Env.walk_dirs rec top dirs st = inr st' → walk_dirs rec0 top dirs st = Some st'.
Proof.
  intros Hrec. revert st. induction dirs as [|d ds IH]; intros st; simpl.
  - by intros [= <-].
  - destruct (rec (top ++ [d]) st) as [r|s] eqn:E; [done|].
    rewrite (Hrec _ _ _ E). apply IH.
Qed.

(** A walk that ends without an exception is the walk of the program
    without faults. *)
Lemma env_os_walk_returns :
  (∀ top dirs files st r, body top dirs files st = inr r → body0 top dirs files st = r) →
  ∀ limit top st st',
    Env.os_walk fs_of body limit top st = inr st' →
    os_walk fs_of body0 limit top st = Some st'.
Proof.
  intros Hb. induction limit as [|limit IH]; intros top st st';
    rewrite env_os_walk_unfold, os_walk_unfold;
    destruct (FS.scandir (fs_of st) top) as [[dirs files]|]; try done;
    try by intros [= <-].
  destruct (body top dirs files st) as [r|[s dirs']] eqn:E; [done|].
  rewrite (Hb _ _ _ _ _ E). cbn [fst snd].
  apply env_walk_dirs_returns. intros p s1 s2. apply IH.
Qed.

Lemma env_walk_dirs_quiet (rec : path → St → Env.exception * St + St)
    (rec0 : path → St → option St) top dirs st st' :
  (∀ p s s', rec0 p s = Some s' → rec p s = inr s') →
  walk_dirs rec0 top dirs st = Some st' → Env.walk_dirs rec top dirs st = inr st'.
Proof.
  intros Hrec. revert st. induction dirs as [|d ds IH]; intros st; simpl.
  - by intros [= <-].
  - destruct (rec0 (top ++ [d]) st) as [s|] eqn:E; [|done].
    rewrite (Hrec _ _ _ E). apply IH.
Qed.

(** With a body that does not raise and a limit that the walk of the
    program without faults does not exhaust, the two walks agree. *)
Lemma env_os_walk_quiet :
  (∀ top dirs files st, body top dirs files st = inr (body0 top dirs files st)) →
  ∀ limit top st st',
    os_walk fs_of body0 limit top st = Some st' →
    Env.os_walk fs_of body limit top st = inr st'.
Proof.
  intros Hb. induction limit as [|limit IH]; intros top st st';
    rewrite env_os_walk_unfold, os_walk_unfold;
    destruct (FS.scandir (fs_of st) top) as [[dirs files]|]; try done;
    try by intros [= <-].
  rewrite Hb. destruct (body0 top dirs files st) as [s dirs']. cbn [fst snd].
  apply env_walk_dirs_quiet. intros p s1 s2. apply IH.
Qed.
End EnvWalk.

(** A walk whose body does not raise raises [RecursionError] only, and
    then a directory lies [limit] levels below its top. *)
Lemma env_os_walk_raised {St : Type} (m : fs)
    (body0 : path → list string → list string → St → St * list string)
    limit top st e st' :
  Env.os_walk (λ _, m) (λ t d f s, inr (body0 t d f s)) limit top st = inl (e, st') →
  e = Env.RecursionError ∧
  ∃ p, top `prefix_of` p ∧ length p = length top + limit ∧ m !! p = Some DirE.
Proof.
  revert top st. induction limit as [|limit IH]; intros top st;
    rewrite env_os_walk_unfold;
    destruct (FS.scandir m top) as [[dirs files]|] eqn:E; try done.
  - intros [= <- <-]. split; [done|]. exists top. split; [done|]. split; [lia|].
    by apply FSFacts.scandir_Some in E as [? _].
  - destruct (body0 top dirs files st) as [s dirs']. clear E. revert s.
    induction dirs' as [|d ds IHd]; intros s; simpl; [done|].
    destruct (Env.os_walk _ _ limit (top ++ [d]) s) as [[e1 s1]|s1] eqn:E1.
    + intros [= <- <-]. apply IH in E1 as (-> & p & Hp & Hl & Hd). split; [done|].
      exists p. split; [trans (top ++ [d]); [by apply prefix_app_r|done]|].
      split; [|done]. rewrite Hl, length_app. simpl. lia.
    + apply IHd.
Qed.

(** *** The moves *)

Lemma raised_from_refl st : raised_from st st.
Proof.
  repeat split. exists []. rewrite app_nil_r. split; [done|]. split; [done|].
  by intros ?%elem_of_nil.
Qed.

Lemma env_move_project_spec E source destination output_dir dry_run st :
  match Env.move_project E source destination output_dir dry_run st with
  | inr r => move_project source destination output_dir dry_run st = inr r
  | inl (e, st') => raised_from st st'
  end.
Proof.
  unfold Env.move_project, move_project.
  destruct (PyPath.relative_to _ _) as [rel|]; [|apply raised_from_refl].
  destruct dry_run; [done|].
  destruct (Env.mkdir_fault E _).
  { repeat split. eexists. split; [reflexivity|]. split; [done|].
    intros ?%list_elem_of_singleton. done. }
  destruct (FS.mkdir_parents _ _); [|done]. by destruct (FS.shutil_move _ _ _).
Qed.

Lemma env_move_project_quiet E source destination output_dir dry_run st :
  (∀ p, Env.mkdir_fault E p = false) →
  Env.move_project E source destination output_dir dry_run st
    = match move_project source destination output_dir dry_run st with
      | inl e => inl (Env.Builtin e, st)
      | inr r => inr r
      end.
Proof.
  intros Hq. unfold Env.move_project, move_project.
  destruct (PyPath.relative_to _ _) as [rel|]; [|done].
  destruct dry_run; [done|]. rewrite Hq.
  destruct (FS.mkdir_parents _ _); [|done]. by destruct (FS.shutil_move _ _ _).
Qed.

Lemma env_categorize_and_move_file_spec E cfg file_path output_dir dry_run st :
  match Env.categorize_and_move_file E cfg file_path output_dir dry_run st with
  | inr r => categorize_and_move_file cfg file_path output_dir dry_run st = r
  | inl (e, st') => raised_from st st'
  end.
Proof.
  unfold Env.categorize_and_move_file, categorize_and_move_file.
  destruct (Env.generate_unique_filename _ _) as [e|[t ov]] eqn:Eg;
    [apply raised_from_refl|].
  rewrite (env_generate_unique_filename_returns _ _ _ _ Eg).
  destruct dry_run; [done|].
  destruct (Env.mkdir_fault E _).
  { repeat split; try by destruct ov.
    exists ((if ov then [LogCollisions
                           (PyPath.join1
                              (PyPath.div output_dir
                                 (get_category_for_file cfg (PyPath.name file_path)))
                              (PyPath.name file_path))] else [])
            ++ [LogFile file_path t]).
    split; [destruct ov; cbn; by rewrite <- ?app_assoc|].
    split; [by destruct ov|]. intros Hin.
    destruct ov; cbn in Hin; repeat (apply elem_of_cons in Hin as [Hin|Hin]; [done|]);
      by apply elem_of_nil in Hin. }
  cbn [rs_fs log]. destruct (FS.mkdir_parents _ _); [|done].
  by destruct (FS.shutil_move _ _ _).
Qed.

Lemma env_categorize_and_move_file_quiet E cfg file_path output_dir dry_run st :
  (∀ p, Env.exists_fault E p = false) → (∀ p, Env.mkdir_fault E p = false) →
  Env.categorize_and_move_file E cfg file_path output_dir dry_run st
    = inr (categorize_and_move_file cfg file_path output_dir dry_run st).
Proof.
  intros Hx Hm. unfold Env.categorize_and_move_file, categorize_and_move_file.
  rewrite env_generate_unique_filename_quiet by done.
  destruct (generate_unique_filename _ _) as [t ov].
  destruct dry_run; [done|]. rewrite Hm.
  cbn [rs_fs log]. destruct (FS.mkdir_parents _ _); [|done].
  by destruct (FS.shutil_move _ _ _).
Qed.

(** *** The steps of the two loops *)

Lemma env_project_step_spec E output_dir dry_run st project :
  match Env.project_step E output_dir dry_run st project with
  | inr st' => project_step output_dir dry_run st project = inr st'
  | inl (e, st') => raised_from st st'
  end.
Proof.
  unfold Env.project_step, project_step.
  pose proof (env_move_project_spec E project.1 project.2 output_dir dry_run st) as H.
  destruct (Env.move_project _ _ _ _ _ _) as [[e s]|[s ok]]; [done|]. by rewrite H.
Qed.

Lemma env_project_step_quiet E output_dir dry_run st project :
  (∀ p, Env.mkdir_fault E p = false) →
  Env.project_step E output_dir dry_run st project
    = match project_step output_dir dry_run st project with
      | inl e => inl (Env.Builtin e, st)
      | inr r => inr r
      end.
Proof.
  intros Hq. unfold Env.project_step, project_step.
  rewrite env_move_project_quiet by done.
  by destruct (move_project _ _ _ _ _) as [e|[s ok]].
Qed.

Lemma env_move_projects_returns E output_dir dry_run ps st st' :
  Env.move_projects E output_dir dry_run ps st = inr st' →
  move_projects output_dir dry_run ps st = inr st'.
Proof.
  revert st. induction ps as [|pr ps IH]; intros st; simpl; [by intros [= <-]|].
  pose proof (env_project_step_spec E output_dir dry_run st pr) as H.
  destruct (Env.project_step _ _ _ _ _) as [[e s]|s]; [done|]. rewrite H. apply IH.
Qed.

Lemma env_move_projects_quiet E output_dir dry_run ps st st' :
  (∀ p, Env.mkdir_fault E p = false) →
  move_projects output_dir dry_run ps st = inr st' →
  Env.move_projects E output_dir dry_run ps st = inr st'.
Proof.
  intros Hq. revert st. induction ps as [|pr ps IH]; intros st; simpl; [by intros [= <-]|].
  rewrite env_project_step_quiet by done.
  destruct (project_step _ _ _ _) as [e|s]; [done|]. apply IH.
Qed.

Lemma env_move_projects_invariant (I : run_state → Prop) E output_dir dry_run ps st :
  (∀ st pr st', I st → project_step output_dir dry_run st pr = inr st' → I st') →
  (∀ st st', I st → raised_from st st' → I st') →
  I st →
  match Env.move_projects E output_dir dry_run ps st with
  | inl (_, s) => I s
  | inr s => I s
  end.
Proof.
  intros Hstep Hraise. revert st. induction ps as [|pr ps IH]; intros st Hst; simpl; [done|].
  pose proof (env_project_step_spec E output_dir dry_run st pr) as H.
  destruct (Env.project_step _ _ _ _ _) as [[e s]|s]; [by eapply Hraise|].
  apply IH. by eapply Hstep.
Qed.

Lemma env_file_step_spec E cfg output_dir dry_run top st f :
  match Env.file_step E cfg output_dir dry_run top st f with
  | inr st' => file_step cfg output_dir dry_run top st f = st'
  | inl (e, st') => raised_from st st'
  end.
Proof.
  unfold Env.file_step, file_step. destruct (existsb _ _); [done|].
  pose proof (env_categorize_and_move_file_spec E cfg (top ++ [f]) output_dir dry_run st)
    as H.
  destruct (Env.categorize_and_move_file _ _ _ _ _ _) as [[e s]|[s ok]]; [done|].
  by rewrite H.
Qed.

Lemma env_file_step_quiet E cfg output_dir dry_run top st f :
  (∀ p, Env.exists_fault E p = false) → (∀ p, Env.mkdir_fault E p = false) →
  Env.file_step E cfg output_dir dry_run top st f
    = inr (file_step cfg output_dir dry_run top st f).
Proof.
  intros Hx Hm. unfold Env.file_step, file_step. destruct (existsb _ _); [done|].
  rewrite env_categorize_and_move_file_quiet by done.
  by destruct (categorize_and_move_file _ _ _ _ _).
Qed.

Lemma env_file_steps_returns E cfg output_dir dry_run top files st st' :
  Env.file_steps E cfg output_dir dry_run top files st = inr st' →
  fold_left (file_step cfg output_dir dry_run top) files st = st'.
Proof.
  revert st. induction files as [|f files IH]; intros st; simpl; [by intros [= <-]|].
  pose proof (env_file_step_spec E cfg output_dir dry_run top st f) as H.
  destruct (Env.file_step _ _ _ _ _ _ _) as [[e s]|s]; [done|]. rewrite H. apply IH.
Qed.

Lemma env_file_steps_quiet E cfg output_dir dry_run top files st :
  (∀ p, Env.exists_fault E p = false) → (∀ p, Env.mkdir_fault E p = false) →
  Env.file_steps E cfg output_dir dry_run top files st
    = inr (fold_left (file_step cfg output_dir dry_run top) files st).
Proof.
  intros Hx Hm. revert st. induction files as [|f files IH]; intros st; simpl; [done|].
  rewrite env_file_step_quiet by done. apply IH.
Qed.

Lemma env_file_steps_invariant (I : run_state → Prop) E cfg output_dir dry_run top
    files st :
  (∀ st f, I st → I (file_step cfg output_dir dry_run top st f)) →
  (∀ st st', I st → raised_from st st' → I st') →
  I st →
  match Env.file_steps E cfg output_dir dry_run top files st with
  | inl (_, s) => I s
  | inr s => I s
  end.
Proof.
  intros Hstep Hraise. revert st.
  induction files as [|f files IH]; intros st Hst; simpl; [done|].
  pose proof (env_file_step_spec E cfg output_dir dry_run top st f) as H.
  destruct (Env.file_step _ _ _ _ _ _ _) as [[e s]|s]; [eauto|].
  subst s. apply IH. by apply Hstep.
Qed.

Lemma env_relocate_body_returns E cfg output_dir dry_run delete_empty_dirs
    top dirs files st r :
  Env.relocate_body E cfg output_dir dry_run delete_empty_dirs top dirs files st = inr r →
  relocate_body cfg output_dir dry_run delete_empty_dirs top dirs files st = r.
Proof.
  unfold Env.relocate_body, relocate_body.
  destruct (under_processed _ _); [by intros [= <-]|].
  destruct (Env.file_steps _ _ _ _ _ _ _) as [[e s]|s] eqn:Es; [done|].
  intros [= <-]. by rewrite (env_file_steps_returns _ _ _ _ _ _ _ _ Es).
Qed.

Lemma env_relocate_body_quiet E cfg output_dir dry_run delete_empty_dirs
    top dirs files st :
  (∀ p, Env.exists_fault E p = false) → (∀ p, Env.mkdir_fault E p = false) →
  Env.relocate_body E cfg output_dir dry_run delete_empty_dirs top dirs files st
    = inr (relocate_body cfg output_dir dry_run delete_empty_dirs top dirs files st).
Proof.
  intros Hx Hm. unfold Env.relocate_body, relocate_body.
  destruct (under_processed _ _); [done|]. by rewrite env_file_steps_quiet.
Qed.

Lemma env_relocate_files_returns E cfg input_dir output_dir dry_run delete_empty_dirs
    st st' :
  Env.relocate_files E cfg input_dir output_dir dry_run delete_empty_dirs st = inr st' →
  relocate_files cfg (S (Env.recursion_limit E)) input_dir output_dir dry_run
    delete_empty_dirs st = Some st'.
Proof.
  apply env_os_walk_returns. intros top dirs files s r.
  apply env_relocate_body_returns.
Qed.

Lemma env_relocate_files_invariant (I : run_state → Prop) E cfg input_dir output_dir
    dry_run delete_empty_dirs st :
  (∀ p st, I st → I (add_directory p st)) →
  (∀ top st f, I st → I (file_step cfg output_dir dry_run top st f)) →
  (∀ st st', I st → raised_from st st' → I st') →
  I st →
  match Env.relocate_files E cfg input_dir output_dir dry_run delete_empty_dirs st with
  | inl (_, s) => I s
  | inr s => I s
  end.
Proof.
  intros Hadd Hstep Hraise. unfold Env.relocate_files. apply env_os_walk_invariant.
  clear st. intros top dirs files st Hst _. unfold Env.relocate_body.
  destruct (under_processed _ _); [done|].
  assert (I (if delete_empty_dirs then add_directory top st else st)) as Hst1
    by (destruct delete_empty_dirs; auto).
  pose proof (env_file_steps_invariant I E cfg output_dir dry_run top files _
                (Hstep top) Hraise Hst1) as H.
  by destruct (Env.file_steps _ _ _ _ _ _ _) as [[e s]|s].
Qed.

(** *** Discovery and counting *)

Lemma env_identify_projects_returns E cfg m input_dir processed ps :
  Env.identify_projects E cfg m input_dir processed = inr ps →
  identify_projects cfg m (Env.recursion_limit E) input_dir processed = Some ps.
Proof.
  unfold Env.identify_projects, identify_projects.
  destruct (Env.os_walk _ _ _ _ _) as [[e acc]|acc] eqn:Ew.
  - apply env_os_walk_raised in Ew as [-> _]. done.
  - intros [= <-]. revert Ew. apply env_os_walk_returns. by intros ????? [= <-].
Qed.

Lemma env_identify_projects_quiet E cfg m input_dir processed ps :
  identify_projects cfg m (Env.recursion_limit E) input_dir processed = Some ps →
  Env.identify_projects E cfg m input_dir processed = inr ps.
Proof.
  unfold Env.identify_projects, identify_projects. intros H.
  by rewrite (env_os_walk_quiet _ _ (identify_body cfg m processed)
                ltac:(done) _ _ _ _ H).
Qed.

Lemma env_validate_input_paths_inr E m input_dir_str output_dir_str r :
  Env.validate_input_paths E m input_dir_str output_dir_str = inr r
  ↔ validate_input_paths m input_dir_str output_dir_str = inr r.
Proof.
  unfold Env.validate_input_paths, Env.exists_, validate_input_paths.
  destruct (FS.exists_ m input_dir_str); cbn [negb].
  - destruct (negb _); [by split|]. destruct (decide _); [by split|].
    destruct (check_output_not_inside _ _); [by split|].
    split; by intros [= <-].
  - by destruct (Env.exists_fault E input_dir_str).
Qed.


(** ** The unique-name generator with a probe that can raise *)

(** C6, as amended: with a probe that answers or raises,
    [generate_unique_filename] returns the target unchanged when the
    probe answers that it is free; otherwise the name numbered by the
    least [n] between 1 and 10,000 that the probe finds free, when it has
    answered for every name before it; and when it has found all 10,000
    numbered names taken it returns the colliding target itself and logs
    the error.  When the probe raises, for the target or for the first
    numbered name that it does not find taken, the generator raises the
    same exception.  With a probe that always answers the generator is the
    one of the program without faults. *)
Theorem generate_unique_filename_spec (probe : path → Env.exception + bool)
    (target : path) :
  MAX_COLLISIONS = 10000 ∧
  (probe target = inr false →
     Env.generate_unique_filename probe target = inr (target, false)) ∧
  (∀ n, probe target = inr true →
     1 ≤ n → n ≤ MAX_COLLISIONS →
     probe (numbered target n) = inr false →
     (∀ k, 1 ≤ k → k < n → probe (numbered target k) = inr true) →
     Env.generate_unique_filename probe target = inr (numbered target n, false)) ∧
  (probe target = inr true →
     (∀ k, 1 ≤ k → k ≤ MAX_COLLISIONS → probe (numbered target k) = inr true) →
     Env.generate_unique_filename probe target = inr (target, true)) ∧
  (∀ e, probe target = inl e → Env.generate_unique_filename probe target = inl e) ∧
  (∀ n e, probe target = inr true →
     1 ≤ n → n ≤ MAX_COLLISIONS →
     probe (numbered target n) = inl e →
     (∀ k, 1 ≤ k → k < n → probe (numbered target k) = inr true) →
     Env.generate_unique_filename probe target = inl e) ∧
  (∀ occupied, (∀ p, probe p = inr (occupied p)) →
     Env.generate_unique_filename probe target
       = inr (generate_unique_filename occupied target)).
Proof.
  split; [reflexivity|]. unfold Env.generate_unique_filename.
  split; [by intros ->|]. split; [|split; [|split; [|split]]].
  - intros n -> H1 Hn Hfree Hocc. apply env_unique_loop_found; try done. lia.
  - intros -> Hocc.
    apply env_unique_loop_exhausted; [apply MAX_COLLISIONS_pos|lia|done].
  - by intros e ->.
  - intros n e -> H1 Hn Hraise Hocc. apply env_unique_loop_raises with (n := n); try done.
    lia.
  - intros occupied Hans. unfold generate_unique_filename. rewrite Hans.
    destruct (occupied target); cbn [negb]; [|done].
    by apply env_unique_loop_quiet.
Qed.

Lemma generate_unique_filename_spec_witness :
  Env.generate_unique_filename (Env.exists_ (Env.posix 0) collision_tree)
    ["output"; "test.txt"]
    = inr (["output"; "test (2).txt"], false).
Proof.
  apply (proj1 (proj2 (proj2
    (generate_unique_filename_spec (Env.exists_ (Env.posix 0) collision_tree)
       ["output"; "test.txt"]))) 2).
  - vm_compute; reflexivity.
  - lia.
  - apply Nat.leb_le; vm_compute; reflexivity.
  - vm_compute; reflexivity.
  - intros k H1 H2. assert (k = 1) as -> by lia. vm_compute; reflexivity.
Defined.

(** C6 as stated fails when a probe raises: the target is taken, the
    name numbered 1 is free, but it is longer than a file name can be, so
    that [Path.exists] raises [OSError] and the generator raises it in
    turn instead of returning that name. *)
Lemma generate_unique_filename_probe_counterexample :
  let target := ["output"; long_name] in
  FS.exists_ long_name_taken_tree target = true ∧
  FS.exists_ long_name_taken_tree (numbered target 1) = false ∧
  String.length (PyPath.name (numbered target 1)) = 259 ∧
  Env.generate_unique_filename (Env.exists_ (Env.posix 0) long_name_taken_tree) target
    = inl Env.OSError.
Proof. vm_compute. repeat split; reflexivity. Qed.


(** ** The count with a recursion limit *)

(** X23: in a tree, where every entry lies in a directory, the count for
    progress reporting, whenever the call returns, is the number of
    entries strictly below the input directory, files and directories
    alike, each counted once; it is 0 when the input is missing or is not a
    directory.  The call returns when the recursion limit exceeds the
    depth of the tree.  When it does not return, a directory lies as many
    levels below the input as the limit allows, and the call raises
    [RecursionError], which its handler for [OSError] does not
    receive. *)
Theorem count_items_to_process_spec (E : Env.env) (m : fs) (input_dir : path) :
  parent_closed m →
  (depth_bound m < Env.recursion_limit E →
   Env.count_items_to_process E m input_dir
     = inr (length (entries_below m input_dir))) ∧
  (∀ total, Env.count_items_to_process E m input_dir = inr total →
            total = length (entries_below m input_dir)) ∧
  (∀ e, Env.count_items_to_process E m input_dir = inl e →
        e = Env.RecursionError ∧
        ∃ p, input_dir `prefix_of` p ∧
             length p = length input_dir + Env.recursion_limit E ∧
             m !! p = Some DirE).
Proof.
  intros Hc.
  assert (∀ total, Env.count_items_to_process E m input_dir = inr total →
                   total = length (entries_below m input_dir)) as Hret.
  { intros total. unfold Env.count_items_to_process.
    destruct (Env.os_walk _ _ _ _ _) as [[e acc]|n] eqn:Ew.
    { apply env_os_walk_raised in Ew as [-> _]. done. }
    intros [= <-].
    apply (env_os_walk_returns _ _ count_body) in Ew; [|by intros ????? [= <-]].
    apply (count_walk m Hc) in Ew as (l & -> & Hnd & Hl). cbn.
    apply Permutation_length, NoDup_Permutation; [done| |].
    - apply NoDup_filter, NoDup_fst_map_to_list.
    - intros q. unfold entries_below.
      rewrite Hl, list_elem_of_filter, list_elem_of_fmap. split.
      + intros ([e He] & Hp & Hne). split; [done|]. exists (q, e). split; [done|].
        by apply elem_of_map_to_list.
      + intros ([Hp Hne] & [q' e] & -> & He%elem_of_map_to_list). eauto. }
  split; [|split; [exact Hret|]].
  - intros Hf.
    destruct (os_walk_total (λ _ : nat, m) count_body (λ _, True) (depth_bound m))
      with (fuel := Env.recursion_limit E) (top := input_dir) (st := 0)
      as (n & Hn & _); eauto.
    { intros _ p _ H. by eapply depth_bound_spec. }
    { lia. }
    assert (Env.count_items_to_process E m input_dir = inr n) as Hrun.
    { unfold Env.count_items_to_process.
      by rewrite (env_os_walk_quiet _ _ count_body ltac:(done) _ _ _ _ Hn). }
    by rewrite Hrun, (Hret _ Hrun).
  - intros e. unfold Env.count_items_to_process.
    destruct (Env.os_walk _ _ _ _ _) as [[e' acc]|n] eqn:Ew; [|done].
    apply env_os_walk_raised in Ew as [-> Hp]. by intros [= <-].
Qed.

Lemma count_items_to_process_spec_witness :
  Env.count_items_to_process (Env.posix 5) basic_operation_tree test_input = inr 8.
Proof.
  rewrite (proj1 (count_items_to_process_spec (Env.posix 5) basic_operation_tree
                    test_input ltac:(apply parent_closed_check; vm_compute; reflexivity))).
  - vm_compute; reflexivity.
  - vm_compute. lia.
Defined.


(** ** The result of a run with faults *)

Lemma env_count_items_returns E m input_dir :
  depth_bound m < Env.recursion_limit E →
  ∃ total, Env.count_items_to_process E m input_dir = inr total.
Proof.
  intros Hf.
  destruct (os_walk_total (λ _ : nat, m) count_body (λ _, True) (depth_bound m))
    with (fuel := Env.recursion_limit E) (top := input_dir) (st := 0)
    as (n & Hn & _); eauto.
  { intros _ p _ H. by eapply depth_bound_spec. }
  { lia. }
  exists n. unfold Env.count_items_to_process.
  by rewrite (env_os_walk_quiet _ _ count_body ltac:(done) _ _ _ _ Hn).
Qed.

(** A run of the main [try] that ends without an exception is the run of
    the program without faults. *)
Lemma env_phases_returns E cfg m input_dir_str output_dir_str dry_run delete_empty_dirs
    input_dir output_dir st :
  validate_input_paths m input_dir_str output_dir_str = inr (input_dir, output_dir) →
  Env.phases E cfg input_dir output_dir dry_run delete_empty_dirs (initial_state m)
    = inr st →
  sort_files cfg (S (Env.recursion_limit E)) m input_dir_str output_dir_str dry_run
    delete_empty_dirs = Some (bool_decide (errors (rs_progress st) = 0), st).
Proof.
  intros Hv. unfold Env.phases, sort_files. rewrite Hv.
  cbn [rs_fs log initial_state processed_projects].
  destruct (Env.identify_projects _ _ _ _ _) as [e|ps] eqn:Ei; [done|].
  apply env_identify_projects_returns in Ei.
  apply (identify_projects_fuel_mono _ _ _ (S (Env.recursion_limit E))) in Ei; [|lia].
  rewrite Ei.
  destruct (Env.move_projects _ _ _ _ _) as [[e s]|st1] eqn:E1; [done|].
  rewrite (env_move_projects_returns _ _ _ _ _ _ E1).
  destruct (Env.relocate_files _ _ _ _ _ _ _) as [[e s]|st2] eqn:E2; [done|].
  rewrite (env_relocate_files_returns _ _ _ _ _ _ _ _ E2).
  by intros [= <-].
Qed.

(** The program without faults is the run of the main [try] in an
    environment without faults whose limit it does not exhaust. *)
Lemma env_phases_quiet E cfg m input_dir_str output_dir_str dry_run delete_empty_dirs
    input_dir output_dir b st :
  (∀ p, Env.exists_fault E p = false) → (∀ p, Env.mkdir_fault E p = false) →
  validate_input_paths m input_dir_str output_dir_str = inr (input_dir, output_dir) →
  sort_files cfg (Env.recursion_limit E) m input_dir_str output_dir_str dry_run
    delete_empty_dirs = Some (b, st) →
  Env.phases E cfg input_dir output_dir dry_run delete_empty_dirs (initial_state m)
    = inr st.
Proof.
  intros Hx Hm Hv Hrun.
  destruct (sort_files_phases _ _ _ _ _ _ _ _ _ _ Hv Hrun)
    as (ps & st1 & st2 & Hid & H1 & H2 & [= -> ->]).
  unfold Env.phases. cbn [rs_fs log initial_state processed_projects].
  rewrite (env_identify_projects_quiet _ _ _ _ _ _ Hid).
  rewrite (env_move_projects_quiet _ _ _ _ _ _ Hm H1).
  unfold Env.relocate_files. unfold relocate_files in H2.
  apply (os_walk_fuel_mono _ _ _ (S (Env.recursion_limit E))) in H2; [|lia].
  rewrite (env_os_walk_quiet rs_fs
             (Env.relocate_body E cfg output_dir dry_run delete_empty_dirs)
             (relocate_body cfg output_dir dry_run delete_empty_dirs)
             (λ t d f s, env_relocate_body_quiet E cfg output_dir dry_run
                           delete_empty_dirs t d f s Hx Hm) _ _ _ _ H2).
  done.
Qed.

(** A property that the steps keep, whether they raise or not, holds of
    the state in which the main [try] raises, and of the state that
    [finish] receives. *)
Lemma env_phases_invariant (I : run_state → Prop) E cfg input_dir output_dir
    dry_run delete_empty_dirs st :
  I st →
  (∀ n st, I st → I (log (LogPhase n) st)) →
  (∀ st pr st', I st → project_step output_dir dry_run st pr = inr st' → I st') →
  (∀ p st, I st → I (add_directory p st)) →
  (∀ top st f, I st → I (file_step cfg output_dir dry_run top st f)) →
  (∀ st st', I st → raised_from st st' → I st') →
  match Env.phases E cfg input_dir output_dir dry_run delete_empty_dirs st with
  | inl (_, s) => I s
  | inr s => ∃ s0, I s0 ∧ s = finish input_dir dry_run delete_empty_dirs s0
  end.
Proof.
  intros H0 Hlog Hproj Hadd Hfile Hraise. unfold Env.phases.
  destruct (Env.identify_projects _ _ _ _ _) as [e|ps]; [by apply Hlog|].
  pose proof (env_move_projects_invariant I E output_dir dry_run ps
                (log (LogPhase 1) st) Hproj Hraise (Hlog 1 st H0)) as H1.
  destruct (Env.move_projects _ _ _ _ _) as [[e s]|st1]; [done|].
  pose proof (env_relocate_files_invariant I E cfg input_dir output_dir dry_run
                delete_empty_dirs (log (LogPhase 2) st1) Hadd Hfile Hraise
                (Hlog 2 st1 H1)) as H2.
  destruct (Env.relocate_files _ _ _ _ _ _ _) as [[e s]|st2]; [done|]. eauto.
Qed.

Lemma counted_raised_from st st' : counted st → raised_from st st' → counted st'.
Proof.
  intros [H1 H2] (_ & Hp & _ & _ & lg & Hl & Hf & _). unfold counted.
  rewrite Hp, Hl, failures_app, Hf. lia.
Qed.

(** The counters agree with the log in the state in which the main
    [try] raises. *)
Lemma env_phases_counted E cfg m input_dir output_dir dry_run delete_empty_dirs e st :
  Env.phases E cfg input_dir output_dir dry_run delete_empty_dirs (initial_state m)
    = inl (e, st) →
  counted st ∧ LogCompleted ∉ rs_log st.
Proof.
  intros Hrun.
  pose proof (env_phases_invariant (λ st, counted st ∧ LogCompleted ∉ rs_log st)
                E cfg input_dir output_dir dry_run delete_empty_dirs (initial_state m))
    as H.
  rewrite Hrun in H. apply H; clear H Hrun.
  - split; [by split|]. by intros ?%elem_of_nil.
  - intros n st0 [[H1 H2] H3]. split.
    + split; simpl; [|done]. rewrite failures_app. simpl. unfold failures in *.
      simpl. lia.
    + cbn. intros [?|?%list_elem_of_singleton]%elem_of_app; done.
  - intros st0 pr st' [Hc Hn] Hstep.
    pose proof (project_step_spec output_dir dry_run st0 pr) as H. rewrite Hstep in H.
    destruct H as (rel & ok & _ & Hl & Hp & _). split.
    + eapply count_project_counted; [done|exact Hl| |exact Hp].
      apply project_events_read.
    + rewrite Hl. intros [?|Hin]%elem_of_app; [done|].
      destruct ok; cbn in Hin; repeat (apply elem_of_cons in Hin as [Hin|Hin]; [done|]);
        by apply elem_of_nil in Hin.
  - by intros p st0 [[H1 H2] H3].
  - intros top st0 f [Hc Hn].
    destruct (file_step_spec cfg output_dir dry_run top st0 f)
      as [->|(overflow & ok & Hl & Hp & _)]; [done|]. split.
    + eapply count_file_counted; [done|exact Hl| |exact Hp]. apply file_events_read.
    + rewrite Hl. intros [?|Hin]%elem_of_app; [done|].
      destruct overflow, ok; cbn in Hin;
        repeat (apply elem_of_cons in Hin as [Hin|Hin]; [done|]);
        by apply elem_of_nil in Hin.
  - intros st0 st' [Hc Hn] Hr. split; [by eapply counted_raised_from|].
    destruct Hr as (_ & _ & _ & _ & lg & -> & _ & Hlg).
    intros [?|?]%elem_of_app; done.
Qed.


(** In an environment without faults whose limit is large enough, a
    validated call returns after the closing report. *)
Lemma env_sort_files_completes cfg m input_dir_str output_dir_str dry_run
    delete_empty_dirs input_dir output_dir :
  validate_input_paths m input_dir_str output_dir_str = inr (input_dir, output_dir) →
  ∃ limit0, ∀ E,
    (∀ p, Env.exists_fault E p = false) → (∀ p, Env.mkdir_fault E p = false) →
    limit0 ≤ Env.recursion_limit E →
    ∃ b st,
      Env.sort_files E cfg m input_dir_str output_dir_str dry_run delete_empty_dirs
        = Env.Returned b st ∧
      completed st ∧ (b = true ↔ errors (rs_progress st) = 0).
Proof.
  intros Hv.
  destruct (sort_files_total cfg m input_dir_str output_dir_str dry_run
              delete_empty_dirs) as [fuel0 Htotal].
  exists (max fuel0 (S (depth_bound m))). intros E Hx Hm Hlimit.
  destruct (Htotal (Env.recursion_limit E)) as [[b st] Hrun]; [lia|].
  exists b, st.
  destruct (sort_files_log _ _ _ _ _ _ _ _ _ _ _ Hv Hrun) as (_ & _ & Hl3).
  split; [|split; [done|]].
  - unfold Env.sort_files.
    rewrite (proj2 (env_validate_input_paths_inr E _ _ _ _) Hv).
    destruct (env_count_items_returns E m input_dir) as [total ->]; [lia|].
    rewrite (env_phases_quiet _ _ _ _ _ _ _ _ _ _ _ Hx Hm Hv Hrun).
    by rewrite (sort_files_returned _ _ _ _ _ _ _ _ _ _ _ Hv Hrun).
  - rewrite (sort_files_returned _ _ _ _ _ _ _ _ _ _ _ Hv Hrun).
    apply bool_decide_eq_true.
Qed.

Lemma sort_files_phase3 cfg fuel m input_dir_str output_dir_str dry_run
    input_dir output_dir b st :
  validate_input_paths m input_dir_str output_dir_str = inr (input_dir, output_dir) →
  sort_files cfg fuel m input_dir_str output_dir_str dry_run true = Some (b, st) →
  LogPhase 3 ∈ rs_log st.
Proof.
  intros Hv Hrun.
  destruct (sort_files_phases _ _ _ _ _ _ _ _ _ _ Hv Hrun)
    as (ps & st1 & st2 & _ & _ & _ & [= -> ->]).
  destruct (finish_spec input_dir dry_run true st2) as (_ & _ & _ & (removed & ->) & _).
  apply elem_of_app. right. apply elem_of_app. left. by left.
Qed.

(** C9, as amended.  A move that fails inside its handler is counted and
    the loop goes on: a turn of the loop of phase 1 or of phase 2 whose
    calls before the [try] return, returns; it counts the item as
    processed; and it counts an error, logs the failure and claims
    nothing exactly when [mkdir] or [shutil.move] fails on the tree, while
    a move that succeeds counts no error and leaves the tree it produced.
    A turn that raises leaves the counters as they were.  A call of
    [sort_files] propagates an exception only from the validation or from
    the initial count; otherwise it returns, with counters that agree with
    the log, in one of three ways: the paths are rejected (false); the
    main [try] raises (false, whatever the error counter, the closing
    report is not logged and what was left to do is not done); or the run
    reaches its end, with every discovered project attempted, every phase
    logged, and the result true exactly when the error counter is zero.
    In an environment without faults whose limit is large enough, the run
    reaches its end. *)
Theorem sort_files_result (E : Env.env) cfg m input_dir_str output_dir_str
    dry_run delete_empty_dirs :
  (∀ output_dir st project rel,
     PyPath.relative_to project.2 (PyPath.parent project.1) = Some rel →
     Env.mkdir_fault E (PyPath.parent (output_dir ++ rel)) = false →
     ∃ st',
       Env.project_step E output_dir false st project = inr st' ∧
       processed_items (rs_progress st') = S (processed_items (rs_progress st)) ∧
       match mkdir_and_move (rs_fs st) (PyPath.parent (output_dir ++ rel))
               project.1 (output_dir ++ rel) with
       | Some m2 =>
           rs_fs st' = m2 ∧
           errors (rs_progress st') = errors (rs_progress st) ∧
           projects_moved (rs_progress st') = S (projects_moved (rs_progress st)) ∧
           processed_projects st' = set_add project.1 (processed_projects st) ∧
           rs_log st' = rs_log st ++ project_events project.1 (output_dir ++ rel) true
       | None =>
           errors (rs_progress st') = S (errors (rs_progress st)) ∧
           projects_moved (rs_progress st') = projects_moved (rs_progress st) ∧
           processed_projects st' = processed_projects st ∧
           rs_log st' = rs_log st ++ project_events project.1 (output_dir ++ rel) false
       end) ∧
  (∀ output_dir top st f target overflow,
     existsb (λ processed, bool_decide (processed ∈ PyPath.parents (top ++ [f])))
       (processed_projects st) = false →
     Env.generate_unique_filename (Env.exists_ E (rs_fs st))
       (requested_target cfg output_dir (top ++ [f])) = inr (target, overflow) →
     Env.mkdir_fault E (PyPath.div output_dir (get_category_for_file cfg f)) = false →
     ∃ st',
       Env.file_step E cfg output_dir false top st f = inr st' ∧
       processed_items (rs_progress st') = S (processed_items (rs_progress st)) ∧
       processed_projects st' = processed_projects st ∧
       match mkdir_and_move (rs_fs st)
               (PyPath.div output_dir (get_category_for_file cfg f))
               (top ++ [f]) target with
       | Some m2 =>
           rs_fs st' = m2 ∧
           errors (rs_progress st') = errors (rs_progress st) ∧
           files_moved (rs_progress st') = S (files_moved (rs_progress st)) ∧
           rs_log st' = rs_log st ++
             file_events (requested_target cfg output_dir (top ++ [f])) target
               (top ++ [f]) overflow true
       | None =>
           errors (rs_progress st') = S (errors (rs_progress st)) ∧
           files_moved (rs_progress st') = files_moved (rs_progress st) ∧
           rs_log st' = rs_log st ++
             file_events (requested_target cfg output_dir (top ++ [f])) target
               (top ++ [f]) overflow false
       end) ∧
  (∀ output_dir st project e st',
     Env.project_step E output_dir dry_run st project = inl (e, st') →
     raised_from st st') ∧
  (∀ output_dir top st f e st',
     Env.file_step E cfg output_dir dry_run top st f = inl (e, st') →
     raised_from st st') ∧
  match Env.sort_files E cfg m input_dir_str output_dir_str dry_run delete_empty_dirs with
  | Env.Raised e =>
      Env.validate_input_paths E m input_dir_str output_dir_str = inl e ∨
      ∃ input_dir output_dir,
        Env.validate_input_paths E m input_dir_str output_dir_str
          = inr (input_dir, output_dir) ∧
        Env.count_items_to_process E m input_dir = inl e
  | Env.Returned b st =>
      counted st ∧
      (((∃ e, Env.validate_input_paths E m input_dir_str output_dir_str
                = inl (Env.Builtin e)) ∧
        b = false ∧ st = log LogValidationFailed (initial_state m)) ∨
       ∃ input_dir output_dir,
         validate_input_paths m input_dir_str output_dir_str
           = inr (input_dir, output_dir) ∧
         ((∃ e st',
             Env.phases E cfg input_dir output_dir dry_run delete_empty_dirs
               (initial_state m) = inl (e, st') ∧
             b = false ∧ st = log LogUnexpected st' ∧
             LogCompleted ∉ rs_log st) ∨
          (Env.phases E cfg input_dir output_dir dry_run delete_empty_dirs
             (initial_state m) = inr st ∧
           completed st ∧
           (b = true ↔ errors (rs_progress st) = 0) ∧
           LogPhase 1 ∈ rs_log st ∧ LogPhase 2 ∈ rs_log st ∧
           (delete_empty_dirs = true → LogPhase 3 ∈ rs_log st) ∧
           sort_files cfg (S (Env.recursion_limit E)) m input_dir_str output_dir_str
             dry_run delete_empty_dirs = Some (b, st) ∧
           ∃ ps, Env.identify_projects E cfg m input_dir [] = inr ps ∧
                 project_decisions (rs_log st) = recorded_targets output_dir ps)))
  end ∧
  (∀ input_dir output_dir,
     validate_input_paths m input_dir_str output_dir_str = inr (input_dir, output_dir) →
     ∃ limit0, ∀ E',
       (∀ p, Env.exists_fault E' p = false) → (∀ p, Env.mkdir_fault E' p = false) →
       limit0 ≤ Env.recursion_limit E' →
       ∃ b st,
         Env.sort_files E' cfg m input_dir_str output_dir_str dry_run delete_empty_dirs
           = Env.Returned b st ∧
         completed st ∧ (b = true ↔ errors (rs_progress st) = 0)).
Proof.
  split; [|split; [|split; [|split; [|split]]]].
  - intros output_dir st project rel Hrel Hfault.
    unfold Env.project_step, Env.move_project, mkdir_and_move.
    rewrite Hrel, Hfault. cbn [rs_fs log].
    destruct (FS.mkdir_parents _ _) as [m1|];
      [destruct (FS.shutil_move _ _ _) as [m2|]|]; eexists; (split; [reflexivity|]);
      cbn; rewrite <- ?app_assoc; done.
  - intros output_dir top st f target overflow Hclaimed Hgen Hfault.
    unfold Env.file_step, Env.categorize_and_move_file, mkdir_and_move.
    rewrite Hclaimed. unfold requested_target in Hgen.
    rewrite PyPathFacts.name_snoc in *. rewrite Hgen, Hfault.
    unfold requested_target, file_events. rewrite PyPathFacts.name_snoc.
    destruct overflow; cbn [rs_fs log];
      (destruct (FS.mkdir_parents _ _) as [m1|];
       [destruct (FS.shutil_move _ _ _) as [m2|]|]); eexists; (split; [reflexivity|]);
      cbn; rewrite <- ?app_assoc; done.
  - intros output_dir st project e st' Hstep.
    pose proof (env_project_step_spec E output_dir dry_run st project) as H.
    by rewrite Hstep in H.
  - intros output_dir top st f e st' Hstep.
    pose proof (env_file_step_spec E cfg output_dir dry_run top st f) as H.
    by rewrite Hstep in H.
  - unfold Env.sort_files.
    destruct (Env.validate_input_paths E m input_dir_str output_dir_str)
      as [e|[input_dir output_dir]] eqn:Ev.
    { destruct e as [e| |]; [|by left|by left].
      split; [by split|]. left. eauto. }
    pose proof (proj1 (env_validate_input_paths_inr _ _ _ _ _) Ev) as Hv.
    destruct (Env.count_items_to_process E m input_dir) as [e|total] eqn:Ec.
    { right. eauto. }
    destruct (Env.phases _ _ _ _ _ _ _) as [[e s]|s] eqn:Ep.
    + destruct (env_phases_counted _ _ _ _ _ _ _ _ _ Ep) as [[Hc1 Hc2] Hn]. split.
      * unfold counted, log. cbn [rs_log rs_progress]. rewrite failures_app.
        change (failures [LogUnexpected]) with 0. lia.
      * right. exists input_dir, output_dir. split; [done|]. left. exists e, s.
        split; [done|]. split; [done|]. split; [done|]. cbn.
        intros [?|?%list_elem_of_singleton]%elem_of_app; done.
    + pose proof (env_phases_returns _ _ _ _ _ _ _ _ _ _ Hv Ep) as Hold.
      split; [by eapply sort_files_counted|].
      right. exists input_dir, output_dir. split; [done|]. right.
      destruct (sort_files_log _ _ _ _ _ _ _ _ _ _ _ Hv Hold) as (Hl1 & Hl2 & Hl3).
      split; [done|]. split; [done|]. split; [apply bool_decide_eq_true|].
      split; [done|]. split; [done|]. split.
      { intros ->. by eapply sort_files_phase3. }
      split; [done|].
      destruct (sort_files_project_decisions _ _ _ _ _ _ _ _ _ _ _ Hv Hold)
        as (ps & Hid & Hdec).
      unfold Env.phases in Ep. cbn [rs_fs log initial_state processed_projects] in Ep.
      destruct (Env.identify_projects E cfg m input_dir []) as [e|ps'] eqn:Ei; [done|].
      exists ps'. split; [done|].
      apply env_identify_projects_returns in Ei.
      apply (identify_projects_fuel_mono _ _ _ (S (Env.recursion_limit E))) in Ei;
        [|lia].
      congruence.
  - intros input_dir output_dir Hv. by eapply env_sort_files_completes.
Qed.


Lemma sort_files_result_witness :
  (∃ st,
     Env.sort_files (Env.posix 10) default_config stuck_project_tree ["in"]
       (Some ["out"]) false false = Env.Returned false st ∧
     counted st ∧ completed st ∧ errors (rs_progress st) = 1) ∧
  (∃ st',
     Env.project_step (Env.posix 10) ["out"] false
       (log (LogPhase 1) (initial_state stuck_project_tree))
       (["in"; "proj"], ["in"; "Applications_And_Projects"; "proj"]) = inr st' ∧
     errors (rs_progress st') = 1 ∧ processed_projects st' = []).
Proof.
  pose proof (sort_files_result (Env.posix 10) default_config stuck_project_tree ["in"]
                (Some ["out"]) false false) as (HP & _ & _ & _ & HR & _).
  split.
  - assert (Env.result (Env.sort_files (Env.posix 10) default_config stuck_project_tree
                          ["in"] (Some ["out"]) false false) = Some false) as Hres
      by (vm_compute; reflexivity).
    assert ((λ st, (errors (rs_progress st), List.last (rs_log st) LogUnexpected))
              <$> Env.final (Env.sort_files (Env.posix 10) default_config
                               stuck_project_tree ["in"] (Some ["out"]) false false)
            = Some (1, LogCompleted)) as Hend by (vm_compute; reflexivity).
    revert HR Hres Hend.
    destruct (Env.sort_files (Env.posix 10) default_config stuck_project_tree ["in"]
                (Some ["out"]) false false) as [e|b st]; [discriminate|].
    intros [Hc _] [= ->] [= He Hl].
    exists st. split; [reflexivity|]. split; [exact Hc|]. split; [exact Hl|exact He].
  - destruct (HP ["out"] (log (LogPhase 1) (initial_state stuck_project_tree))
                (["in"; "proj"], ["in"; "Applications_And_Projects"; "proj"])
                ["Applications_And_Projects"; "proj"]) as (st' & Hstep & _ & Hcase).
    + reflexivity.
    + reflexivity.
    + destruct (mkdir_and_move _ _ _ _) as [m2|] eqn:Hn;
        [vm_compute in Hn; discriminate Hn|].
      destruct Hcase as (He & _ & Hp & _).
      exists st'. split; [exact Hstep|]. split; [exact He|exact Hp].
Defined.

(** C9 as stated fails when an exception escapes the handler of a move.
    Two files have the same name of 255 bytes.  The first is moved; for
    the second the unique-name generator probes a name of 259 bytes,
    [Path.exists] raises [OSError], and the handler of the main [try]
    returns false: no error has been counted, the second file is left
    where it was and the closing report is not logged.  And in a tree
    deeper than the interpreter allows, the initial count raises
    [RecursionError] outside every handler, and the call of [sort_files]
    propagates it. *)
Lemma sort_files_result_counterexample :
  let run := Env.sort_files (Env.posix 10) default_config long_names_tree ["input"]
               (Some ["output"]) false false in
  (Env.result run = Some false ∧
   (λ st, errors (rs_progress st)) <$> Env.final run = Some 0 ∧
   (λ st, List.last (rs_log st) LogCompleted) <$> Env.final run = Some LogUnexpected ∧
   (λ st, file_decisions (rs_log st)) <$> Env.final run
     = Some [(["input"; long_name], ["output"; "Documents"; "Text"; long_name])] ∧
   (λ st, rs_fs st !! ["input"; "sub"; long_name]) <$> Env.final run
     = Some (Some (FileE "2"))) ∧
  Env.sort_files (Env.posix 3) default_config deep_tree ["input"] (Some ["output"])
    false false = Env.Raised Env.RecursionError.
Proof. repeat split; vm_compute; reflexivity. Qed.


(** ** The file decisions of a real run *)





Section RealRun.
Variable cfg : Config.
Variable m : fs.
Variables input_dir output_dir : path.
Hypothesis Hio : ¬ input_dir `prefix_of` output_dir.
Hypothesis Hoi : ¬ output_dir `prefix_of` input_dir.





Hypothesis Hrel : relative_categories cfg.
Hypothesis Hnamed : well_named m.
Hypothesis Hclosed : parent_closed m.
Variable P : list path.
Variable delete_empty_dirs : bool.
Hypothesis HP : ∀ c, c ∈ P → m !! c = Some DirE.









End RealRun.


(** ** Dry run and real run *)





Section Kept.
Variable cfg : Config.
Variable m : fs.
Variables input_dir output_dir : path.
Hypothesis Hio : ¬ input_dir `prefix_of` output_dir.
Hypothesis Hoi : ¬ output_dir `prefix_of` input_dir.





End Kept.








(** ** The configuration tests of the suite *)

Example test_validate_config_schema_valid :
  validate_config_schema mock_config_data = inr [].
Proof. vm_compute; reflexivity. Qed.

Example test_validate_config_schema_missing_keys :
  validate_config_schema (JObject [("FILE_CATEGORIES", JObject [])])
    = inr ["Missing required configuration key: DEFAULT_CATEGORY";
           "Missing required configuration key: PROJECT_FILE_MARKERS";
           "Missing required configuration key: PROJECT_DIR_MARKERS";
           "Missing required configuration key: APPLICATION_EXECUTABLE_EXTENSIONS";
           "Missing required configuration key: SPECIAL_APP_DIRS_AS_FILES"].
Proof. vm_compute; reflexivity. Qed.

(** The mocked file is found and cannot be parsed. *)
Example test_load_config_invalid_json :
  load_config [Unreadable; NotAFile; NotAFile] = (false, fallback_globals).
Proof. reflexivity. Qed.

Example test_mock_config_loaded :
  to_config (load_config [Parsed mock_config_data]).2 = Some test_config.
Proof. vm_compute; reflexivity. Qed.
